(** * VmObjectPaged: a shallow embedding of kernel/vm/vm_object_paged.cpp

    The paged VM object keeps a sparse list of physical pages, a byte size and
    the list of regions that map it.  Every member function is embedded as a
    function on an explicit [kernel] state (the object, the physical page
    allocator, the kernel view of physical memory and two logs of the calls
    made to the mapping regions and to the architectural cache primitives).

    Conventions.
    - [uint64_t] and [size_t] (LP64) values are [Z] with the wrap-around
      written out by [u64].
    - [status_t] is the enumeration [status]; every error code is negative.
    - A pointer to an output counter ([uint64_t* committed], [size_t*
      bytes_copied]) is an [option Z]: [None] is [nullptr], [Some v] is a
      cell that currently holds [v].
    - [ASSERT] and [panic] stop the kernel ([Panic]).  [DEBUG_ASSERT] stops
      it only in a build that implements debug assertions, which is the
      platform's [DEBUG_ASSERT_IMPLEMENTED].  The debug assertions that can
      fail are embedded where they stand: the one on a pointer of the wrong
      address space in Read and Write, the one on the count of pages in
      CommitRangeContiguous, the one on the status of AddPage in its loop
      and the one on the status of Resize in Create.  The others are left
      out: they hold whenever they are reached (the magic number, the held
      lock, [end > offset] after the trim, the status of AddPage at an offset
      that was just found empty, the emptied batch, the length of the batch,
      the counter against the count), or they check that a pointer is not
      null (the page handed to AddPage, the kernel address of the frame in
      ZeroPage), where pages and addresses are integers here and none of
      them stands for the null pointer.
    - Loops run on fuel computed from their bounds; [Diverge] is the outcome
      of a loop that would not stop within it. *)

From stdpp Require Import gmap list sorting.
From Stdlib Require Import ZArith Lia.

Open Scope Z_scope.

(** ** Status codes, page states, cache operations *)

Inductive status : Type :=
  | NO_ERROR
  | ERR_NO_MEMORY
  | ERR_INVALID_ARGS
  | ERR_OUT_OF_RANGE
  | ERR_BUFFER_TOO_SMALL
  | ERR_ALREADY_EXISTS
  | ERR_NOT_FOUND
  | ERR_FAULT.

Global Instance status_eq_dec : EqDecision status.
Proof. solve_decision. Defined.

(** [err < 0] on a [status_t]. *)
Definition status_lt0 (s : status) : bool :=
  match s with NO_ERROR => false | _ => true end.

Inductive vm_page_state : Type :=
  | VM_PAGE_STATE_FREE
  | VM_PAGE_STATE_WIRED
  | VM_PAGE_STATE_OBJECT.

Global Instance vm_page_state_eq_dec : EqDecision vm_page_state.
Proof. solve_decision. Defined.

Inductive CacheOpType : Type :=
  | Invalidate
  | Clean
  | CleanInvalidate
  | Sync.

Global Instance CacheOpType_eq_dec : EqDecision CacheOpType.
Proof. solve_decision. Defined.

(** ** The platform

    What the file takes from headers that describe the machine: the page
    size, the largest object size, the two address conversions, the address
    space predicates and the user-copy primitives.  A [vm_page_t*] is the
    integer that names the page. *)

Class Platform : Type := {
  PAGE_SIZE_SHIFT : Z;
  MAX_SIZE : Z;
  vm_page_to_paddr : Z → Z;
  paddr_to_kvaddr : Z → Z;
  is_kernel_address : Z → bool;
  is_user_address : Z → bool;
  (** user memory and the user-copy collaborator *)
  user_mem : Type;
  copy_array_to_user : Z → list Z → user_mem → status * user_mem;
  copy_array_from_user : Z → Z → user_mem → status * list Z;
  copy_to_user : Z → Z → user_mem → status * user_mem;
  (** [sizeof(paddr_t)] *)
  sizeof_paddr : Z;
  (** whether the build implements [DEBUG_ASSERT] (a debug build) *)
  DEBUG_ASSERT_IMPLEMENTED : bool;
}.

Definition u64_modulus : Z := 2 ^ 64.

(** Wrap-around of 64-bit unsigned arithmetic. *)
Definition u64 (z : Z) : Z := z mod u64_modulus.

(** Modelled from the spec: the macros [MIN], [ROUNDUP] and [ROUNDDOWN] come
    from a header that is not part of the files.  They are the minimum and
    the rounding of [a] up and down to a multiple of the power of two [b],
    written with the bit mask [~(b-1)] on 64-bit words. *)
Definition MIN (a b : Z) : Z := if a <? b then a else b.

Definition ROUNDUP (a b : Z) : Z := Z.land (u64 (a + (b - 1))) (Z.lnot (b - 1)).

Definition ROUNDDOWN (a b : Z) : Z := Z.land a (Z.lnot (b - 1)).

Section WithPlatform.
Context `{Platform}.

Definition PAGE_SIZE : Z := Z.shiftl 1 PAGE_SIZE_SHIFT.

Definition ROUNDUP_PAGE_SIZE (x : Z) : Z := ROUNDUP x PAGE_SIZE.

(** Modelled from the spec: the macro [PAGE_ALIGN] is not part of the file;
    DecommitRange's [start] is [round_down_page(offset)]. *)
Definition PAGE_ALIGN (x : Z) : Z := ROUNDDOWN x PAGE_SIZE.

(** What the theorems assume of the platform: the page size is a power of
    two that fits a 64-bit word, rounding an object size up to a page
    leaves room for one more page, and distinct pages are backed by
    disjoint kernel addresses. *)
Class PlatformOk : Prop := {
  page_shift_range : 0 <= PAGE_SIZE_SHIFT < 64;
  max_size_range : 0 <= MAX_SIZE <= u64_modulus - PAGE_SIZE;
  page_frames_disjoint : ∀ p q i j,
    0 <= i < PAGE_SIZE → 0 <= j < PAGE_SIZE →
    paddr_to_kvaddr (vm_page_to_paddr p) + i = paddr_to_kvaddr (vm_page_to_paddr q) + j →
    p = q;
}.

End WithPlatform.

(** ** Outcomes of an operation *)

Inductive outcome (A : Type) : Type :=
  | Ret (a : A)
  | Panic
  | Diverge.

Arguments Ret {A} a.
Arguments Panic {A}.
Arguments Diverge {A}.

Global Instance outcome_ret : MRet outcome := λ A a, Ret a.

Global Instance outcome_bind : MBind outcome := λ A B f m,
  match m with
  | Ret a => f a
  | Panic => Panic
  | Diverge => Diverge
  end.

Global Instance outcome_fmap : FMap outcome := λ A B f m,
  match m with
  | Ret a => Ret (f a)
  | Panic => Panic
  | Diverge => Diverge
  end.

(** ** The physical page allocator (pmm)

    Modelled from the spec: pmm.cpp is not part of the files.  The allocator
    hands out the pages of its free list in order; a bulk request returns as
    many pages as are left, up to the count asked for; [pmm_free] takes a
    batch back and marks its pages FREE. *)

Record pmm_t : Type := mk_pmm {
  free_list : list Z;
  page_state : gmap Z vm_page_state;
}.

Definition pmm_alloc_page (flags : Z) (a : pmm_t) : option Z * pmm_t :=
  match free_list a with
  | [] => (None, a)
  | p :: rest => (Some p, mk_pmm rest (page_state a))
  end.

Definition pmm_alloc_pages (count flags : Z) (a : pmm_t) : list Z * pmm_t :=
  (take (Z.to_nat count) (free_list a),
   mk_pmm (drop (Z.to_nat count) (free_list a)) (page_state a)).

(** The physical contiguity and alignment of the run are not tracked. *)
Definition pmm_alloc_contiguous (count flags alignment_log2 : Z) (a : pmm_t)
  : list Z * pmm_t :=
  (take (Z.to_nat count) (free_list a),
   mk_pmm (drop (Z.to_nat count) (free_list a)) (page_state a)).

Definition mark_free (pages : list Z) (st : gmap Z vm_page_state) : gmap Z vm_page_state :=
  foldr (λ p m, <[p := VM_PAGE_STATE_FREE]> m) st pages.

Definition pmm_free (pages : list Z) (a : pmm_t) : pmm_t :=
  mk_pmm (pages ++ free_list a) (mark_free pages (page_state a)).

(** [p->state = s] *)
Definition set_page_state (p : Z) (s : vm_page_state) (a : pmm_t) : pmm_t :=
  mk_pmm (free_list a) (<[p := s]> (page_state a)).

(** ** Calls that leave the object

    The calls made to the collaborators, in the order they are made: the
    allocator entry points with what they returned, the unmap requests sent
    to the mapping regions and the architectural cache primitives. *)

Inductive event : Type :=
  | EvPmmAllocPage (flags : Z) (got : option Z)
  | EvPmmAllocPages (count flags : Z) (got : list Z)
  | EvPmmAllocContiguous (count flags alignment_log2 : Z) (got : list Z)
  | EvPmmFree (pages : list Z)
  | EvUnmapVmoRange (region start len : Z)
  | EvArchCache (type : CacheOpType) (addr len : Z).

(** ** Kernel memory, byte by byte

    The memory is the finite map of the bytes that were written; a byte that
    is not in the map reads zero. *)

Fixpoint write_bytes (addr : Z) (bs : list Z) (m : gmap Z Z) : gmap Z Z :=
  match bs with
  | [] => m
  | b :: bs' => write_bytes (addr + 1) bs' (<[addr := b]> m)
  end.

Definition read_byte (m : gmap Z Z) (addr : Z) : Z := default 0 (m !! addr).

Definition read_bytes (addr : Z) (len : nat) (m : gmap Z Z) : list Z :=
  map (λ i, read_byte m (addr + Z.of_nat i)) (seq 0 len).

(** The bytes [buf[off .. off+len)] of a caller's buffer. *)
Definition buffer_bytes (buf : list Z) (off : Z) (len : nat) : list Z :=
  map (λ i, default 0 (buf !! (Z.to_nat off + i)%nat)) (seq 0 len).

(** ** The object and the kernel state around it *)

Record VmObjectPaged : Type := mk_vmo {
  size_ : Z;
  pmm_alloc_flags_ : Z;
  page_list_ : gmap Z Z;
  region_list_ : list Z;
}.

Record kernel : Type := mk_kernel {
  vmo : VmObjectPaged;
  pmm : pmm_t;
  kmem : gmap Z Z;
  trace : list event;
}.

Definition with_size (s : Z) (k : kernel) : kernel :=
  mk_kernel (mk_vmo s (pmm_alloc_flags_ (vmo k)) (page_list_ (vmo k)) (region_list_ (vmo k)))
            (pmm k) (kmem k) (trace k).

Definition with_page_list (pl : gmap Z Z) (k : kernel) : kernel :=
  mk_kernel (mk_vmo (size_ (vmo k)) (pmm_alloc_flags_ (vmo k)) pl (region_list_ (vmo k)))
            (pmm k) (kmem k) (trace k).

Definition with_pmm (a : pmm_t) (k : kernel) : kernel :=
  mk_kernel (vmo k) a (kmem k) (trace k).

Definition with_kmem (m : gmap Z Z) (k : kernel) : kernel :=
  mk_kernel (vmo k) (pmm k) m (trace k).

Definition log (evs : list event) (k : kernel) : kernel :=
  mk_kernel (vmo k) (pmm k) (kmem k) (trace k ++ evs).

(** [if (counter) *counter = 0;] and [if (counter) *counter += n;] *)
Definition counter_zero (c : option Z) : option Z := (λ _, 0) <$> c.
Definition counter_add (n : Z) (c : option Z) : option Z := (λ v, u64 (v + n)) <$> c.

Section Model.
Context `{Platform}.

(** [DEBUG_ASSERT(x)]: in a build that implements debug assertions the
    kernel stops when [x] is false; otherwise nothing happens. *)
Definition DEBUG_ASSERT (x : bool) : outcome unit :=
  if DEBUG_ASSERT_IMPLEMENTED && negb x then Panic else Ret ().

(** ** The page list

    Modelled from the spec: [VmPageList] (vm_page_list.h is not part of the
    files) is a sparse map from page-aligned byte offset to page; a byte
    offset names the page that contains it.  [AddPage] fails if the slot is
    taken, [FreePage] gives the page back to the allocator and reports an
    absent page without side effect. *)

Definition VmPageList_GetPage (pl : gmap Z Z) (offset : Z) : option Z :=
  pl !! ROUNDDOWN offset PAGE_SIZE.

Definition VmPageList_AddPage (pl : gmap Z Z) (p offset : Z) : status * gmap Z Z :=
  match pl !! ROUNDDOWN offset PAGE_SIZE with
  | Some _ => (ERR_ALREADY_EXISTS, pl)
  | None => (NO_ERROR, <[ROUNDDOWN offset PAGE_SIZE := p]> pl)
  end.

Definition VmPageList_FreePage (offset : Z) (k : kernel) : status * kernel :=
  let pl := page_list_ (vmo k) in
  match pl !! ROUNDDOWN offset PAGE_SIZE with
  | Some p =>
      (NO_ERROR,
       log [EvPmmFree [p]]
           (with_pmm (pmm_free [p] (pmm k))
                     (with_page_list (delete (ROUNDDOWN offset PAGE_SIZE) pl) k)))
  | None => (ERR_NOT_FOUND, k)
  end.

(** ** Range helpers

    Modelled from the spec: [TrimRange] and [InRange] (vm_priv.h is not part
    of the files).  [TrimRange] rejects a range that starts beyond the size
    and clips an overhang; [InRange] holds when the range lies entirely
    within the size. *)

Definition TrimRange (offset len trim_to_len : Z) : option Z :=
  if trim_to_len <? offset then None
  else Some (if trim_to_len <? offset + len then trim_to_len - offset else len).

Definition InRange (offset len trim_to_len : Z) : bool :=
  offset + len <=? trim_to_len.

(** ** Zeroing a page *)

(** Modelled from the spec: [arch_zero_page] (not part of the files) zeroes
    the PAGE_SIZE bytes at [ptr]; the bytes leave the map, so that they read
    zero. *)
Definition arch_zero_page (ptr : Z) (m : gmap Z Z) : gmap Z Z :=
  filter (λ kv, ¬ (ptr <= kv.1 < ptr + PAGE_SIZE)) m.

Definition ZeroPage (pa : Z) (m : gmap Z Z) : gmap Z Z :=
  arch_zero_page (paddr_to_kvaddr pa) m.

(** ** Loops over page offsets

    [for (o = start; o < end; o += PAGE_SIZE) body] *)

Fixpoint for_pages {St : Type} (fuel : nat) (o end_ : Z)
    (body : Z → St → outcome St) (s : St) : outcome St :=
  match fuel with
  | O => Diverge
  | S fuel' =>
      if o <? end_ then
        s' ← body o s; for_pages fuel' (u64 (o + PAGE_SIZE)) end_ body s'
      else Ret s
  end.

Definition pages_fuel (o end_ : Z) : nat := (Z.to_nat ((end_ - o) / PAGE_SIZE) + 2)%nat.

(** ** Member functions *)

Definition VmObjectPaged_new (pmm_alloc_flags : Z) : VmObjectPaged :=
  mk_vmo 0 pmm_alloc_flags ∅ [].

Definition AllocatedPages (k : kernel) : Z := Z.of_nat (size (page_list_ (vmo k))).

Definition AddPage (p offset : Z) (k : kernel) : status * kernel :=
  if size_ (vmo k) <=? offset then (ERR_OUT_OF_RANGE, k)
  else
    let '(st, pl) := VmPageList_AddPage (page_list_ (vmo k)) p offset in
    (st, with_page_list pl k).

Definition GetPageLocked (offset : Z) (k : kernel) : option Z :=
  if size_ (vmo k) <=? offset then None
  else VmPageList_GetPage (page_list_ (vmo k)) offset.

Definition VMM_PF_FLAG_WRITE : Z := 1.

Definition FaultPageLocked (offset pf_flags : Z) (k : kernel) : option Z * kernel :=
  if size_ (vmo k) <=? offset then (None, k)
  else
    match VmPageList_GetPage (page_list_ (vmo k)) offset with
    | Some p => (Some p, k)
    | None =>
        (* allocate a page *)
        match pmm_alloc_page (pmm_alloc_flags_ (vmo k)) (pmm k) with
        | (None, a) =>
            (None, log [EvPmmAllocPage (pmm_alloc_flags_ (vmo k)) None] (with_pmm a k))
        | (Some p, a) =>
            let k := log [EvPmmAllocPage (pmm_alloc_flags_ (vmo k)) (Some p)] k in
            let pa := vm_page_to_paddr p in
            let a := set_page_state p VM_PAGE_STATE_OBJECT a in
            let m := ZeroPage pa (kmem k) in
            let '(_, pl) := VmPageList_AddPage (page_list_ (vmo k)) p offset in
            (Some p, with_page_list pl (with_kmem m (with_pmm a k)))
        end
    end.

(** First pass of CommitRange: count the pages to allocate. *)
Definition count_missing (pl : gmap Z Z) (o : Z) (count : Z) : outcome Z :=
  match VmPageList_GetPage pl o with
  | Some _ => Ret count
  | None => Ret (u64 (count + 1))
  end.

(** Second pass of CommitRange; the state is the local list of allocated
    pages, the counter and the kernel. *)
Definition commit_page (o : Z) (s : list Z * option Z * kernel)
  : outcome (list Z * option Z * kernel) :=
  let '(page_list, committed, k) := s in
  match VmPageList_GetPage (page_list_ (vmo k)) o with
  | Some _ => Ret s
  | None =>
      match page_list with
      | [] => Panic (* ASSERT(p) *)
      | p :: page_list =>
          let a := set_page_state p VM_PAGE_STATE_OBJECT (pmm k) in
          let m := ZeroPage (vm_page_to_paddr p) (kmem k) in
          let '(_, pl) := VmPageList_AddPage (page_list_ (vmo k)) p o in
          Ret (page_list, counter_add PAGE_SIZE committed,
               with_page_list pl (with_kmem m (with_pmm a k)))
      end
  end.

Definition CommitRange (offset len : Z) (committed : option Z) (k : kernel)
  : outcome (status * option Z * kernel) :=
  let committed := counter_zero committed in
  (* trim the size *)
  match TrimRange offset len (size_ (vmo k)) with
  | None => Ret (ERR_OUT_OF_RANGE, committed, k)
  | Some len =>
      (* was in range, just zero length *)
      if len =? 0 then Ret (NO_ERROR, committed, k)
      else
        let end_ := ROUNDUP_PAGE_SIZE (u64 (offset + len)) in
        count ← for_pages (pages_fuel offset end_) offset end_
                  (count_missing (page_list_ (vmo k))) 0;
        if count =? 0 then Ret (NO_ERROR, committed, k)
        else
          let '(page_list, a) :=
            pmm_alloc_pages count (pmm_alloc_flags_ (vmo k)) (pmm k) in
          let k := log [EvPmmAllocPages count (pmm_alloc_flags_ (vmo k)) page_list]
                       (with_pmm a k) in
          let allocated := Z.of_nat (length page_list) in
          if allocated <? count then
            Ret (ERR_NO_MEMORY, committed,
                 log [EvPmmFree page_list] (with_pmm (pmm_free page_list a) k))
          else
            '(_, committed, k') ←
              for_pages (pages_fuel offset end_) offset end_ commit_page
                        (page_list, committed, k);
            Ret (NO_ERROR, committed, k')
  end.

(** Second pass of CommitRangeContiguous: every slot takes a page. *)
Definition commit_page_contiguous (o : Z) (s : list Z * option Z * kernel)
  : outcome (list Z * option Z * kernel) :=
  let '(page_list, committed, k) := s in
  match page_list with
  | [] => Panic (* ASSERT(p) *)
  | p :: page_list =>
      let a := set_page_state p VM_PAGE_STATE_OBJECT (pmm k) in
      let m := ZeroPage (vm_page_to_paddr p) (kmem k) in
      let '(status, pl) := VmPageList_AddPage (page_list_ (vmo k)) p o in
      _ ← DEBUG_ASSERT (bool_decide (status = NO_ERROR));
      Ret (page_list, counter_add PAGE_SIZE committed,
           with_page_list pl (with_kmem m (with_pmm a k)))
  end.

Definition CommitRangeContiguous (offset len : Z) (committed : option Z)
    (alignment_log2 : Z) (k : kernel) : outcome (status * option Z * kernel) :=
  let committed := counter_zero committed in
  match TrimRange offset len (size_ (vmo k)) with
  | None => Ret (ERR_OUT_OF_RANGE, committed, k)
  | Some len =>
      if len =? 0 then Ret (NO_ERROR, committed, k)
      else
        let end_ := ROUNDUP_PAGE_SIZE (u64 (offset + len)) in
        (* make a pass through the list, making sure we have an empty run on the object *)
        count ← for_pages (pages_fuel offset end_) offset end_
                  (count_missing (page_list_ (vmo k))) 0;
        _ ← DEBUG_ASSERT (count =? len / PAGE_SIZE);
        let '(page_list, a) :=
          pmm_alloc_contiguous count (pmm_alloc_flags_ (vmo k)) alignment_log2 (pmm k) in
        let k := log [EvPmmAllocContiguous count (pmm_alloc_flags_ (vmo k))
                                           alignment_log2 page_list]
                     (with_pmm a k) in
        let allocated := Z.of_nat (length page_list) in
        if allocated <? count then
          Ret (ERR_NO_MEMORY, committed,
               log [EvPmmFree page_list] (with_pmm (pmm_free page_list a) k))
        else
          '(_, committed, k') ←
            for_pages (pages_fuel offset end_) offset end_ commit_page_contiguous
                      (page_list, committed, k);
          Ret (NO_ERROR, committed, k')
  end.

(** [for (auto& r : region_list_) r.UnmapVmoRangeLocked(start, len);] *)
Definition unmap_all_regions (start len : Z) (k : kernel) : kernel :=
  log (map (λ r, EvUnmapVmoRange r start len) (region_list_ (vmo k))) k.

Definition decommit_page (start : Z) (s : option Z * kernel) : outcome (option Z * kernel) :=
  let '(decommitted, k) := s in
  let '(status, k) := VmPageList_FreePage start k in
  match status with
  | NO_ERROR => Ret (counter_add PAGE_SIZE decommitted, k)
  | _ => Ret (decommitted, k)
  end.

Definition DecommitRange (offset len : Z) (decommitted : option Z) (k : kernel)
  : outcome (status * option Z * kernel) :=
  let decommitted := counter_zero decommitted in
  match TrimRange offset len (size_ (vmo k)) with
  | None => Ret (ERR_OUT_OF_RANGE, decommitted, k)
  | Some len =>
      if len =? 0 then Ret (NO_ERROR, decommitted, k)
      else
        (* figure the starting and ending page offset *)
        let start := PAGE_ALIGN offset in
        let end_ := ROUNDUP_PAGE_SIZE (u64 (offset + len)) in
        let page_aligned_len := u64 (end_ - start) in
        (* unmap all of the pages in this range on all the mapping regions *)
        let k := unmap_all_regions start page_aligned_len k in
        (* iterate through the pages, freeing them *)
        '(decommitted, k) ←
          for_pages (pages_fuel start end_) start end_ decommit_page (decommitted, k);
        Ret (NO_ERROR, decommitted, k)
  end.

Definition resize_free_page (start : Z) (k : kernel) : outcome kernel :=
  Ret (snd (VmPageList_FreePage start k)).

Definition Resize (s : Z) (k : kernel) : outcome (status * kernel) :=
  (* there's a max size to keep indexes within range *)
  if MAX_SIZE <? s then Ret (ERR_OUT_OF_RANGE, k)
  else
    k ←
      (* see if we're shrinking the vmo *)
      (if s <? size_ (vmo k) then
         let start := ROUNDUP_PAGE_SIZE s in
         let end_ := ROUNDUP_PAGE_SIZE (size_ (vmo k)) in
         let page_aligned_len := u64 (end_ - start) in
         (* we're only worried about whole pages to be removed *)
         if 0 <? page_aligned_len then
           let k := unmap_all_regions start page_aligned_len k in
           for_pages (pages_fuel start end_) start end_ resize_free_page k
         else Ret k
       else Ret k);
    (* save bytewise size *)
    Ret (NO_ERROR, with_size s k).

(** [Create]: the constructor followed by [Resize]; [None] is [nullptr].

    Modelled from the spec: the kernel heap is not part of the files.
    Whether [new (&ac) VmObjectPaged(pmm_alloc_flags)] finds the memory for
    the object is the argument [ac_check], the value of [ac.check()]. *)
Definition Create (pmm_alloc_flags size : Z) (ac_check : bool) (k : kernel)
  : outcome (option kernel) :=
  (* there's a max size to keep indexes within range *)
  if MAX_SIZE <? size then Ret None
  else if negb ac_check then Ret None
  else
    let k0 := mk_kernel (VmObjectPaged_new pmm_alloc_flags) (pmm k) (kmem k) (trace k) in
    '(err, k1) ← Resize size k0;
    match err with
    | ERR_NO_MEMORY => Ret None
    | NO_ERROR => Ret (Some k1)
    | _ =>
        (* Other kinds of failures are not handled yet. *)
        _ ← DEBUG_ASSERT false;
        Ret None
    end.

(** ** Copy in and out

    [ReadWriteInternal] is a template over the copy routine.  A routine gets
    the kernel address inside the page, the offset into the caller's buffer
    and the length, and works on kernel memory and on the caller's buffer
    (of type [B]). *)

Definition copy_routine (B : Type) : Type :=
  Z → Z → Z → gmap Z Z * B → status * (gmap Z Z * B).

Fixpoint rw_loop {B : Type} (fuel : nat) (offset len dest_offset : Z)
    (bytes_copied : option Z) (write : bool) (copyfunc : copy_routine B)
    (b : B) (k : kernel) : outcome (status * option Z * B * kernel) :=
  match fuel with
  | O => Diverge
  | S fuel' =>
      if 0 <? len then
        let page_offset := offset mod PAGE_SIZE in
        let tocopy := MIN (PAGE_SIZE - page_offset) len in
        (* fault in the page *)
        match FaultPageLocked offset (if write then VMM_PF_FLAG_WRITE else 0) k with
        | (None, k) => Ret (ERR_NO_MEMORY, bytes_copied, b, k)
        | (Some p, k) =>
            (* compute the kernel mapping of this page *)
            let pa := vm_page_to_paddr p in
            let page_ptr := paddr_to_kvaddr pa in
            (* call the copy routine *)
            let '(err, (m, b)) := copyfunc (page_ptr + page_offset) dest_offset tocopy (kmem k, b) in
            let k := with_kmem m k in
            if status_lt0 err then Ret (err, bytes_copied, b, k)
            else
              rw_loop fuel' (u64 (offset + tocopy)) (u64 (len - tocopy))
                      (u64 (dest_offset + tocopy)) (counter_add tocopy bytes_copied)
                      write copyfunc b k
        end
      else Ret (NO_ERROR, bytes_copied, b, k)
  end.

Definition rw_fuel (len : Z) : nat := (Z.to_nat (len / PAGE_SIZE) + 3)%nat.

Definition ReadWriteInternal {B : Type} (offset len : Z) (bytes_copied : option Z)
    (write : bool) (copyfunc : copy_routine B) (b : B) (k : kernel)
  : outcome (status * option Z * B * kernel) :=
  let bytes_copied := counter_zero bytes_copied in
  (* trim the size *)
  match TrimRange offset len (size_ (vmo k)) with
  | None => Ret (ERR_OUT_OF_RANGE, bytes_copied, b, k)
  | Some len =>
      (* was in range, just zero length *)
      if len =? 0 then Ret (NO_ERROR, bytes_copied, b, k)
      else rw_loop (rw_fuel len) offset len 0 bytes_copied write copyfunc b k
  end.

(** [memcpy(ptr + offset, src, len)]: the caller's buffer is the list of the
    bytes at [ptr]. *)
Definition read_routine : copy_routine (list Z) :=
  λ src offset len '(m, out),
    (NO_ERROR, (m, list_inserts (Z.to_nat offset) (read_bytes src (Z.to_nat len) m) out)).

(** [memcpy(dst, ptr + offset, len)] *)
Definition write_routine : copy_routine (list Z) :=
  λ dst offset len '(m, buf),
    (NO_ERROR, (write_bytes dst (buffer_bytes buf offset (Z.to_nat len)) m, buf)).

Definition Read (_ptr : Z) (out : list Z) (offset len : Z) (bytes_read : option Z)
    (k : kernel) : outcome (status * option Z * list Z * kernel) :=
  (* test to make sure this is a kernel pointer *)
  if negb (is_kernel_address _ptr) then
    _ ← DEBUG_ASSERT false; (* DEBUG_ASSERT_MSG(0, non kernel pointer passed) *)
    Ret (ERR_INVALID_ARGS, bytes_read, out, k)
  else ReadWriteInternal offset len bytes_read false read_routine out k.

Definition Write (_ptr : Z) (buf : list Z) (offset len : Z) (bytes_written : option Z)
    (k : kernel) : outcome (status * option Z * list Z * kernel) :=
  (* test to make sure this is a kernel pointer *)
  if negb (is_kernel_address _ptr) then
    _ ← DEBUG_ASSERT false; (* DEBUG_ASSERT_MSG(0, non kernel pointer passed) *)
    Ret (ERR_INVALID_ARGS, bytes_written, buf, k)
  else ReadWriteInternal offset len bytes_written true write_routine buf k.

(** [ptr.byte_offset(offset).copy_array_to_user(src, len)] *)
Definition read_user_routine (ptr : Z) : copy_routine user_mem :=
  λ src offset len '(m, u),
    let '(st, u) := copy_array_to_user (ptr + offset) (read_bytes src (Z.to_nat len) m) u in
    (st, (m, u)).

(** [ptr.byte_offset(offset).copy_array_from_user(dst, len)] *)
Definition write_user_routine (ptr : Z) : copy_routine user_mem :=
  λ dst offset len '(m, u),
    let '(st, bytes) := copy_array_from_user (ptr + offset) len u in
    (st, (write_bytes dst (take (Z.to_nat len) bytes) m, u)).

Definition ReadUser (ptr : Z) (u : user_mem) (offset len : Z) (bytes_read : option Z)
    (k : kernel) : outcome (status * option Z * user_mem * kernel) :=
  (* test to make sure this is a user pointer *)
  if negb (is_user_address ptr) then Ret (ERR_INVALID_ARGS, bytes_read, u, k)
  else ReadWriteInternal offset len bytes_read false (read_user_routine ptr) u k.

Definition WriteUser (ptr : Z) (u : user_mem) (offset len : Z) (bytes_written : option Z)
    (k : kernel) : outcome (status * option Z * user_mem * kernel) :=
  (* test to make sure this is a user pointer *)
  if negb (is_user_address ptr) then Ret (ERR_INVALID_ARGS, bytes_written, u, k)
  else ReadWriteInternal offset len bytes_written true (write_user_routine ptr) u k.

(** ** Lookup *)

Fixpoint lookup_loop (fuel : nat) (off end_page_offset index buffer : Z)
    (u : user_mem) (k : kernel) : outcome (status * user_mem) :=
  match fuel with
  | O => Diverge
  | S fuel' =>
      if off =? end_page_offset then Ret (NO_ERROR, u)
      else
        (* grab a pointer to the page only if it's already present *)
        match GetPageLocked off k with
        | None => Ret (ERR_NO_MEMORY, u)
        | Some p =>
            (* find the physical address *)
            let pa := vm_page_to_paddr p in
            (* copy it out into user space *)
            let '(st, u) := copy_to_user (buffer + index * sizeof_paddr) pa u in
            if status_lt0 st then Ret (st, u)
            else lookup_loop fuel' (u64 (off + PAGE_SIZE)) end_page_offset
                             (u64 (index + 1)) buffer u k
        end
  end.

Definition Lookup (offset len buffer buffer_size : Z) (u : user_mem) (k : kernel)
  : outcome (status * user_mem * kernel) :=
  if len =? 0 then Ret (ERR_INVALID_ARGS, u, k)
  else if negb (InRange offset len (size_ (vmo k))) then Ret (ERR_OUT_OF_RANGE, u, k)
  else
    let start_page_offset := ROUNDDOWN offset PAGE_SIZE in
    let end_ := u64 (offset + len) in
    let end_page_offset := ROUNDUP end_ PAGE_SIZE in
    (* compute the size of the table we'll need and make sure it fits in the user buffer *)
    let table_size :=
      u64 ((u64 (end_page_offset - start_page_offset) / PAGE_SIZE) * sizeof_paddr) in
    if buffer_size <? table_size then Ret (ERR_BUFFER_TOO_SMALL, u, k)
    else
      '(st, u) ← lookup_loop (pages_fuel start_page_offset end_page_offset)
                   start_page_offset end_page_offset 0 buffer u k;
      Ret (st, u, k).

(** ** Cache operations *)

(** The [switch] on the operation: one call of the matching primitive. *)
Definition arch_cache_range (type : CacheOpType) (addr len : Z) (k : kernel) : kernel :=
  log [EvArchCache type addr len] k.

Fixpoint cache_loop (fuel : nat) (op_start_offset end_offset : Z) (type : CacheOpType)
    (k : kernel) : outcome kernel :=
  match fuel with
  | O => Diverge
  | S fuel' =>
      if op_start_offset =? end_offset then Ret k
      else
        (* Offset at the end of the current page. *)
        let page_end_offset := ROUNDUP (u64 (op_start_offset + 1)) PAGE_SIZE in
        let op_end_offset := MIN page_end_offset end_offset in
        let cache_op_len := u64 (op_end_offset - op_start_offset) in
        let page_offset := op_start_offset mod PAGE_SIZE in
        let k :=
          match GetPageLocked op_start_offset k with
          | Some p =>
              (* Convert the page address to a Kernel virtual address. *)
              let pa := vm_page_to_paddr p in
              let ptr := paddr_to_kvaddr pa in
              let cache_op_addr := u64 (ptr + page_offset) in
              arch_cache_range type cache_op_addr cache_op_len k
          | None => k
          end in
        cache_loop fuel' (u64 (op_start_offset + cache_op_len)) end_offset type k
  end.

Definition CacheOp (start_offset len : Z) (type : CacheOpType) (k : kernel)
  : outcome (status * kernel) :=
  if len =? 0 then Ret (ERR_INVALID_ARGS, k)
  else if negb (InRange start_offset len (size_ (vmo k))) then Ret (ERR_OUT_OF_RANGE, k)
  else
    let end_offset := u64 (start_offset + len) in
    let op_start_offset := start_offset in
    k ← cache_loop (rw_fuel len) op_start_offset end_offset type k;
    Ret (NO_ERROR, k).

Definition InvalidateCache (offset len : Z) := CacheOp offset len Invalidate.
Definition CleanCache (offset len : Z) := CacheOp offset len Clean.
Definition CleanInvalidateCache (offset len : Z) := CacheOp offset len CleanInvalidate.
Definition SyncCache (offset len : Z) := CacheOp offset len Sync.

End Model.

(** ** The public operations as one type of calls *)

Section Calls.
Context `{Platform}.

Inductive vmo_call : Type :=
  | CallAddPage (p offset : Z)
  | CallResize (s : Z)
  | CallCommitRange (offset len : Z) (committed : option Z)
  | CallCommitRangeContiguous (offset len : Z) (committed : option Z) (alignment_log2 : Z)
  | CallDecommitRange (offset len : Z) (decommitted : option Z)
  | CallRead (_ptr : Z) (out : list Z) (offset len : Z) (bytes_read : option Z)
  | CallWrite (_ptr : Z) (buf : list Z) (offset len : Z) (bytes_written : option Z)
  | CallReadUser (ptr : Z) (u : user_mem) (offset len : Z) (bytes_read : option Z)
  | CallWriteUser (ptr : Z) (u : user_mem) (offset len : Z) (bytes_written : option Z)
  | CallLookup (offset len buffer buffer_size : Z) (u : user_mem)
  | CallCacheOp (offset len : Z) (type : CacheOpType).

(** The kernel state a call leaves behind. *)
Definition run_call (c : vmo_call) (k : kernel) : outcome kernel :=
  match c with
  | CallAddPage p offset => Ret (snd (AddPage p offset k))
  | CallResize s => snd <$> Resize s k
  | CallCommitRange offset len committed => snd <$> CommitRange offset len committed k
  | CallCommitRangeContiguous offset len committed alignment_log2 =>
      snd <$> CommitRangeContiguous offset len committed alignment_log2 k
  | CallDecommitRange offset len decommitted => snd <$> DecommitRange offset len decommitted k
  | CallRead _ptr out offset len bytes_read => snd <$> Read _ptr out offset len bytes_read k
  | CallWrite _ptr buf offset len bytes_written =>
      snd <$> Write _ptr buf offset len bytes_written k
  | CallReadUser ptr u offset len bytes_read => snd <$> ReadUser ptr u offset len bytes_read k
  | CallWriteUser ptr u offset len bytes_written =>
      snd <$> WriteUser ptr u offset len bytes_written k
  | CallLookup offset len buffer buffer_size u =>
      snd <$> Lookup offset len buffer buffer_size u k
  | CallCacheOp offset len type => snd <$> CacheOp offset len type k
  end.

Definition is_u64 (z : Z) : Prop := 0 <= z < u64_modulus.

(** The offsets, lengths and sizes of a call are 64-bit unsigned values. *)
Definition call_args_u64 (c : vmo_call) : Prop :=
  match c with
  | CallAddPage _ offset => is_u64 offset
  | CallResize s => is_u64 s
  | CallCommitRange offset len _ => is_u64 offset ∧ is_u64 len
  | CallCommitRangeContiguous offset len _ _ => is_u64 offset ∧ is_u64 len
  | CallDecommitRange offset len _ => is_u64 offset ∧ is_u64 len
  | CallRead _ _ offset len _ => is_u64 offset ∧ is_u64 len
  | CallWrite _ _ offset len _ => is_u64 offset ∧ is_u64 len
  | CallReadUser _ _ offset len _ => is_u64 offset ∧ is_u64 len
  | CallWriteUser _ _ offset len _ => is_u64 offset ∧ is_u64 len
  | CallLookup offset len _ _ _ => is_u64 offset ∧ is_u64 len
  | CallCacheOp offset len _ => is_u64 offset ∧ is_u64 len
  end.

End Calls.

(** ** The words of the specification

    Definitions that follow the specification rather than the code; the
    theorems compare the code with them. *)

Section SpecWords.
Context `{Platform}.

Definition round_down_page (x : Z) : Z := x - x mod PAGE_SIZE.

Definition round_up_page (x : Z) : Z := round_down_page (x + (PAGE_SIZE - 1)).

(** [n] consecutive page offsets from [first]. *)
Fixpoint pages_from (first : Z) (n : nat) : list Z :=
  match n with
  | O => []
  | S n' => first :: pages_from (first + PAGE_SIZE) n'
  end.

(** The page offsets in [start, end_), both page aligned. *)
Definition pages_between (start end_ : Z) : list Z :=
  pages_from start (Z.to_nat ((end_ - start) / PAGE_SIZE)).

(** The page offsets of the pages that the bytes [offset, offset+len) touch. *)
Definition range_pages (offset len : Z) : list Z :=
  pages_between (round_down_page offset) (round_up_page (offset + len)).

(** The pages of a range that the page list does not hold. *)
Definition missing_pages (pl : gmap Z Z) (offset len : Z) : list Z :=
  filter (λ x, pl !! x = None) (range_pages offset len).

(** The pages of a list of page offsets that the page list holds. *)
Definition present_pages (pl : gmap Z Z) (offsets : list Z) : list Z :=
  omap (λ x, pl !! x) offsets.

(** The sub-ranges of [offset, offset+len) clipped to page boundaries: start
    and length of each. *)
Definition sub_ranges (offset len : Z) : list (Z * Z) :=
  map (λ x, (Z.max offset x, Z.min (offset + len) (x + PAGE_SIZE) - Z.max offset x))
      (range_pages offset len).

(** The calls of the cache primitive that the specification asks for: one for
    each sub-range whose page is present. *)
Definition cache_calls_expected (type : CacheOpType) (pl : gmap Z Z) (offset len : Z)
  : list event :=
  omap (λ '(start, l),
          p ← pl !! round_down_page start;
          Some (EvArchCache type
                  (u64 (paddr_to_kvaddr (vm_page_to_paddr p) + start mod PAGE_SIZE)) l))
       (sub_ranges offset len).

(** What Lookup does over the pages of its range, in order: the physical
    address of each present page goes to the next entry of the user table;
    the walk stops with ERR_NO_MEMORY at the first absent page and with the
    status of the copy at the first copy that fails. *)
Fixpoint lookup_copy_out (buffer index : Z) (pl : gmap Z Z) (pages : list Z)
    (u : user_mem) : status * user_mem :=
  match pages with
  | [] => (NO_ERROR, u)
  | x :: rest =>
      match pl !! x with
      | None => (ERR_NO_MEMORY, u)
      | Some p =>
          let '(st, u') := copy_to_user (buffer + index * sizeof_paddr) (vm_page_to_paddr p) u in
          if status_lt0 st then (st, u')
          else lookup_copy_out buffer (index + 1) pl rest u'
      end
  end.

(** The byte of the object at byte offset [x], when its page is present. *)
Definition vmo_byte (k : kernel) (x : Z) : option Z :=
  p ← page_list_ (vmo k) !! round_down_page x;
  Some (read_byte (kmem k) (paddr_to_kvaddr (vm_page_to_paddr p) + x mod PAGE_SIZE)).

(** The size stays within [MAX_SIZE]. *)
Definition size_ok (k : kernel) : Prop := 0 <= size_ (vmo k) <= MAX_SIZE.

(** Invariant 1 of the data model. *)
Definition page_list_inv (k : kernel) : Prop :=
  ∀ offset p, page_list_ (vmo k) !! offset = Some p →
    offset mod PAGE_SIZE = 0 ∧ 0 <= offset < round_up_page (size_ (vmo k)).

(** Pages are owned by one holder: no page sits at two offsets of the
    object, and the pages the allocator can still hand out are distinct and
    are not in the object. *)
Definition pages_owned_once (k : kernel) : Prop :=
  (∀ o1 o2 p, page_list_ (vmo k) !! o1 = Some p → page_list_ (vmo k) !! o2 = Some p → o1 = o2) ∧
  NoDup (free_list (pmm k)) ∧
  (∀ o p, page_list_ (vmo k) !! o = Some p → p ∉ free_list (pmm k)).

(** The kernel address of byte [x] of the object, in page [p]. *)
Definition byte_addr (p x : Z) : Z :=
  paddr_to_kvaddr (vm_page_to_paddr p) + x mod PAGE_SIZE.

(** The sub-range of [o, end_) inside the page at [x]. *)
Definition clip (o end_ x : Z) : Z * Z :=
  (Z.max o x, Z.min end_ (x + PAGE_SIZE) - Z.max o x).

(** The call the specification asks for on a sub-range. *)
Definition cache_call (type : CacheOpType) (pl : gmap Z Z) (sub : Z * Z) : option event :=
  p ← pl !! round_down_page sub.1;
  Some (EvArchCache type
          (u64 (paddr_to_kvaddr (vm_page_to_paddr p) + sub.1 mod PAGE_SIZE)) sub.2).

(** What a kernel state looks like after the pages at the offsets [l] were
    freed one by one. *)
Definition freed (l : list Z) (k k' : kernel) : Prop :=
  size_ (vmo k') = size_ (vmo k) ∧
  pmm_alloc_flags_ (vmo k') = pmm_alloc_flags_ (vmo k) ∧
  region_list_ (vmo k') = region_list_ (vmo k) ∧
  kmem k' = kmem k ∧
  (∀ x, page_list_ (vmo k') !! x
        = if decide (x ∈ l) then None else page_list_ (vmo k) !! x) ∧
  trace k' = trace k ++ map (λ p, EvPmmFree [p]) (present_pages (page_list_ (vmo k)) l) ∧
  free_list (pmm k')
  = reverse (present_pages (page_list_ (vmo k)) l) ++ free_list (pmm k).

(** The fault flags ReadWriteInternal passes: [write ? VMM_PF_FLAG_WRITE : 0]. *)
Definition pf_flags_of (write : bool) : Z := if write then VMM_PF_FLAG_WRITE else 0.

(** A loop body that looks at its offset only through the page it names. *)
Definition by_page {St : Type} (body : Z → St → outcome St) : Prop :=
  ∀ x d s, x mod PAGE_SIZE = 0 → 0 <= d < PAGE_SIZE → body (x + d) s = body x s.

(** Monadic fold of a loop body over a list of page offsets. *)
Fixpoint fold_pages {St : Type} (body : Z → St → outcome St) (l : list Z) (s : St)
  : outcome St :=
  match l with
  | [] => Ret s
  | x :: l' => s' ← body x s; fold_pages body l' s'
  end.

End SpecWords.

(** ** A concrete platform: 4 KiB pages, the physical map at the top of the
    address space, pages named by their frame number, user memory as a map
    of the mapped bytes. *)

Definition KERNEL_ASPACE_BASE : Z := 0xffffff8000000000.

Definition user_range_ok (ptr len : Z) : bool :=
  (0 <=? ptr) && (ptr + len <=? 0x800000000000).

Definition pc_platform : Platform := {|
  PAGE_SIZE_SHIFT := 12;
  MAX_SIZE := 2 ^ 64 - 4096;
  vm_page_to_paddr := λ p, p * 4096;
  paddr_to_kvaddr := λ pa, KERNEL_ASPACE_BASE + pa;
  is_kernel_address := λ a, KERNEL_ASPACE_BASE <=? a;
  is_user_address := λ a, (0 <=? a) && (a <? 0x800000000000);
  user_mem := gmap Z Z;
  copy_array_to_user := λ ptr bytes u,
    if user_range_ok ptr (Z.of_nat (length bytes)) then (NO_ERROR, write_bytes ptr bytes u)
    else (ERR_INVALID_ARGS, u);
  copy_array_from_user := λ ptr len u,
    if user_range_ok ptr len then (NO_ERROR, read_bytes ptr (Z.to_nat len) u)
    else (ERR_INVALID_ARGS, []);
  copy_to_user := λ ptr v u,
    if user_range_ok ptr 8 then (NO_ERROR, <[ptr := v]> u) else (ERR_INVALID_ARGS, u);
  sizeof_paddr := 8;
  DEBUG_ASSERT_IMPLEMENTED := false;
|}.

(** The same platform in a build that implements the debug assertions. *)
Definition pc_platform_debug : Platform := {|
  PAGE_SIZE_SHIFT := @PAGE_SIZE_SHIFT pc_platform;
  MAX_SIZE := @MAX_SIZE pc_platform;
  vm_page_to_paddr := @vm_page_to_paddr pc_platform;
  paddr_to_kvaddr := @paddr_to_kvaddr pc_platform;
  is_kernel_address := @is_kernel_address pc_platform;
  is_user_address := @is_user_address pc_platform;
  user_mem := @user_mem pc_platform;
  copy_array_to_user := @copy_array_to_user pc_platform;
  copy_array_from_user := @copy_array_from_user pc_platform;
  copy_to_user := @copy_to_user pc_platform;
  sizeof_paddr := @sizeof_paddr pc_platform;
  DEBUG_ASSERT_IMPLEMENTED := true;
|}.

(** An empty object of [size] bytes mapped by [regions], with [free] the
    pages the allocator can hand out. *)
Definition kernel_example (size : Z) (regions free : list Z) : kernel :=
  mk_kernel (mk_vmo size 0 ∅ regions) (mk_pmm free ∅) ∅ [].

(** A three-page object with all its pages, mapped by two regions. *)
Definition kernel_three_pages : kernel :=
  mk_kernel (mk_vmo 12288 0 (<[0 := 100]> (<[4096 := 101]> (<[8192 := 102]> ∅))) [7; 8])
            (mk_pmm [103] ∅) ∅ [].

(** A two-page object with its first page only. *)
Definition kernel_first_page (free : list Z) : kernel :=
  mk_kernel (mk_vmo 8192 0 {[0 := 100]} []) (mk_pmm free ∅) ∅ [].

(** What the scenarios look at: status, counter, number of pages, trace. *)
Definition observe {A : Type} (r : outcome (status * option Z * A * kernel))
  : option (status * option Z * Z * list event) :=
  match r with
  | Ret (st, c, _, k) => Some (st, c, AllocatedPages k, trace k)
  | _ => None
  end.

Definition observe3 (r : outcome (status * option Z * kernel))
  : option (status * option Z * Z * list event) :=
  match r with
  | Ret (st, c, k) => Some (st, c, AllocatedPages k, trace k)
  | _ => None
  end.


(** ** The life of an object: the pages it holds, its content, its end *)

Section Lifecycle.
Context `{Platform}.

(** Entries of the page list are visited in ascending offset order. *)
Definition offset_le (a b : Z * Z) : Prop := a.1 <= b.1.

Global Instance offset_le_dec a b : Decision (offset_le a b).
Proof. unfold offset_le. apply _. Defined.

(** [page_list_.ForEveryPage]: the pages of the object, by ascending offset. *)
Definition owned_pages (k : kernel) : list Z :=
  (merge_sort offset_le (map_to_list (page_list_ (vmo k)))).*2.

(** The pages the model accounts for: those of the object and those the
    allocator can hand out. *)
Definition all_pages (k : kernel) : list Z := owned_pages k ++ free_list (pmm k).

(** Modelled from the spec: [VmPageList::FreeAllPages] returns every owned
    page to the allocator, in one batch, and empties the list. *)
Definition VmPageList_FreeAllPages (k : kernel) : kernel :=
  let pages := owned_pages k in
  log [EvPmmFree pages] (with_pmm (pmm_free pages (pmm k)) (with_page_list ∅ k)).

(** [~VmObjectPaged]: free all of the pages attached to us. *)
Definition VmObjectPaged_destroy (k : kernel) : kernel := VmPageList_FreeAllPages k.

(** A sequence of calls, one after the other. *)
Fixpoint run_calls (cs : list vmo_call) (k : kernel) : outcome kernel :=
  match cs with
  | [] => Ret k
  | c :: cs' => k' ← run_call c k; run_calls cs' k'
  end.

Definition is_AddPage (c : vmo_call) : bool :=
  match c with CallAddPage _ _ => true | _ => false end.

(** The byte a reader finds at byte offset [x]: the byte of the page, or zero
    where no page is committed. *)
Definition vmo_read (k : kernel) (x : Z) : Z := default 0 (vmo_byte k x).

(** The bytes [offset, offset + len) as a reader finds them. *)
Definition vmo_content (k : kernel) (offset : Z) (len : nat) : list Z :=
  map (λ i, vmo_read k (offset + Z.of_nat i)) (seq 0 len).

(** The counter of a copy that was set to zero and then counted the bytes of
    the chunks that went through: [c] bytes, which make whole chunks, so
    that they end at a page boundary. *)
Definition counts_chunks (offset len : Z) (bytes_copied bc' : option Z) : Prop :=
  ∃ c, bc' = (λ _, c) <$> bytes_copied ∧ 0 <= c <= len ∧
       (c = 0 ∨ (offset + c) mod PAGE_SIZE = 0).

(** The pages that the first [c] bytes of a copy from [offset] touch. *)
Definition pages_before (offset c : Z) : list Z :=
  if decide (c = 0) then [] else range_pages offset c.

(** The chunks of the first [c] bytes of a copy from [offset]: start and
    length of the piece in each page. *)
Definition chunks_before (offset c : Z) : list (Z * Z) :=
  map (clip offset (offset + c)) (pages_before offset c).

(** The chunk that starts [c] bytes into a copy from [offset] is the first
    whose page FaultPageLocked cannot provide: it starts the range or a
    page, its page is missing, and the allocator holds just the pages that
    the missing pages before it take. *)
Definition fault_fails_at (k : kernel) (offset c : Z) : Prop :=
  (c = 0 ∨ (offset + c) mod PAGE_SIZE = 0) ∧
  page_list_ (vmo k) !! round_down_page (offset + c) = None ∧
  length (free_list (pmm k))
  = length (filter (λ x, page_list_ (vmo k) !! x = None) (pages_before offset c)).

Global Instance fault_fails_at_dec k offset c : Decision (fault_fails_at k offset c).
Proof. unfold fault_fails_at. apply _. Defined.

(** The [n] bytes from position [off] of a buffer whose byte at position [i]
    is [data i]. *)
Definition data_bytes (data : Z → Z) (off : Z) (n : nat) : list Z :=
  map (λ i, data (off + Z.of_nat i)) (seq 0 n).

(** What ReadUser hands to the user copy, chunk by chunk: the bytes of the
    object in the chunk (zero where no page is committed) go to the user
    address of the chunk, which is the offset of the chunk plus [delta]; the
    transfer stops at the first copy that fails. *)
Fixpoint copy_chunks_to_user (k : kernel) (delta : Z) (chunks : list (Z * Z))
    (u : user_mem) : status * user_mem :=
  match chunks with
  | [] => (NO_ERROR, u)
  | (start, n) :: rest =>
      let '(st, u') :=
        copy_array_to_user (start + delta) (vmo_content k start (Z.to_nat n)) u in
      if status_lt0 st then (st, u') else copy_chunks_to_user k delta rest u'
  end.

End Lifecycle.

(** ** The static-data factory *)

(** Modelled from the spec: what CreateFromROData takes from headers that are
    not part of the files: the allocation flag it passes on, the translation
    of a kernel virtual address to the physical address behind it, and the
    page that manages a physical address ([None] is [nullptr]: no arena
    holds the address). *)
Class KernelImage : Type := {
  PMM_ALLOC_FLAG_ANY : Z;
  vaddr_to_paddr : Z → Z;
  paddr_to_vm_page : Z → option Z;
}.

Section StaticData.
Context `{Platform} `{KernelImage}.

(** [IS_PAGE_ALIGNED(x)]: no bit below the page size is set. *)
Definition IS_PAGE_ALIGNED (x : Z) : bool := Z.land x (PAGE_SIZE - 1) =? 0.

(** [page->state]; a page whose state was never set is FREE, as the pages of
    the allocator's arenas start out. *)
Definition vm_page_state_of (a : pmm_t) (p : Z) : vm_page_state :=
  default VM_PAGE_STATE_FREE (page_state a !! p).

(** Modelled from the spec: [pmm_alloc_range], the allocator's "allocate
    this specific physical range" entry point, takes the pages at [address],
    [address + PAGE_SIZE], ... out of the free list for as long as they are
    there, at most [count] of them, and returns how many it took. *)
Fixpoint pmm_alloc_range_from (n : nat) (address : Z) (a : pmm_t) : Z * pmm_t :=
  match n with
  | O => (0, a)
  | S n' =>
      match paddr_to_vm_page address with
      | Some p =>
          if decide (p ∈ free_list a) then
            let '(c, a') :=
              pmm_alloc_range_from n' (address + PAGE_SIZE)
                (mk_pmm (filter (λ q, q ≠ p) (free_list a)) (page_state a)) in
            (c + 1, a')
          else (0, a)
      | None => (0, a)
      end
  end.

Definition pmm_alloc_range (address count : Z) (a : pmm_t) : Z * pmm_t :=
  pmm_alloc_range_from (Z.to_nat count) address a.

(** [for (size_t count = start; count < bound; count++) body] *)
Fixpoint for_count {St : Type} (fuel : nat) (count bound : Z)
    (body : Z → St → outcome St) (s : St) : outcome St :=
  match fuel with
  | O => Diverge
  | S fuel' =>
      if count <? bound then
        s' ← body count s; for_count fuel' (u64 (count + 1)) bound body s'
      else Ret s
  end.

(** The body of the loop of CreateFromROData. *)
Definition rodata_page (start_paddr count : Z) (k : kernel) : outcome kernel :=
  let pa := u64 (start_paddr + count * PAGE_SIZE) in
  match paddr_to_vm_page pa with
  | None => Panic (* ASSERT(page) *)
  | Some page =>
      k ← match vm_page_state_of (pmm k) page with
          | VM_PAGE_STATE_WIRED =>
              (* it's wired to the kernel, so we can just use it directly *)
              Ret k
          | VM_PAGE_STATE_FREE =>
              let '(n, a) := pmm_alloc_range pa 1 (pmm k) in
              if n =? 1
              then Ret (with_pmm (set_page_state page VM_PAGE_STATE_WIRED a) k)
              else Panic (* ASSERT(pmm_alloc_range(pa, 1, nullptr) == 1) *)
          | VM_PAGE_STATE_OBJECT => Panic (* panic("... in unusable state") *)
          end;
      Ret (snd (AddPage page (u64 (count * PAGE_SIZE)) k))
  end.

(** [CreateFromROData]; the reference that the function leaks is not
    modelled.  [ac_check] is the outcome of the heap allocation in Create. *)
Definition CreateFromROData (data size : Z) (ac_check : bool) (k : kernel)
  : outcome (option kernel) :=
  vmo ← Create PMM_ALLOC_FLAG_ANY size ac_check k;
  match vmo with
  | Some k1 =>
      if 0 <? size then
        if negb (IS_PAGE_ALIGNED size) then Panic
        else if negb (IS_PAGE_ALIGNED data) then Panic
        else
          let start_paddr := vaddr_to_paddr data in
          if start_paddr =? 0 then Panic
          else
            k2 ← for_count (Z.to_nat (size / PAGE_SIZE) + 1) 0 (size / PAGE_SIZE)
                   (rodata_page start_paddr) k1;
            Ret (Some k2)
      else Ret (Some k1)
  | None => Ret None
  end.

(** The page that backs byte offset [x] of the data at [start_paddr]. *)
Definition rodata_page_at (start_paddr x : Z) : option Z :=
  paddr_to_vm_page (u64 (start_paddr + x)).

(** A page the factory can take: wired to the kernel, or free and still in
    the allocator's free list. *)
Definition rodata_usable (a : pmm_t) (page : Z) : Prop :=
  vm_page_state_of a page = VM_PAGE_STATE_WIRED ∨
  (vm_page_state_of a page = VM_PAGE_STATE_FREE ∧ page ∈ free_list a).

Global Instance rodata_usable_dec a page : Decision (rodata_usable a page).
Proof. unfold rodata_usable. apply _. Defined.

End StaticData.

(** The kernel image of the concrete platform: the physical map translates
    by [KERNEL_ASPACE_BASE]; one arena manages the first 1024 frames. *)
Definition pc_kernel_image : KernelImage := {|
  PMM_ALLOC_FLAG_ANY := 0;
  vaddr_to_paddr := λ va, va - KERNEL_ASPACE_BASE;
  paddr_to_vm_page := λ pa,
    if decide (pa mod 4096 = 0 ∧ 0 <= pa < 1024 * 4096) then Some (pa / 4096) else None;
|}.

(** A kernel whose frames 16 and 17 are wired and whose frame 18 is free. *)
Definition kernel_image_example : kernel :=
  mk_kernel (mk_vmo 0 0 ∅ [])
            (mk_pmm [18; 200]
                    (<[16 := VM_PAGE_STATE_WIRED]> (<[17 := VM_PAGE_STATE_WIRED]> ∅)))
            (<[KERNEL_ASPACE_BASE + 16 * 4096 := 42]> ∅) [].

Section ZeroPages.
Context `{Platform}.

(** [ZeroPage] on each page of a batch, first to last. *)
Definition zero_pages (ps : list Z) (m : gmap Z Z) : gmap Z Z :=
  foldl (λ m p, ZeroPage (vm_page_to_paddr p) m) m ps.

(** The kernel address [a] lies in the frame of page [p]. *)
Definition in_frame (a p : Z) : Prop :=
  paddr_to_kvaddr (vm_page_to_paddr p) <= a < paddr_to_kvaddr (vm_page_to_paddr p) + PAGE_SIZE.

Global Instance in_frame_dec a p : Decision (in_frame a p).
Proof. unfold in_frame. apply _. Defined.

End ZeroPages.

(** * Exception ports and resuming tasks: a shallow embedding of
      lib/syscalls/syscalls_exceptions.cpp

    The system calls validate their option bits, look the handles up in the
    handle table of the calling process and hand over to the dispatcher of
    the object.  The dispatchers, the handle table and the exception ports
    are not part of the files; they are taken as the operations of a
    [Dispatchers] structure on a state of the rest of the kernel.  A handle,
    a key and the option word are [Z]; a reference to a dispatcher is the
    dispatcher, a null reference is [None]. *)

Module Exceptions.

(** [mx_status_t]: the values the file names, and the ones that only the
    collaborators return. *)
Inductive mx_status_t : Type :=
  | NO_ERROR
  | ERR_INVALID_ARGS
  | ERR_BAD_STATE
  | ERR_WRONG_TYPE
  | ERR_NOT_SUPPORTED
  | ERR_OTHER (code : Z).

Global Instance mx_status_t_eq_dec : EqDecision mx_status_t.
Proof. solve_decision. Defined.

Inductive mx_exception_status_t : Type :=
  | MX_EXCEPTION_STATUS_NOT_HANDLED
  | MX_EXCEPTION_STATUS_RESUME.

(** What a handle can refer to, as far as the file tells the kinds apart. *)
Inductive Dispatcher : Type :=
  | ProcessDispatcher (process : Z)
  | ThreadDispatcher (thread : Z)
  | OtherDispatcher (object : Z).

(** [MX_HANDLE_INVALID], from magenta/types.h. *)
Definition MX_HANDLE_INVALID : Z := 0.

(** Modelled from the spec: the option bits and the operations of the
    handle table, the dispatchers and the exception ports, which the file
    takes from headers that are not part of the files.  [kstate] is the
    state of the kernel that the operations work on. *)
Class Dispatchers : Type := {
  kstate : Type;
  MX_EXCEPTION_PORT_DEBUGGER : Z;
  MX_EXCEPTION_PORT_UNBIND_QUIETLY : Z;
  MX_RESUME_EXCEPTION : Z;
  MX_RESUME_NOT_HANDLED : Z;
  (** [up->GetDispatcher(handle, &dispatcher)] *)
  GetDispatcher : Z → kstate → mx_status_t * option Dispatcher;
  (** [up->GetDispatcher(handle, &ioport)] for a [PortDispatcher] *)
  GetPortDispatcher : Z → kstate → mx_status_t * option Z;
  (** [ExceptionPort::Create(ioport, key, &eport)] *)
  ExceptionPort_Create : option Z → Z → kstate → mx_status_t * option Z * kstate;
  ResetSystemExceptionPort : kstate → bool * kstate;
  SetSystemExceptionPort : option Z → kstate → mx_status_t * kstate;
  Process_ResetExceptionPort : Z → bool → bool → kstate → bool * kstate;
  Process_SetExceptionPort : Z → option Z → bool → kstate → mx_status_t * kstate;
  Thread_ResetExceptionPort : Z → bool → kstate → bool * kstate;
  Thread_SetExceptionPort : Z → option Z → kstate → mx_status_t * kstate;
  (** [thread->thread()->MarkExceptionHandled(estatus)] *)
  MarkExceptionHandled : Z → mx_exception_status_t → kstate → mx_status_t * kstate;
}.

Section Syscalls.
Context `{Dispatchers}.

(** [ok ? NO_ERROR : ERR_BAD_STATE] *)
Definition reset_status (r : bool * kstate) : mx_status_t * kstate :=
  (if r.1 then NO_ERROR else ERR_BAD_STATE (* No port was bound. *), r.2).

Definition object_unbind_exception_port (obj_handle : Z) (debugger quietly : bool)
    (w : kstate) : mx_status_t * kstate :=
  if obj_handle =? MX_HANDLE_INVALID then
    if debugger || quietly then (ERR_INVALID_ARGS, w)
    else reset_status (ResetSystemExceptionPort w)
  else
    let '(status, dispatcher) := GetDispatcher obj_handle w in
    if negb (bool_decide (status = NO_ERROR)) then (status, w)
    else
      match dispatcher with
      | Some (ProcessDispatcher process) =>
          reset_status (Process_ResetExceptionPort process debugger quietly w)
      | Some (ThreadDispatcher thread) =>
          if debugger then (ERR_INVALID_ARGS, w)
          else reset_status (Thread_ResetExceptionPort thread quietly w)
      | _ => (ERR_WRONG_TYPE, w)
      end.

Definition object_bind_exception_port (obj_handle eport_handle key : Z) (debugger : bool)
    (w : kstate) : mx_status_t * kstate :=
  let '(status, ioport) := GetPortDispatcher eport_handle w in
  if negb (bool_decide (status = NO_ERROR)) then (status, w)
  else
    let '(status, eport, w) := ExceptionPort_Create ioport key w in
    if negb (bool_decide (status = NO_ERROR)) then (status, w)
    else if obj_handle =? MX_HANDLE_INVALID then
      if debugger then (ERR_INVALID_ARGS, w)
      else SetSystemExceptionPort eport w
    else
      let '(status, dispatcher) := GetDispatcher obj_handle w in
      if negb (bool_decide (status = NO_ERROR)) then (status, w)
      else
        match dispatcher with
        | Some (ProcessDispatcher process) => Process_SetExceptionPort process eport debugger w
        | Some (ThreadDispatcher thread) =>
            if debugger then (ERR_INVALID_ARGS, w)
            else Thread_SetExceptionPort thread eport w
        | _ => (ERR_WRONG_TYPE, w)
        end.

(** [options & mask] is not zero. *)
Definition has_bits (options mask : Z) : bool := negb (Z.land options mask =? 0).

Definition sys_object_bind_exception_port (obj_handle eport_handle key options : Z)
    (w : kstate) : mx_status_t * kstate :=
  if (if eport_handle =? MX_HANDLE_INVALID
      then has_bits options
             (Z.lnot (MX_EXCEPTION_PORT_DEBUGGER + MX_EXCEPTION_PORT_UNBIND_QUIETLY))
      else has_bits options (Z.lnot MX_EXCEPTION_PORT_DEBUGGER))
  then (ERR_INVALID_ARGS, w)
  else
    let debugger := has_bits options MX_EXCEPTION_PORT_DEBUGGER in
    if eport_handle =? MX_HANDLE_INVALID then
      let quietly := has_bits options MX_EXCEPTION_PORT_UNBIND_QUIETLY in
      object_unbind_exception_port obj_handle debugger quietly w
    else object_bind_exception_port obj_handle eport_handle key debugger w.

Definition sys_task_resume (handle options : Z) (w : kstate) : mx_status_t * kstate :=
  if has_bits options (Z.lnot (Z.lor MX_RESUME_EXCEPTION MX_RESUME_NOT_HANDLED))
  then (ERR_INVALID_ARGS, w)
  else
    let '(status, dispatcher) := GetDispatcher handle w in
    if negb (bool_decide (status = NO_ERROR)) then (status, w)
    else
      match dispatcher with
      | Some (ThreadDispatcher thread) =>
          if has_bits options MX_RESUME_EXCEPTION then
            let estatus :=
              if has_bits options MX_RESUME_NOT_HANDLED
              then MX_EXCEPTION_STATUS_NOT_HANDLED
              else MX_EXCEPTION_STATUS_RESUME in
            MarkExceptionHandled thread estatus w
          else
            (* TODO: generic thread suspend/resume *)
            (ERR_NOT_SUPPORTED, w)
      | _ => (ERR_WRONG_TYPE, w)
      end.

(** The two flags of an option word are distinct single bits of a 32-bit
    word. *)
Definition two_flags (a b : Z) : Prop :=
  ∃ i j, 0 <= i < 32 ∧ 0 <= j < 32 ∧ i ≠ j ∧ a = 2 ^ i ∧ b = 2 ^ j.

End Syscalls.

(** A kernel with three handles: 1 is a process, 2 a thread, 3 a port; the
    state is the log of the calls made to the dispatchers. *)
Inductive dispatcher_call : Type :=
  | CallResetSystem
  | CallSetSystem (eport : option Z)
  | CallProcessReset (process : Z) (debugger quietly : bool)
  | CallProcessSet (process : Z) (eport : option Z) (debugger : bool)
  | CallThreadReset (thread : Z) (quietly : bool)
  | CallThreadSet (thread : Z) (eport : option Z)
  | CallMarkExceptionHandled (thread : Z) (estatus : mx_exception_status_t).

Definition example_dispatchers : Dispatchers := {|
  kstate := list dispatcher_call;
  MX_EXCEPTION_PORT_DEBUGGER := 1;
  MX_EXCEPTION_PORT_UNBIND_QUIETLY := 2;
  MX_RESUME_EXCEPTION := 1;
  MX_RESUME_NOT_HANDLED := 2;
  GetDispatcher := λ h w,
    if h =? 1 then (NO_ERROR, Some (ProcessDispatcher 10))
    else if h =? 2 then (NO_ERROR, Some (ThreadDispatcher 20))
    else if h =? 3 then (NO_ERROR, Some (OtherDispatcher 30))
    else (ERR_OTHER (-11), None);
  GetPortDispatcher := λ h w,
    if h =? 3 then (NO_ERROR, Some 30)
    else if (h =? 1) || (h =? 2) then (ERR_WRONG_TYPE, None)
    else (ERR_OTHER (-11), None);
  ExceptionPort_Create := λ ioport key w, (NO_ERROR, ioport, w);
  ResetSystemExceptionPort := λ w, (true, w ++ [CallResetSystem]);
  SetSystemExceptionPort := λ eport w, (NO_ERROR, w ++ [CallSetSystem eport]);
  Process_ResetExceptionPort := λ p d q w, (true, w ++ [CallProcessReset p d q]);
  Process_SetExceptionPort := λ p e d w, (NO_ERROR, w ++ [CallProcessSet p e d]);
  Thread_ResetExceptionPort := λ t q w, (true, w ++ [CallThreadReset t q]);
  Thread_SetExceptionPort := λ t e w, (NO_ERROR, w ++ [CallThreadSet t e]);
  MarkExceptionHandled := λ t s w, (NO_ERROR, w ++ [CallMarkExceptionHandled t s]);
|}.

End Exceptions.
(** ** Page arithmetic *)

Section PageArith.
Variable P : Z.
Hypothesis P_pos : 0 < P.

Lemma mod_add_page x : (x + P) mod P = x mod P.
Proof.
  replace (x + P) with (x + 1 * P) by lia. apply Z.mod_add. lia.
Qed.

Lemma mod_bounds x : 0 <= x mod P < P.
Proof. apply Z.mod_pos_bound. exact P_pos. Qed.

Lemma aligned_gap x y : x mod P = 0 → y mod P = 0 → x < y → x + P <= y.
Proof.
  intros Hx Hy Hlt.
  apply Z.mod_divide in Hx; [|lia]. apply Z.mod_divide in Hy; [|lia].
  destruct Hx as [a ->], Hy as [b ->].
  assert (a < b) as Hab by nia.
  assert ((a + 1) * P <= b * P) by (apply Z.mul_le_mono_nonneg_r; lia). lia.
Qed.

Lemma aligned_sub_mod x : (x - x mod P) mod P = 0.
Proof.
  rewrite Zminus_mod, Z.mod_mod by lia. rewrite Z.sub_diag. apply Z.mod_0_l. lia.
Qed.

Lemma same_page_down x y :
  y mod P = 0 → y <= x < y + P → x - x mod P = y.
Proof.
  intros Hy Hx.
  pose proof (mod_bounds x) as Hb. pose proof (aligned_sub_mod x) as Ha.
  destruct (Z.lt_trichotomy (x - x mod P) y) as [Hlt|[Heq|Hgt]]; [|done|].
  - pose proof (aligned_gap _ _ Ha Hy Hlt). lia.
  - pose proof (aligned_gap _ _ Hy Ha Hgt). lia.
Qed.

Lemma down_add_page x : (x + P) - (x + P) mod P = (x - x mod P) + P.
Proof. rewrite mod_add_page. lia. Qed.

End PageArith.

Section PageSize.
Context `{HP : Platform} {HOk : PlatformOk}.

Lemma PAGE_SIZE_pow2 : PAGE_SIZE = 2 ^ PAGE_SIZE_SHIFT.
Proof.
  unfold PAGE_SIZE. pose proof page_shift_range.
  rewrite Z.shiftl_mul_pow2 by lia. lia.
Qed.

Lemma PAGE_SIZE_pos : 0 < PAGE_SIZE.
Proof.
  rewrite PAGE_SIZE_pow2. pose proof page_shift_range. apply Z.pow_pos_nonneg; lia.
Qed.

Lemma PAGE_SIZE_lt_modulus : PAGE_SIZE < u64_modulus.
Proof.
  rewrite PAGE_SIZE_pow2. pose proof page_shift_range. unfold u64_modulus.
  apply Z.pow_lt_mono_r; lia.
Qed.

Lemma u64_modulus_aligned : u64_modulus mod PAGE_SIZE = 0.
Proof.
  pose proof page_shift_range as Hs. rewrite PAGE_SIZE_pow2. unfold u64_modulus.
  replace 64 with ((64 - PAGE_SIZE_SHIFT) + PAGE_SIZE_SHIFT) by lia.
  rewrite Z.pow_add_r by lia. apply Z.mod_mul.
  apply Z.pow_nonzero; lia.
Qed.

Lemma ROUNDDOWN_page a : ROUNDDOWN a PAGE_SIZE = a - a mod PAGE_SIZE.
Proof.
  pose proof page_shift_range as Hs. pose proof PAGE_SIZE_pos as Hp.
  unfold ROUNDDOWN. rewrite <- Z.ldiff_land.
  replace (PAGE_SIZE - 1) with (Z.ones PAGE_SIZE_SHIFT)
    by (rewrite Z.ones_equiv, PAGE_SIZE_pow2; lia).
  rewrite Z.ldiff_ones_r by lia.
  rewrite Z.shiftr_div_pow2, Z.shiftl_mul_pow2 by lia.
  rewrite <- PAGE_SIZE_pow2.
  pose proof (Z.div_mod a PAGE_SIZE). lia.
Qed.

Lemma u64_small z : 0 <= z < u64_modulus → u64 z = z.
Proof. intros Hz. unfold u64. apply Z.mod_small. exact Hz. Qed.

Lemma ROUNDUP_page a :
  0 <= a → a + PAGE_SIZE <= u64_modulus →
  ROUNDUP a PAGE_SIZE = (a + (PAGE_SIZE - 1)) - (a + (PAGE_SIZE - 1)) mod PAGE_SIZE.
Proof.
  intros Ha Hfit. pose proof PAGE_SIZE_pos.
  unfold ROUNDUP. rewrite u64_small by lia.
  apply (ROUNDDOWN_page (a + (PAGE_SIZE - 1))).
Qed.

(** The facts about rounding that the loops need, in linear form. *)
Lemma ROUNDDOWN_spec a :
  ROUNDDOWN a PAGE_SIZE mod PAGE_SIZE = 0 ∧
  ROUNDDOWN a PAGE_SIZE <= a < ROUNDDOWN a PAGE_SIZE + PAGE_SIZE.
Proof.
  pose proof PAGE_SIZE_pos as Hp. rewrite ROUNDDOWN_page.
  pose proof (mod_bounds _ Hp a). split; [apply aligned_sub_mod; lia | lia].
Qed.

Lemma ROUNDUP_spec a :
  0 <= a → a + PAGE_SIZE <= u64_modulus →
  ROUNDUP a PAGE_SIZE mod PAGE_SIZE = 0 ∧
  a <= ROUNDUP a PAGE_SIZE < a + PAGE_SIZE.
Proof.
  intros Ha Hfit. pose proof PAGE_SIZE_pos as Hp. rewrite ROUNDUP_page by done.
  pose proof (mod_bounds _ Hp (a + (PAGE_SIZE - 1))).
  split; [apply aligned_sub_mod; lia | lia].
Qed.

Lemma ROUNDDOWN_unique x y :
  y mod PAGE_SIZE = 0 → y <= x < y + PAGE_SIZE → ROUNDDOWN x PAGE_SIZE = y.
Proof.
  intros Hy Hx. rewrite ROUNDDOWN_page. apply same_page_down; [apply PAGE_SIZE_pos|done..].
Qed.

Lemma ROUNDDOWN_add_page x :
  ROUNDDOWN (x + PAGE_SIZE) PAGE_SIZE = ROUNDDOWN x PAGE_SIZE + PAGE_SIZE.
Proof. rewrite !ROUNDDOWN_page. apply down_add_page. apply PAGE_SIZE_pos. Qed.

Lemma ROUNDUP_mono a b :
  0 <= a <= b → b + PAGE_SIZE <= u64_modulus →
  ROUNDUP a PAGE_SIZE <= ROUNDUP b PAGE_SIZE.
Proof.
  intros Hab Hfit. pose proof PAGE_SIZE_pos as Hp.
  destruct (ROUNDUP_spec a) as [Ha1 Ha2]; [lia..|].
  destruct (ROUNDUP_spec b) as [Hb1 Hb2]; [lia..|].
  destruct (Z.le_gt_cases (ROUNDUP a PAGE_SIZE) (ROUNDUP b PAGE_SIZE)) as [|Hgt]; [done|].
  pose proof (aligned_gap _ Hp _ _ Hb1 Ha1 Hgt). lia.
Qed.

Lemma ROUNDUP_aligned_id a :
  0 <= a → a + PAGE_SIZE <= u64_modulus → a mod PAGE_SIZE = 0 →
  ROUNDUP a PAGE_SIZE = a.
Proof.
  intros Ha Hfit Hal. pose proof PAGE_SIZE_pos as Hp.
  destruct (ROUNDUP_spec a) as [H1 H2]; [lia..|].
  destruct (Z.eq_dec (ROUNDUP a PAGE_SIZE) a) as [|Hne]; [done|].
  assert (a < ROUNDUP a PAGE_SIZE) as Hlt by lia.
  pose proof (aligned_gap _ Hp _ _ Hal H1 Hlt). lia.
Qed.

End PageSize.

(** ** The rounding macros against the words of the specification *)

Section Rounding.
Context `{HP : Platform} {HOk : PlatformOk}.

Lemma ROUNDDOWN_round_down x : ROUNDDOWN x PAGE_SIZE = round_down_page x.
Proof. apply ROUNDDOWN_page. Qed.

Lemma PAGE_ALIGN_round_down x : PAGE_ALIGN x = round_down_page x.
Proof. apply ROUNDDOWN_page. Qed.

Lemma ROUNDUP_round_up x :
  0 <= x → x + PAGE_SIZE <= u64_modulus → ROUNDUP_PAGE_SIZE x = round_up_page x.
Proof. intros. unfold ROUNDUP_PAGE_SIZE. rewrite ROUNDUP_page by done. done. Qed.

Lemma round_down_spec x :
  round_down_page x mod PAGE_SIZE = 0 ∧
  round_down_page x <= x < round_down_page x + PAGE_SIZE.
Proof. rewrite <- ROUNDDOWN_round_down. apply ROUNDDOWN_spec. Qed.

Lemma round_up_spec x :
  round_up_page x mod PAGE_SIZE = 0 ∧ x <= round_up_page x < x + PAGE_SIZE.
Proof.
  unfold round_up_page. destruct (round_down_spec (x + (PAGE_SIZE - 1))). split; [done|lia].
Qed.

Lemma round_down_unique x y :
  y mod PAGE_SIZE = 0 → y <= x < y + PAGE_SIZE → round_down_page x = y.
Proof. intros. apply same_page_down; [apply PAGE_SIZE_pos|done..]. Qed.

Lemma round_down_aligned x : x mod PAGE_SIZE = 0 → round_down_page x = x.
Proof. intros Hx. unfold round_down_page. lia. Qed.

Lemma round_down_idemp x : round_down_page (round_down_page x) = round_down_page x.
Proof. apply round_down_aligned, round_down_spec. Qed.

Lemma round_up_mono a b : a <= b → round_up_page a <= round_up_page b.
Proof.
  intros Hab. pose proof PAGE_SIZE_pos as Hp.
  destruct (round_up_spec a) as [Ha1 Ha2], (round_up_spec b) as [Hb1 Hb2].
  destruct (Z.le_gt_cases (round_up_page a) (round_up_page b)) as [|Hgt]; [done|].
  pose proof (aligned_gap _ Hp _ _ Hb1 Ha1 Hgt). lia.
Qed.

Lemma round_up_aligned x : x mod PAGE_SIZE = 0 → round_up_page x = x.
Proof.
  intros Hx. pose proof PAGE_SIZE_pos as Hp. destruct (round_up_spec x) as [H1 H2].
  destruct (Z.eq_dec (round_up_page x) x) as [|Hne]; [done|].
  assert (x < round_up_page x) as Hlt by lia.
  pose proof (aligned_gap _ Hp _ _ Hx H1 Hlt). lia.
Qed.

Lemma round_down_le_up a b : a <= b → round_down_page a <= round_up_page b.
Proof. intros. destruct (round_down_spec a), (round_up_spec b). lia. Qed.

Lemma aligned_add_page x : x mod PAGE_SIZE = 0 → (x + PAGE_SIZE) mod PAGE_SIZE = 0.
Proof. intros Hx. rewrite mod_add_page by apply PAGE_SIZE_pos. done. Qed.

Lemma aligned_diff_div a b :
  a mod PAGE_SIZE = 0 → b mod PAGE_SIZE = 0 → b - a = (b - a) / PAGE_SIZE * PAGE_SIZE.
Proof.
  intros Ha Hb. pose proof PAGE_SIZE_pos as Hp.
  assert ((b - a) mod PAGE_SIZE = 0) as Hm.
  { rewrite Zminus_mod, Ha, Hb. done. }
  pose proof (Z.div_mod (b - a) PAGE_SIZE). lia.
Qed.

(** The page list names a page by any byte offset inside it. *)
Lemma GetPage_lookup (pl : gmap Z Z) o :
  VmPageList_GetPage pl o = pl !! round_down_page o.
Proof. unfold VmPageList_GetPage. by rewrite ROUNDDOWN_round_down. Qed.

Lemma round_down_in_page x d :
  x mod PAGE_SIZE = 0 → 0 <= d < PAGE_SIZE → round_down_page (x + d) = x.
Proof. intros. apply round_down_unique; [done|lia]. Qed.

Lemma ROUNDDOWN_in_page x d :
  x mod PAGE_SIZE = 0 → 0 <= d < PAGE_SIZE → ROUNDDOWN (x + d) PAGE_SIZE = ROUNDDOWN x PAGE_SIZE.
Proof.
  intros. rewrite !ROUNDDOWN_round_down, round_down_in_page, round_down_aligned; done.
Qed.

End Rounding.

(** ** Loops over pages as folds over the list of page offsets *)

Section Loops.
Context `{HP : Platform} {HOk : PlatformOk}.

Lemma outcome_bind_Ret {A B} (a : A) (f : A → outcome B) : (Ret a ≫= f) = f a.
Proof. reflexivity. Qed.

Lemma for_pages_from {St : Type} (body : Z → St → outcome St) n :
  by_page body →
  ∀ first d fuel s,
    0 <= first → first mod PAGE_SIZE = 0 → 0 <= d < PAGE_SIZE →
    first + Z.of_nat n * PAGE_SIZE + PAGE_SIZE <= u64_modulus →
    (n < fuel)%nat →
    for_pages fuel (first + d) (first + Z.of_nat n * PAGE_SIZE) body s
    = fold_pages body (pages_from first n) s.
Proof.
  intros Hbody. pose proof PAGE_SIZE_pos as Hp.
  induction n as [|n IH]; intros first d fuel s Hf Hal Hd Hfit Hfuel.
  - destruct fuel as [|fuel]; [lia|]. simpl.
    destruct (Z.ltb_spec (first + d) (first + Z.of_nat 0 * PAGE_SIZE)); [lia|done].
  - destruct fuel as [|fuel]; [lia|]. simpl.
    destruct (Z.ltb_spec (first + d) (first + Z.of_nat (S n) * PAGE_SIZE)); [|nia].
    rewrite Hbody by done.
    destruct (body first s) as [s'| |]; simpl; [|done..].
    rewrite u64_small by (unfold u64_modulus in *; nia).
    replace (first + d + PAGE_SIZE) with (first + PAGE_SIZE + d) by lia.
    replace (first + Z.of_nat (S n) * PAGE_SIZE) with (first + PAGE_SIZE + Z.of_nat n * PAGE_SIZE) by lia.
    apply IH; [lia|by apply aligned_add_page|done|lia|lia].
Qed.

Lemma for_pages_between (St : Type) (body : Z → St → outcome St) first d end_ s :
  by_page body →
  0 <= first → first mod PAGE_SIZE = 0 → 0 <= d < PAGE_SIZE →
  end_ mod PAGE_SIZE = 0 → first <= end_ → end_ + PAGE_SIZE <= u64_modulus →
  for_pages (pages_fuel (first + d) end_) (first + d) end_ body s
  = fold_pages body (pages_between first end_) s.
Proof.
  intros Hbody Hf Hal Hd Hend Hle Hfit. pose proof PAGE_SIZE_pos as Hp.
  unfold pages_between.
  pose proof (aligned_diff_div _ _ Hal Hend) as Hdiv.
  set (n := (end_ - first) / PAGE_SIZE) in *.
  assert (0 <= n) as Hn by (apply Z.div_pos; lia).
  assert (first + Z.of_nat (Z.to_nat n) * PAGE_SIZE = end_) as Heq by lia.
  rewrite <- (for_pages_from body (Z.to_nat n) Hbody first d (pages_fuel (first + d) end_) s);
    [by rewrite Heq|done..|lia|].
  unfold pages_fuel.
  assert (n - 1 <= (end_ - (first + d)) / PAGE_SIZE).
  { apply Z.div_le_lower_bound; [lia|]. nia. }
  lia.
Qed.

(** The loops of CommitRange walk the pages of the range. *)
Lemma for_pages_range (St : Type) (body : Z → St → outcome St) offset len s :
  by_page body →
  0 <= offset → 0 < len → offset + len + PAGE_SIZE <= u64_modulus →
  let end_ := ROUNDUP_PAGE_SIZE (u64 (offset + len)) in
  for_pages (pages_fuel offset end_) offset end_ body s
  = fold_pages body (range_pages offset len) s.
Proof.
  intros Hbody Ho Hl Hfit end_. pose proof PAGE_SIZE_pos as Hp.
  subst end_. rewrite u64_small by (unfold u64_modulus in *; lia).
  rewrite ROUNDUP_round_up by lia.
  destruct (round_down_spec offset) as [Hd1 Hd2].
  destruct (round_up_spec (offset + len)) as [Hu1 Hu2].
  assert (round_down_page offset + offset mod PAGE_SIZE = offset) as Heq
    by (unfold round_down_page; lia).
  pose proof (for_pages_between St body (round_down_page offset) (offset mod PAGE_SIZE)
                (round_up_page (offset + len)) s Hbody) as Hfb.
  rewrite Heq in Hfb. unfold range_pages. apply Hfb; try done.
  - unfold round_down_page. pose proof (Z.mod_le offset PAGE_SIZE). lia.
  - apply mod_bounds. done.
  - lia.
  - apply aligned_gap; [done|done|apply u64_modulus_aligned|lia].
Qed.

Lemma pages_from_spec n : ∀ first x,
  x ∈ pages_from first n ↔
  ∃ i, 0 <= i < Z.of_nat n ∧ x = first + i * PAGE_SIZE.
Proof.
  induction n as [|n IH]; intros first x; simpl.
  - split; [intros Hin; by apply elem_of_nil in Hin|intros (i & ? & _); lia].
  - rewrite elem_of_cons, IH. split.
    + intros [->|(i & Hi & ->)]; [exists 0; lia|exists (i + 1); lia].
    + intros (i & Hi & ->). destruct (Z.eq_dec i 0) as [->|]; [left; lia|].
      right. exists (i - 1). lia.
Qed.

Lemma pages_from_aligned n first x :
  first mod PAGE_SIZE = 0 → x ∈ pages_from first n → x mod PAGE_SIZE = 0.
Proof.
  intros Hal (i & _ & ->)%pages_from_spec. pose proof PAGE_SIZE_pos.
  rewrite Z.mod_add by lia. done.
Qed.

Lemma pages_from_NoDup n : ∀ first, NoDup (pages_from first n).
Proof.
  pose proof PAGE_SIZE_pos as Hp.
  induction n as [|n IH]; intros first; simpl; constructor; [|apply IH].
  intros (i & Hi & Heq)%pages_from_spec. nia.
Qed.

Lemma pages_between_spec start end_ x :
  start mod PAGE_SIZE = 0 → end_ mod PAGE_SIZE = 0 →
  x ∈ pages_between start end_ ↔ x mod PAGE_SIZE = 0 ∧ start <= x < end_.
Proof.
  intros Hs He. pose proof PAGE_SIZE_pos as Hp. unfold pages_between.
  pose proof (aligned_diff_div _ _ Hs He) as Hdiv.
  set (n := (end_ - start) / PAGE_SIZE) in *.
  rewrite pages_from_spec. split.
  - intros (i & Hi & ->). split; [rewrite Z.mod_add by lia; done|]. nia.
  - intros [Hx Hr]. pose proof (aligned_diff_div _ _ Hs Hx) as Hdx.
    exists ((x - start) / PAGE_SIZE). split; [|lia].
    split; [apply Z.div_pos; lia|].
    assert ((x - start) / PAGE_SIZE < n); [|lia].
    apply Z.div_lt_upper_bound; [lia|]. nia.
Qed.

Lemma range_pages_spec offset len x :
  0 < len →
  x ∈ range_pages offset len ↔
  x mod PAGE_SIZE = 0 ∧ x < offset + len ∧ offset < x + PAGE_SIZE.
Proof.
  intros Hl. pose proof PAGE_SIZE_pos as Hp. unfold range_pages.
  destruct (round_down_spec offset) as [Hd1 Hd2].
  destruct (round_up_spec (offset + len)) as [Hu1 Hu2].
  rewrite pages_between_spec by done. split.
  - intros (Hx & Hlo & Hhi). split; [done|]. split; [|lia].
    destruct (Z.lt_ge_cases x (offset + len)) as [|Hge]; [done|].
    pose proof (aligned_gap _ Hp _ _ Hx Hu1 Hhi). lia.
  - intros (Hx & Hhi & Hlo). split; [done|]. split; [|lia].
    destruct (Z.le_gt_cases (round_down_page offset) x) as [|Hgt]; [done|].
    pose proof (aligned_gap _ Hp _ _ Hx Hd1 Hgt). lia.
Qed.

End Loops.

(** ** CommitRange *)

Section Commit.
Context `{HP : Platform} {HOk : PlatformOk}.

Lemma TrimRange_Some offset len size len' :
  0 <= offset → 0 <= len → TrimRange offset len size = Some len' →
  0 <= len' <= len ∧ offset + len' <= size.
Proof.
  unfold TrimRange. intros Ho Hl.
  destruct (Z.ltb_spec size offset); [done|].
  destruct (Z.ltb_spec size (offset + len)); intros [= <-]; lia.
Qed.

Lemma TrimRange_in_range offset len size :
  0 <= len → offset + len <= size → TrimRange offset len size = Some len.
Proof.
  unfold TrimRange. intros Ho Hl.
  destruct (Z.ltb_spec size offset); [lia|].
  destruct (Z.ltb_spec size (offset + len)); [lia|done].
Qed.

Lemma GetPage_by_page (pl : gmap Z Z) x d :
  x mod PAGE_SIZE = 0 → 0 <= d < PAGE_SIZE →
  VmPageList_GetPage pl (x + d) = VmPageList_GetPage pl x.
Proof. intros. unfold VmPageList_GetPage. by rewrite ROUNDDOWN_in_page. Qed.

Lemma AddPage_by_page (pl : gmap Z Z) p x d :
  x mod PAGE_SIZE = 0 → 0 <= d < PAGE_SIZE →
  VmPageList_AddPage pl p (x + d) = VmPageList_AddPage pl p x.
Proof. intros. unfold VmPageList_AddPage. by rewrite ROUNDDOWN_in_page. Qed.

Lemma FreePage_by_page k x d :
  x mod PAGE_SIZE = 0 → 0 <= d < PAGE_SIZE →
  VmPageList_FreePage (x + d) k = VmPageList_FreePage x k.
Proof. intros. unfold VmPageList_FreePage. by rewrite ROUNDDOWN_in_page. Qed.

Lemma count_missing_by_page pl : by_page (count_missing pl).
Proof. intros x d s Hx Hd. unfold count_missing. by rewrite GetPage_by_page. Qed.

Lemma commit_page_by_page : by_page commit_page.
Proof.
  intros x d [[l c] k] Hx Hd. unfold commit_page.
  rewrite GetPage_by_page by done.
  destruct (VmPageList_GetPage _ _); [done|].
  destruct l as [|p l]; [done|]. by rewrite AddPage_by_page.
Qed.

Lemma commit_page_contiguous_by_page : by_page commit_page_contiguous.
Proof.
  intros x d [[l c] k] Hx Hd. unfold commit_page_contiguous.
  destruct l as [|p l]; [done|]. by rewrite AddPage_by_page.
Qed.

Lemma decommit_page_by_page : by_page decommit_page.
Proof. intros x d [c k] Hx Hd. unfold decommit_page. by rewrite FreePage_by_page. Qed.

Lemma resize_free_page_by_page : by_page resize_free_page.
Proof. intros x d k Hx Hd. unfold resize_free_page. by rewrite FreePage_by_page. Qed.

Lemma count_missing_aligned (pl : gmap Z Z) x c :
  x mod PAGE_SIZE = 0 →
  count_missing pl x c = Ret (match pl !! x with Some _ => c | None => u64 (c + 1) end).
Proof.
  intros Hx. unfold count_missing. rewrite GetPage_lookup, round_down_aligned by done.
  by destruct (pl !! x).
Qed.

(** The first pass counts the pages of the list that are missing. *)
Lemma count_missing_fold (pl : gmap Z Z) l : ∀ c,
  Forall (λ x, x mod PAGE_SIZE = 0) l →
  0 <= c → c + Z.of_nat (length l) < u64_modulus →
  fold_pages (count_missing pl) l c
  = Ret (c + Z.of_nat (length (filter (λ x, pl !! x = None) l))).
Proof.
  induction l as [|x l IH]; intros c Hal Hc Hfit; cbn [fold_pages].
  - f_equal. simpl. lia.
  - apply Forall_cons in Hal as [Hx Hal]. cbn [length] in Hfit.
    rewrite count_missing_aligned by done.
    rewrite filter_cons. destruct (pl !! x) as [p|] eqn:Hlk.
    + rewrite decide_False by done. rewrite outcome_bind_Ret. apply IH; [done|lia|lia].
    + rewrite decide_True by done. rewrite outcome_bind_Ret. rewrite u64_small by lia.
      rewrite IH by (done || lia). f_equal. cbn [length]. lia.
Qed.

Lemma range_pages_aligned offset len :
  Forall (λ x, x mod PAGE_SIZE = 0) (range_pages offset len).
Proof.
  apply Forall_forall. intros x Hx. unfold range_pages, pages_between in Hx.
  eapply pages_from_aligned; [|done]. apply round_down_spec.
Qed.

Lemma range_pages_length offset len :
  0 <= offset → 0 < len → offset + len + PAGE_SIZE <= u64_modulus →
  Z.of_nat (length (range_pages offset len)) < u64_modulus.
Proof.
  intros Ho Hl Hfit. pose proof PAGE_SIZE_pos as Hp.
  unfold range_pages, pages_between.
  assert (∀ n first, length (pages_from first n) = n) as Hlen.
  { induction n; intros; simpl; [done|]. by rewrite IHn. }
  rewrite Hlen.
  destruct (round_down_spec offset) as [Hd1 Hd2].
  destruct (round_up_spec (offset + len)) as [Hu1 Hu2].
  set (a := round_up_page (offset + len) - round_down_page offset) in *.
  assert (0 <= a < u64_modulus) as Ha.
  { subst a. unfold round_down_page in *. pose proof (Z.mod_le offset PAGE_SIZE). lia. }
  assert (a / PAGE_SIZE <= a) by (apply Z.div_le_upper_bound; nia).
  pose proof (Z.div_pos a PAGE_SIZE). lia.
Qed.

(** The counting pass of CommitRange finds the missing pages of the range. *)
Lemma CommitRange_count k offset len :
  0 <= offset → 0 < len → offset + len + PAGE_SIZE <= u64_modulus →
  let end_ := ROUNDUP_PAGE_SIZE (u64 (offset + len)) in
  for_pages (pages_fuel offset end_) offset end_
            (count_missing (page_list_ (vmo k))) 0
  = Ret (Z.of_nat (length (missing_pages (page_list_ (vmo k)) offset len))).
Proof.
  intros Ho Hl Hfit end_. subst end_.
  rewrite for_pages_range by (done || apply count_missing_by_page).
  rewrite count_missing_fold; [done|apply range_pages_aligned|done|].
  pose proof (range_pages_length offset len). lia.
Qed.

End Commit.

Section CommitAtomic.
Context `{HP : Platform} {HOk : PlatformOk}.

(** C1. CommitRange is atomic on allocation failure: for an object whose
    size is within MAX_SIZE and a range that the trim accepts with a
    non-empty length, if the allocator returns fewer pages than the [N]
    missing pages of the range, CommitRange returns ERR_NO_MEMORY, reports
    zero committed bytes, gives the whole partial batch back to the allocator
    (whose free list is as before) and leaves the object, page list and size
    included, and the memory as they were. *)
Theorem CommitRange_atomic_on_allocation_failure
    (k : kernel) (offset len len' : Z) (committed : option Z) :
  size_ok k → 0 <= offset → 0 <= len →
  TrimRange offset len (size_ (vmo k)) = Some len' → len' ≠ 0 →
  let N := Z.of_nat (length (missing_pages (page_list_ (vmo k)) offset len')) in
  let flags := pmm_alloc_flags_ (vmo k) in
  let batch := fst (pmm_alloc_pages N flags (pmm k)) in
  Z.of_nat (length batch) < N →
  ∃ k', CommitRange offset len committed k
        = Ret (ERR_NO_MEMORY, counter_zero committed, k') ∧
        vmo k' = vmo k ∧
        kmem k' = kmem k ∧
        trace k' = trace k ++ [EvPmmAllocPages N flags batch; EvPmmFree batch] ∧
        pmm k' = pmm_free batch (snd (pmm_alloc_pages N flags (pmm k))) ∧
        free_list (pmm k') = free_list (pmm k).
Proof.
  intros Hsize Ho Hl Htrim Hne N flags batch Hshort.
  pose proof max_size_range as Hmax. pose proof PAGE_SIZE_pos as Hp.
  destruct (TrimRange_Some _ _ _ _ Ho Hl Htrim) as [Hl' Hin].
  unfold size_ok in Hsize.
  unfold CommitRange. rewrite Htrim.
  destruct (Z.eqb_spec len' 0) as [|_]; [done|].
  rewrite CommitRange_count by lia. rewrite outcome_bind_Ret. fold N.
  destruct (Z.eqb_spec N 0) as [HN0|_]; [lia|].
  unfold pmm_alloc_pages in *. fold flags. cbn [fst snd] in *. fold batch.
  destruct (Z.ltb_spec (Z.of_nat (length batch)) N) as [_|]; [|lia].
  eexists. split; [reflexivity|]. cbn.
  repeat split; [by rewrite <- app_assoc|].
  subst batch. apply take_drop.
Qed.

End CommitAtomic.

Section CommitTwice.
Context `{HP : Platform} {HOk : PlatformOk}.

Lemma filter_none {A} (P : A → Prop) `{∀ x, Decision (P x)} (l : list A) :
  (∀ x, x ∈ l → ¬ P x) → filter P l = [].
Proof.
  induction l as [|x l IH]; intros Hall; [done|].
  rewrite filter_cons, decide_False by (apply Hall; left).
  apply IH. intros y Hy. apply Hall. by right.
Qed.

Lemma AddPage_aligned (pl : gmap Z Z) p x :
  x mod PAGE_SIZE = 0 →
  VmPageList_AddPage pl p x
  = match pl !! x with
    | Some _ => (ERR_ALREADY_EXISTS, pl)
    | None => (NO_ERROR, <[x := p]> pl)
    end.
Proof.
  intros Hx. unfold VmPageList_AddPage.
  by rewrite ROUNDDOWN_round_down, round_down_aligned.
Qed.

(** The second pass leaves a page at every offset it walks, keeps the pages
    that were there and does not touch the size. *)
Lemma commit_fold_present l : ∀ b c k b' c' k',
  Forall (λ x, x mod PAGE_SIZE = 0) l →
  fold_pages commit_page l (b, c, k) = Ret (b', c', k') →
  size_ (vmo k') = size_ (vmo k) ∧
  (∀ x, is_Some (page_list_ (vmo k) !! x) → is_Some (page_list_ (vmo k') !! x)) ∧
  (∀ x, x ∈ l → is_Some (page_list_ (vmo k') !! x)).
Proof.
  induction l as [|x l IH]; intros b c k b' c' k' Hal Hrun; cbn [fold_pages] in Hrun.
  - injection Hrun as <- <- <-. split; [done|]. split; [done|].
    intros x Hx. by apply elem_of_nil in Hx.
  - apply Forall_cons in Hal as [Hx Hal].
    assert (∃ b1 c1 k1,
      commit_page x (b, c, k) = Ret (b1, c1, k1) ∧
      size_ (vmo k1) = size_ (vmo k) ∧
      (∀ y, is_Some (page_list_ (vmo k) !! y) → is_Some (page_list_ (vmo k1) !! y)) ∧
      is_Some (page_list_ (vmo k1) !! x)) as (b1 & c1 & k1 & Hstep & Hsz & Hkeep & Hnew).
    { unfold commit_page in *. rewrite GetPage_lookup, round_down_aligned in * by done.
      destruct (page_list_ (vmo k) !! x) as [q|] eqn:Hlk.
      - exists b, c, k. by rewrite Hlk.
      - destruct b as [|p b]; [done|].
        rewrite AddPage_aligned, Hlk in * by done.
        eexists _, _, _. split; [reflexivity|]. cbn. split; [done|]. split.
        + intros y Hy. destruct (decide (x = y)) as [->|Hne].
          * rewrite lookup_insert_eq. by eexists.
          * by rewrite lookup_insert_ne.
        + rewrite lookup_insert_eq. by eexists. }
    rewrite Hstep, outcome_bind_Ret in Hrun.
    destruct (IH _ _ _ _ _ _ Hal Hrun) as (Hsz' & Hkeep' & Hall).
    split; [congruence|]. split; [by auto|].
    intros y [->|Hy]%elem_of_cons; [by auto|by auto].
Qed.

(** C6 (amended). No double commit: when CommitRange returns NO_ERROR, an
    immediate second CommitRange over the same range returns NO_ERROR, reports
    zero committed bytes and leaves the whole kernel state as it is: no call
    to the allocator is made and the page list does not change. *)
Theorem CommitRange_twice (k k1 : kernel) (offset len : Z) (c c1 c' : option Z) :
  size_ok k → 0 <= offset → 0 <= len →
  CommitRange offset len c k = Ret (NO_ERROR, c1, k1) →
  CommitRange offset len c' k1 = Ret (NO_ERROR, counter_zero c', k1).
Proof.
  intros Hsize Ho Hl Hfirst.
  pose proof max_size_range as Hmax. pose proof PAGE_SIZE_pos as Hp.
  unfold size_ok in Hsize. unfold CommitRange in Hfirst.
  destruct (TrimRange offset len (size_ (vmo k))) as [len'|] eqn:Htrim; [|done].
  destruct (TrimRange_Some _ _ _ _ Ho Hl Htrim) as [Hl' Hin].
  destruct (Z.eqb_spec len' 0) as [Hz|Hnz].
  { injection Hfirst as <- <-. unfold CommitRange. rewrite Htrim.
    by destruct (Z.eqb_spec len' 0). }
  rewrite CommitRange_count, outcome_bind_Ret in Hfirst by lia.
  set (N := Z.of_nat (length (missing_pages (page_list_ (vmo k)) offset len'))) in *.
  destruct (Z.eqb_spec N 0) as [HN0|HN].
  { injection Hfirst as <- <-. unfold CommitRange. rewrite Htrim.
    destruct (Z.eqb_spec len' 0); [done|].
    rewrite CommitRange_count, outcome_bind_Ret by lia. fold N.
    by destruct (Z.eqb_spec N 0). }
  destruct (pmm_alloc_pages N (pmm_alloc_flags_ (vmo k)) (pmm k)) as [batch a] eqn:Halloc.
  destruct (Z.ltb_spec (Z.of_nat (length batch)) N) as [|Henough]; [done|].
  rewrite for_pages_range in Hfirst by (lia || apply commit_page_by_page).
  destruct (fold_pages commit_page _ _) as [[[b2 c2] k2]| |] eqn:Hfold; [|done..].
  rewrite outcome_bind_Ret in Hfirst. injection Hfirst as <- <-.
  apply commit_fold_present in Hfold as (Hsz & _ & Hall); [|apply range_pages_aligned].
  cbn in Hsz.
  unfold CommitRange. rewrite Hsz, Htrim.
  destruct (Z.eqb_spec len' 0); [done|].
  rewrite CommitRange_count, outcome_bind_Ret by lia.
  assert (missing_pages (page_list_ (vmo k2)) offset len' = []) as ->; [|done].
  unfold missing_pages. apply filter_none.
  intros x Hx Hnone. apply Hall in Hx as [p Hp']. congruence.
Qed.

End CommitTwice.

(** ** Freeing pages: DecommitRange and Resize *)

Section Free.
Context `{HP : Platform} {HOk : PlatformOk}.

Lemma FreePage_aligned x k :
  x mod PAGE_SIZE = 0 →
  VmPageList_FreePage x k
  = match page_list_ (vmo k) !! x with
    | Some p =>
        (NO_ERROR,
         log [EvPmmFree [p]]
             (with_pmm (pmm_free [p] (pmm k))
                       (with_page_list (delete x (page_list_ (vmo k))) k)))
    | None => (ERR_NOT_FOUND, k)
    end.
Proof.
  intros Hx. unfold VmPageList_FreePage.
  by rewrite ROUNDDOWN_round_down, round_down_aligned.
Qed.

Lemma FreePage_page_list x k :
  x mod PAGE_SIZE = 0 →
  page_list_ (vmo (snd (VmPageList_FreePage x k))) = delete x (page_list_ (vmo k)).
Proof.
  intros Hx. rewrite FreePage_aligned by done.
  destruct (page_list_ (vmo k) !! x) eqn:Hlk; cbn; [done|].
  symmetry. by apply delete_id.
Qed.

Lemma present_pages_delete (pl : gmap Z Z) x l :
  x ∉ l → present_pages (delete x pl) l = present_pages pl l.
Proof.
  unfold present_pages. induction l as [|y l IH]; intros Hx; [done|].
  apply not_elem_of_cons in Hx as [Hne Hx]. csimpl.
  rewrite lookup_delete_ne by done. by rewrite IH.
Qed.

Lemma present_pages_cons (pl : gmap Z Z) x l :
  present_pages pl (x :: l)
  = match pl !! x with Some p => p :: present_pages pl l | None => present_pages pl l end.
Proof. reflexivity. Qed.

Lemma freed_nil k : freed [] k k.
Proof.
  repeat split; try done.
  - simpl. by rewrite app_nil_r.
Qed.

Lemma freed_cons x l k k1 k' :
  x ∉ l →
  snd (VmPageList_FreePage x k) = k1 → x mod PAGE_SIZE = 0 →
  freed l k1 k' → freed (x :: l) k k'.
Proof.
  intros Hx Hstep Hal (Hsz & Hfl & Hrg & Hmem & Hpl & Htr & Hfree).
  rewrite FreePage_aligned in Hstep by done.
  destruct (page_list_ (vmo k) !! x) as [p|] eqn:Hlk; cbn in Hstep; subst k1.
  - cbn in *. rewrite present_pages_delete in * by done.
    repeat split; try done.
    + intros y. rewrite Hpl. destruct (decide (y = x)) as [->|Hne].
      * rewrite decide_False by done. rewrite decide_True by left.
        apply lookup_delete_eq.
      * destruct (decide (y ∈ l)) as [Hin|Hnin].
        -- by rewrite decide_True by (by right).
        -- rewrite decide_False by (intros [?|?]%elem_of_cons; done).
           by apply lookup_delete_ne.
    + rewrite Htr, present_pages_cons, Hlk. cbn.
      by rewrite <- app_assoc.
    + rewrite Hfree, present_pages_cons, Hlk.
      rewrite reverse_cons, <- app_assoc. done.
  - repeat split; try done.
    + intros y. rewrite Hpl. destruct (decide (y = x)) as [->|Hne].
      * rewrite decide_False by done. by rewrite decide_True by left.
      * destruct (decide (y ∈ l)) as [Hin|Hnin].
        -- by rewrite decide_True by (by right).
        -- by rewrite decide_False by (intros [?|?]%elem_of_cons; done).
    + by rewrite Htr, present_pages_cons, Hlk.
    + by rewrite Hfree, present_pages_cons, Hlk.
Qed.

(** The freeing loop of Resize. *)
Lemma resize_free_fold l : ∀ k,
  NoDup l → Forall (λ x, x mod PAGE_SIZE = 0) l →
  ∃ k', fold_pages resize_free_page l k = Ret k' ∧ freed l k k'.
Proof.
  induction l as [|x l IH]; intros k Hnd Hal; cbn [fold_pages].
  - exists k. split; [done|apply freed_nil].
  - apply NoDup_cons in Hnd as [Hx Hnd]. apply Forall_cons in Hal as [Hxa Hal].
    change (resize_free_page x k) with (Ret (snd (VmPageList_FreePage x k))).
    rewrite outcome_bind_Ret.
    destruct (IH (snd (VmPageList_FreePage x k)) Hnd Hal) as (k' & Hrun & Hfreed).
    exists k'. split; [done|]. by eapply freed_cons.
Qed.

Lemma present_pages_length_le (pl : gmap Z Z) l :
  (length (present_pages pl l) <= length l)%nat.
Proof.
  induction l as [|x l IH]; [done|]. rewrite present_pages_cons.
  destruct (pl !! x); simpl; lia.
Qed.

(** The freeing loop of DecommitRange: the counter grows by one page for
    every page that was present. *)
Lemma decommit_fold l : ∀ k v,
  NoDup l → Forall (λ x, x mod PAGE_SIZE = 0) l →
  0 <= v → v + PAGE_SIZE * Z.of_nat (length l) < u64_modulus →
  ∃ k', freed l k k' ∧
    (fold_pages decommit_page l (None, k) = Ret (None, k')) ∧
    (fold_pages decommit_page l (Some v, k)
     = Ret (Some (v + PAGE_SIZE * Z.of_nat (length (present_pages (page_list_ (vmo k)) l))),
            k')).
Proof.
  pose proof PAGE_SIZE_pos as Hp.
  induction l as [|x l IH]; intros k v Hnd Hal Hv Hfit; cbn [fold_pages].
  - exists k. split; [apply freed_nil|]. split; [done|]. cbn. do 3 f_equal. lia.
  - apply NoDup_cons in Hnd as [Hx Hnd]. apply Forall_cons in Hal as [Hxa Hal].
    cbn [length] in Hfit.
    set (one := match page_list_ (vmo k) !! x with Some _ => 1 | None => 0 end).
    assert (decommit_page x (None, k) = Ret (None, snd (VmPageList_FreePage x k))) as Hn1.
    { unfold decommit_page. by destruct (VmPageList_FreePage x k) as [[] k1]. }
    assert (decommit_page x (Some v, k)
            = Ret (Some (v + PAGE_SIZE * one), snd (VmPageList_FreePage x k))) as Hs1.
    { unfold decommit_page, one. rewrite FreePage_aligned by done.
      destruct (page_list_ (vmo k) !! x); cbn.
      - rewrite u64_small by nia. do 3 f_equal. lia.
      - do 3 f_equal. lia. }
    rewrite Hn1, Hs1, !outcome_bind_Ret.
    assert (0 <= one <= 1) by (unfold one; destruct (page_list_ (vmo k) !! x); lia).
    destruct (IH (snd (VmPageList_FreePage x k)) (v + PAGE_SIZE * one) Hnd Hal)
      as (k' & Hfreed & Hn & Hs); [nia|nia|].
    exists k'. split; [by eapply freed_cons|]. split; [done|].
    rewrite Hs, FreePage_page_list, present_pages_delete by done.
    rewrite present_pages_cons. unfold one.
    destruct (page_list_ (vmo k) !! x); cbn [length]; do 3 f_equal; lia.
Qed.

Lemma pages_from_length n : ∀ first, length (pages_from first n) = n.
Proof. induction n as [|n IH]; intros first; simpl; [done|]. by rewrite IH. Qed.

Lemma pages_between_length start end_ :
  start mod PAGE_SIZE = 0 → end_ mod PAGE_SIZE = 0 → start <= end_ →
  PAGE_SIZE * Z.of_nat (length (pages_between start end_)) = end_ - start.
Proof.
  intros Hs He Hle. pose proof PAGE_SIZE_pos as Hp. unfold pages_between.
  rewrite pages_from_length. pose proof (aligned_diff_div _ _ Hs He) as Hdiv.
  assert (0 <= (end_ - start) / PAGE_SIZE) by (apply Z.div_pos; lia). lia.
Qed.

Lemma pages_between_NoDup start end_ : NoDup (pages_between start end_).
Proof. apply pages_from_NoDup. Qed.

Lemma pages_between_aligned start end_ :
  start mod PAGE_SIZE = 0 → Forall (λ x, x mod PAGE_SIZE = 0) (pages_between start end_).
Proof.
  intros Hs. apply Forall_forall. intros x Hx. by eapply pages_from_aligned.
Qed.

Lemma for_pages_aligned (St : Type) (body : Z → St → outcome St) start end_ s :
  by_page body →
  0 <= start → start mod PAGE_SIZE = 0 →
  end_ mod PAGE_SIZE = 0 → start <= end_ → end_ + PAGE_SIZE <= u64_modulus →
  for_pages (pages_fuel start end_) start end_ body s
  = fold_pages body (pages_between start end_) s.
Proof.
  intros Hbody Hs Hal He Hle Hfit. pose proof PAGE_SIZE_pos as Hp.
  pose proof (for_pages_between St body start 0 end_ s Hbody) as Hfb.
  rewrite Z.add_0_r in Hfb. apply Hfb; (done || lia).
Qed.

Lemma round_up_fits x :
  x <= u64_modulus - PAGE_SIZE → round_up_page x + PAGE_SIZE <= u64_modulus.
Proof.
  intros Hx. pose proof PAGE_SIZE_pos as Hp. destruct (round_up_spec x) as [H1 H2].
  apply aligned_gap; [done|done|apply u64_modulus_aligned|lia].
Qed.

(** The two DEBUG_ASSERTs of DecommitRange, [end > offset] and [end > start],
    hold for every range it gets past the trim with a non-empty length. *)
Lemma DecommitRange_debug_asserts offset len :
  0 <= offset → 0 < len → offset + len <= MAX_SIZE →
  offset < ROUNDUP_PAGE_SIZE (u64 (offset + len)) ∧
  PAGE_ALIGN offset < ROUNDUP_PAGE_SIZE (u64 (offset + len)).
Proof.
  intros Ho Hl Hin. pose proof max_size_range as Hmax. pose proof PAGE_SIZE_pos as Hp.
  rewrite u64_small by (unfold u64_modulus in *; lia).
  rewrite ROUNDUP_round_up, PAGE_ALIGN_round_down by lia.
  destruct (round_down_spec offset), (round_up_spec (offset + len)). lia.
Qed.

(** DecommitRange past the trim: the regions are asked to unmap the page
    range, then the pages of the range are freed one by one. *)
Lemma DecommitRange_run k offset len len' decommitted :
  size_ok k → 0 <= offset → 0 <= len →
  TrimRange offset len (size_ (vmo k)) = Some len' → len' ≠ 0 →
  let start := round_down_page offset in
  let end_ := round_up_page (offset + len') in
  let l := pages_between start end_ in
  start <= offset ∧ offset + len' <= end_ ∧
  ∃ k',
    DecommitRange offset len decommitted k
    = Ret (NO_ERROR,
           (λ _, PAGE_SIZE * Z.of_nat (length (present_pages (page_list_ (vmo k)) l)))
             <$> decommitted, k') ∧
    freed l (unmap_all_regions start (end_ - start) k) k'.
Proof.
  intros Hsize Ho Hl Htrim Hne start end_ l.
  pose proof max_size_range as Hmax. pose proof PAGE_SIZE_pos as Hp.
  destruct (TrimRange_Some _ _ _ _ Ho Hl Htrim) as [Hl' Hin].
  unfold size_ok in Hsize.
  destruct (round_down_spec offset) as [Hd1 Hd2].
  destruct (round_up_spec (offset + len')) as [Hu1 Hu2].
  fold start in Hd1, Hd2. fold end_ in Hu1, Hu2.
  assert (0 <= start) as Hs0.
  { unfold start, round_down_page. pose proof (Z.mod_le offset PAGE_SIZE). lia. }
  assert (end_ + PAGE_SIZE <= u64_modulus) as Hfit by (apply round_up_fits; lia).
  split; [lia|]. split; [lia|].
  unfold DecommitRange. rewrite Htrim.
  destruct (Z.eqb_spec len' 0) as [|_]; [done|].
  rewrite PAGE_ALIGN_round_down. fold start.
  rewrite (u64_small (offset + len')) by (unfold u64_modulus in *; lia).
  rewrite ROUNDUP_round_up by lia. fold end_.
  rewrite (u64_small (end_ - start)) by (unfold u64_modulus in *; lia).
  rewrite for_pages_aligned by (done || lia || apply decommit_page_by_page).
  fold l. set (k0 := unmap_all_regions start (end_ - start) k).
  destruct (decommit_fold l k0 0) as (k' & Hfreed & Hn & Hs).
  { apply pages_between_NoDup. }
  { by apply pages_between_aligned. }
  { lia. }
  { unfold l. rewrite pages_between_length by (done || lia). lia. }
  exists k'. split; [|done].
  destruct decommitted as [v|]; cbn [counter_zero fmap option_fmap option_map].
  - rewrite Hs, outcome_bind_Ret. cbn. do 3 f_equal.
  - by rewrite Hn, outcome_bind_Ret.
Qed.

(** Resize within MAX_SIZE: when whole pages fall off the end, the regions
    are asked to unmap them and they are freed one by one; then the size is
    set. *)
Lemma Resize_run k s :
  size_ok k → 0 <= s <= MAX_SIZE →
  let start := round_up_page s in
  let end_ := round_up_page (size_ (vmo k)) in
  ∃ k',
    Resize s k = Ret (NO_ERROR, with_size s k') ∧
    freed (pages_between start end_)
          (if decide (start < end_) then unmap_all_regions start (end_ - start) k else k) k'.
Proof.
  intros Hsize Hs start end_.
  pose proof max_size_range as Hmax. pose proof PAGE_SIZE_pos as Hp.
  unfold size_ok in Hsize. unfold Resize.
  destruct (Z.ltb_spec MAX_SIZE s) as [|_]; [lia|].
  destruct (round_up_spec s) as [Hs1 Hs2]. fold start in Hs1, Hs2.
  destruct (round_up_spec (size_ (vmo k))) as [He1 He2]. fold end_ in He1, He2.
  assert (end_ <= start → pages_between start end_ = []) as Hnil.
  { intros Hle. unfold pages_between.
    rewrite Z2Nat.nonpos; [done|]. apply Z.div_le_upper_bound; lia. }
  destruct (Z.ltb_spec s (size_ (vmo k))) as [Hshrink|Hgrow].
  2:{ rewrite outcome_bind_Ret. exists k. split; [done|].
      assert (end_ <= start) as Hle by (apply round_up_mono; lia).
      rewrite decide_False by lia. rewrite Hnil by done. apply freed_nil. }
  rewrite !ROUNDUP_round_up by lia. fold start end_.
  assert (start <= end_) as Hle by (apply round_up_mono; lia).
  assert (end_ + PAGE_SIZE <= u64_modulus) as Hfit by (apply round_up_fits; lia).
  rewrite (u64_small (end_ - start)) by (unfold u64_modulus in *; lia).
  destruct (Z.ltb_spec 0 (end_ - start)) as [Hlt|Heq].
  - rewrite for_pages_aligned by (done || lia || apply resize_free_page_by_page).
    rewrite decide_True by lia.
    destruct (resize_free_fold (pages_between start end_)
                (unmap_all_regions start (end_ - start) k)) as (k' & Hrun & Hfreed).
    { apply pages_between_NoDup. }
    { by apply pages_between_aligned. }
    rewrite Hrun, outcome_bind_Ret. by exists k'.
  - rewrite outcome_bind_Ret. exists k. split; [done|].
    rewrite decide_False by lia. rewrite Hnil by lia. apply freed_nil.
Qed.

(** C5. DecommitRange over a range that the trim accepts with a non-empty
    length: with [start = round_down_page(offset)] and
    [end = round_up_page(offset+len)], it first asks every region of the
    region list to unmap [start, end-start), then frees, in ascending order,
    every page the page list holds at a page offset of [start, end); the
    counter reports PAGE_SIZE for each freed page and absent pages are
    skipped.  Pages outside the range stay; the page that contains [offset],
    even if only partly covered, is gone. *)
Theorem DecommitRange_frees_range
    (k : kernel) (offset len len' : Z) (decommitted : option Z) :
  size_ok k → 0 <= offset → 0 <= len →
  TrimRange offset len (size_ (vmo k)) = Some len' → len' ≠ 0 →
  let start := round_down_page offset in
  let end_ := round_up_page (offset + len') in
  let freed_pages := present_pages (page_list_ (vmo k)) (pages_between start end_) in
  ∃ k',
    DecommitRange offset len decommitted k
    = Ret (NO_ERROR,
           (λ _, PAGE_SIZE * Z.of_nat (length freed_pages)) <$> decommitted, k') ∧
    trace k'
    = trace k
      ++ map (λ r, EvUnmapVmoRange r start (end_ - start)) (region_list_ (vmo k))
      ++ map (λ p, EvPmmFree [p]) freed_pages ∧
    (∀ x, page_list_ (vmo k') !! x
          = if decide (x mod PAGE_SIZE = 0 ∧ start <= x < end_) then None
            else page_list_ (vmo k) !! x) ∧
    page_list_ (vmo k') !! round_down_page offset = None ∧
    size_ (vmo k') = size_ (vmo k) ∧
    region_list_ (vmo k') = region_list_ (vmo k) ∧
    kmem k' = kmem k ∧
    free_list (pmm k') = reverse freed_pages ++ free_list (pmm k).
Proof.
  intros Hsize Ho Hl Htrim Hne start end_ freed_pages.
  pose proof max_size_range as Hmax. pose proof PAGE_SIZE_pos as Hp.
  destruct (TrimRange_Some _ _ _ _ Ho Hl Htrim) as [Hl' Hin].
  unfold size_ok in Hsize.
  destruct (round_down_spec offset) as [Hd1 Hd2].
  destruct (round_up_spec (offset + len')) as [Hu1 Hu2].
  fold start in Hd1, Hd2. fold end_ in Hu1, Hu2.
  assert (0 <= start) as Hs0.
  { unfold start, round_down_page. pose proof (Z.mod_le offset PAGE_SIZE). lia. }
  assert (end_ + PAGE_SIZE <= u64_modulus) as Hfit by (apply round_up_fits; lia).
  unfold DecommitRange. rewrite Htrim.
  destruct (Z.eqb_spec len' 0) as [|_]; [done|].
  rewrite PAGE_ALIGN_round_down. fold start.
  rewrite (u64_small (offset + len')) by (unfold u64_modulus in *; lia).
  rewrite ROUNDUP_round_up by lia. fold end_.
  rewrite (u64_small (end_ - start)) by (unfold u64_modulus in *; lia).
  rewrite for_pages_aligned by (done || lia || apply decommit_page_by_page).
  set (k0 := unmap_all_regions start (end_ - start) k).
  destruct (decommit_fold (pages_between start end_) k0 0) as (k' & Hfreed & Hn & Hs).
  { apply pages_between_NoDup. }
  { by apply pages_between_aligned. }
  { lia. }
  { rewrite pages_between_length by (done || lia). lia. }
  destruct Hfreed as (Hsz & Hfl & Hrg & Hmem & Hpl & Htr & Hfree).
  assert (∀ x, page_list_ (vmo k') !! x
          = if decide (x mod PAGE_SIZE = 0 ∧ start <= x < end_) then None
            else page_list_ (vmo k) !! x) as Hpl'.
  { intros x. rewrite Hpl. cbn.
    destruct (decide (x ∈ pages_between start end_)) as [Hin'|Hnin].
    - rewrite decide_True; [done|]. by apply pages_between_spec.
    - rewrite decide_False; [done|]. intros ?. apply Hnin. by apply pages_between_spec. }
  exists k'. split.
  { destruct decommitted as [v|]; cbn [counter_zero fmap option_fmap option_map].
    - rewrite Hs, outcome_bind_Ret. cbn. do 3 f_equal.
    - by rewrite Hn, outcome_bind_Ret. }
  split. { rewrite Htr. cbn. by rewrite <- app_assoc. }
  split; [done|].
  split. { rewrite Hpl'. fold start. rewrite decide_True; [done|]. lia. }
  done.
Qed.

(** C2. Resize.  It fails with ERR_OUT_OF_RANGE exactly when [s > MAX_SIZE],
    and then changes nothing.  Growing (or keeping) the size changes only the
    size field: no allocator call, no page.  Shrinking, with
    [start = round_up_page(s)] and [end = round_up_page(old_size)]: if
    [end > start] every region of the region list is asked to unmap
    [start, end-start) before the pages are freed, and afterwards no page
    remains at an offset [>= start], while the pages below [start] stay. *)
Theorem Resize_spec (k : kernel) (s : Z) :
  size_ok k → page_list_inv k → 0 <= s →
  let old_size := size_ (vmo k) in
  let start := round_up_page s in
  let end_ := round_up_page old_size in
  ∃ st k',
    Resize s k = Ret (st, k') ∧
    (st = ERR_OUT_OF_RANGE ↔ MAX_SIZE < s) ∧
    (MAX_SIZE < s → k' = k) ∧
    (s <= MAX_SIZE → st = NO_ERROR ∧ size_ (vmo k') = s) ∧
    (old_size <= s <= MAX_SIZE → k' = with_size s k) ∧
    (s < old_size →
       (start < end_ →
          trace k'
          = trace k
            ++ map (λ r, EvUnmapVmoRange r start (end_ - start)) (region_list_ (vmo k))
            ++ map (λ p, EvPmmFree [p])
                   (present_pages (page_list_ (vmo k)) (pages_between start end_))) ∧
       (∀ x p, page_list_ (vmo k') !! x = Some p →
               x < start ∧ page_list_ (vmo k) !! x = Some p) ∧
       (∀ x, x < start → page_list_ (vmo k') !! x = page_list_ (vmo k) !! x)).
Proof.
  intros Hsize Hinv Hs old_size start end_.
  pose proof max_size_range as Hmax. pose proof PAGE_SIZE_pos as Hp.
  unfold size_ok in Hsize. fold old_size in Hsize.
  unfold Resize.
  destruct (Z.ltb_spec MAX_SIZE s) as [Hbig|Hok].
  { exists ERR_OUT_OF_RANGE, k. repeat split; try done; try lia. }
  fold old_size.
  destruct (Z.ltb_spec s old_size) as [Hshrink|Hgrow].
  2:{ rewrite outcome_bind_Ret. exists NO_ERROR, (with_size s k).
      repeat split; try done; try lia. }
  rewrite !ROUNDUP_round_up by lia. fold start end_.
  destruct (round_up_spec s) as [Hs1 Hs2]. fold start in Hs1, Hs2.
  destruct (round_up_spec old_size) as [He1 He2]. fold end_ in He1, He2.
  assert (start <= end_) as Hle by (apply round_up_mono; lia).
  assert (end_ + PAGE_SIZE <= u64_modulus) as Hfit by (apply round_up_fits; lia).
  rewrite (u64_small (end_ - start)) by (unfold u64_modulus in *; lia).
  destruct (Z.ltb_spec 0 (end_ - start)) as [Hlt|Heq].
  - rewrite for_pages_aligned by (done || lia || apply resize_free_page_by_page).
    set (k0 := unmap_all_regions start (end_ - start) k).
    destruct (resize_free_fold (pages_between start end_) k0) as (k' & Hrun & Hfreed).
    { apply pages_between_NoDup. }
    { by apply pages_between_aligned. }
    rewrite Hrun, outcome_bind_Ret.
    destruct Hfreed as (Hsz & Hfl & Hrg & Hmem & Hpl & Htr & Hfree).
    exists NO_ERROR, (with_size s k'). split; [done|].
    split; [split; [done|lia]|]. split; [lia|]. split; [done|]. split; [lia|].
    intros _. split; [|split].
    + intros _. cbn. rewrite Htr. cbn. by rewrite <- app_assoc.
    + intros x p. cbn. rewrite Hpl. cbn.
      destruct (decide (x ∈ pages_between start end_)) as [|Hnin]; [done|].
      intros Hlk. split; [|done].
      destruct (Hinv x p Hlk) as [Hxa Hxr]. fold old_size end_ in Hxr.
      destruct (Z.lt_ge_cases x start) as [|Hge]; [done|].
      exfalso. apply Hnin. apply pages_between_spec; [done..|]. lia.
    + intros x Hx. cbn. rewrite Hpl. cbn.
      rewrite decide_False; [done|].
      intros Hin%pages_between_spec; [lia|done..].
  - rewrite outcome_bind_Ret. exists NO_ERROR, (with_size s k). split; [done|].
    split; [split; [done|lia]|]. split; [lia|]. split; [done|]. split; [lia|].
    intros _. split; [lia|]. split; [|done].
    intros x p Hlk. split; [|done].
    destruct (Hinv x p Hlk) as [Hxa Hxr]. fold old_size end_ in Hxr. lia.
Qed.

End Free.

(** ** Faulting a page in *)

Section Fault.
Context `{HP : Platform} {HOk : PlatformOk}.

Lemma with_pmm_same k : with_pmm (pmm k) k = k.
Proof. by destruct k. Qed.

(** The four ways FaultPageLocked can go. *)
Lemma FaultPageLocked_cases offset pf_flags k :
  let key := round_down_page offset in
  let flags := pmm_alloc_flags_ (vmo k) in
  (size_ (vmo k) <= offset ∧ FaultPageLocked offset pf_flags k = (None, k)) ∨
  (offset < size_ (vmo k) ∧
   ∃ p, page_list_ (vmo k) !! key = Some p ∧
        FaultPageLocked offset pf_flags k = (Some p, k)) ∨
  (offset < size_ (vmo k) ∧ page_list_ (vmo k) !! key = None ∧
   free_list (pmm k) = [] ∧
   FaultPageLocked offset pf_flags k = (None, log [EvPmmAllocPage flags None] k)) ∨
  (offset < size_ (vmo k) ∧ page_list_ (vmo k) !! key = None ∧
   ∃ p rest, free_list (pmm k) = p :: rest ∧
     FaultPageLocked offset pf_flags k
     = (Some p,
        mk_kernel
          (mk_vmo (size_ (vmo k)) flags (<[key := p]> (page_list_ (vmo k)))
                  (region_list_ (vmo k)))
          (mk_pmm rest (<[p := VM_PAGE_STATE_OBJECT]> (page_state (pmm k))))
          (arch_zero_page (paddr_to_kvaddr (vm_page_to_paddr p)) (kmem k))
          (trace k ++ [EvPmmAllocPage flags (Some p)]))).
Proof.
  intros key flags. unfold FaultPageLocked.
  destruct (Z.leb_spec (size_ (vmo k)) offset) as [Hge|Hlt]; [by left|right].
  rewrite GetPage_lookup. fold key.
  destruct (page_list_ (vmo k) !! key) as [p|] eqn:Hlk; [left; eauto|right].
  unfold pmm_alloc_page.
  destruct (free_list (pmm k)) as [|p rest] eqn:Hfree.
  - left. split; [done|]. split; [done|]. split; [done|]. by rewrite with_pmm_same.
  - right. split; [done|]. split; [done|]. exists p, rest. split; [done|].
    unfold VmPageList_AddPage. rewrite ROUNDDOWN_round_down. fold key.
    cbn. rewrite Hlk. done.
Qed.

(** Faulting keeps the pages that are there, the size and the regions. *)
Lemma FaultPageLocked_keeps offset pf_flags k r k' :
  FaultPageLocked offset pf_flags k = (r, k') →
  size_ (vmo k') = size_ (vmo k) ∧
  region_list_ (vmo k') = region_list_ (vmo k) ∧
  pmm_alloc_flags_ (vmo k') = pmm_alloc_flags_ (vmo k) ∧
  (∀ x p, page_list_ (vmo k) !! x = Some p → page_list_ (vmo k') !! x = Some p) ∧
  (∀ p, r = Some p → page_list_ (vmo k') !! round_down_page offset = Some p) ∧
  (∀ x p, page_list_ (vmo k') !! x = Some p →
          page_list_ (vmo k) !! x = Some p ∨
          (x = round_down_page offset ∧ offset < size_ (vmo k))).
Proof.
  intros Hrun.
  destruct (FaultPageLocked_cases offset pf_flags k)
    as [[_ Heq]|[(_ & p & Hlk & Heq)|[(_ & Hlk & _ & Heq)|(Hlt & Hlk & p & rest & _ & Heq)]]];
    rewrite Heq in Hrun; injection Hrun as <- <-; cbn.
  - repeat split; try done. by left.
  - repeat split; try done; [by intros ? [= <-]|by left].
  - repeat split; try done. by left.
  - repeat split; try done.
    + intros x q Hx. rewrite lookup_insert_ne; [done|]. intros <-. congruence.
    + intros ? [= <-]. apply lookup_insert_eq.
    + intros x q. destruct (decide (round_down_page offset = x)) as [<-|Hne].
      * by right.
      * rewrite lookup_insert_ne by done. by left.
Qed.

Lemma FaultPageLocked_inv offset pf_flags k r k' :
  0 <= offset → size_ok k → page_list_inv k →
  FaultPageLocked offset pf_flags k = (r, k') →
  size_ok k' ∧ page_list_inv k'.
Proof.
  intros Ho Hsize Hinv Hrun.
  destruct (FaultPageLocked_keeps _ _ _ _ _ Hrun) as (Hsz & _ & _ & _ & _ & Hnew).
  unfold size_ok, page_list_inv in *. rewrite Hsz. split; [done|].
  intros x p Hlk. destruct (Hnew x p Hlk) as [Hold|[-> Hlt]]; [exact (Hinv x p Hold)|].
  destruct (round_down_spec offset) as [H1 H2].
  destruct (round_up_spec (size_ (vmo k))) as [H3 H4].
  split; [done|]. split; [|lia].
  unfold round_down_page. pose proof PAGE_SIZE_pos. pose proof (Z.mod_le offset PAGE_SIZE). lia.
Qed.

End Fault.

(** ** The copy loop *)

Section CopyLoop.
Context `{HP : Platform} {HOk : PlatformOk}.
Context {B : Type} (copyfunc : copy_routine B) (write : bool).

(** One round of the loop, when there is something left to copy. *)
Lemma rw_loop_step fuel offset len dest_offset bytes_copied b k :
  0 < len →
  rw_loop (S fuel) offset len dest_offset bytes_copied write copyfunc b k
  = let page_offset := offset mod PAGE_SIZE in
    let tocopy := MIN (PAGE_SIZE - page_offset) len in
    match FaultPageLocked offset (pf_flags_of write) k with
    | (None, k) => Ret (ERR_NO_MEMORY, bytes_copied, b, k)
    | (Some p, k) =>
        let '(err, (m, b)) :=
          copyfunc (paddr_to_kvaddr (vm_page_to_paddr p) + page_offset) dest_offset tocopy
                   (kmem k, b) in
        if status_lt0 err then Ret (err, bytes_copied, b, with_kmem m k)
        else
          rw_loop fuel (u64 (offset + tocopy)) (u64 (len - tocopy))
                  (u64 (dest_offset + tocopy)) (counter_add tocopy bytes_copied)
                  write copyfunc b (with_kmem m k)
    end.
Proof.
  intros Hl. cbn [rw_loop]. destruct (Z.ltb_spec 0 len); [|lia]. done.
Qed.

Lemma rw_loop_done fuel offset len dest_offset bytes_copied b k :
  len <= 0 →
  rw_loop (S fuel) offset len dest_offset bytes_copied write copyfunc b k
  = Ret (NO_ERROR, bytes_copied, b, k).
Proof.
  intros Hl. cbn [rw_loop]. destruct (Z.ltb_spec 0 len); [lia|done].
Qed.

Lemma tocopy_range offset len :
  0 < len →
  let tocopy := MIN (PAGE_SIZE - offset mod PAGE_SIZE) len in
  0 < tocopy <= len ∧ tocopy <= PAGE_SIZE - offset mod PAGE_SIZE.
Proof.
  intros Hl. pose proof PAGE_SIZE_pos as Hp. pose proof (mod_bounds _ Hp offset).
  unfold MIN. cbn. destruct (Z.ltb_spec (PAGE_SIZE - offset mod PAGE_SIZE) len); lia.
Qed.

(** More fuel does not change a result. *)
Lemma rw_loop_fuel_S fuel : ∀ offset len dest_offset bytes_copied b k r,
  rw_loop fuel offset len dest_offset bytes_copied write copyfunc b k = r →
  r ≠ Diverge →
  rw_loop (S fuel) offset len dest_offset bytes_copied write copyfunc b k = r.
Proof.
  induction fuel as [|fuel IH]; intros offset len dest bc b k r Hrun Hr.
  - cbn in Hrun. congruence.
  - destruct (Z.lt_ge_cases 0 len) as [Hl|Hl].
    + rewrite rw_loop_step in * by done. cbn zeta in *.
      destruct (FaultPageLocked offset (pf_flags_of write) k) as [[p|] k1]; [|done].
      destruct (copyfunc _ _ _ _) as [err [m b1]].
      destruct (status_lt0 err); [done|]. by apply IH.
    + rewrite rw_loop_done in * by lia. done.
Qed.

Lemma rw_loop_fuel_le fuel fuel' offset len dest_offset bytes_copied b k r :
  rw_loop fuel offset len dest_offset bytes_copied write copyfunc b k = r →
  r ≠ Diverge → (fuel <= fuel')%nat →
  rw_loop fuel' offset len dest_offset bytes_copied write copyfunc b k = r.
Proof.
  intros Hrun Hr Hle. induction Hle as [|fuel' Hle IH]; [done|].
  by apply rw_loop_fuel_S.
Qed.

(** The loop stops within its fuel, never stops the kernel, and keeps the
    size bound and the page list invariant. *)
Lemma rw_loop_runs fuel : ∀ offset len dest_offset bytes_copied b k,
  0 <= offset → 0 <= len → offset + len < u64_modulus →
  (0 < fuel)%nat →
  (0 < len → offset mod PAGE_SIZE + len <= (Z.of_nat fuel - 1) * PAGE_SIZE) →
  size_ok k → page_list_inv k →
  ∃ st bc' b' k',
    rw_loop fuel offset len dest_offset bytes_copied write copyfunc b k
    = Ret (st, bc', b', k') ∧
    size_ok k' ∧ page_list_inv k' ∧ size_ (vmo k') = size_ (vmo k).
Proof.
  pose proof PAGE_SIZE_pos as Hp.
  induction fuel as [|fuel IH]; intros offset len dest bc b k Ho Hl Hfit Hf Hm Hsize Hinv;
    [lia|].
  destruct (Z.lt_ge_cases 0 len) as [Hpos|Hz].
  - rewrite rw_loop_step by done. cbn zeta.
    destruct (tocopy_range offset len Hpos) as [Ht1 Ht2].
    set (tocopy := MIN (PAGE_SIZE - offset mod PAGE_SIZE) len) in *.
    destruct (FaultPageLocked offset (pf_flags_of write) k) as [r k1] eqn:Hfault.
    destruct (FaultPageLocked_inv _ _ _ _ _ Ho Hsize Hinv Hfault) as [Hsize1 Hinv1].
    destruct (FaultPageLocked_keeps _ _ _ _ _ Hfault) as (Hsz1 & _).
    destruct r as [p|]; [|by eauto 10].
    destruct (copyfunc _ _ _ _) as [err [m b1]].
    destruct (status_lt0 err); [by eauto 10|].
    specialize (Hm Hpos).
    rewrite (u64_small (offset + tocopy)), (u64_small (len - tocopy))
      by (unfold u64_modulus in *; lia).
    pose proof (mod_bounds _ Hp offset) as Hmo.
    destruct (IH (offset + tocopy) (len - tocopy) (u64 (dest + tocopy))
                 (counter_add tocopy bc) b1 (with_kmem m k1))
      as (st & bc' & b' & k' & Hrun & Hs' & Hi' & Hsz'); try done; try lia.
    + intros Hrest.
      assert (tocopy = PAGE_SIZE - offset mod PAGE_SIZE) as Htc.
      { unfold tocopy, MIN in *. destruct (Z.ltb_spec (PAGE_SIZE - offset mod PAGE_SIZE) len); lia. }
      assert ((offset + tocopy) mod PAGE_SIZE = 0) as ->.
      { rewrite Htc. replace (offset + (PAGE_SIZE - offset mod PAGE_SIZE))
          with ((offset - offset mod PAGE_SIZE) + PAGE_SIZE) by lia.
        rewrite mod_add_page by done. by apply aligned_sub_mod. }
      lia.
    + exists st, bc', b', k'. split; [done|]. split; [done|]. split; [done|].
      cbn in Hsz'. congruence.
  - rewrite rw_loop_done by lia. by eauto 10.
Qed.

Lemma rw_fuel_enough offset len :
  0 <= len →
  (0 < rw_fuel len)%nat ∧
  offset mod PAGE_SIZE + len <= (Z.of_nat (rw_fuel len) - 1) * PAGE_SIZE.
Proof.
  intros Hl. pose proof PAGE_SIZE_pos as Hp. pose proof (mod_bounds _ Hp offset).
  unfold rw_fuel. split; [lia|].
  assert (0 <= len / PAGE_SIZE) by (apply Z.div_pos; lia).
  pose proof (Z.div_mod len PAGE_SIZE). pose proof (mod_bounds _ Hp len).
  rewrite Nat2Z.inj_add, Z2Nat.id by done. nia.
Qed.

(** ReadWriteInternal returns, and keeps the invariant. *)
Lemma ReadWriteInternal_runs offset len bytes_copied b k :
  0 <= offset → 0 <= len → size_ok k → page_list_inv k →
  ∃ st bc' b' k',
    ReadWriteInternal offset len bytes_copied write copyfunc b k = Ret (st, bc', b', k') ∧
    size_ok k' ∧ page_list_inv k'.
Proof.
  intros Ho Hl Hsize Hinv. pose proof max_size_range as Hmax. pose proof PAGE_SIZE_pos.
  unfold ReadWriteInternal.
  destruct (TrimRange offset len (size_ (vmo k))) as [len'|] eqn:Htrim; [|by eauto 10].
  destruct (TrimRange_Some _ _ _ _ Ho Hl Htrim) as [Hl' Hin].
  destruct (Z.eqb_spec len' 0); [by eauto 10|].
  destruct (rw_fuel_enough offset len') as [Hf1 Hf2]; [lia|].
  destruct (rw_loop_runs (rw_fuel len') offset len' 0 (counter_zero bytes_copied) b k)
    as (st & bc' & b' & k' & Hrun & Hs' & Hi' & _); try done; try lia.
  - unfold size_ok in Hsize. lia.
  - by eauto 10.
Qed.

End CopyLoop.

(** ** Partial progress of a copy *)

Section PartialProgress.
Context `{HP : Platform} {HOk : PlatformOk}.
Context {B : Type} (copyfunc : copy_routine B) (write : bool).

(** A copy whose end falls on a page boundary is the beginning of any longer
    copy from the same offset. *)
Lemma rw_loop_prefix fuel : ∀ offset c rest dest_offset bc b k bc1 b1 k1 fuel' r,
  0 <= offset → 0 <= c → 0 < rest → offset + c + rest < u64_modulus →
  0 <= dest_offset → dest_offset + c < u64_modulus →
  (c = 0 ∨ (offset + c) mod PAGE_SIZE = 0) →
  rw_loop fuel offset c dest_offset bc write copyfunc b k = Ret (NO_ERROR, bc1, b1, k1) →
  rw_loop fuel' (offset + c) rest (dest_offset + c) bc1 write copyfunc b1 k1 = r →
  r ≠ Diverge →
  rw_loop (fuel + fuel') offset (c + rest) dest_offset bc write copyfunc b k = r.
Proof.
  pose proof PAGE_SIZE_pos as Hp.
  induction fuel as [|fuel IH];
    intros offset c rest dest bc b k bc1 b1 k1 fuel' r Ho Hc Hrest Hfit Hd Hdfit Hal Hpre Hpost Hr;
    [done|].
  destruct (Z.lt_ge_cases 0 c) as [Hpos|Hz].
  - destruct Hal as [->|Hal]; [lia|].
    replace (S fuel + fuel')%nat with (S (fuel + fuel')) by lia.
    rewrite rw_loop_step in Hpre by done. rewrite rw_loop_step by lia.
    cbn zeta in *.
    pose proof (mod_bounds _ Hp offset) as Hmo.
    assert (PAGE_SIZE - offset mod PAGE_SIZE <= c) as Hfull.
    { destruct (Z.le_gt_cases (PAGE_SIZE - offset mod PAGE_SIZE) c) as [|Hgt]; [done|].
      exfalso.
      assert (round_down_page (offset + c) = round_down_page offset) as Hsame.
      { apply round_down_unique; [apply round_down_spec|].
        unfold round_down_page. lia. }
      rewrite round_down_aligned in Hsame by done.
      unfold round_down_page in Hsame. lia. }
    assert (MIN (PAGE_SIZE - offset mod PAGE_SIZE) c = PAGE_SIZE - offset mod PAGE_SIZE) as Ht1.
    { unfold MIN. destruct (Z.ltb_spec (PAGE_SIZE - offset mod PAGE_SIZE) c); lia. }
    assert (MIN (PAGE_SIZE - offset mod PAGE_SIZE) (c + rest)
            = PAGE_SIZE - offset mod PAGE_SIZE) as Ht2.
    { unfold MIN. destruct (Z.ltb_spec (PAGE_SIZE - offset mod PAGE_SIZE) (c + rest)); lia. }
    rewrite Ht1 in Hpre. rewrite Ht2.
    set (t := PAGE_SIZE - offset mod PAGE_SIZE) in *.
    destruct (FaultPageLocked offset (pf_flags_of write) k) as [[p|] k0]; [|done].
    destruct (copyfunc _ _ _ _) as [err [m b0]].
    destruct (status_lt0 err) eqn:Herr.
    { injection Hpre as -> _ _ _. done. }
    rewrite (u64_small (offset + t)), (u64_small (c - t)), (u64_small (dest + t)) in Hpre
      by (unfold u64_modulus in *; lia).
    rewrite (u64_small (offset + t)), (u64_small (c + rest - t)), (u64_small (dest + t))
      by (unfold u64_modulus in *; lia).
    replace (c + rest - t) with ((c - t) + rest) by lia.
    eapply IH; [| | | | | | |exact Hpre| |exact Hr]; try lia.
    + destruct (Z.eq_dec (c - t) 0); [by left|right].
      by replace (offset + t + (c - t)) with (offset + c) by lia.
    + rewrite <- Hpost. f_equal; lia.
  - assert (c = 0) as -> by lia.
    rewrite rw_loop_done in Hpre by lia. injection Hpre as <- <- <-.
    rewrite !Z.add_0_r in Hpost. rewrite Z.add_0_l.
    eapply rw_loop_fuel_le; [exact Hpost|done|lia].
Qed.

(** The loop stops within its fuel. *)
Lemma rw_loop_terminates fuel : ∀ offset len dest_offset bc b k,
  0 <= offset → 0 <= len → offset + len < u64_modulus →
  (0 < fuel)%nat →
  (0 < len → offset mod PAGE_SIZE + len <= (Z.of_nat fuel - 1) * PAGE_SIZE) →
  rw_loop fuel offset len dest_offset bc write copyfunc b k ≠ Diverge.
Proof.
  pose proof PAGE_SIZE_pos as Hp.
  induction fuel as [|fuel IH]; intros offset len dest bc b k Ho Hl Hfit Hf Hm; [lia|].
  destruct (Z.lt_ge_cases 0 len) as [Hpos|Hz].
  - rewrite rw_loop_step by done. cbn zeta.
    destruct (tocopy_range offset len Hpos) as [Ht1 Ht2].
    set (tocopy := MIN (PAGE_SIZE - offset mod PAGE_SIZE) len) in *.
    destruct (FaultPageLocked offset (pf_flags_of write) k) as [[p|] k1]; [|done].
    destruct (copyfunc _ _ _ _) as [err [m b1]].
    destruct (status_lt0 err); [done|].
    specialize (Hm Hpos).
    rewrite (u64_small (offset + tocopy)), (u64_small (len - tocopy))
      by (unfold u64_modulus in *; lia).
    pose proof (mod_bounds _ Hp offset) as Hmo.
    apply IH; try lia.
    intros Hrest.
    assert (tocopy = PAGE_SIZE - offset mod PAGE_SIZE) as Htc.
    { unfold tocopy, MIN in *.
      destruct (Z.ltb_spec (PAGE_SIZE - offset mod PAGE_SIZE) len); lia. }
    assert ((offset + tocopy) mod PAGE_SIZE = 0) as ->.
    { rewrite Htc. replace (offset + (PAGE_SIZE - offset mod PAGE_SIZE))
        with ((offset - offset mod PAGE_SIZE) + PAGE_SIZE) by lia.
      rewrite mod_add_page by done. by apply aligned_sub_mod. }
    lia.
  - rewrite rw_loop_done by lia. done.
Qed.

(** Two runs that both stop agree. *)
Lemma rw_loop_fuel_agree fuel fuel' offset len dest_offset bc b k r :
  rw_loop fuel offset len dest_offset bc write copyfunc b k = r → r ≠ Diverge →
  rw_loop fuel' offset len dest_offset bc write copyfunc b k ≠ Diverge →
  rw_loop fuel' offset len dest_offset bc write copyfunc b k = r.
Proof.
  intros Hrun Hr Hterm.
  destruct (Nat.le_ge_cases fuel fuel') as [Hle|Hge].
  - by eapply rw_loop_fuel_le.
  - rewrite <- Hrun. symmetry. by eapply rw_loop_fuel_le.
Qed.

(** A copy that went through leaves the page of its last byte in the page
    list, keeps the size and reports the bytes it copied. *)
Lemma rw_loop_ok fuel : ∀ offset c dest_offset bc b k bc1 b1 k1,
  0 <= offset → 0 < c → offset + c < u64_modulus →
  (∀ v, bc = Some v → 0 <= v ∧ v + c < u64_modulus) →
  rw_loop fuel offset c dest_offset bc write copyfunc b k
  = Ret (NO_ERROR, bc1, b1, k1) →
  size_ (vmo k1) = size_ (vmo k) ∧
  is_Some (page_list_ (vmo k1) !! round_down_page (offset + c - 1)) ∧
  bc1 = (λ v, v + c) <$> bc.
Proof.
  pose proof PAGE_SIZE_pos as Hp.
  induction fuel as [|fuel IH]; intros offset c dest bc b k bc1 b1 k1 Ho Hc Hfit Hbc Hrun;
    [done|].
  rewrite rw_loop_step in Hrun by done. cbn zeta in Hrun.
  destruct (tocopy_range offset c Hc) as [Ht1 Ht2].
  set (t := MIN (PAGE_SIZE - offset mod PAGE_SIZE) c) in *.
  pose proof (mod_bounds _ Hp offset) as Hmo.
  destruct (FaultPageLocked offset (pf_flags_of write) k) as [[p|] k0] eqn:Hfault; [|done].
  destruct (FaultPageLocked_keeps _ _ _ _ _ Hfault) as (Hsz0 & _ & _ & _ & Hnew & _).
  destruct (copyfunc _ _ _ _) as [err [m b0]].
  destruct (status_lt0 err) eqn:Herr.
  { injection Hrun as -> _ _ _. done. }
  rewrite (u64_small (offset + t)), (u64_small (c - t)) in Hrun
    by (unfold u64_modulus in *; lia).
  assert (counter_add t bc = (λ v, v + t) <$> bc) as Hadd.
  { destruct bc as [v|]; [|done]. destruct (Hbc v eq_refl). cbn.
    rewrite u64_small by (unfold u64_modulus in *; lia). done. }
  rewrite Hadd in Hrun.
  destruct (Z.eq_dec (c - t) 0) as [Hlast|Hmore].
  - rewrite Hlast in Hrun. destruct fuel as [|fuel]; [done|].
    rewrite rw_loop_done in Hrun by lia. injection Hrun as <- <- <-.
    cbn. split; [done|]. split; [|destruct bc; cbn; f_equal; lia].
    assert (round_down_page (offset + c - 1) = round_down_page offset) as ->.
    { apply round_down_unique; [apply round_down_spec|].
      unfold round_down_page. lia. }
    rewrite (Hnew p eq_refl). by eexists.
  - apply IH in Hrun as (Hsz & Hpage & ->); try lia.
    + cbn in Hsz. split; [congruence|]. split; [|destruct bc; cbn; f_equal; lia].
      by replace (offset + t + (c - t) - 1) with (offset + c - 1) in Hpage by lia.
    + intros v Hv. destruct bc as [v0|]; [|done]. injection Hv as <-.
      destruct (Hbc v0 eq_refl). lia.
Qed.

(** The failing fault after a transfer: if ReadWriteInternal over the first
    [c] bytes of the range returns NO_ERROR and leaves buffer [b1] and kernel
    [k1], and FaultPageLocked then cannot provide the page at [offset + c],
    the call over the whole range returns ERR_NO_MEMORY, the counter holds
    [c], and the buffer and the kernel state are the ones the transfer of
    the [c] bytes left (the failed fault adds only its allocator call to the
    trace).  The failing chunk starts the range or a page. *)
Lemma rw_partial_progress
    (offset len len' c : Z) (bytes_copied bc1 : option Z) (b b1 : B) (k k1 : kernel) :
  size_ok k → 0 <= offset → 0 <= len →
  TrimRange offset len (size_ (vmo k)) = Some len' → 0 <= c < len' →
  ReadWriteInternal offset c bytes_copied write copyfunc b k = Ret (NO_ERROR, bc1, b1, k1) →
  fst (FaultPageLocked (offset + c) (pf_flags_of write) k1) = None →
  let k2 := snd (FaultPageLocked (offset + c) (pf_flags_of write) k1) in
  ReadWriteInternal offset len bytes_copied write copyfunc b k
  = Ret (ERR_NO_MEMORY, bc1, b1, k2) ∧
  bc1 = (λ _, c) <$> bytes_copied ∧
  (c = 0 ∨ (offset + c) mod PAGE_SIZE = 0) ∧
  vmo k2 = vmo k1 ∧ kmem k2 = kmem k1 ∧ pmm k2 = pmm k1.
Proof.
  intros Hsize Ho Hl Htrim Hc Hpre Hfault k2.
  pose proof max_size_range as Hmax. pose proof PAGE_SIZE_pos as Hp.
  destruct (TrimRange_Some _ _ _ _ Ho Hl Htrim) as [Hl' Hin].
  unfold size_ok in Hsize.
  assert (offset + len' < u64_modulus) as Hfit by lia.
  (* the failed fault: the page is missing and the allocator has nothing *)
  assert (vmo k2 = vmo k1 ∧ kmem k2 = kmem k1 ∧ pmm k2 = pmm k1 ∧
          (size_ (vmo k1) <= offset + c ∨
           page_list_ (vmo k1) !! round_down_page (offset + c) = None)) as (Hv2 & Hm2 & Hp2 & Hwhy).
  { subst k2.
    destruct (FaultPageLocked_cases (offset + c) (pf_flags_of write) k1)
      as [[Hge Heq]|[(_ & p & Hlk & Heq)|[(_ & Hlk & _ & Heq)|(_ & _ & p & rest & _ & Heq)]]];
      rewrite Heq in *; cbn in *; try done; auto. }
  (* the prefix *)
  unfold ReadWriteInternal in Hpre.
  rewrite TrimRange_in_range in Hpre by lia.
  unfold ReadWriteInternal. rewrite Htrim.
  destruct (Z.eqb_spec len' 0) as [|_]; [lia|].
  assert (∃ fuel,
    rw_loop fuel offset c 0 (counter_zero bytes_copied) write copyfunc b k
    = Ret (NO_ERROR, bc1, b1, k1)) as [fuel Hloop].
  { destruct (Z.eqb_spec c 0) as [->|_]; [|by eauto].
    exists 1%nat. rewrite rw_loop_done by lia. done. }
  assert (size_ (vmo k1) = size_ (vmo k) ∧ bc1 = (λ _, c) <$> bytes_copied ∧
          (c = 0 ∨ (offset + c) mod PAGE_SIZE = 0)) as (Hsz1 & Hbc & Hal).
  { destruct (Z.eq_dec c 0) as [->|Hnz].
    - destruct fuel as [|fuel]; [done|]. rewrite rw_loop_done in Hloop by lia.
      injection Hloop as <- <- <-. split; [done|]. split; [|by left].
      by destruct bytes_copied.
    - apply rw_loop_ok in Hloop as (Hsz1 & Hpage & ->); try lia.
      2:{ intros v Hv. destruct bytes_copied; [|done]. injection Hv as <-.
          unfold u64_modulus in *. lia. }
      split; [done|]. split; [by destruct bytes_copied; cbn; f_equal|].
      right.
      destruct (Z.eq_dec ((offset + c) mod PAGE_SIZE) 0) as [|Hna]; [done|]. exfalso.
      assert (round_down_page (offset + c) = round_down_page (offset + c - 1)) as Hsame.
      { symmetry. apply round_down_unique; [apply round_down_spec|].
        pose proof (mod_bounds _ Hp (offset + c)). unfold round_down_page. lia. }
      destruct Hwhy as [Hge|Hnone]; [lia|].
      rewrite Hsame in Hnone. destruct Hpage as [q Hq]. congruence. }
  split; [|done].
  assert (rw_loop (fuel + 1) offset (c + (len' - c)) 0 (counter_zero bytes_copied)
                  write copyfunc b k
          = Ret (ERR_NO_MEMORY, bc1, b1, k2)) as Hfull.
  { eapply (rw_loop_prefix fuel offset c (len' - c) 0 _ b k bc1 b1 k1 1%nat);
      [lia..|exact Hal|exact Hloop| |done].
    rewrite rw_loop_step by lia. cbn zeta. rewrite Z.add_0_l. subst k2.
    destruct (FaultPageLocked (offset + c) (pf_flags_of write) k1) as [r k3].
    cbn in Hfault. subst r. done. }
  replace (c + (len' - c)) with len' in Hfull by lia.
  eapply rw_loop_fuel_agree; [exact Hfull|done|].
  destruct (rw_fuel_enough offset len') as [Hf1 Hf2]; [lia|].
  apply rw_loop_terminates; lia.
Qed.

(** A copy that fails has counted whole chunks: the counter grew by the
    bytes of the chunks that went through, which end at a page boundary. *)
Lemma rw_loop_failure_counter fuel : ∀ offset len dest_offset bc b k st bc' b' k',
  0 <= offset → 0 <= len → offset + len < u64_modulus →
  (∀ v, bc = Some v → 0 <= v ∧ v + len < u64_modulus) →
  rw_loop fuel offset len dest_offset bc write copyfunc b k = Ret (st, bc', b', k') →
  st ≠ NO_ERROR →
  ∃ c, bc' = (λ v, v + c) <$> bc ∧ 0 <= c < len ∧
       (c = 0 ∨ (offset + c) mod PAGE_SIZE = 0).
Proof.
  pose proof PAGE_SIZE_pos as Hp.
  assert (∀ o : option Z, o = (λ v, v + 0) <$> o) as Hsame.
  { intros [v|]; cbn; [f_equal; lia|done]. }
  induction fuel as [|fuel IH];
    intros offset len dest bc b k st bc' b' k' Ho Hl Hfit Hbc Hrun Hst; [done|].
  destruct (Z.lt_ge_cases 0 len) as [Hpos|Hz].
  2:{ rewrite rw_loop_done in Hrun by lia. injection Hrun as <- _ _ _. done. }
  rewrite rw_loop_step in Hrun by done. cbn zeta in Hrun.
  destruct (tocopy_range offset len Hpos) as [Ht1 Ht2].
  set (t := MIN (PAGE_SIZE - offset mod PAGE_SIZE) len) in *.
  pose proof (mod_bounds _ Hp offset) as Hmo.
  destruct (FaultPageLocked offset (pf_flags_of write) k) as [[p|] k0].
  2:{ injection Hrun as _ <- _ _. exists 0. split; [apply Hsame|]. split; [lia|by left]. }
  destruct (copyfunc _ _ _ _) as [err [m b0]].
  destruct (status_lt0 err).
  { injection Hrun as _ <- _ _. exists 0. split; [apply Hsame|]. split; [lia|by left]. }
  rewrite (u64_small (offset + t)), (u64_small (len - t)) in Hrun
    by (unfold u64_modulus in *; lia).
  assert (counter_add t bc = (λ v, v + t) <$> bc) as Hadd.
  { destruct bc as [v|]; [|done]. destruct (Hbc v eq_refl). cbn.
    rewrite u64_small by (unfold u64_modulus in *; lia). done. }
  rewrite Hadd in Hrun.
  destruct (Z.eq_dec (len - t) 0) as [Hlast|Hmore].
  { rewrite Hlast in Hrun. destruct fuel as [|fuel]; [done|].
    rewrite rw_loop_done in Hrun by lia. injection Hrun as <- _ _ _. done. }
  assert (t = PAGE_SIZE - offset mod PAGE_SIZE) as Htc.
  { unfold t, MIN in *. destruct (Z.ltb_spec (PAGE_SIZE - offset mod PAGE_SIZE) len); lia. }
  apply IH in Hrun as (c' & -> & Hc' & Hal'); [|lia|lia|lia| |done].
  - exists (t + c'). split; [destruct bc; cbn; f_equal; lia|]. split; [lia|]. right.
    destruct Hal' as [->|Hal'].
    + rewrite Z.add_0_r, Htc.
      replace (offset + (PAGE_SIZE - offset mod PAGE_SIZE))
        with ((offset - offset mod PAGE_SIZE) + PAGE_SIZE) by lia.
      rewrite mod_add_page by done. by apply aligned_sub_mod.
    + by replace (offset + (t + c')) with (offset + t + c') by lia.
  - intros v Hv. destruct bc as [v0|]; [|done]. injection Hv as <-.
    destruct (Hbc v0 eq_refl). lia.
Qed.

(** Every failure of ReadWriteInternal leaves a counter that was set to zero
    first. *)
Lemma ReadWriteInternal_failure_counter offset len bytes_copied b k st bc' b' k' :
  size_ok k → 0 <= offset → 0 <= len →
  ReadWriteInternal offset len bytes_copied write copyfunc b k = Ret (st, bc', b', k') →
  st ≠ NO_ERROR →
  counts_chunks offset len bytes_copied bc'.
Proof.
  intros Hsize Ho Hl Hrun Hst. pose proof max_size_range as Hmax.
  pose proof PAGE_SIZE_pos as Hp. unfold size_ok in Hsize.
  unfold ReadWriteInternal in Hrun.
  destruct (TrimRange offset len (size_ (vmo k))) as [len'|] eqn:Htrim.
  2:{ injection Hrun as _ <- _ _. exists 0.
      split; [by destruct bytes_copied|]. split; [lia|by left]. }
  destruct (TrimRange_Some _ _ _ _ Ho Hl Htrim) as [Hl' Hin].
  destruct (Z.eqb_spec len' 0) as [|_]; [by injection Hrun as <- _ _ _|].
  apply rw_loop_failure_counter in Hrun as (c & -> & Hc & Hal); [|lia|lia|lia| |done].
  - exists c. split; [by destruct bytes_copied; cbn; f_equal|]. split; [lia|done].
  - intros v Hv. destruct bytes_copied; [|done]. injection Hv as <-.
    unfold u64_modulus in *. lia.
Qed.

End PartialProgress.

(** ** A pointer of the wrong address space *)

Section WrongPointer.
Context `{HP : Platform} {HOk : PlatformOk}.

(** C10 (amended).  ReadUser and WriteUser with a pointer that is not a
    user address return ERR_INVALID_ARGS and leave the kernel state (no page
    faulted in), the caller's buffer and the byte counter, at its prior
    value, as they were.  Read and Write with a pointer that is not a kernel
    address do the same in a build without debug assertions; in a build
    that implements them the kernel stops at the DEBUG_ASSERT_MSG that
    precedes the return.  With a pointer of the right kind the counter is
    set to zero before anything else: the result does not depend on the
    value the counter held, and when the call fails (range beyond the size,
    failing fault, failing copy) the counter holds the bytes of the whole
    chunks that went through, counted from zero. *)
Theorem wrong_pointer_rejected
    (kptr uptr offset len : Z) (bytes_copied : option Z)
    (out buf : list Z) (u : user_mem) (k : kernel) :
  is_kernel_address kptr = false → is_user_address uptr = false →
  ReadUser uptr u offset len bytes_copied k = Ret (ERR_INVALID_ARGS, bytes_copied, u, k) ∧
  WriteUser uptr u offset len bytes_copied k = Ret (ERR_INVALID_ARGS, bytes_copied, u, k) ∧
  Read kptr out offset len bytes_copied k
  = (if DEBUG_ASSERT_IMPLEMENTED then Panic
     else Ret (ERR_INVALID_ARGS, bytes_copied, out, k)) ∧
  Write kptr buf offset len bytes_copied k
  = (if DEBUG_ASSERT_IMPLEMENTED then Panic
     else Ret (ERR_INVALID_ARGS, bytes_copied, buf, k)) ∧
  (∀ ptr v v', is_kernel_address ptr = true →
     Read ptr out offset len (Some v) k = Read ptr out offset len (Some v') k ∧
     Write ptr buf offset len (Some v) k = Write ptr buf offset len (Some v') k) ∧
  (∀ ptr v v', is_user_address ptr = true →
     ReadUser ptr u offset len (Some v) k = ReadUser ptr u offset len (Some v') k ∧
     WriteUser ptr u offset len (Some v) k = WriteUser ptr u offset len (Some v') k) ∧
  (size_ok k → 0 <= offset → 0 <= len →
   ∀ ptr st bc', st ≠ NO_ERROR →
     (is_kernel_address ptr = true →
      (∀ out' k', Read ptr out offset len bytes_copied k = Ret (st, bc', out', k') →
                  counts_chunks offset len bytes_copied bc') ∧
      (∀ buf' k', Write ptr buf offset len bytes_copied k = Ret (st, bc', buf', k') →
                  counts_chunks offset len bytes_copied bc')) ∧
     (is_user_address ptr = true →
      (∀ u' k', ReadUser ptr u offset len bytes_copied k = Ret (st, bc', u', k') →
                counts_chunks offset len bytes_copied bc') ∧
      (∀ u' k', WriteUser ptr u offset len bytes_copied k = Ret (st, bc', u', k') →
                counts_chunks offset len bytes_copied bc'))).
Proof.
  intros Hk Hu. unfold Read, Write, ReadUser, WriteUser, DEBUG_ASSERT.
  rewrite Hk, Hu. cbn [negb]. rewrite andb_true_r.
  do 2 (split; [done|]).
  do 2 (split; [by destruct DEBUG_ASSERT_IMPLEMENTED|]).
  split; [intros ptr v v' Hptr; rewrite Hptr; by split|].
  split; [intros ptr v v' Hptr; rewrite Hptr; by split|].
  intros Hsize Ho Hl ptr st bc' Hst.
  split; intros Hptr; rewrite Hptr; cbn [negb];
    split; intros b' k' Hrun; by eapply ReadWriteInternal_failure_counter.
Qed.

End WrongPointer.

(** ** Cache operations *)

Section Cache.
Context `{HP : Platform} {HOk : PlatformOk}.

Lemma round_up_unique z y :
  y mod PAGE_SIZE = 0 → z <= y < z + PAGE_SIZE → round_up_page z = y.
Proof.
  intros Hy Hz. unfold round_up_page. apply round_down_unique; [done|lia].
Qed.

Lemma log_log evs1 evs2 k : log evs2 (log evs1 k) = log (evs1 ++ evs2) k.
Proof. unfold log. cbn. by rewrite <- app_assoc. Qed.

Lemma log_nil k : log [] k = k.
Proof. destruct k. unfold log. cbn. by rewrite app_nil_r. Qed.

Lemma cache_calls_expected_clip type pl offset len :
  cache_calls_expected type pl offset len
  = omap (cache_call type pl) (map (clip offset (offset + len)) (range_pages offset len)).
Proof.
  unfold cache_calls_expected, sub_ranges.
  apply list_omap_ext, Forall2_fmap, Forall_Forall2_diag, Forall_forall.
  intros x _. unfold clip, cache_call. done.
Qed.

Lemma clip_later o o' end_ n : ∀ first,
  o <= o' <= first →
  map (clip o end_) (pages_from first n) = map (clip o' end_) (pages_from first n).
Proof.
  pose proof PAGE_SIZE_pos as Hp.
  induction n as [|n IH]; intros first Hle; [done|].
  cbn [pages_from map]. rewrite IH by lia. f_equal.
  unfold clip. by rewrite !Z.max_r by lia.
Qed.

(** The loop of CacheOp makes, page after page, the calls that the
    specification asks for, and nothing else. *)
Lemma cache_loop_pages type n : ∀ x o fuel k end_,
  x mod PAGE_SIZE = 0 → 0 <= x <= o → o < x + PAGE_SIZE → o < end_ →
  x + (Z.of_nat n - 1) * PAGE_SIZE < end_ <= x + Z.of_nat n * PAGE_SIZE →
  end_ <= size_ (vmo k) → size_ (vmo k) <= MAX_SIZE →
  (n < fuel)%nat →
  cache_loop fuel o end_ type k
  = Ret (log (omap (cache_call type (page_list_ (vmo k)))
                   (map (clip o end_) (pages_from x n))) k).
Proof.
  pose proof PAGE_SIZE_pos as Hp. pose proof max_size_range as Hmax.
  induction n as [|n IH]; intros x o fuel k end_ Hx Hxo Hox Hoe Hn Hsz Hmx Hfuel.
  { exfalso. cbn in Hn. lia. }
  destruct fuel as [|fuel]; [lia|]. cbn [cache_loop].
  destruct (Z.eqb_spec o end_) as [|_]; [lia|].
  rewrite (u64_small (o + 1)) by (unfold u64_modulus in *; lia).
  assert (ROUNDUP (o + 1) PAGE_SIZE = x + PAGE_SIZE) as ->.
  { change (ROUNDUP (o + 1) PAGE_SIZE) with (ROUNDUP_PAGE_SIZE (o + 1)).
    rewrite ROUNDUP_round_up by lia.
    apply round_up_unique; [by apply aligned_add_page|lia]. }
  assert (round_down_page o = x) as Hrd by (apply round_down_unique; [done|lia]).
  assert (GetPageLocked o k = page_list_ (vmo k) !! x) as ->.
  { unfold GetPageLocked. destruct (Z.leb_spec (size_ (vmo k)) o); [lia|].
    by rewrite GetPage_lookup, Hrd. }
  cbn [pages_from map]. csimpl.
  assert (clip o end_ x = (o, MIN (x + PAGE_SIZE) end_ - o)) as Hclip.
  { unfold clip, MIN. rewrite Z.max_l by lia.
    destruct (Z.ltb_spec (x + PAGE_SIZE) end_); f_equal; lia. }
  rewrite Hclip. unfold cache_call at 1. cbn [fst snd]. rewrite Hrd.
  set (op_end := MIN (x + PAGE_SIZE) end_) in *.
  assert (o < op_end <= end_ ∧ op_end <= x + PAGE_SIZE) as Hop.
  { unfold op_end, MIN. destruct (Z.ltb_spec (x + PAGE_SIZE) end_); lia. }
  rewrite (u64_small (op_end - o)) by (unfold u64_modulus in *; lia).
  rewrite (u64_small (o + (op_end - o))) by (unfold u64_modulus in *; lia).
  replace (o + (op_end - o)) with op_end by lia.
  set (first_call := page_list_ (vmo k) !! x ≫= _).
  set (k1 := match page_list_ (vmo k) !! x with Some _ => _ | None => k end).
  assert (k1 = log (option_list first_call) k) as Hk1.
  { unfold k1, first_call. destruct (page_list_ (vmo k) !! x) as [p|]; cbn.
    - done.
    - by rewrite log_nil. }
  assert (page_list_ (vmo k1) = page_list_ (vmo k) ∧ size_ (vmo k1) = size_ (vmo k))
    as [Hpl1 Hsz1] by (by rewrite Hk1).
  destruct (Z.le_gt_cases end_ (x + PAGE_SIZE)) as [Hlast|Hmore].
  - (* the range ends in this page *)
    assert (op_end = end_) as ->.
    { unfold op_end, MIN. destruct (Z.ltb_spec (x + PAGE_SIZE) end_); lia. }
    destruct fuel as [|fuel]; [lia|]. cbn [cache_loop].
    destruct (Z.eqb_spec end_ end_) as [_|]; [|done].
    assert (n = 0%nat) as -> by nia.
    cbn [pages_from map]. csimpl. rewrite Hk1.
    by destruct first_call.
  - assert (op_end = x + PAGE_SIZE) as ->.
    { unfold op_end, MIN. destruct (Z.ltb_spec (x + PAGE_SIZE) end_); lia. }
    rewrite (IH (x + PAGE_SIZE) (x + PAGE_SIZE) fuel k1 end_);
      [|by apply aligned_add_page|lia|lia|lia| |lia|lia|lia].
    2:{ split; [|lia]. nia. }
    rewrite Hpl1, Hk1, log_log.
    rewrite (clip_later o (x + PAGE_SIZE)) by lia.
    by destruct first_call.
Qed.

(** CacheOp returns, and the only thing it adds to the kernel state is the
    log of the calls of the cache primitive. *)
Lemma CacheOp_run offset len type k :
  size_ok k → 0 <= offset → 0 <= len →
  ∃ st evs, CacheOp offset len type k = Ret (st, log evs k).
Proof.
  intros Hsize Ho Hl. pose proof PAGE_SIZE_pos as Hp. pose proof max_size_range as Hmax.
  unfold size_ok in Hsize. unfold CacheOp, InRange.
  destruct (Z.eqb_spec len 0) as [|Hne].
  { exists ERR_INVALID_ARGS, []. by rewrite log_nil. }
  destruct (Z.leb_spec (offset + len) (size_ (vmo k))); cbn [negb].
  2:{ exists ERR_OUT_OF_RANGE, []. by rewrite log_nil. }
  rewrite (u64_small (offset + len)) by (unfold u64_modulus in *; lia).
  destruct (round_down_spec offset) as [Hd1 Hd2].
  destruct (round_up_spec (offset + len)) as [Hu1 Hu2].
  pose proof (aligned_diff_div _ _ Hd1 Hu1) as Hdiv.
  set (n := (round_up_page (offset + len) - round_down_page offset) / PAGE_SIZE) in *.
  assert (0 <= n) as Hn by (apply Z.div_pos; lia).
  rewrite (cache_loop_pages type (Z.to_nat n) (round_down_page offset) offset
             (rw_fuel len) k (offset + len)); try done; try lia.
  - rewrite outcome_bind_Ret. by eauto.
  - unfold round_down_page in *. pose proof (Z.mod_le offset PAGE_SIZE). lia.
  - unfold rw_fuel.
    assert (n <= len / PAGE_SIZE + 2); [|lia].
    assert (n * PAGE_SIZE < len + 2 * PAGE_SIZE) as Hb by lia.
    pose proof (Z.div_mod len PAGE_SIZE). pose proof (mod_bounds _ Hp len). nia.
Qed.

(** C9. CacheOp skips holes.  A zero length is rejected with
    ERR_INVALID_ARGS and a span that does not lie within the size with
    ERR_OUT_OF_RANGE.  Otherwise the operation returns NO_ERROR and, for each
    sub-range of the span clipped to page boundaries, in order, calls the
    architectural primitive of the operation exactly once when the page is
    present, at the kernel address of the page plus the offset in the page
    and with the length of the sub-range, and makes no call when the page is
    absent; the object, the allocator and the memory are not touched. *)
Theorem CacheOp_skips_holes (k : kernel) (offset len : Z) (type : CacheOpType) :
  size_ok k → 0 <= offset → 0 <= len →
  (len = 0 → CacheOp offset len type k = Ret (ERR_INVALID_ARGS, k)) ∧
  (len ≠ 0 → size_ (vmo k) < offset + len →
   CacheOp offset len type k = Ret (ERR_OUT_OF_RANGE, k)) ∧
  (len ≠ 0 → offset + len <= size_ (vmo k) →
   CacheOp offset len type k
   = Ret (NO_ERROR,
          log (cache_calls_expected type (page_list_ (vmo k)) offset len) k)).
Proof.
  intros Hsize Ho Hl. pose proof PAGE_SIZE_pos as Hp. pose proof max_size_range as Hmax.
  unfold size_ok in Hsize. unfold CacheOp, InRange.
  split; [intros ->; done|].
  split; intros Hne Hr; destruct (Z.eqb_spec len 0) as [|_]; try done.
  - destruct (Z.leb_spec (offset + len) (size_ (vmo k))); [lia|done].
  - destruct (Z.leb_spec (offset + len) (size_ (vmo k))); [|lia]. cbn [negb].
    rewrite (u64_small (offset + len)) by (unfold u64_modulus in *; lia).
    destruct (round_down_spec offset) as [Hd1 Hd2].
    destruct (round_up_spec (offset + len)) as [Hu1 Hu2].
    pose proof (aligned_diff_div _ _ Hd1 Hu1) as Hdiv.
    set (n := (round_up_page (offset + len) - round_down_page offset) / PAGE_SIZE) in *.
    assert (0 <= n) as Hn by (apply Z.div_pos; lia).
    rewrite (cache_loop_pages type (Z.to_nat n) (round_down_page offset) offset
               (rw_fuel len) k (offset + len)); try done; try lia.
    + rewrite outcome_bind_Ret, cache_calls_expected_clip. done.
    + unfold round_down_page in *. pose proof (Z.mod_le offset PAGE_SIZE). lia.
    + unfold rw_fuel.
      assert (n <= len / PAGE_SIZE + 2); [|lia].
      assert (n * PAGE_SIZE < len + 2 * PAGE_SIZE) as Hb by lia.
      pose proof (Z.div_mod len PAGE_SIZE). pose proof (mod_bounds _ Hp len). nia.
Qed.

End Cache.

(** ** Lookup *)

Section LookupProofs.
Context `{HP : Platform} {HOk : PlatformOk}.

Lemma status_lt0_error st : status_lt0 st = true → st ≠ NO_ERROR.
Proof. by destruct st. Qed.

(** The loop of Lookup stops within its fuel. *)
Lemma lookup_loop_runs buffer k n : ∀ x fuel index u,
  0 <= x → x + Z.of_nat n * PAGE_SIZE + PAGE_SIZE <= u64_modulus → (n < fuel)%nat →
  ∃ st u', lookup_loop fuel x (x + Z.of_nat n * PAGE_SIZE) index buffer u k = Ret (st, u').
Proof.
  pose proof PAGE_SIZE_pos as Hp.
  induction n as [|n IH]; intros x fuel index u Hx Hfit Hfuel;
    (destruct fuel as [|fuel]; [lia|]); cbn [lookup_loop].
  - destruct (Z.eqb_spec x (x + Z.of_nat 0 * PAGE_SIZE)); [by eauto|lia].
  - destruct (Z.eqb_spec x (x + Z.of_nat (S n) * PAGE_SIZE)); [nia|].
    destruct (GetPageLocked x k) as [p|]; [|by eauto].
    destruct (copy_to_user _ _ _) as [st u1].
    destruct (status_lt0 st); [by eauto|].
    rewrite (u64_small (x + PAGE_SIZE)) by (unfold u64_modulus in *; nia).
    replace (x + Z.of_nat (S n) * PAGE_SIZE)
      with (x + PAGE_SIZE + Z.of_nat n * PAGE_SIZE) by lia.
    apply IH; lia.
Qed.

(** The loop of Lookup is the walk of the specification over the pages. *)
Lemma lookup_loop_pages buffer k n : ∀ x fuel index u,
  0 <= x → x mod PAGE_SIZE = 0 →
  x + Z.of_nat n * PAGE_SIZE <= round_up_page (size_ (vmo k)) →
  size_ (vmo k) <= MAX_SIZE →
  0 <= index → index + Z.of_nat n < u64_modulus → (n < fuel)%nat →
  lookup_loop fuel x (x + Z.of_nat n * PAGE_SIZE) index buffer u k
  = Ret (lookup_copy_out buffer index (page_list_ (vmo k)) (pages_from x n) u).
Proof.
  pose proof PAGE_SIZE_pos as Hp. pose proof max_size_range as Hmax.
  induction n as [|n IH]; intros x fuel index u Hx Hxa Hfit Hmx Hi Hifit Hfuel;
    (destruct fuel as [|fuel]; [lia|]); cbn [lookup_loop pages_from lookup_copy_out].
  - destruct (Z.eqb_spec x (x + Z.of_nat 0 * PAGE_SIZE)); [done|lia].
  - destruct (Z.eqb_spec x (x + Z.of_nat (S n) * PAGE_SIZE)); [nia|].
    destruct (round_up_spec (size_ (vmo k))) as [Hu1 Hu2].
    assert (x < size_ (vmo k)) as Hlt.
    { destruct (Z.lt_ge_cases x (size_ (vmo k))) as [|Hge]; [done|]. exfalso.
      assert (round_up_page (size_ (vmo k)) <= x); [|nia].
      destruct (Z.le_gt_cases (round_up_page (size_ (vmo k))) x) as [|Hgt]; [done|].
      pose proof (aligned_gap _ Hp _ _ Hxa Hu1 Hgt). lia. }
    assert (GetPageLocked x k = page_list_ (vmo k) !! x) as ->.
    { unfold GetPageLocked. destruct (Z.leb_spec (size_ (vmo k)) x); [lia|].
      by rewrite GetPage_lookup, round_down_aligned. }
    destruct (page_list_ (vmo k) !! x) as [p|]; [|done].
    destruct (copy_to_user _ _ _) as [st u1].
    destruct (status_lt0 st); [done|].
    assert (round_up_page (size_ (vmo k)) + PAGE_SIZE <= u64_modulus)
      by (apply round_up_fits; lia).
    rewrite (u64_small (x + PAGE_SIZE)) by (unfold u64_modulus in *; nia).
    rewrite (u64_small (index + 1)) by (unfold u64_modulus in *; lia).
    replace (x + Z.of_nat (S n) * PAGE_SIZE)
      with (x + PAGE_SIZE + Z.of_nat n * PAGE_SIZE) by lia.
    apply IH; try lia. by apply aligned_add_page.
Qed.

(** When a page of the walk is absent the walk does not end with NO_ERROR; it
    ends with ERR_NO_MEMORY if the copies to the user buffer go through. *)
Lemma lookup_copy_out_absent buffer (pl : gmap Z Z) pages : ∀ index u,
  (∃ y, y ∈ pages ∧ pl !! y = None) →
  fst (lookup_copy_out buffer index pl pages u) ≠ NO_ERROR ∧
  ((∀ i v u0, index <= i < index + Z.of_nat (length pages) →
      fst (copy_to_user (buffer + i * sizeof_paddr) v u0) = NO_ERROR) →
   fst (lookup_copy_out buffer index pl pages u) = ERR_NO_MEMORY).
Proof.
  induction pages as [|x pages IH]; intros index u (y & Hy & Hnone).
  { by apply elem_of_nil in Hy. }
  cbn [lookup_copy_out length].
  destruct (pl !! x) as [p|] eqn:Hlk; [|done].
  destruct (copy_to_user (buffer + index * sizeof_paddr) (vm_page_to_paddr p) u)
    as [st1 u1] eqn:Hcopy.
  destruct (status_lt0 st1) eqn:Hst.
  { split; [by apply status_lt0_error|].
    intros Hall. specialize (Hall index (vm_page_to_paddr p) u).
    rewrite Hcopy in Hall. cbn in Hall. rewrite Hall in Hst; [done|lia]. }
  apply elem_of_cons in Hy as [->|Hy]; [congruence|].
  destruct (IH (index + 1) u1) as [Hne Hcp]; [by eauto|].
  split; [done|]. intros Hall. apply Hcp. intros i v u0 Hr. apply Hall. lia.
Qed.

(** C8 (amended). Lookup does not fault in.  For a non-empty range within
    the size whose page range holds an absent page, Lookup does not return
    NO_ERROR and leaves the kernel state as it is: no page is allocated or
    installed and GetPageLocked still reports the page absent.  When the
    table fits the user buffer, Lookup walks the pages of the range in order
    and stops at the first absent page or failing copy; it returns
    ERR_NO_MEMORY when the copies to the user buffer go through. *)
Theorem Lookup_non_faulting
    (k : kernel) (offset len buffer buffer_size x : Z) (u : user_mem) :
  size_ok k → 0 <= offset → 0 < len → offset + len <= size_ (vmo k) →
  x ∈ range_pages offset len → page_list_ (vmo k) !! x = None →
  let entries := Z.of_nat (length (range_pages offset len)) in
  ∃ st u',
    Lookup offset len buffer buffer_size u k = Ret (st, u', k) ∧
    st ≠ NO_ERROR ∧
    (u64 (entries * sizeof_paddr) <= buffer_size →
     (st, u') = lookup_copy_out buffer 0 (page_list_ (vmo k)) (range_pages offset len) u ∧
     ((∀ i v u0, 0 <= i < entries →
         fst (copy_to_user (buffer + i * sizeof_paddr) v u0) = NO_ERROR) →
      st = ERR_NO_MEMORY)) ∧
    GetPageLocked x k = None.
Proof.
  intros Hsize Ho Hl Hin Hx Habsent entries.
  pose proof PAGE_SIZE_pos as Hp. pose proof max_size_range as Hmax.
  unfold size_ok in Hsize.
  destruct (round_down_spec offset) as [Hd1 Hd2].
  destruct (round_up_spec (offset + len)) as [Hu1 Hu2].
  pose proof (aligned_diff_div _ _ Hd1 Hu1) as Hdiv.
  assert (0 <= round_down_page offset) as Hs0.
  { unfold round_down_page. pose proof (Z.mod_le offset PAGE_SIZE). lia. }
  assert (round_up_page (offset + len) + PAGE_SIZE <= u64_modulus) as Hfit
    by (apply round_up_fits; lia).
  assert (GetPageLocked x k = None) as Hget.
  { apply range_pages_spec in Hx as (Hxa & Hxl & _); [|done].
    unfold GetPageLocked. destruct (Z.leb_spec (size_ (vmo k)) x); [done|].
    by rewrite GetPage_lookup, round_down_aligned. }
  unfold Lookup, InRange.
  destruct (Z.eqb_spec len 0) as [|_]; [lia|].
  destruct (Z.leb_spec (offset + len) (size_ (vmo k))) as [_|]; [|lia]. cbn [negb].
  rewrite ROUNDDOWN_round_down.
  rewrite (u64_small (offset + len)) by (unfold u64_modulus in *; lia).
  change (ROUNDUP (offset + len) PAGE_SIZE) with (ROUNDUP_PAGE_SIZE (offset + len)).
  rewrite ROUNDUP_round_up by lia.
  rewrite (u64_small (round_up_page (offset + len) - round_down_page offset))
    by (unfold u64_modulus in *; lia).
  assert (entries = (round_up_page (offset + len) - round_down_page offset) / PAGE_SIZE)
    as Hentries.
  { unfold entries, range_pages, pages_between. rewrite pages_from_length.
    rewrite Z2Nat.id; [done|]. apply Z.div_pos; lia. }
  rewrite <- Hentries.
  destruct (Z.ltb_spec buffer_size (u64 (entries * sizeof_paddr))) as [Hsmall|Hbig].
  { exists ERR_BUFFER_TOO_SMALL, u. split; [done|]. split; [done|]. split; [lia|done]. }
  set (n := Z.to_nat entries).
  assert (0 <= entries) as Hen by (unfold entries; lia).
  assert (round_up_page (offset + len) = round_down_page offset + Z.of_nat n * PAGE_SIZE)
    as Hend by (unfold n; rewrite Z2Nat.id by done; lia).
  assert (n < pages_fuel (round_down_page offset) (round_up_page (offset + len)))%nat
    as Hfuel by (unfold pages_fuel; rewrite <- Hentries; lia).
  assert (range_pages offset len = pages_from (round_down_page offset) n) as Hpages.
  { unfold range_pages, pages_between, n. by rewrite Hentries. }
  assert (lookup_loop
            (pages_fuel (round_down_page offset) (round_up_page (offset + len)))
            (round_down_page offset) (round_up_page (offset + len)) 0 buffer u k
          = Ret (lookup_copy_out buffer 0 (page_list_ (vmo k))
                   (range_pages offset len) u)) as ->.
  { rewrite Hpages. revert Hfuel. rewrite Hend. intros Hfuel.
    apply lookup_loop_pages; try done; try lia.
    - rewrite <- Hend. apply round_up_mono. lia.
    - assert (entries * PAGE_SIZE < u64_modulus) by lia. nia. }
  rewrite outcome_bind_Ret.
  destruct (lookup_copy_out_absent buffer (page_list_ (vmo k)) (range_pages offset len) 0 u)
    as [Hne Hcp]; [by eauto|].
  destruct (lookup_copy_out buffer 0 (page_list_ (vmo k)) (range_pages offset len) u)
    as [st u'] eqn:Hwalk.
  exists st, u'. split; [done|]. split; [done|]. split; [|done].
  intros _. split; [done|]. intros Hall. apply Hcp. intros i v u0 Hr. apply Hall.
  fold entries in Hr. lia.
Qed.

End LookupProofs.

(** ** The page list invariant *)

Section Invariant.
Context `{HP : Platform} {HOk : PlatformOk}.

(** New entries at page offsets below the size keep the invariant. *)
Lemma page_list_inv_keys k k' :
  size_ok k → page_list_inv k → size_ (vmo k') = size_ (vmo k) →
  (∀ x p, page_list_ (vmo k') !! x = Some p →
          page_list_ (vmo k) !! x = Some p ∨
          (x mod PAGE_SIZE = 0 ∧ 0 <= x < size_ (vmo k))) →
  size_ok k' ∧ page_list_inv k'.
Proof.
  intros Hsize Hinv Hsz Hkeys. unfold size_ok, page_list_inv in *. rewrite Hsz.
  split; [done|]. intros x p Hlk.
  destruct (Hkeys x p Hlk) as [Hold|[Hxa Hxr]]; [exact (Hinv x p Hold)|].
  destruct (round_up_spec (size_ (vmo k))). split; [done|lia].
Qed.

Lemma range_pages_below offset len x :
  0 <= offset → 0 < len → x ∈ range_pages offset len →
  x mod PAGE_SIZE = 0 ∧ 0 <= x < offset + len.
Proof.
  intros Ho Hl (Hxa & Hxl & Hxo)%range_pages_spec; [|done].
  pose proof PAGE_SIZE_pos as Hp. split; [done|]. split; [|done].
  destruct (Z.le_gt_cases 0 x) as [|Hneg]; [done|].
  assert (0 mod PAGE_SIZE = 0) as H0 by (apply Z.mod_0_l; lia).
  pose proof (aligned_gap _ Hp _ _ Hxa H0 Hneg). lia.
Qed.

Lemma AddPage_inv p offset k :
  0 <= offset → size_ok k → page_list_inv k →
  size_ok (snd (AddPage p offset k)) ∧ page_list_inv (snd (AddPage p offset k)).
Proof.
  intros Ho Hsize Hinv. unfold AddPage.
  destruct (Z.leb_spec (size_ (vmo k)) offset) as [|Hlt]; [done|].
  unfold VmPageList_AddPage. rewrite ROUNDDOWN_round_down.
  destruct (page_list_ (vmo k) !! round_down_page offset) eqn:Hlk; cbn; [by destruct k as [[]]|].
  apply (page_list_inv_keys k); [done..|].
  intros x q. cbn. destruct (decide (round_down_page offset = x)) as [<-|Hne].
  - intros _. right. destruct (round_down_spec offset) as [H1 H2]. split; [done|].
    unfold round_down_page in *. pose proof PAGE_SIZE_pos.
    pose proof (Z.mod_le offset PAGE_SIZE). lia.
  - rewrite lookup_insert_ne by done. by left.
Qed.

Lemma commit_page_aligned x b c k :
  x mod PAGE_SIZE = 0 →
  commit_page x (b, c, k)
  = match page_list_ (vmo k) !! x with
    | Some _ => Ret (b, c, k)
    | None =>
        match b with
        | [] => Panic
        | p :: b' =>
            Ret (b', counter_add PAGE_SIZE c,
                 with_page_list (<[x := p]> (page_list_ (vmo k)))
                   (with_kmem (ZeroPage (vm_page_to_paddr p) (kmem k))
                      (with_pmm (set_page_state p VM_PAGE_STATE_OBJECT (pmm k)) k)))
        end
    end.
Proof.
  intros Hx. unfold commit_page. rewrite GetPage_lookup, round_down_aligned by done.
  destruct (page_list_ (vmo k) !! x) eqn:Hlk; [done|].
  destruct b as [|p b']; [done|]. by rewrite AddPage_aligned, Hlk.
Qed.

(** The step of the second pass of CommitRangeContiguous at an aligned
    offset: on an empty slot it is the step of CommitRange; on a taken slot
    the page list stays as it is, and a build with debug assertions stops
    at the assertion on the status of AddPage. *)
Lemma commit_page_contiguous_aligned x b c k :
  x mod PAGE_SIZE = 0 →
  commit_page_contiguous x (b, c, k)
  = match b with
    | [] => Panic
    | p :: b' =>
        match page_list_ (vmo k) !! x with
        | Some _ =>
            if DEBUG_ASSERT_IMPLEMENTED then Panic
            else Ret (b', counter_add PAGE_SIZE c,
                      with_page_list (page_list_ (vmo k))
                        (with_kmem (ZeroPage (vm_page_to_paddr p) (kmem k))
                           (with_pmm (set_page_state p VM_PAGE_STATE_OBJECT (pmm k)) k)))
        | None =>
            Ret (b', counter_add PAGE_SIZE c,
                 with_page_list (<[x := p]> (page_list_ (vmo k)))
                   (with_kmem (ZeroPage (vm_page_to_paddr p) (kmem k))
                      (with_pmm (set_page_state p VM_PAGE_STATE_OBJECT (pmm k)) k)))
        end
    end.
Proof.
  intros Hx. unfold commit_page_contiguous, DEBUG_ASSERT. destruct b as [|p b']; [done|].
  rewrite AddPage_aligned by done.
  destruct (page_list_ (vmo k) !! x); cbn; [|by rewrite andb_false_r].
  rewrite andb_true_r. by destruct DEBUG_ASSERT_IMPLEMENTED.
Qed.

Lemma filter_absent_insert (pl : gmap Z Z) x p (l : list Z) :
  x ∉ l →
  filter (λ y, <[x := p]> pl !! y = None) l = filter (λ y, pl !! y = None) l.
Proof.
  induction l as [|y l IH]; intros Hx; [done|].
  apply not_elem_of_cons in Hx as [Hne Hx].
  rewrite !filter_cons, lookup_insert_ne by done. rewrite IH by done. done.
Qed.

(** The second pass of CommitRange, given enough pages, does not stop the
    kernel and adds pages only at the offsets it walks. *)
Lemma commit_fold_runs l : ∀ b c k,
  NoDup l → Forall (λ x, x mod PAGE_SIZE = 0) l →
  (length (filter (λ x, page_list_ (vmo k) !! x = None) l) <= length b)%nat →
  ∃ b' c' k',
    fold_pages commit_page l (b, c, k) = Ret (b', c', k') ∧
    size_ (vmo k') = size_ (vmo k) ∧
    (∀ x p, page_list_ (vmo k') !! x = Some p →
            page_list_ (vmo k) !! x = Some p ∨ x ∈ l).
Proof.
  induction l as [|x l IH]; intros b c k Hnd Hal Hlen; cbn [fold_pages].
  - exists b, c, k. split; [done|]. split; [done|]. by left.
  - apply NoDup_cons in Hnd as [Hx Hnd]. apply Forall_cons in Hal as [Hxa Hal].
    rewrite filter_cons in Hlen.
    rewrite commit_page_aligned by done.
    destruct (page_list_ (vmo k) !! x) as [q|] eqn:Hlk.
    + rewrite decide_False in Hlen by done. rewrite outcome_bind_Ret.
      destruct (IH b c k Hnd Hal Hlen) as (b' & c' & k' & Hrun & Hsz & Hkeys).
      exists b', c', k'. split; [done|]. split; [done|].
      intros y p Hy. destruct (Hkeys y p Hy); [by left|right; by right].
    + rewrite decide_True in Hlen by done. cbn [length] in Hlen.
      destruct b as [|p b]; [cbn in Hlen; lia|].
      rewrite outcome_bind_Ret.
      set (k1 := with_page_list _ _).
      destruct (IH b (counter_add PAGE_SIZE c) k1 Hnd Hal) as (b' & c' & k' & Hrun & Hsz & Hkeys).
      { unfold k1. cbn. rewrite filter_absent_insert by done. cbn in Hlen. lia. }
      exists b', c', k'. split; [done|]. split; [done|].
      intros y q Hy. destruct (Hkeys y q Hy) as [Hold|Hin]; [|right; by right].
      unfold k1 in Hold. cbn in Hold.
      destruct (decide (x = y)) as [->|Hne]; [right; by left|].
      rewrite lookup_insert_ne in Hold by done. by left.
Qed.

Lemma commit_contiguous_fold_keys l : ∀ b c k b' c' k',
  Forall (λ x, x mod PAGE_SIZE = 0) l →
  fold_pages commit_page_contiguous l (b, c, k) = Ret (b', c', k') →
  size_ (vmo k') = size_ (vmo k) ∧
  (∀ x p, page_list_ (vmo k') !! x = Some p →
          page_list_ (vmo k) !! x = Some p ∨ x ∈ l).
Proof.
  induction l as [|x l IH]; intros b c k b' c' k' Hal Hrun; cbn [fold_pages] in Hrun.
  - injection Hrun as <- <- <-. split; [done|]. by left.
  - apply Forall_cons in Hal as [Hxa Hal].
    rewrite commit_page_contiguous_aligned in Hrun by done.
    destruct b as [|p b]; [done|].
    destruct (page_list_ (vmo k) !! x) as [q|] eqn:Hlk.
    + destruct DEBUG_ASSERT_IMPLEMENTED; [done|]. rewrite outcome_bind_Ret in Hrun.
      apply IH in Hrun as [Hsz Hkeys]; [|done]. cbn in *.
      split; [done|]. intros y r Hy. destruct (Hkeys y r Hy); [by left|right; by right].
    + rewrite outcome_bind_Ret in Hrun.
      apply IH in Hrun as [Hsz Hkeys]; [|done]. cbn in *.
      split; [done|]. intros y r Hy. destruct (Hkeys y r Hy) as [Hold|Hin]; [|right; by right].
      destruct (decide (x = y)) as [->|Hne]; [right; by left|].
      rewrite lookup_insert_ne in Hold by done. by left.
Qed.

Lemma fold_pages_no_diverge {St : Type} (body : Z → St → outcome St) l : ∀ s,
  (∀ x s, body x s ≠ Diverge) → fold_pages body l s ≠ Diverge.
Proof.
  induction l as [|x l IH]; intros s Hbody; cbn [fold_pages]; [done|].
  specialize (Hbody x s) as Hx. destruct (body x s) as [s'| |]; [|done..].
  rewrite outcome_bind_Ret. by apply IH.
Qed.

Lemma commit_page_contiguous_no_diverge x s : commit_page_contiguous x s ≠ Diverge.
Proof.
  destruct s as [[[|p b] c] k]; cbn; [done|].
  destruct (VmPageList_AddPage _ _ _) as [st pl]. unfold DEBUG_ASSERT.
  by destruct (_ && _).
Qed.

Lemma range_pages_NoDup offset len : NoDup (range_pages offset len).
Proof. apply pages_from_NoDup. Qed.

(** CommitRange returns and keeps the invariant. *)
Lemma CommitRange_inv offset len committed k :
  0 <= offset → 0 <= len → size_ok k → page_list_inv k →
  ∃ st c' k', CommitRange offset len committed k = Ret (st, c', k') ∧
              size_ok k' ∧ page_list_inv k'.
Proof.
  intros Ho Hl Hsize Hinv.
  pose proof max_size_range as Hmax. pose proof PAGE_SIZE_pos as Hp.
  pose proof Hsize as Hsize'. unfold size_ok in Hsize'.
  unfold CommitRange.
  destruct (TrimRange offset len (size_ (vmo k))) as [len'|] eqn:Htrim; [|by eauto 10].
  destruct (TrimRange_Some _ _ _ _ Ho Hl Htrim) as [Hl' Hin].
  destruct (Z.eqb_spec len' 0); [by eauto 10|].
  rewrite CommitRange_count, outcome_bind_Ret by lia.
  set (N := Z.of_nat (length (missing_pages (page_list_ (vmo k)) offset len'))).
  destruct (Z.eqb_spec N 0); [by eauto 10|].
  unfold pmm_alloc_pages.
  set (batch := take (Z.to_nat N) (free_list (pmm k))).
  destruct (Z.ltb_spec (Z.of_nat (length batch)) N) as [|Henough].
  { eexists _, _, _. split; [done|]. by destruct k as [[]]. }
  rewrite for_pages_range by (lia || apply commit_page_by_page).
  set (k0 := log _ _).
  destruct (commit_fold_runs (range_pages offset len') batch (counter_zero committed) k0)
    as (b' & c' & k' & Hrun & Hsz & Hkeys).
  { apply range_pages_NoDup. }
  { apply range_pages_aligned. }
  { unfold k0. cbn. fold (missing_pages (page_list_ (vmo k)) offset len'). lia. }
  rewrite Hrun, outcome_bind_Ret. exists NO_ERROR, c', k'. split; [done|].
  apply (page_list_inv_keys k); [done|done|by rewrite Hsz|].
  intros x p Hx. destruct (Hkeys x p Hx) as [Hold|Hin']; [by left|right].
  apply range_pages_below in Hin'; lia.
Qed.

(** CommitRangeContiguous keeps the invariant when it returns; it does not
    run out of fuel. *)
Lemma CommitRangeContiguous_inv offset len committed alignment_log2 k :
  0 <= offset → 0 <= len → size_ok k → page_list_inv k →
  match CommitRangeContiguous offset len committed alignment_log2 k with
  | Ret (_, _, k') => size_ok k' ∧ page_list_inv k'
  | Panic => True
  | Diverge => False
  end.
Proof.
  intros Ho Hl Hsize Hinv.
  pose proof max_size_range as Hmax. pose proof PAGE_SIZE_pos as Hp.
  pose proof Hsize as Hsize'. unfold size_ok in Hsize'.
  unfold CommitRangeContiguous.
  destruct (TrimRange offset len (size_ (vmo k))) as [len'|] eqn:Htrim; [|done].
  destruct (TrimRange_Some _ _ _ _ Ho Hl Htrim) as [Hl' Hin].
  destruct (Z.eqb_spec len' 0); [done|].
  rewrite CommitRange_count, outcome_bind_Ret by lia.
  set (N := Z.of_nat (length (missing_pages (page_list_ (vmo k)) offset len'))).
  unfold DEBUG_ASSERT. destruct (_ && _); [done|]. rewrite outcome_bind_Ret.
  unfold pmm_alloc_contiguous.
  set (batch := take (Z.to_nat N) (free_list (pmm k))).
  destruct (Z.ltb_spec (Z.of_nat (length batch)) N) as [|Henough].
  { by destruct k as [[]]. }
  rewrite for_pages_range by (lia || apply commit_page_contiguous_by_page).
  set (k0 := log _ _).
  pose proof (fold_pages_no_diverge commit_page_contiguous (range_pages offset len')
                (batch, counter_zero committed, k0) commit_page_contiguous_no_diverge) as Hnd.
  destruct (fold_pages commit_page_contiguous _ _) as [[[b' c'] k']| |] eqn:Hrun; [|done..].
  rewrite outcome_bind_Ret.
  apply commit_contiguous_fold_keys in Hrun as [Hsz Hkeys]; [|apply range_pages_aligned].
  apply (page_list_inv_keys k); [done|done|by rewrite Hsz|].
  intros x p Hx. destruct (Hkeys x p Hx) as [Hold|Hin']; [by left|right].
  apply range_pages_below in Hin'; lia.
Qed.

Lemma DecommitRange_inv offset len decommitted k :
  0 <= offset → 0 <= len → size_ok k → page_list_inv k →
  ∃ st c' k', DecommitRange offset len decommitted k = Ret (st, c', k') ∧
              size_ok k' ∧ page_list_inv k'.
Proof.
  intros Ho Hl Hsize Hinv.
  destruct (TrimRange offset len (size_ (vmo k))) as [len'|] eqn:Htrim.
  2:{ unfold DecommitRange. rewrite Htrim. by eauto 10. }
  destruct (Z.eq_dec len' 0) as [->|Hne].
  { unfold DecommitRange. rewrite Htrim. by eauto 10. }
  destruct (DecommitRange_run k offset len len' decommitted)
    as (_ & _ & k' & Hrun & Hsz & _ & _ & _ & Hpl & _); try done.
  eexists _, _, k'. split; [exact Hrun|].
  apply (page_list_inv_keys k); [done..|].
  intros x p. rewrite Hpl. case_decide; [done|]. by left.
Qed.

Lemma Resize_inv s k :
  0 <= s → size_ok k → page_list_inv k →
  ∃ st k', Resize s k = Ret (st, k') ∧ size_ok k' ∧ page_list_inv k'.
Proof.
  intros Hs Hsize Hinv.
  destruct (Z.lt_ge_cases MAX_SIZE s) as [Hlt|Hle].
  { exists ERR_OUT_OF_RANGE, k. unfold Resize.
    destruct (Z.ltb_spec MAX_SIZE s); [done|lia]. }
  destruct (Resize_run k s Hsize) as (k' & Hrun & Hsz & _ & _ & _ & Hpl & _); [lia|].
  exists NO_ERROR, (with_size s k'). split; [done|].
  pose proof PAGE_SIZE_pos as Hp.
  destruct (round_up_spec s) as [Hs1 Hs2].
  destruct (round_up_spec (size_ (vmo k))) as [He1 He2].
  unfold size_ok, page_list_inv in *. cbn. split; [lia|].
  intros x p. rewrite Hpl.
  destruct (decide (x ∈ _)) as [|Hnin]; [done|].
  intros Hlk.
  assert (page_list_ (vmo k) !! x = Some p) as Hold by (by destruct (decide _)).
  destruct (Hinv x p Hold) as [Hxa Hxr]. split; [done|]. split; [lia|].
  destruct (Z.lt_ge_cases x (round_up_page s)) as [|Hge]; [done|].
  exfalso. apply Hnin. apply pages_between_spec; [done..|]. lia.
Qed.

Lemma Lookup_runs offset len buffer buffer_size u k :
  0 <= offset → 0 <= len → size_ok k →
  ∃ st u', Lookup offset len buffer buffer_size u k = Ret (st, u', k).
Proof.
  intros Ho Hl Hsize. pose proof PAGE_SIZE_pos as Hp. pose proof max_size_range as Hmax.
  unfold size_ok in Hsize. unfold Lookup, InRange.
  destruct (Z.eqb_spec len 0); [by eauto|].
  destruct (Z.leb_spec (offset + len) (size_ (vmo k))); [|by eauto]. cbn [negb].
  destruct (_ <? _); [by eauto|].
  rewrite ROUNDDOWN_round_down.
  rewrite (u64_small (offset + len)) by (unfold u64_modulus in *; lia).
  change (ROUNDUP (offset + len) PAGE_SIZE) with (ROUNDUP_PAGE_SIZE (offset + len)).
  rewrite ROUNDUP_round_up by lia.
  destruct (round_down_spec offset) as [Hd1 Hd2].
  destruct (round_up_spec (offset + len)) as [Hu1 Hu2].
  pose proof (aligned_diff_div _ _ Hd1 Hu1) as Hdiv.
  set (e := (round_up_page (offset + len) - round_down_page offset) / PAGE_SIZE) in *.
  assert (0 <= e) by (apply Z.div_pos; lia).
  assert (round_up_page (offset + len) + PAGE_SIZE <= u64_modulus) as Hfit
    by (apply round_up_fits; lia).
  assert (round_up_page (offset + len)
          = round_down_page offset + Z.of_nat (Z.to_nat e) * PAGE_SIZE) as Hend by lia.
  assert (Z.to_nat e < pages_fuel (round_down_page offset) (round_up_page (offset + len)))%nat
    as Hfuel by (unfold pages_fuel; fold e; lia).
  rewrite Hend in Hfuel |- *.
  destruct (lookup_loop_runs buffer k (Z.to_nat e) (round_down_page offset)
              (pages_fuel (round_down_page offset)
                 (round_down_page offset + Z.of_nat (Z.to_nat e) * PAGE_SIZE)) 0 u)
    as (st & u' & Hrun); [|lia|done|].
  { unfold round_down_page. pose proof (Z.mod_le offset PAGE_SIZE). lia. }
  rewrite Hrun, outcome_bind_Ret. by eauto.
Qed.

Lemma CacheOp_inv offset len type k :
  0 <= offset → 0 <= len → size_ok k → page_list_inv k →
  ∃ st k', CacheOp offset len type k = Ret (st, k') ∧ size_ok k' ∧ page_list_inv k'.
Proof.
  intros Ho Hl Hsize Hinv.
  destruct (CacheOp_run offset len type k Hsize Ho Hl) as (st & evs & Hrun).
  rewrite Hrun. by eauto.
Qed.

(** C4. Every public operation keeps the page list invariant: in a kernel
    state where the size is within MAX_SIZE and every entry of the page list
    sits at a page-aligned offset below [round_up_page(size)], a call whose
    offsets and lengths are 64-bit unsigned values returns within its fuel
    and leaves a state with the same two properties.  The one operation
    that can stop the kernel in every build is CommitRangeContiguous (its
    assertions, when the range is not empty or not made of whole pages); in
    a build that implements debug assertions Read and Write stop as well
    when their pointer is not a kernel address. *)
Theorem public_operations_keep_page_list_inv (c : vmo_call) (k : kernel) :
  call_args_u64 c → size_ok k → page_list_inv k →
  match run_call c k with
  | Ret k' => size_ok k' ∧ page_list_inv k'
  | Panic => (∃ offset len committed alignment_log2,
                c = CallCommitRangeContiguous offset len committed alignment_log2) ∨
             (DEBUG_ASSERT_IMPLEMENTED = true ∧
              ∃ ptr b offset len bytes_copied,
                is_kernel_address ptr = false ∧
                (c = CallRead ptr b offset len bytes_copied ∨
                 c = CallWrite ptr b offset len bytes_copied))
  | Diverge => False
  end.
Proof.
  intros Hargs Hsize Hinv.
  destruct c; cbn [run_call call_args_u64] in *; unfold is_u64 in *.
  - apply AddPage_inv; [lia|done..].
  - destruct (Resize_inv s k) as (st & k' & -> & ?); [lia|done..].
  - destruct (CommitRange_inv offset len committed k) as (st & c' & k' & -> & ?);
      [lia|lia|done..].
  - pose proof (CommitRangeContiguous_inv offset len committed alignment_log2 k) as Hc.
    destruct (CommitRangeContiguous _ _ _ _ _) as [[[st c'] k']| |]; cbn.
    + apply Hc; (lia || done).
    + left. by eauto.
    + apply Hc; (lia || done).
  - destruct (DecommitRange_inv offset len decommitted k) as (st & c' & k' & -> & ?);
      [lia|lia|done..].
  - unfold Read, DEBUG_ASSERT. destruct (is_kernel_address _ptr) eqn:Hptr; cbn [negb].
    2:{ rewrite andb_true_r.
        destruct DEBUG_ASSERT_IMPLEMENTED; cbn; [right; by eauto 10|done]. }
    destruct (ReadWriteInternal_runs read_routine false offset len bytes_read out k)
      as (st & bc' & b' & k' & -> & ?); [lia|lia|done..].
  - unfold Write, DEBUG_ASSERT. destruct (is_kernel_address _ptr) eqn:Hptr; cbn [negb].
    2:{ rewrite andb_true_r.
        destruct DEBUG_ASSERT_IMPLEMENTED; cbn; [right; by eauto 10|done]. }
    destruct (ReadWriteInternal_runs write_routine true offset len bytes_written buf k)
      as (st & bc' & b' & k' & -> & ?); [lia|lia|done..].
  - unfold ReadUser. destruct (negb _); [done|].
    destruct (ReadWriteInternal_runs (read_user_routine ptr) false offset len bytes_read u k)
      as (st & bc' & b' & k' & -> & ?); [lia|lia|done..].
  - unfold WriteUser. destruct (negb _); [done|].
    destruct (ReadWriteInternal_runs (write_user_routine ptr) true offset len bytes_written u k)
      as (st & bc' & b' & k' & -> & ?); [lia|lia|done..].
  - destruct (Lookup_runs offset len buffer buffer_size u k) as (st & u' & ->);
      [lia|lia|done..].
  - destruct (CacheOp_inv offset len type k) as (st & k' & -> & ?); [lia|lia|done..].
Qed.

End Invariant.

(** ** Write, then Read *)

Section Memory.

Lemma lookup_write_bytes bs : ∀ addr (m : gmap Z Z) x,
  write_bytes addr bs m !! x
  = if decide (addr <= x < addr + Z.of_nat (length bs))
    then bs !! Z.to_nat (x - addr)
    else m !! x.
Proof.
  induction bs as [|b bs IH]; intros addr m x; cbn [write_bytes length].
  - rewrite decide_False by lia. done.
  - rewrite IH. destruct (decide (addr = x)) as [->|Hne].
    + rewrite decide_False by lia. rewrite decide_True by lia.
      rewrite lookup_insert_eq. by rewrite Z.sub_diag.
    + rewrite lookup_insert_ne by done.
      destruct (decide (addr + 1 <= x < addr + 1 + Z.of_nat (length bs))) as [Hin|Hout].
      * rewrite decide_True by lia.
        replace (Z.to_nat (x - addr)) with (S (Z.to_nat (x - (addr + 1)))) by lia. done.
      * rewrite decide_False by lia. done.
Qed.

Lemma lookup_read_bytes addr n (m : gmap Z Z) i :
  (i < n)%nat → read_bytes addr n m !! i = Some (read_byte m (addr + Z.of_nat i)).
Proof.
  intros Hi. unfold read_bytes.
  change (map ?f ?l) with (f <$> l). rewrite list_lookup_fmap, lookup_seq_lt by done. done.
Qed.

Lemma length_read_bytes addr n (m : gmap Z Z) : length (read_bytes addr n m) = n.
Proof. unfold read_bytes. by rewrite length_map, length_seq. Qed.

Lemma lookup_buffer_bytes buf off n i :
  (i < n)%nat →
  buffer_bytes buf off n !! i = Some (default 0 (buf !! (Z.to_nat off + i)%nat)).
Proof.
  intros Hi. unfold buffer_bytes.
  change (map ?f ?l) with (f <$> l). rewrite list_lookup_fmap, lookup_seq_lt by done. done.
Qed.

Lemma length_buffer_bytes buf off n : length (buffer_bytes buf off n) = n.
Proof. unfold buffer_bytes. by rewrite length_map, length_seq. Qed.

Lemma with_kmem_same k : with_kmem (kmem k) k = k.
Proof. by destruct k. Qed.

End Memory.

Section RoundTrip.
Context `{HP : Platform} {HOk : PlatformOk}.

Lemma lookup_arch_zero_page ptr (m : gmap Z Z) x :
  arch_zero_page ptr m !! x
  = if decide (ptr <= x < ptr + PAGE_SIZE) then None else m !! x.
Proof.
  unfold arch_zero_page. apply option_eq. intros v.
  rewrite map_lookup_filter_Some. cbn.
  destruct (decide (ptr <= x < ptr + PAGE_SIZE)) as [Hin|Hout].
  - split; [by intros [_ ?]|done].
  - split; [by intros [? _]|by intros ?].
Qed.

Lemma vmo_byte_eq k x :
  vmo_byte k x = (λ p, read_byte (kmem k) (byte_addr p x)) <$> page_list_ (vmo k) !! round_down_page x.
Proof. unfold vmo_byte. by destruct (page_list_ (vmo k) !! round_down_page x). Qed.

Lemma mod_in_page offset i :
  0 <= i → offset mod PAGE_SIZE + i < PAGE_SIZE →
  (offset + i) mod PAGE_SIZE = offset mod PAGE_SIZE + i ∧
  round_down_page (offset + i) = round_down_page offset.
Proof.
  intros Hi Hlt. pose proof PAGE_SIZE_pos as Hp. pose proof (mod_bounds _ Hp offset).
  assert (round_down_page (offset + i) = round_down_page offset) as Hrd.
  { apply round_down_unique; [apply round_down_spec|]. unfold round_down_page. lia. }
  split; [|done]. unfold round_down_page in Hrd. lia.
Qed.

(** Faulting a page in keeps every page with one owner. *)
Lemma FaultPageLocked_owned offset pf_flags k r k' :
  pages_owned_once k → FaultPageLocked offset pf_flags k = (r, k') →
  pages_owned_once k'.
Proof.
  intros (Hinj & Hnd & Hdisj) Hrun.
  destruct (FaultPageLocked_cases offset pf_flags k)
    as [[_ Heq]|[(_ & p & Hlk & Heq)|[(_ & Hlk & _ & Heq)|(Hlt & Hlk & p & rest & Hfree & Heq)]]];
    rewrite Heq in Hrun; injection Hrun as <- <-; try done.
  rewrite Hfree in *. apply NoDup_cons in Hnd as [Hp Hnd].
  assert (∀ o, page_list_ (vmo k) !! o ≠ Some p) as Hfresh.
  { intros o Ho. apply (Hdisj o p Ho). by left. }
  split; [|split]; cbn.
  - intros o1 o2 q.
    destruct (decide (round_down_page offset = o1)) as [<-|Hne1];
      destruct (decide (round_down_page offset = o2)) as [<-|Hne2];
      rewrite ?lookup_insert_eq, ?lookup_insert_ne by done; try done.
    + intros [= <-] Ho2. by destruct (Hfresh o2).
    + intros Ho1 [= <-]. by destruct (Hfresh o1).
    + apply Hinj.
  - done.
  - intros o q. destruct (decide (round_down_page offset = o)) as [<-|Hne].
    + rewrite lookup_insert_eq. by intros [= <-].
    + rewrite lookup_insert_ne by done. intros Ho Hin. apply (Hdisj o q Ho). by right.
Qed.

(** Faulting a page in does not change the bytes of the pages that were
    there. *)
Lemma FaultPageLocked_bytes offset pf_flags k r k' x :
  pages_owned_once k → FaultPageLocked offset pf_flags k = (r, k') →
  is_Some (page_list_ (vmo k) !! round_down_page x) →
  vmo_byte k' x = vmo_byte k x.
Proof.
  intros (Hinj & Hnd & Hdisj) Hrun [q Hq]. pose proof PAGE_SIZE_pos as Hp.
  destruct (FaultPageLocked_cases offset pf_flags k)
    as [[_ Heq]|[(_ & p & Hlk & Heq)|[(_ & Hlk & _ & Heq)|(Hlt & Hlk & p & rest & Hfree & Heq)]]];
    rewrite Heq in Hrun; injection Hrun as <- <-; try done.
  rewrite !vmo_byte_eq. cbn.
  assert (round_down_page offset ≠ round_down_page x) as Hne by congruence.
  rewrite lookup_insert_ne, Hq by done. cbn. f_equal.
  unfold read_byte. rewrite lookup_arch_zero_page.
  rewrite decide_False; [done|]. intros Hin.
  assert (q = p) as ->.
  { apply (page_frames_disjoint q p (x mod PAGE_SIZE)
             (byte_addr q x - paddr_to_kvaddr (vm_page_to_paddr p))).
    - by apply mod_bounds.
    - lia.
    - unfold byte_addr. lia. }
  apply (Hdisj _ _ Hq). rewrite Hfree. by left.
Qed.

(** One round of Write: the bytes land in the page of [offset]; the other
    bytes of the pages of the object stay. *)
Lemma write_chunk k p offset t bytes :
  pages_owned_once k →
  page_list_ (vmo k) !! round_down_page offset = Some p →
  0 < t → offset mod PAGE_SIZE + t <= PAGE_SIZE → length bytes = Z.to_nat t →
  let k' := with_kmem (write_bytes (byte_addr p offset) bytes (kmem k)) k in
  (∀ i, 0 <= i < t → vmo_byte k' (offset + i) = Some (default 0 (bytes !! Z.to_nat i))) ∧
  (∀ x, ¬ (offset <= x < offset + t) → vmo_byte k' x = vmo_byte k x).
Proof.
  intros (Hinj & _ & _) Hlk Ht Hfit Hlen k'. pose proof PAGE_SIZE_pos as Hp.
  pose proof (mod_bounds _ Hp offset) as Hmo.
  split.
  - intros i Hi. destruct (mod_in_page offset i) as [Hm Hrd]; [lia..|].
    rewrite vmo_byte_eq. cbn. rewrite Hrd, Hlk. cbn. f_equal.
    unfold read_byte. rewrite lookup_write_bytes.
    unfold byte_addr. rewrite Hm, decide_True by lia.
    do 2 f_equal. lia.
  - intros x Hx. rewrite !vmo_byte_eq. cbn.
    destruct (page_list_ (vmo k) !! round_down_page x) as [q|] eqn:Hq; [|done]. cbn. f_equal.
    unfold read_byte. rewrite lookup_write_bytes.
    rewrite decide_False; [done|]. rewrite Hlen. intros Hin.
    pose proof (mod_bounds _ Hp x) as Hmx.
    assert (q = p) as ->.
    { apply (page_frames_disjoint q p (x mod PAGE_SIZE)
               (byte_addr q x - paddr_to_kvaddr (vm_page_to_paddr p))).
      - done.
      - unfold byte_addr in *. lia.
      - unfold byte_addr. lia. }
    assert (round_down_page x = round_down_page offset) as Hsame by (by eapply Hinj).
    unfold byte_addr in Hin. unfold round_down_page in Hsame. lia.
Qed.

(** The pages of a range: the page of its first byte, then the pages of the
    rest of the range. *)
Lemma range_pages_first offset len :
  0 < len →
  let rest_len := len - (PAGE_SIZE - offset mod PAGE_SIZE) in
  range_pages offset len
  = round_down_page offset
    :: (if decide (0 < rest_len)
        then range_pages (round_down_page offset + PAGE_SIZE) rest_len
        else []).
Proof.
  intros Hl rest_len. pose proof PAGE_SIZE_pos as Hp.
  pose proof (mod_bounds _ Hp offset) as Hmo.
  destruct (round_down_spec offset) as [Hd1 Hd2].
  destruct (round_up_spec (offset + len)) as [Hu1 Hu2].
  pose proof (aligned_diff_div _ _ Hd1 Hu1) as Hdiv.
  unfold range_pages at 1, pages_between.
  set (n := (round_up_page (offset + len) - round_down_page offset) / PAGE_SIZE) in *.
  assert (round_down_page offset + PAGE_SIZE <= round_up_page (offset + len)) as Hge.
  { apply aligned_gap; [done..|lia]. }
  assert (1 <= n) as Hn by nia.
  replace (Z.to_nat n) with (S (Z.to_nat (n - 1))) by lia.
  cbn [pages_from]. f_equal.
  destruct (decide (0 < rest_len)) as [Hrest|Hlast].
  - unfold range_pages, pages_between.
    rewrite (round_down_aligned (round_down_page offset + PAGE_SIZE))
      by (by apply aligned_add_page).
    replace (round_down_page offset + PAGE_SIZE + rest_len) with (offset + len)
      by (unfold rest_len, round_down_page; lia).
    f_equal. f_equal.
    apply (Z.mul_cancel_r _ _ PAGE_SIZE); [lia|].
    rewrite <- aligned_diff_div by (done || by apply aligned_add_page). lia.
  - assert (round_up_page (offset + len) = round_down_page offset + PAGE_SIZE) as Heq.
    { apply round_up_unique; [by apply aligned_add_page|].
      unfold rest_len, round_down_page in *. lia. }
    assert (n = 1) as -> by nia. done.
Qed.

(** The loop of Write: given enough free pages for the missing pages of the
    range, it goes through, and afterwards the bytes of the range are the
    bytes of the buffer, the other bytes of the pages that were there are
    unchanged and every page still has one owner. *)
Lemma write_loop_spec buf fuel : ∀ offset len dest bc k,
  0 <= offset → 0 <= len → offset + len <= size_ (vmo k) → size_ (vmo k) <= MAX_SIZE →
  0 <= dest → dest + len < u64_modulus →
  (0 < fuel)%nat →
  (0 < len → offset mod PAGE_SIZE + len <= (Z.of_nat fuel - 1) * PAGE_SIZE) →
  pages_owned_once k →
  (0 < len →
   (length (missing_pages (page_list_ (vmo k)) offset len) <= length (free_list (pmm k)))%nat) →
  ∃ bc' k',
    rw_loop fuel offset len dest bc true write_routine buf k = Ret (NO_ERROR, bc', buf, k') ∧
    pages_owned_once k' ∧
    size_ (vmo k') = size_ (vmo k) ∧
    (∀ x q, page_list_ (vmo k) !! x = Some q → page_list_ (vmo k') !! x = Some q) ∧
    (∀ i, 0 <= i < len →
       vmo_byte k' (offset + i) = Some (default 0 (buf !! Z.to_nat (dest + i)))) ∧
    (∀ x, ¬ (offset <= x < offset + len) →
       is_Some (page_list_ (vmo k) !! round_down_page x) → vmo_byte k' x = vmo_byte k x).
Proof.
  pose proof PAGE_SIZE_pos as Hp. pose proof max_size_range as Hmax.
  induction fuel as [|fuel IH];
    intros offset len dest bc k Ho Hl Hin Hmx Hd Hdfit Hf Hm Hown Hfree; [lia|].
  destruct (Z.lt_ge_cases 0 len) as [Hpos|Hz].
  2:{ rewrite rw_loop_done by lia. exists bc, k.
      split; [done|]. split; [done|]. split; [done|]. split; [done|].
      split; [intros; lia|done]. }
  specialize (Hm Hpos). specialize (Hfree Hpos).
  rewrite rw_loop_step by done. cbn zeta.
  destruct (tocopy_range offset len Hpos) as [Ht1 Ht2].
  set (t := MIN (PAGE_SIZE - offset mod PAGE_SIZE) len) in *.
  pose proof (mod_bounds _ Hp offset) as Hmo.
  pose proof (range_pages_first offset len Hpos) as Hfirst. cbn zeta in Hfirst.
  assert (0 < len - t → t = PAGE_SIZE - offset mod PAGE_SIZE) as Htfull.
  { unfold t, MIN. destruct (Z.ltb_spec (PAGE_SIZE - offset mod PAGE_SIZE) len); lia. }
  assert (0 < len - t → round_down_page offset + PAGE_SIZE = offset + t) as Hnext.
  { intros Hr. rewrite (Htfull Hr). unfold round_down_page. lia. }
  destruct (FaultPageLocked offset (pf_flags_of true) k) as [r k1] eqn:Hfault.
  pose proof (FaultPageLocked_owned _ _ _ _ _ Hown Hfault) as Hown1.
  destruct (FaultPageLocked_keeps _ _ _ _ _ Hfault) as (Hsz1 & _ & _ & Hkept1 & Hnew1 & _).
  assert (∃ p, r = Some p ∧
            (0 < len - t →
             (length (missing_pages (page_list_ (vmo k1)) (offset + t) (len - t))
              <= length (free_list (pmm k1)))%nat)) as (p & -> & Hfree1).
  { unfold missing_pages in Hfree |- *. rewrite Hfirst in Hfree.
    destruct (FaultPageLocked_cases offset (pf_flags_of true) k)
      as [[Hge _]|[(_ & p & Hlk & Heq)|[(_ & Hlk & Hnil & _)|(_ & Hlk & p & rest & Hfl & Heq)]]].
    - lia.
    - rewrite Heq in Hfault. injection Hfault as <- <-. exists p. split; [done|].
      intros Hr. rewrite decide_True in Hfree by (rewrite (Htfull Hr) in Hr; lia).
      rewrite filter_cons, decide_False in Hfree by congruence.
      rewrite <- (Hnext Hr). rewrite (Htfull Hr). done.
    - rewrite filter_cons, decide_True, Hnil in Hfree by done. cbn in Hfree. lia.
    - rewrite Heq in Hfault. injection Hfault as <- <-. exists p. split; [done|].
      intros Hr. rewrite decide_True in Hfree by (rewrite (Htfull Hr) in Hr; lia).
      rewrite filter_cons, decide_True, Hfl in Hfree by done. cbn in Hfree. cbn.
      rewrite <- (Hnext Hr), (Htfull Hr).
      rewrite filter_absent_insert; [lia|].
      pose proof (range_pages_NoDup offset len) as Hnd. rewrite Hfirst in Hnd.
      rewrite decide_True in Hnd by (rewrite (Htfull Hr) in Hr; lia).
      by apply NoDup_cons in Hnd as [? _]. }
  specialize (Hnew1 p eq_refl).
  cbn [write_routine status_lt0].
  set (bytes := buffer_bytes buf dest (Z.to_nat t)).
  fold (byte_addr p offset).
  set (k2 := with_kmem (write_bytes (byte_addr p offset) bytes (kmem k1)) k1).
  destruct (write_chunk k1 p offset t bytes Hown1 Hnew1) as [Hbytes2 Hframe2];
    [lia|lia|apply length_buffer_bytes|]. fold k2 in Hbytes2, Hframe2.
  rewrite (u64_small (offset + t)), (u64_small (len - t)), (u64_small (dest + t))
    by (unfold u64_modulus in *; lia).
  destruct (IH (offset + t) (len - t) (dest + t) (counter_add t bc) k2)
    as (bc' & k' & Hrun & Hown' & Hsz' & Hkept' & Hbytes' & Hframe'); try (cbn; lia).
  { intros Hr. rewrite (Htfull Hr).
    replace (offset + (PAGE_SIZE - offset mod PAGE_SIZE))
      with ((offset - offset mod PAGE_SIZE) + PAGE_SIZE) by lia.
    rewrite mod_add_page, aligned_sub_mod by done. rewrite (Htfull Hr) in Hr. lia. }
  { done. }
  exists bc', k'. split; [done|]. split; [done|].
  split; [cbn in Hsz'; congruence|].
  split; [intros x q Hx; apply Hkept'; cbn; by apply Hkept1|].
  split.
  - intros i Hi. destruct (Z.lt_ge_cases i t) as [Hlt|Hge].
    + rewrite Hframe'; [|lia|].
      * rewrite Hbytes2 by lia. unfold bytes.
        rewrite lookup_buffer_bytes by lia. cbn. do 3 f_equal. lia.
      * destruct (mod_in_page offset i) as [_ ->]; [lia..|]. cbn. by eexists.
    + replace (offset + i) with (offset + t + (i - t)) by lia.
      rewrite Hbytes' by lia. do 3 f_equal. lia.
  - intros x Hx Hsome. rewrite Hframe'; [|lia|].
    + rewrite Hframe2 by lia. by eapply FaultPageLocked_bytes.
    + destruct Hsome as [q Hq]. cbn. rewrite (Hkept1 _ _ Hq). by eexists.
Qed.

(** The loop of Read over pages that are all present: it goes through,
    touches nothing in the kernel and fills the buffer with the bytes of the
    object. *)
Lemma read_loop_spec fuel : ∀ offset len dest bc out k,
  0 <= offset → 0 <= len → offset + len <= size_ (vmo k) → size_ (vmo k) <= MAX_SIZE →
  0 <= dest → dest + len <= Z.of_nat (length out) → dest + len < u64_modulus →
  (0 < fuel)%nat →
  (0 < len → offset mod PAGE_SIZE + len <= (Z.of_nat fuel - 1) * PAGE_SIZE) →
  (∀ i, 0 <= i < len → is_Some (page_list_ (vmo k) !! round_down_page (offset + i))) →
  ∃ bc' out',
    rw_loop fuel offset len dest bc false read_routine out k = Ret (NO_ERROR, bc', out', k) ∧
    length out' = length out ∧
    (∀ i, 0 <= i < len → out' !! Z.to_nat (dest + i) = vmo_byte k (offset + i)) ∧
    (∀ j : nat, Z.of_nat j < dest ∨ dest + len <= Z.of_nat j → out' !! j = out !! j).
Proof.
  pose proof PAGE_SIZE_pos as Hp. pose proof max_size_range as Hmax.
  induction fuel as [|fuel IH];
    intros offset len dest bc out k Ho Hl Hin Hmx Hd Hdlen Hdfit Hf Hm Hall; [lia|].
  destruct (Z.lt_ge_cases 0 len) as [Hpos|Hz].
  2:{ rewrite rw_loop_done by lia. exists bc, out.
      split; [done|]. split; [done|]. split; [intros; lia|done]. }
  specialize (Hm Hpos).
  rewrite rw_loop_step by done. cbn zeta.
  destruct (tocopy_range offset len Hpos) as [Ht1 Ht2].
  set (t := MIN (PAGE_SIZE - offset mod PAGE_SIZE) len) in *.
  pose proof (mod_bounds _ Hp offset) as Hmo.
  assert (0 < len - t → t = PAGE_SIZE - offset mod PAGE_SIZE) as Htfull.
  { unfold t, MIN. destruct (Z.ltb_spec (PAGE_SIZE - offset mod PAGE_SIZE) len); lia. }
  destruct (Hall 0) as [p Hlk]; [lia|]. rewrite Z.add_0_r in Hlk.
  assert (FaultPageLocked offset (pf_flags_of false) k = (Some p, k)) as ->.
  { destruct (FaultPageLocked_cases offset (pf_flags_of false) k)
      as [[Hge _]|[(_ & q & Hq & Heq)|[(_ & Hq & _)|(_ & Hq & _)]]]; try congruence; lia. }
  cbn [read_routine status_lt0]. rewrite with_kmem_same.
  fold (byte_addr p offset).
  set (chunk := read_bytes (byte_addr p offset) (Z.to_nat t) (kmem k)).
  set (out1 := list_inserts (Z.to_nat dest) chunk out).
  assert (length chunk = Z.to_nat t) as Hclen by apply length_read_bytes.
  assert (length out1 = length out) as Hlen1 by apply length_inserts.
  rewrite (u64_small (offset + t)), (u64_small (len - t)), (u64_small (dest + t))
    by (unfold u64_modulus in *; lia).
  destruct (IH (offset + t) (len - t) (dest + t) (counter_add t bc) out1 k)
    as (bc' & out' & Hrun & Hlen' & Hbytes' & Hframe'); try lia.
  { intros Hr. rewrite (Htfull Hr).
    replace (offset + (PAGE_SIZE - offset mod PAGE_SIZE))
      with ((offset - offset mod PAGE_SIZE) + PAGE_SIZE) by lia.
    rewrite mod_add_page, aligned_sub_mod by done. rewrite (Htfull Hr) in Hr. lia. }
  { intros i Hi. replace (offset + t + i) with (offset + (t + i)) by lia. apply Hall. lia. }
  exists bc', out'. split; [done|]. split; [lia|]. split.
  - intros i Hi. destruct (Z.lt_ge_cases i t) as [Hlt|Hge].
    + rewrite Hframe' by lia. unfold out1.
      rewrite list_lookup_inserts by lia. unfold chunk.
      rewrite lookup_read_bytes by lia.
      destruct (mod_in_page offset i) as [Hmi Hrd]; [lia..|].
      rewrite vmo_byte_eq, Hrd, Hlk. cbn. unfold byte_addr. rewrite Hmi.
      do 2 f_equal. lia.
    + replace (offset + i) with (offset + t + (i - t)) by lia.
      rewrite <- Hbytes' by lia. f_equal. lia.
  - intros j Hj. rewrite Hframe' by lia. unfold out1.
    destruct Hj as [Hj|Hj].
    + apply list_lookup_inserts_lt. lia.
    + apply list_lookup_inserts_ge. lia.
Qed.

(** C3. Write, then Read, give the buffer back.  For an object whose pages
    have one owner each, a range [o, o+l) within the size, a buffer of [l]
    bytes and an allocator that has a free page for every missing page of
    the range, [Write(buf, o, l)] returns NO_ERROR with [l] bytes written,
    and the [Read(out, o, l)] that follows returns NO_ERROR with [l] bytes
    read, leaves the kernel state as Write left it and fills [out] with the
    bytes of [buf], whichever pages of the range were committed before. *)
Theorem Write_then_Read_round_trip
    (k : kernel) (wptr rptr o l : Z) (buf out : list Z) (bw br : option Z) :
  size_ok k → pages_owned_once k →
  is_kernel_address wptr = true → is_kernel_address rptr = true →
  0 <= o → 0 <= l → o + l <= size_ (vmo k) →
  length buf = Z.to_nat l → length out = Z.to_nat l →
  (length (missing_pages (page_list_ (vmo k)) o l) <= length (free_list (pmm k)))%nat →
  ∃ k1,
    Write wptr buf o l bw k = Ret (NO_ERROR, (λ _, l) <$> bw, buf, k1) ∧
    Read rptr out o l br k1 = Ret (NO_ERROR, (λ _, l) <$> br, buf, k1).
Proof.
  intros Hsize Hown Hw Hr Ho Hl Hin Hbuf Hout Hfree.
  pose proof PAGE_SIZE_pos as Hp. pose proof max_size_range as Hmax.
  unfold size_ok in Hsize.
  unfold Write, Read. rewrite Hw, Hr. cbn [negb].
  unfold ReadWriteInternal. rewrite TrimRange_in_range by lia.
  destruct (Z.eqb_spec l 0) as [->|Hnz].
  { exists k. rewrite TrimRange_in_range by lia. cbn.
    destruct buf; [|done]. destruct out; [|done]. by destruct bw, br. }
  destruct (rw_fuel_enough o l) as [Hf1 Hf2]; [lia|].
  destruct (write_loop_spec buf (rw_fuel l) o l 0 (counter_zero bw) k)
    as (bc' & k1 & Hrun & Hown1 & Hsz1 & Hkept & Hbytes & _); try done; try lia.
  exists k1. rewrite Hsz1, TrimRange_in_range by lia.
  destruct (Z.eqb_spec l 0) as [|_]; [done|].
  assert (bc' = (λ _, l) <$> bw) as ->.
  { apply rw_loop_ok in Hrun as (_ & _ & ->); try lia.
    - by destruct bw; cbn; f_equal.
    - intros v Hv. destruct bw; [|done]. injection Hv as <-. unfold u64_modulus in *. lia. }
  split; [done|].
  destruct (read_loop_spec (rw_fuel l) o l 0 (counter_zero br) out k1)
    as (bc2 & out' & Hrun2 & Hlen2 & Hbytes2 & _); try done; try lia.
  { intros i Hi. specialize (Hbytes i Hi). rewrite vmo_byte_eq in Hbytes.
    destruct (page_list_ (vmo k1) !! round_down_page (o + i)); [by eexists|done]. }
  assert (bc2 = (λ _, l) <$> br) as ->.
  { apply rw_loop_ok in Hrun2 as (_ & _ & ->); try lia.
    - by destruct br; cbn; f_equal.
    - intros v Hv. destruct br; [|done]. injection Hv as <-. unfold u64_modulus in *. lia. }
  rewrite Hrun2. do 3 f_equal.
  apply list_eq. intros j.
  destruct (decide (j < Z.to_nat l)%nat) as [Hj|Hj].
  - specialize (Hbytes2 (Z.of_nat j)). specialize (Hbytes (Z.of_nat j)).
    rewrite Z.add_0_l, Nat2Z.id in Hbytes2, Hbytes.
    rewrite Hbytes2, Hbytes by lia.
    destruct (lookup_lt_is_Some_2 buf j) as [b Hb]; [lia|]. by rewrite Hb.
  - rewrite !lookup_ge_None_2 by lia. done.
Qed.

End RoundTrip.

(** * More of the object *)

(** ** The pages of the object and of the allocator *)

Section Pages.
Context `{HP : Platform} {HOk : PlatformOk}.

Lemma owned_pages_perm k : owned_pages k ≡ₚ (map_to_list (page_list_ (vmo k))).*2.
Proof. unfold owned_pages. by rewrite merge_sort_Permutation. Qed.

Lemma owned_pages_length k : Z.of_nat (length (owned_pages k)) = AllocatedPages k.
Proof.
  unfold AllocatedPages. rewrite owned_pages_perm, length_fmap, length_map_to_list. done.
Qed.

Lemma values_insert (pl : gmap Z Z) x p :
  pl !! x = None → (map_to_list (<[x := p]> pl)).*2 ≡ₚ p :: (map_to_list pl).*2.
Proof. intros Hx. by rewrite map_to_list_insert. Qed.

Lemma values_delete (pl : gmap Z Z) x p :
  pl !! x = Some p → (map_to_list pl).*2 ≡ₚ p :: (map_to_list (delete x pl)).*2.
Proof. intros Hx. by rewrite <- (map_to_list_delete pl x p). Qed.

(** Deleting the entries at the offsets [l] takes the pages that were
    present at these offsets out of the list, and nothing else. *)
Lemma values_delete_list l : ∀ (pl pl' : gmap Z Z),
  NoDup l →
  (∀ x, pl' !! x = if decide (x ∈ l) then None else pl !! x) →
  (map_to_list pl).*2 ≡ₚ present_pages pl l ++ (map_to_list pl').*2.
Proof.
  induction l as [|x l IH]; intros pl pl' Hnd Hpl.
  - assert (pl' = pl) as -> by (apply map_eq; intros x; by rewrite Hpl). done.
  - apply NoDup_cons in Hnd as [Hx Hnd].
    rewrite present_pages_cons.
    assert (present_pages pl l ++ (map_to_list pl').*2
            ≡ₚ (map_to_list (delete x pl)).*2) as Hrest.
    { rewrite <- (present_pages_delete pl x l Hx). symmetry. apply IH; [done|].
      intros y. rewrite Hpl.
      destruct (decide (y = x)) as [->|Hne].
      - rewrite decide_True by (apply elem_of_cons; by left).
        rewrite decide_False by done. by rewrite lookup_delete_eq.
      - rewrite lookup_delete_ne by done.
        destruct (decide (y ∈ l)) as [Hy|Hy].
        + by rewrite decide_True by (apply elem_of_cons; by right).
        + rewrite decide_False; [done|]. by intros [?|?]%elem_of_cons. }
    destruct (pl !! x) as [p|] eqn:Hlk.
    + cbn. rewrite Hrest. by apply values_delete.
    + rewrite Hrest. by rewrite delete_id.
Qed.

Lemma freed_all_pages l k k' : NoDup l → freed l k k' → all_pages k' ≡ₚ all_pages k.
Proof.
  intros Hnd (_ & _ & _ & _ & Hpl & _ & Hfree).
  unfold all_pages. rewrite !owned_pages_perm, Hfree.
  rewrite (values_delete_list l _ _ Hnd Hpl), reverse_Permutation.
  by rewrite (assoc_L (++)), (Permutation_app_comm (map_to_list _).*2).
Qed.

Lemma freed_allocated l k k' :
  NoDup l → freed l k k' →
  AllocatedPages k
  = AllocatedPages k' + Z.of_nat (length (present_pages (page_list_ (vmo k)) l)).
Proof.
  intros Hnd (_ & _ & _ & _ & Hpl & _ & _).
  rewrite <- !owned_pages_length, !owned_pages_perm.
  rewrite (values_delete_list l _ _ Hnd Hpl), length_app. lia.
Qed.

Lemma unmap_all_pages start len k : all_pages (unmap_all_regions start len k) = all_pages k.
Proof. done. Qed.

Lemma FaultPageLocked_all_pages offset pf_flags k r k' :
  FaultPageLocked offset pf_flags k = (r, k') → all_pages k' ≡ₚ all_pages k.
Proof.
  intros Hf.
  destruct (FaultPageLocked_cases offset pf_flags k)
    as [[_ Heq]|[(_ & p & _ & Heq)|[(_ & _ & _ & Heq)|(_ & Hlk & p & rest & Hfl & Heq)]]];
    rewrite Heq in Hf; injection Hf as <- <-; try done.
  unfold all_pages. rewrite !owned_pages_perm, Hfl. cbn.
  rewrite values_insert by done. cbn. by rewrite <- Permutation_middle.
Qed.

(** Pages are owned once exactly when the pages of the object and of the
    allocator, put together, list no page twice. *)
Lemma pages_owned_once_NoDup k : pages_owned_once k ↔ NoDup (all_pages k).
Proof.
  unfold pages_owned_once, all_pages. rewrite NoDup_app.
  assert (∀ p, p ∈ owned_pages k ↔ ∃ o, page_list_ (vmo k) !! o = Some p) as Hel.
  { intros p. rewrite owned_pages_perm, list_elem_of_fmap. split.
    - intros ([o q] & -> & Hin). exists o. by apply elem_of_map_to_list.
    - intros (o & Hlk). exists (o, p). split; [done|]. by apply elem_of_map_to_list. }
  assert (NoDup (owned_pages k) ↔
          ∀ o1 o2 p, page_list_ (vmo k) !! o1 = Some p → page_list_ (vmo k) !! o2 = Some p →
                     o1 = o2) as Hnd.
  { rewrite owned_pages_perm. split.
    - intros Hnd o1 o2 p H1 H2.
      apply elem_of_map_to_list, list_elem_of_lookup in H1 as [i Hi].
      apply elem_of_map_to_list, list_elem_of_lookup in H2 as [j Hj].
      assert (i = j) as ->.
      { apply (NoDup_lookup _ i j p Hnd); rewrite list_lookup_fmap.
        - by rewrite Hi.
        - by rewrite Hj. }
      congruence.
    - intros Hinj. apply NoDup_fmap_2_strong; [|apply NoDup_map_to_list].
      intros [o1 p1] [o2 p2] H1%elem_of_map_to_list H2%elem_of_map_to_list Heq.
      cbn in Heq. subst p2. f_equal. by eapply Hinj. }
  rewrite Hnd. split.
  - intros (Hinj & Hfree & Hdis). split; [done|]. split; [|done].
    intros p [o Hlk]%Hel. by eapply Hdis.
  - intros (Hinj & Hdis & Hfree). split; [done|]. split; [done|].
    intros o p Hlk. apply Hdis, Hel. by eexists.
Qed.

End Pages.

(** ** Committing pages: what the second pass installs *)

Section CommitInstall.
Context `{HP : Platform} {HOk : PlatformOk}.

Lemma lookup_zero_pages ps : ∀ (m : gmap Z Z) a,
  zero_pages ps m !! a = if decide (Exists (in_frame a) ps) then None else m !! a.
Proof.
  induction ps as [|p ps IH]; intros m a.
  - cbn. rewrite decide_False; [done|]. by intros ?%Exists_nil.
  - change (zero_pages (p :: ps) m) with (zero_pages ps (ZeroPage (vm_page_to_paddr p) m)).
    rewrite IH. unfold ZeroPage. rewrite lookup_arch_zero_page.
    fold (in_frame a p).
    destruct (decide (Exists (in_frame a) ps)) as [Hps|Hps].
    + rewrite decide_True; [done|]. by apply Exists_cons_tl.
    + destruct (decide (in_frame a p)) as [Hp|Hp].
      * rewrite decide_True; [done|]. by apply Exists_cons_hd.
      * rewrite decide_False; [done|]. by intros [?|?]%Exists_cons.
Qed.

Lemma zip_keys {A B} (l : list A) (k : list B) x : x ∈ (zip l k).*1 → x ∈ l.
Proof.
  intros ([a b] & -> & Hin)%list_elem_of_fmap. by apply elem_of_zip_l in Hin.
Qed.

(** The second pass of CommitRange, given a batch that covers the missing
    pages: the i-th missing page of the range takes the i-th page of the
    batch, zeroed; the pages that were there stay. *)
Lemma commit_fold_install l : ∀ b c k,
  NoDup l → Forall (λ x, x mod PAGE_SIZE = 0) l →
  let miss := filter (λ x, page_list_ (vmo k) !! x = None) l in
  (length miss <= length b)%nat →
  (∀ v, c = Some v → 0 <= v ∧ v + PAGE_SIZE * Z.of_nat (length l) < u64_modulus) →
  ∃ k',
    fold_pages commit_page l (b, c, k)
    = Ret (drop (length miss) b,
           (λ v, v + PAGE_SIZE * Z.of_nat (length miss)) <$> c, k') ∧
    page_list_ (vmo k') = list_to_map (zip miss b) ∪ page_list_ (vmo k) ∧
    size_ (vmo k') = size_ (vmo k) ∧
    pmm_alloc_flags_ (vmo k') = pmm_alloc_flags_ (vmo k) ∧
    region_list_ (vmo k') = region_list_ (vmo k) ∧
    free_list (pmm k') = free_list (pmm k) ∧
    trace k' = trace k ∧
    kmem k' = zero_pages (take (length miss) b) (kmem k).
Proof.
  pose proof PAGE_SIZE_pos as Hp.
  induction l as [|x l IH]; intros b c k Hnd Hal miss Hlen Hc.
  { exists k. cbn. rewrite (left_id_L ∅ (∪)).
    split; [|done]. destruct c as [v|]; cbn; [|done].
    by rewrite Z.mul_0_r, Z.add_0_r. }
  apply NoDup_cons in Hnd as [Hx Hnd]. apply Forall_cons in Hal as [Hxa Hal].
  cbn [fold_pages]. rewrite commit_page_aligned by done.
  unfold miss in *. clear miss. rewrite filter_cons in Hlen |- *.
  destruct (page_list_ (vmo k) !! x) as [q|] eqn:Hlk.
  - rewrite decide_False in Hlen |- * by done. rewrite outcome_bind_Ret.
    apply IH; [done..|].
    intros v Hv. destruct (Hc v Hv). cbn [length] in *. lia.
  - rewrite decide_True in Hlen |- * by done.
    destruct b as [|p b]; [cbn in Hlen; lia|].
    rewrite outcome_bind_Ret. cbn [length] in Hlen.
    set (k1 := with_page_list _ _).
    destruct (IH b (counter_add PAGE_SIZE c) k1) as (k' & Hrun & Hpl & Hsz & Hfl & Hrg & Hfree
                                                     & Htr & Hmem); [done|done| | |].
    { unfold k1. cbn. rewrite filter_absent_insert by done. lia. }
    { intros v Hv. destruct c as [v0|]; [|done]. cbn in Hv. injection Hv as <-.
      destruct (Hc v0 eq_refl). cbn [length] in *.
      rewrite u64_small by (unfold u64_modulus in *; lia). lia. }
    assert (page_list_ (vmo k1) = <[x := p]> (page_list_ (vmo k))) as Hk1 by done.
    rewrite Hk1 in Hrun, Hpl, Hmem.
    rewrite filter_absent_insert in Hrun, Hpl, Hmem by done.
    exists k'. rewrite Hrun. cbn [length drop take zip zip_with].
    split.
    { do 3 f_equal. destruct c as [v0|]; [|done]. cbn. f_equal.
      destruct (Hc v0 eq_refl). cbn [length] in *.
      rewrite u64_small by (unfold u64_modulus in *; lia). lia. }
    split.
    { rewrite Hpl, list_to_map_cons, <- insert_union_l, <- insert_union_r; [done|].
      apply not_elem_of_list_to_map. intros Hin%zip_keys.
      apply list_elem_of_filter in Hin as [_ Hin]. done. }
    done.
Qed.

(** CommitRange when the allocator can supply the missing pages. *)
Lemma CommitRange_run k offset len len' committed :
  size_ok k → 0 <= offset → 0 <= len →
  TrimRange offset len (size_ (vmo k)) = Some len' → len' ≠ 0 →
  let miss := missing_pages (page_list_ (vmo k)) offset len' in
  let batch := take (length miss) (free_list (pmm k)) in
  (length miss <= length (free_list (pmm k)))%nat →
  ∃ k',
    CommitRange offset len committed k
    = Ret (NO_ERROR, (λ _, PAGE_SIZE * Z.of_nat (length miss)) <$> committed, k') ∧
    page_list_ (vmo k') = list_to_map (zip miss batch) ∪ page_list_ (vmo k) ∧
    size_ (vmo k') = size_ (vmo k) ∧
    pmm_alloc_flags_ (vmo k') = pmm_alloc_flags_ (vmo k) ∧
    region_list_ (vmo k') = region_list_ (vmo k) ∧
    free_list (pmm k') = drop (length miss) (free_list (pmm k)) ∧
    trace k'
    = trace k ++ (if decide (miss = []) then []
                  else [EvPmmAllocPages (Z.of_nat (length miss))
                                        (pmm_alloc_flags_ (vmo k)) batch]) ∧
    kmem k' = zero_pages batch (kmem k).
Proof.
  intros Hsize Ho Hl Htrim Hne miss batch Henough.
  pose proof max_size_range as Hmax. pose proof PAGE_SIZE_pos as Hp.
  unfold size_ok in Hsize.
  destruct (TrimRange_Some _ _ _ _ Ho Hl Htrim) as [Hl' Hin].
  unfold CommitRange. rewrite Htrim.
  destruct (Z.eqb_spec len' 0) as [|_]; [done|].
  rewrite CommitRange_count, outcome_bind_Ret by lia. fold miss.
  destruct (Z.eqb_spec (Z.of_nat (length miss)) 0) as [Hz|Hnz].
  { assert (miss = []) as Hnil by (apply length_zero_iff_nil; lia).
    exists k. unfold batch. rewrite Hnil. cbn. rewrite (left_id_L ∅ (∪)), app_nil_r.
    split; [|done]. destruct committed; cbn; [|done]. by rewrite Z.mul_0_r. }
  unfold pmm_alloc_pages. rewrite Nat2Z.id. fold batch.
  assert (length batch = length miss) as Hbatch by (unfold batch; rewrite length_take; lia).
  destruct (Z.ltb_spec (Z.of_nat (length batch)) (Z.of_nat (length miss))) as [|_]; [lia|].
  rewrite for_pages_range by (lia || apply commit_page_by_page).
  set (k0 := log _ _).
  destruct (round_down_spec offset) as [Hd1 Hd2].
  destruct (round_up_spec (offset + len')) as [Hu1 Hu2].
  assert (0 <= round_down_page offset) as Hs0.
  { unfold round_down_page. pose proof (Z.mod_le offset PAGE_SIZE). lia. }
  assert (round_up_page (offset + len') + PAGE_SIZE <= u64_modulus) as Hfit
    by (apply round_up_fits; lia).
  destruct (commit_fold_install (range_pages offset len') batch (counter_zero committed) k0)
    as (k' & Hrun & Hpl & Hsz & Hfl & Hrg & Hfree & Htr & Hmem).
  { apply range_pages_NoDup. }
  { apply range_pages_aligned. }
  { unfold k0. cbn. fold (missing_pages (page_list_ (vmo k)) offset len'). fold miss. lia. }
  { intros v Hv. destruct committed; [|done]. cbn in Hv. injection Hv as <-.
    unfold range_pages. rewrite pages_between_length by (done || lia). lia. }
  assert (filter (λ x, page_list_ (vmo k0) !! x = None) (range_pages offset len') = miss)
    as Hk0 by done.
  rewrite Hk0 in Hrun, Hpl, Hmem.
  rewrite Hrun, outcome_bind_Ret. exists k'.
  split. { do 2 f_equal. destruct committed; cbn; [f_equal; lia|done]. }
  split; [done|]. split; [done|]. split; [done|]. split; [done|].
  split; [by rewrite Hfree|].
  split. { rewrite Htr. cbn. rewrite decide_False; [done|]. intros Hnil.
           rewrite Hnil in Hnz. done. }
  rewrite Hmem. f_equal. rewrite <- Hbatch. by rewrite firstn_all.
Qed.

End CommitInstall.

(** ** Every page has one holder, and none gets lost *)

Section Conservation.
Context `{HP : Platform} {HOk : PlatformOk}.

(** A call that returns keeps the size within MAX_SIZE and the page list
    within the size. *)
Lemma run_call_keeps_inv c k k' :
  call_args_u64 c → size_ok k → page_list_inv k → run_call c k = Ret k' →
  size_ok k' ∧ page_list_inv k'.
Proof.
  intros Hargs Hsize Hinv Hrun.
  destruct c; cbn [run_call call_args_u64] in *; unfold is_u64 in *.
  - injection Hrun as <-. apply AddPage_inv; [lia|done..].
  - destruct (Resize_inv s k) as (st & k1 & Heq & ?); [lia|done..|].
    rewrite Heq in Hrun. by injection Hrun as <-.
  - destruct (CommitRange_inv offset len committed k) as (st & c' & k1 & Heq & ?);
      [lia|lia|done..|].
    rewrite Heq in Hrun. by injection Hrun as <-.
  - pose proof (CommitRangeContiguous_inv offset len committed alignment_log2 k) as Hc.
    destruct (CommitRangeContiguous _ _ _ _ _) as [[[st c'] k1]| |]; [|done..].
    injection Hrun as <-. apply Hc; (lia || done).
  - destruct (DecommitRange_inv offset len decommitted k) as (st & c' & k1 & Heq & ?);
      [lia|lia|done..|].
    rewrite Heq in Hrun. by injection Hrun as <-.
  - unfold Read, DEBUG_ASSERT in Hrun.
    destruct (negb _); [destruct (_ && _); [done|]; by injection Hrun as <-|].
    destruct (ReadWriteInternal_runs read_routine false offset len bytes_read out k)
      as (st & bc' & b' & k1 & Heq & ?); [lia|lia|done..|].
    rewrite Heq in Hrun. by injection Hrun as <-.
  - unfold Write, DEBUG_ASSERT in Hrun.
    destruct (negb _); [destruct (_ && _); [done|]; by injection Hrun as <-|].
    destruct (ReadWriteInternal_runs write_routine true offset len bytes_written buf k)
      as (st & bc' & b' & k1 & Heq & ?); [lia|lia|done..|].
    rewrite Heq in Hrun. by injection Hrun as <-.
  - unfold ReadUser in Hrun. destruct (negb _); [by injection Hrun as <-|].
    destruct (ReadWriteInternal_runs (read_user_routine ptr) false offset len bytes_read u k)
      as (st & bc' & b' & k1 & Heq & ?); [lia|lia|done..|].
    rewrite Heq in Hrun. by injection Hrun as <-.
  - unfold WriteUser in Hrun. destruct (negb _); [by injection Hrun as <-|].
    destruct (ReadWriteInternal_runs (write_user_routine ptr) true offset len bytes_written u k)
      as (st & bc' & b' & k1 & Heq & ?); [lia|lia|done..|].
    rewrite Heq in Hrun. by injection Hrun as <-.
  - destruct (Lookup_runs offset len buffer buffer_size u k) as (st & u' & Heq);
      [lia|lia|done..|].
    rewrite Heq in Hrun. by injection Hrun as <-.
  - destruct (CacheOp_inv offset len type k) as (st & k1 & Heq & ?); [lia|lia|done..|].
    rewrite Heq in Hrun. by injection Hrun as <-.
Qed.

(** The pages of the list after a batch went to the missing offsets. *)
Lemma values_install miss : ∀ batch (pl : gmap Z Z),
  NoDup miss → (∀ x, x ∈ miss → pl !! x = None) → length miss = length batch →
  (map_to_list (list_to_map (zip miss batch) ∪ pl)).*2 ≡ₚ batch ++ (map_to_list pl).*2.
Proof.
  induction miss as [|x miss IH]; intros [|p batch] pl Hnd Hmiss Hlen; try done.
  { cbn. by rewrite (left_id_L ∅ (∪)). }
  apply NoDup_cons in Hnd as [Hx Hnd]. cbn [zip zip_with].
  rewrite list_to_map_cons, <- insert_union_l.
  rewrite values_insert.
  - cbn. f_equiv. apply IH; [done| |by injection Hlen].
    intros y Hy. apply Hmiss. by right.
  - apply lookup_union_None. split.
    + apply not_elem_of_list_to_map. by intros Hin%zip_keys.
    + apply Hmiss. by left.
Qed.

(** CommitRange when the allocator cannot supply the missing pages: the
    batch goes back, the object is not touched. *)
Lemma CommitRange_fails k offset len len' committed :
  size_ok k → 0 <= offset → 0 <= len →
  TrimRange offset len (size_ (vmo k)) = Some len' → len' ≠ 0 →
  (length (free_list (pmm k)) < length (missing_pages (page_list_ (vmo k)) offset len'))%nat →
  ∃ k', CommitRange offset len committed k = Ret (ERR_NO_MEMORY, counter_zero committed, k') ∧
        vmo k' = vmo k ∧ kmem k' = kmem k ∧ free_list (pmm k') = free_list (pmm k).
Proof.
  intros Hsize Ho Hl Htrim Hne Hshort.
  pose proof max_size_range as Hmax. pose proof PAGE_SIZE_pos as Hp.
  unfold size_ok in Hsize.
  destruct (TrimRange_Some _ _ _ _ Ho Hl Htrim) as [Hl' Hin].
  unfold CommitRange. rewrite Htrim.
  destruct (Z.eqb_spec len' 0) as [|_]; [done|].
  rewrite CommitRange_count, outcome_bind_Ret by lia.
  set (miss := missing_pages (page_list_ (vmo k)) offset len') in *.
  destruct (Z.eqb_spec (Z.of_nat (length miss)) 0) as [|_]; [lia|].
  unfold pmm_alloc_pages. rewrite Nat2Z.id.
  destruct (Z.ltb_spec (Z.of_nat (length (take (length miss) (free_list (pmm k)))))
              (Z.of_nat (length miss))) as [_|Hge].
  2:{ rewrite length_take in Hge. lia. }
  eexists. split; [done|]. cbn. split; [done|]. split; [done|].
  apply take_drop.
Qed.

(** The second pass of CommitRangeContiguous stops the kernel when the batch
    is shorter than the range. *)
Lemma commit_contiguous_fold_short l : ∀ b c k,
  Forall (λ x, x mod PAGE_SIZE = 0) l → (length b < length l)%nat →
  fold_pages commit_page_contiguous l (b, c, k) = Panic.
Proof.
  induction l as [|x l IH]; intros b c k Hal Hlen; [cbn in Hlen; lia|].
  apply Forall_cons in Hal as [Hxa Hal].
  cbn [fold_pages]. rewrite commit_page_contiguous_aligned by done.
  destruct b as [|p b]; [done|].
  destruct (page_list_ (vmo k) !! x); [destruct DEBUG_ASSERT_IMPLEMENTED; [done|]|];
    rewrite outcome_bind_Ret; (apply IH; [done|]; cbn in Hlen; lia).
Qed.

(** Over offsets that hold no page, the second pass of CommitRangeContiguous
    is the second pass of CommitRange. *)
Lemma commit_contiguous_fold_missing l : ∀ b c k,
  NoDup l → Forall (λ x, x mod PAGE_SIZE = 0) l →
  (∀ x, x ∈ l → page_list_ (vmo k) !! x = None) →
  fold_pages commit_page_contiguous l (b, c, k) = fold_pages commit_page l (b, c, k).
Proof.
  induction l as [|x l IH]; intros b c k Hnd Hal Hmiss; [done|].
  apply NoDup_cons in Hnd as [Hx Hnd]. apply Forall_cons in Hal as [Hxa Hal].
  cbn [fold_pages].
  rewrite commit_page_contiguous_aligned, commit_page_aligned by done.
  rewrite (Hmiss x) by (by left).
  destruct b as [|p b]; [done|]. rewrite !outcome_bind_Ret.
  apply IH; [done..|].
  intros y Hy. cbn. rewrite lookup_insert_ne by congruence. apply Hmiss. by right.
Qed.

Lemma filter_length_eq {A} (P : A → Prop) `{∀ x, Decision (P x)} (l : list A) :
  length (filter P l) = length l → filter P l = l.
Proof.
  induction l as [|x l IH]; [done|]. rewrite filter_cons.
  destruct (decide (P x)); cbn; intros Hlen.
  - f_equal. apply IH. lia.
  - pose proof (length_filter P l). lia.
Qed.

(** The debug assertion of CommitRangeContiguous on the count of missing
    pages. *)
Lemma CommitRangeContiguous_count_assert k offset len len' committed alignment_log2 :
  size_ok k → 0 <= offset → 0 <= len →
  TrimRange offset len (size_ (vmo k)) = Some len' → len' ≠ 0 →
  DEBUG_ASSERT_IMPLEMENTED = true →
  Z.of_nat (length (missing_pages (page_list_ (vmo k)) offset len')) ≠ len' / PAGE_SIZE →
  CommitRangeContiguous offset len committed alignment_log2 k = Panic.
Proof.
  intros Hsize Ho Hl Htrim Hne Hdebug Hcount.
  pose proof max_size_range as Hmax. pose proof PAGE_SIZE_pos as Hp.
  unfold size_ok in Hsize.
  destruct (TrimRange_Some _ _ _ _ Ho Hl Htrim) as [Hl' Hin].
  unfold CommitRangeContiguous. rewrite Htrim.
  destruct (Z.eqb_spec len' 0) as [|_]; [done|].
  rewrite CommitRange_count, outcome_bind_Ret by lia.
  unfold DEBUG_ASSERT. rewrite Hdebug.
  by destruct (Z.eqb_spec (Z.of_nat (length (missing_pages (page_list_ (vmo k)) offset len')))
                 (len' / PAGE_SIZE)).
Qed.

(** CommitRangeContiguous when the allocator can supply the count: over a
    range that holds no page it does what CommitRange does, provided the
    count passes the debug assertion; over a range that holds a page, the
    batch runs out before the range ends and an assertion stops the
    kernel. *)
Lemma CommitRangeContiguous_run k offset len len' committed alignment_log2 :
  size_ok k → 0 <= offset → 0 <= len →
  TrimRange offset len (size_ (vmo k)) = Some len' → len' ≠ 0 →
  let miss := missing_pages (page_list_ (vmo k)) offset len' in
  let batch := take (length miss) (free_list (pmm k)) in
  (length miss <= length (free_list (pmm k)))%nat →
  (miss ≠ range_pages offset len' →
   CommitRangeContiguous offset len committed alignment_log2 k = Panic) ∧
  (miss = range_pages offset len' →
   DEBUG_ASSERT_IMPLEMENTED = false ∨ Z.of_nat (length miss) = len' / PAGE_SIZE →
   ∃ k',
     CommitRangeContiguous offset len committed alignment_log2 k
     = Ret (NO_ERROR, (λ _, PAGE_SIZE * Z.of_nat (length miss)) <$> committed, k') ∧
     page_list_ (vmo k') = list_to_map (zip miss batch) ∪ page_list_ (vmo k) ∧
     size_ (vmo k') = size_ (vmo k) ∧
     pmm_alloc_flags_ (vmo k') = pmm_alloc_flags_ (vmo k) ∧
     region_list_ (vmo k') = region_list_ (vmo k) ∧
     free_list (pmm k') = drop (length miss) (free_list (pmm k)) ∧
     trace k'
     = trace k ++ [EvPmmAllocContiguous (Z.of_nat (length miss)) (pmm_alloc_flags_ (vmo k))
                                        alignment_log2 batch] ∧
     kmem k' = zero_pages batch (kmem k)).
Proof.
  intros Hsize Ho Hl Htrim Hne miss batch Henough.
  pose proof max_size_range as Hmax. pose proof PAGE_SIZE_pos as Hp.
  unfold size_ok in Hsize.
  destruct (TrimRange_Some _ _ _ _ Ho Hl Htrim) as [Hl' Hin].
  unfold CommitRangeContiguous. rewrite Htrim.
  destruct (Z.eqb_spec len' 0) as [|_]; [done|].
  rewrite CommitRange_count, outcome_bind_Ret by lia. fold miss.
  unfold DEBUG_ASSERT.
  destruct (DEBUG_ASSERT_IMPLEMENTED && negb (Z.of_nat (length miss) =? len' / PAGE_SIZE))
    eqn:Hassert.
  { split; [done|]. intros _ Hpass. exfalso.
    apply andb_true_iff in Hassert as [Hdebug Hcount].
    destruct Hpass as [Hrel|Heq]; [congruence|].
    rewrite Heq, Z.eqb_refl in Hcount. done. }
  rewrite outcome_bind_Ret.
  unfold pmm_alloc_contiguous. rewrite Nat2Z.id. fold batch.
  assert (length batch = length miss) as Hbatch by (unfold batch; rewrite length_take; lia).
  destruct (Z.ltb_spec (Z.of_nat (length batch)) (Z.of_nat (length miss))) as [|_]; [lia|].
  rewrite for_pages_range by (lia || apply commit_page_contiguous_by_page).
  set (k0 := log _ _).
  split.
  - intros Hpresent.
    rewrite commit_contiguous_fold_short; [done|apply range_pages_aligned|].
    rewrite Hbatch. unfold miss, missing_pages in *.
    pose proof (length_filter (λ x, page_list_ (vmo k) !! x = None) (range_pages offset len')).
    destruct (decide (length (filter (λ x, page_list_ (vmo k) !! x = None)
                                (range_pages offset len'))
                      = length (range_pages offset len'))) as [Heq|]; [|lia].
    by apply filter_length_eq in Heq.
  - intros Hall _.
    destruct (round_down_spec offset) as [Hd1 Hd2].
    destruct (round_up_spec (offset + len')) as [Hu1 Hu2].
    assert (0 <= round_down_page offset) as Hs0.
    { unfold round_down_page. pose proof (Z.mod_le offset PAGE_SIZE). lia. }
    assert (round_up_page (offset + len') + PAGE_SIZE <= u64_modulus) as Hfit
      by (apply round_up_fits; lia).
    rewrite commit_contiguous_fold_missing;
      [|apply range_pages_NoDup|apply range_pages_aligned|].
    2:{ intros x Hx. rewrite <- Hall in Hx.
        by apply list_elem_of_filter in Hx as [? _]. }
    destruct (commit_fold_install (range_pages offset len') batch (counter_zero committed) k0)
      as (k' & Hrun & Hpl & Hsz & Hfl & Hrg & Hfree & Htr & Hmem).
    { apply range_pages_NoDup. }
    { apply range_pages_aligned. }
    { unfold k0. cbn. fold (missing_pages (page_list_ (vmo k)) offset len'). fold miss. lia. }
    { intros v Hv. destruct committed; [|done]. cbn in Hv. injection Hv as <-.
      unfold range_pages. rewrite pages_between_length by (done || lia). lia. }
    assert (filter (λ x, page_list_ (vmo k0) !! x = None) (range_pages offset len') = miss)
      as Hk0 by done.
    rewrite Hk0 in Hrun, Hpl, Hmem.
    rewrite Hrun, outcome_bind_Ret. exists k'.
    split. { do 2 f_equal. destruct committed; cbn; [f_equal; lia|done]. }
    split; [done|]. split; [done|]. split; [done|]. split; [done|].
    split; [by rewrite Hfree|]. split; [by rewrite Htr|].
    rewrite Hmem. f_equal. rewrite <- Hbatch. by rewrite firstn_all.
Qed.

(** CommitRangeContiguous when the allocator cannot supply the count. *)
Lemma CommitRangeContiguous_fails k offset len len' committed alignment_log2 :
  size_ok k → 0 <= offset → 0 <= len →
  TrimRange offset len (size_ (vmo k)) = Some len' → len' ≠ 0 →
  (length (free_list (pmm k)) < length (missing_pages (page_list_ (vmo k)) offset len'))%nat →
  DEBUG_ASSERT_IMPLEMENTED = false ∨
  Z.of_nat (length (missing_pages (page_list_ (vmo k)) offset len')) = len' / PAGE_SIZE →
  ∃ k', CommitRangeContiguous offset len committed alignment_log2 k
        = Ret (ERR_NO_MEMORY, counter_zero committed, k') ∧
        vmo k' = vmo k ∧ kmem k' = kmem k ∧ free_list (pmm k') = free_list (pmm k).
Proof.
  intros Hsize Ho Hl Htrim Hne Hshort Hpass.
  pose proof max_size_range as Hmax. pose proof PAGE_SIZE_pos as Hp.
  unfold size_ok in Hsize.
  destruct (TrimRange_Some _ _ _ _ Ho Hl Htrim) as [Hl' Hin].
  unfold CommitRangeContiguous. rewrite Htrim.
  destruct (Z.eqb_spec len' 0) as [|_]; [done|].
  rewrite CommitRange_count, outcome_bind_Ret by lia.
  set (miss := missing_pages (page_list_ (vmo k)) offset len') in *.
  unfold DEBUG_ASSERT.
  assert (DEBUG_ASSERT_IMPLEMENTED && negb (Z.of_nat (length miss) =? len' / PAGE_SIZE) = false)
    as ->.
  { destruct Hpass as [Hrel|Heq]; [by rewrite Hrel|].
    by rewrite Heq, Z.eqb_refl, andb_false_r. }
  rewrite outcome_bind_Ret.
  unfold pmm_alloc_contiguous. rewrite Nat2Z.id.
  destruct (Z.ltb_spec (Z.of_nat (length (take (length miss) (free_list (pmm k)))))
              (Z.of_nat (length miss))) as [_|Hge].
  2:{ rewrite length_take in Hge. lia. }
  eexists. split; [done|]. cbn. split; [done|]. split; [done|].
  apply take_drop.
Qed.

(** The pages after a commit that went through. *)
Lemma install_all_pages k k' miss :
  NoDup miss → (∀ x, x ∈ miss → page_list_ (vmo k) !! x = None) →
  (length miss <= length (free_list (pmm k)))%nat →
  page_list_ (vmo k')
  = list_to_map (zip miss (take (length miss) (free_list (pmm k)))) ∪ page_list_ (vmo k) →
  free_list (pmm k') = drop (length miss) (free_list (pmm k)) →
  all_pages k' ≡ₚ all_pages k ∧
  AllocatedPages k' = AllocatedPages k + Z.of_nat (length miss).
Proof.
  intros Hnd Hmiss Hlen Hpl Hfree.
  assert (owned_pages k' ≡ₚ take (length miss) (free_list (pmm k)) ++ owned_pages k) as Hown.
  { rewrite !owned_pages_perm, Hpl. apply values_install; [done..|].
    rewrite length_take. lia. }
  split.
  - unfold all_pages. rewrite Hown, Hfree.
    rewrite (Permutation_app_comm (take _ _)), <- (assoc_L (++)).
    by rewrite take_drop.
  - rewrite <- !owned_pages_length, Hown, length_app, length_take. lia.
Qed.

Lemma missing_pages_spec (pl : gmap Z Z) offset len x :
  x ∈ missing_pages pl offset len → pl !! x = None.
Proof. by intros [? _]%list_elem_of_filter. Qed.

Lemma missing_pages_NoDup (pl : gmap Z Z) offset len : NoDup (missing_pages pl offset len).
Proof. apply NoDup_filter, range_pages_NoDup. Qed.

(** The copy loop neither gains nor loses a page. *)
Lemma rw_loop_all_pages {B} (copyfunc : copy_routine B) write fuel :
  ∀ offset len dest bc b k st bc' b' k',
  rw_loop fuel offset len dest bc write copyfunc b k = Ret (st, bc', b', k') →
  all_pages k' ≡ₚ all_pages k.
Proof.
  induction fuel as [|fuel IH]; intros offset len dest bc b k st bc' b' k' Hrun; [done|].
  destruct (Z.lt_ge_cases 0 len) as [Hpos|Hz].
  2:{ rewrite rw_loop_done in Hrun by lia. by injection Hrun as <- <- <- <-. }
  rewrite rw_loop_step in Hrun by done. cbn zeta in Hrun.
  destruct (FaultPageLocked offset (pf_flags_of write) k) as [[p|] k1] eqn:Hfault.
  2:{ injection Hrun as <- <- <- <-. by eapply FaultPageLocked_all_pages. }
  apply FaultPageLocked_all_pages in Hfault.
  destruct (copyfunc _ _ _ _) as [err [m b1]].
  destruct (status_lt0 err).
  - injection Hrun as <- <- <- <-. done.
  - apply IH in Hrun. by rewrite Hrun.
Qed.

Lemma ReadWriteInternal_all_pages {B} (copyfunc : copy_routine B) write
    offset len bc b k st bc' b' k' :
  ReadWriteInternal offset len bc write copyfunc b k = Ret (st, bc', b', k') →
  all_pages k' ≡ₚ all_pages k.
Proof.
  unfold ReadWriteInternal.
  destruct (TrimRange _ _ _) as [len'|]; [|by intros [= <- <- <- <-]].
  destruct (len' =? 0); [by intros [= <- <- <- <-]|].
  apply rw_loop_all_pages.
Qed.

(** No call but AddPage, which brings a page from outside, changes which
    pages the object and the allocator hold together. *)
Lemma run_call_all_pages c k k' :
  call_args_u64 c → is_AddPage c = false → size_ok k → run_call c k = Ret k' →
  all_pages k' ≡ₚ all_pages k.
Proof.
  intros Hargs Hadd Hsize Hrun.
  destruct c; cbn [run_call call_args_u64] in *; unfold is_u64 in *; try done.
  - (* Resize *)
    destruct (Z.lt_ge_cases MAX_SIZE s) as [Hbig|Hok].
    { unfold Resize in Hrun. destruct (Z.ltb_spec MAX_SIZE s); [|lia].
      by injection Hrun as <-. }
    destruct (Resize_run k s Hsize) as (k1 & Heq & Hfreed); [lia|].
    rewrite Heq in Hrun. injection Hrun as <-.
    apply freed_all_pages in Hfreed; [|apply pages_between_NoDup].
    change (all_pages (with_size s k1)) with (all_pages k1). rewrite Hfreed.
    by destruct (decide _).
  - (* CommitRange *)
    destruct (TrimRange offset len (size_ (vmo k))) as [len'|] eqn:Htrim.
    2:{ unfold CommitRange in Hrun. rewrite Htrim in Hrun. by injection Hrun as <-. }
    destruct (Z.eq_dec len' 0) as [->|Hne].
    { unfold CommitRange in Hrun. rewrite Htrim in Hrun. by injection Hrun as <-. }
    destruct (decide (length (missing_pages (page_list_ (vmo k)) offset len')
                      <= length (free_list (pmm k)))%nat) as [Hen|Hshort].
    + destruct (CommitRange_run k offset len len' committed)
        as (k1 & Heq & Hpl & _ & _ & _ & Hfree & _); [done|lia|lia|done..|].
      rewrite Heq in Hrun. injection Hrun as <-.
      eapply install_all_pages; [apply missing_pages_NoDup|apply missing_pages_spec|done..].
    + destruct (CommitRange_fails k offset len len' committed)
        as (k1 & Heq & Hvmo & _ & Hfree); [done|lia|lia|done|done|lia|].
      rewrite Heq in Hrun. injection Hrun as <-.
      unfold all_pages, owned_pages. by rewrite Hvmo, Hfree.
  - (* CommitRangeContiguous *)
    destruct (TrimRange offset len (size_ (vmo k))) as [len'|] eqn:Htrim.
    2:{ unfold CommitRangeContiguous in Hrun. rewrite Htrim in Hrun. by injection Hrun as <-. }
    destruct (Z.eq_dec len' 0) as [->|Hne].
    { unfold CommitRangeContiguous in Hrun. rewrite Htrim in Hrun. by injection Hrun as <-. }
    assert (DEBUG_ASSERT_IMPLEMENTED = false ∨
            Z.of_nat (length (missing_pages (page_list_ (vmo k)) offset len'))
            = len' / PAGE_SIZE) as Hpass.
    { destruct DEBUG_ASSERT_IMPLEMENTED eqn:Hdebug; [right|by left].
      destruct (decide (Z.of_nat (length (missing_pages (page_list_ (vmo k)) offset len'))
                        = len' / PAGE_SIZE)) as [|Hcount]; [done|].
      rewrite (CommitRangeContiguous_count_assert k offset len len') in Hrun;
        [done|done|lia|lia|done..]. }
    destruct (decide (length (missing_pages (page_list_ (vmo k)) offset len')
                      <= length (free_list (pmm k)))%nat) as [Hen|Hshort].
    + destruct (CommitRangeContiguous_run k offset len len' committed alignment_log2)
        as (Hpanic & Hok); [done|lia|lia|done..|].
      destruct (decide (missing_pages (page_list_ (vmo k)) offset len'
                        = range_pages offset len')) as [Hall|Hsome].
      * destruct (Hok Hall Hpass) as (k1 & Heq & Hpl & _ & _ & _ & Hfree & _).
        rewrite Heq in Hrun. injection Hrun as <-.
        eapply install_all_pages; [apply missing_pages_NoDup|apply missing_pages_spec|done..].
      * by rewrite (Hpanic Hsome) in Hrun.
    + destruct (CommitRangeContiguous_fails k offset len len' committed alignment_log2)
        as (k1 & Heq & Hvmo & _ & Hfree); [done|lia|lia|done|done|lia|done|].
      rewrite Heq in Hrun. injection Hrun as <-.
      unfold all_pages, owned_pages. by rewrite Hvmo, Hfree.
  - (* DecommitRange *)
    destruct (TrimRange offset len (size_ (vmo k))) as [len'|] eqn:Htrim.
    2:{ unfold DecommitRange in Hrun. rewrite Htrim in Hrun. by injection Hrun as <-. }
    destruct (Z.eq_dec len' 0) as [->|Hne].
    { unfold DecommitRange in Hrun. rewrite Htrim in Hrun. by injection Hrun as <-. }
    destruct (DecommitRange_run k offset len len' decommitted)
      as (_ & _ & k1 & Heq & Hfreed); [done|lia|lia|done..|].
    rewrite Heq in Hrun. injection Hrun as <-.
    apply freed_all_pages in Hfreed; [|apply pages_between_NoDup]. by rewrite Hfreed.
  - unfold Read, DEBUG_ASSERT in Hrun.
    destruct (negb _); [destruct (_ && _); [done|]; by injection Hrun as <-|].
    destruct (ReadWriteInternal _ _ _ _ _ _ _) as [[[[st bc'] b'] k1]| |] eqn:Heq; [|done..].
    injection Hrun as <-. by eapply ReadWriteInternal_all_pages.
  - unfold Write, DEBUG_ASSERT in Hrun.
    destruct (negb _); [destruct (_ && _); [done|]; by injection Hrun as <-|].
    destruct (ReadWriteInternal _ _ _ _ _ _ _) as [[[[st bc'] b'] k1]| |] eqn:Heq; [|done..].
    injection Hrun as <-. by eapply ReadWriteInternal_all_pages.
  - unfold ReadUser in Hrun. destruct (negb _); [by injection Hrun as <-|].
    destruct (ReadWriteInternal _ _ _ _ _ _ _) as [[[[st bc'] b'] k1]| |] eqn:Heq; [|done..].
    injection Hrun as <-. by eapply ReadWriteInternal_all_pages.
  - unfold WriteUser in Hrun. destruct (negb _); [by injection Hrun as <-|].
    destruct (ReadWriteInternal _ _ _ _ _ _ _) as [[[[st bc'] b'] k1]| |] eqn:Heq; [|done..].
    injection Hrun as <-. by eapply ReadWriteInternal_all_pages.
  - destruct (Lookup_runs offset len buffer buffer_size u k) as (st & u' & Heq);
      [lia|lia|done|].
    rewrite Heq in Hrun. by injection Hrun as <-.
  - destruct (CacheOp_run offset len type k) as (st & evs & Heq); [done|lia|lia|].
    rewrite Heq in Hrun. by injection Hrun as <-.
Qed.

End Conservation.

(** ** What a reader finds in the object *)

Section Content.
Context `{HP : Platform} {HOk : PlatformOk}.

Lemma vmo_read_absent k x :
  page_list_ (vmo k) !! round_down_page x = None → vmo_read k x = 0.
Proof. intros Hx. unfold vmo_read. by rewrite vmo_byte_eq, Hx. Qed.

Lemma vmo_read_present k x p :
  page_list_ (vmo k) !! round_down_page x = Some p →
  vmo_read k x = read_byte (kmem k) (byte_addr p x).
Proof. intros Hx. unfold vmo_read. by rewrite vmo_byte_eq, Hx. Qed.

Lemma byte_addr_in_frame p x : in_frame (byte_addr p x) p.
Proof.
  pose proof PAGE_SIZE_pos as Hp. pose proof (mod_bounds _ Hp x).
  unfold in_frame, byte_addr. lia.
Qed.

Lemma in_frame_byte_addr q x p : in_frame (byte_addr q x) p → q = p.
Proof.
  pose proof PAGE_SIZE_pos as Hp. pose proof (mod_bounds _ Hp x).
  unfold in_frame. intros Hin.
  apply (page_frames_disjoint q p (x mod PAGE_SIZE)
           (byte_addr q x - paddr_to_kvaddr (vm_page_to_paddr p))).
  - done.
  - lia.
  - unfold byte_addr. lia.
Qed.

(** Faulting a page in does not change what a reader finds: the new page
    reads zero, as the hole did. *)
Lemma FaultPageLocked_content offset pf_flags k r k' x :
  pages_owned_once k → FaultPageLocked offset pf_flags k = (r, k') →
  vmo_read k' x = vmo_read k x.
Proof.
  intros Hown Hrun.
  destruct (page_list_ (vmo k) !! round_down_page x) as [q|] eqn:Hq.
  { unfold vmo_read. erewrite FaultPageLocked_bytes; [done..|]. by eexists. }
  rewrite (vmo_read_absent k) by done.
  destruct (FaultPageLocked_cases offset pf_flags k)
    as [[_ Heq]|[(_ & p & Hlk & Heq)|[(_ & Hlk & _ & Heq)|(Hlt & Hlk & p & rest & Hfree & Heq)]]];
    rewrite Heq in Hrun; injection Hrun as <- <-; try (by apply vmo_read_absent).
  destruct (decide (round_down_page offset = round_down_page x)) as [Hsame|Hne].
  - rewrite (vmo_read_present _ _ p) by (cbn; by rewrite Hsame, lookup_insert_eq).
    cbn. unfold read_byte. rewrite lookup_arch_zero_page.
    rewrite decide_True; [done|]. apply byte_addr_in_frame.
  - apply vmo_read_absent. cbn. by rewrite lookup_insert_ne.
Qed.

(** The fault at the head of a round of the copy loop, when the allocator
    has a page for every missing page of the range. *)
Lemma fault_in_step k offset len pf_flags :
  0 < len → pages_owned_once k → offset < size_ (vmo k) →
  (length (missing_pages (page_list_ (vmo k)) offset len) <= length (free_list (pmm k)))%nat →
  let t := MIN (PAGE_SIZE - offset mod PAGE_SIZE) len in
  ∃ p k1,
    FaultPageLocked offset pf_flags k = (Some p, k1) ∧
    pages_owned_once k1 ∧
    size_ (vmo k1) = size_ (vmo k) ∧
    page_list_ (vmo k1) !! round_down_page offset = Some p ∧
    (∀ x q, page_list_ (vmo k) !! x = Some q → page_list_ (vmo k1) !! x = Some q) ∧
    (∀ x, vmo_read k1 x = vmo_read k x) ∧
    (0 < len - t →
     (length (missing_pages (page_list_ (vmo k1)) (offset + t) (len - t))
      <= length (free_list (pmm k1)))%nat).
Proof.
  intros Hpos Hown Hin Hfree t. pose proof PAGE_SIZE_pos as Hp.
  destruct (tocopy_range offset len Hpos) as [Ht1 Ht2]. fold t in Ht1, Ht2.
  pose proof (mod_bounds _ Hp offset) as Hmo.
  pose proof (range_pages_first offset len Hpos) as Hfirst. cbn zeta in Hfirst.
  assert (0 < len - t → t = PAGE_SIZE - offset mod PAGE_SIZE) as Htfull.
  { unfold t, MIN. destruct (Z.ltb_spec (PAGE_SIZE - offset mod PAGE_SIZE) len); lia. }
  assert (0 < len - t → round_down_page offset + PAGE_SIZE = offset + t) as Hnext.
  { intros Hr. rewrite (Htfull Hr). unfold round_down_page. lia. }
  destruct (FaultPageLocked offset pf_flags k) as [r k1] eqn:Hfault.
  pose proof (FaultPageLocked_owned _ _ _ _ _ Hown Hfault) as Hown1.
  destruct (FaultPageLocked_keeps _ _ _ _ _ Hfault) as (Hsz1 & _ & _ & Hkept1 & Hnew1 & _).
  assert (∃ p, r = Some p ∧
            (0 < len - t →
             (length (missing_pages (page_list_ (vmo k1)) (offset + t) (len - t))
              <= length (free_list (pmm k1)))%nat)) as (p & -> & Hfree1).
  { unfold missing_pages in Hfree |- *. rewrite Hfirst in Hfree.
    destruct (FaultPageLocked_cases offset pf_flags k)
      as [[Hge _]|[(_ & p & Hlk & Heq)|[(_ & Hlk & Hnil & _)|(_ & Hlk & p & rest & Hfl & Heq)]]].
    - lia.
    - rewrite Heq in Hfault. injection Hfault as <- <-. exists p. split; [done|].
      intros Hr. rewrite decide_True in Hfree by (rewrite (Htfull Hr) in Hr; lia).
      rewrite filter_cons, decide_False in Hfree by congruence.
      rewrite <- (Hnext Hr). rewrite (Htfull Hr). done.
    - rewrite filter_cons, decide_True, Hnil in Hfree by done. cbn in Hfree. lia.
    - rewrite Heq in Hfault. injection Hfault as <- <-. exists p. split; [done|].
      intros Hr. rewrite decide_True in Hfree by (rewrite (Htfull Hr) in Hr; lia).
      rewrite filter_cons, decide_True, Hfl in Hfree by done. cbn in Hfree. cbn.
      rewrite <- (Hnext Hr), (Htfull Hr).
      rewrite filter_absent_insert; [lia|].
      pose proof (range_pages_NoDup offset len) as Hnd. rewrite Hfirst in Hnd.
      rewrite decide_True in Hnd by (rewrite (Htfull Hr) in Hr; lia).
      by apply NoDup_cons in Hnd as [? _]. }
  exists p, k1. split; [done|]. split; [done|]. split; [done|].
  split; [by apply Hnew1|]. split; [done|]. split; [|done].
  intros x. by eapply FaultPageLocked_content.
Qed.

(** The loop of Write, as a reader sees it: the bytes of the range are the
    bytes of the buffer and every other byte reads as before, whether its
    page was committed or not. *)
Lemma write_loop_content buf fuel : ∀ offset len dest bc k,
  0 <= offset → 0 <= len → offset + len <= size_ (vmo k) → size_ (vmo k) <= MAX_SIZE →
  0 <= dest → dest + len < u64_modulus →
  (0 < fuel)%nat →
  (0 < len → offset mod PAGE_SIZE + len <= (Z.of_nat fuel - 1) * PAGE_SIZE) →
  pages_owned_once k →
  (0 < len →
   (length (missing_pages (page_list_ (vmo k)) offset len) <= length (free_list (pmm k)))%nat) →
  ∃ bc' k',
    rw_loop fuel offset len dest bc true write_routine buf k = Ret (NO_ERROR, bc', buf, k') ∧
    pages_owned_once k' ∧
    size_ (vmo k') = size_ (vmo k) ∧
    (∀ x q, page_list_ (vmo k) !! x = Some q → page_list_ (vmo k') !! x = Some q) ∧
    (∀ i, 0 <= i < len → is_Some (page_list_ (vmo k') !! round_down_page (offset + i))) ∧
    (∀ x, vmo_read k' x
          = if decide (offset <= x < offset + len)
            then default 0 (buf !! Z.to_nat (dest + (x - offset)))
            else vmo_read k x).
Proof.
  pose proof PAGE_SIZE_pos as Hp. pose proof max_size_range as Hmax.
  induction fuel as [|fuel IH];
    intros offset len dest bc k Ho Hl Hin Hmx Hd Hdfit Hf Hm Hown Hfree; [lia|].
  destruct (Z.lt_ge_cases 0 len) as [Hpos|Hz].
  2:{ rewrite rw_loop_done by lia. exists bc, k.
      split; [done|]. split; [done|]. split; [done|]. split; [done|].
      split; [intros; lia|]. intros x. rewrite decide_False by lia. done. }
  specialize (Hm Hpos). specialize (Hfree Hpos).
  rewrite rw_loop_step by done. cbn zeta.
  destruct (tocopy_range offset len Hpos) as [Ht1 Ht2].
  destruct (fault_in_step k offset len (pf_flags_of true))
    as (p & k1 & -> & Hown1 & Hsz1 & Hnew1 & Hkept1 & Hread1 & Hfree1); [done|done|lia|done|].
  set (t := MIN (PAGE_SIZE - offset mod PAGE_SIZE) len) in *.
  pose proof (mod_bounds _ Hp offset) as Hmo.
  assert (0 < len - t → t = PAGE_SIZE - offset mod PAGE_SIZE) as Htfull.
  { unfold t, MIN. destruct (Z.ltb_spec (PAGE_SIZE - offset mod PAGE_SIZE) len); lia. }
  cbn [write_routine status_lt0].
  set (bytes := buffer_bytes buf dest (Z.to_nat t)).
  fold (byte_addr p offset).
  set (k2 := with_kmem (write_bytes (byte_addr p offset) bytes (kmem k1)) k1).
  destruct (write_chunk k1 p offset t bytes Hown1 Hnew1) as [Hbytes2 Hframe2];
    [lia|lia|apply length_buffer_bytes|]. fold k2 in Hbytes2, Hframe2.
  rewrite (u64_small (offset + t)), (u64_small (len - t)), (u64_small (dest + t))
    by (unfold u64_modulus in *; lia).
  destruct (IH (offset + t) (len - t) (dest + t) (counter_add t bc) k2)
    as (bc' & k' & Hrun & Hown' & Hsz' & Hkept' & Hpres' & Hread'); try (cbn; lia).
  { intros Hr. rewrite (Htfull Hr).
    replace (offset + (PAGE_SIZE - offset mod PAGE_SIZE))
      with ((offset - offset mod PAGE_SIZE) + PAGE_SIZE) by lia.
    rewrite mod_add_page, aligned_sub_mod by done. rewrite (Htfull Hr) in Hr. lia. }
  { done. }
  exists bc', k'. split; [done|]. split; [done|].
  split; [cbn in Hsz'; congruence|].
  split; [intros x q Hx; apply Hkept'; cbn; by apply Hkept1|].
  split.
  - intros i Hi. destruct (Z.lt_ge_cases i t) as [Hlt|Hge].
    + destruct (mod_in_page offset i) as [_ ->]; [lia..|].
      rewrite (Hkept' _ p); [by eexists|done].
    + replace (offset + i) with (offset + t + (i - t)) by lia. apply Hpres'. lia.
  - intros x. rewrite Hread'.
    destruct (decide (offset + t <= x < offset + t + (len - t))) as [Hrest|Hnrest].
    + rewrite decide_True by lia. do 3 f_equal. lia.
    + destruct (decide (offset <= x < offset + len)) as [Hhere|Hout].
      * unfold vmo_read. replace x with (offset + (x - offset)) at 1 by lia.
        rewrite Hbytes2 by lia. unfold bytes. rewrite lookup_buffer_bytes by lia.
        cbn. do 3 f_equal. lia.
      * unfold vmo_read at 1. rewrite Hframe2 by lia. apply Hread1.
Qed.

(** The loop of Read, whatever pages are committed: it returns the bytes a
    reader finds, commits the pages of the range on the way and does not
    change what a reader finds anywhere. *)
Lemma read_loop_content fuel : ∀ offset len dest bc out k,
  0 <= offset → 0 <= len → offset + len <= size_ (vmo k) → size_ (vmo k) <= MAX_SIZE →
  0 <= dest → dest + len <= Z.of_nat (length out) → dest + len < u64_modulus →
  (0 < fuel)%nat →
  (0 < len → offset mod PAGE_SIZE + len <= (Z.of_nat fuel - 1) * PAGE_SIZE) →
  pages_owned_once k →
  (0 < len →
   (length (missing_pages (page_list_ (vmo k)) offset len) <= length (free_list (pmm k)))%nat) →
  ∃ bc' out' k',
    rw_loop fuel offset len dest bc false read_routine out k = Ret (NO_ERROR, bc', out', k') ∧
    pages_owned_once k' ∧
    size_ (vmo k') = size_ (vmo k) ∧
    (∀ x q, page_list_ (vmo k) !! x = Some q → page_list_ (vmo k') !! x = Some q) ∧
    (∀ i, 0 <= i < len → is_Some (page_list_ (vmo k') !! round_down_page (offset + i))) ∧
    (∀ x, vmo_read k' x = vmo_read k x) ∧
    length out' = length out ∧
    (∀ i, 0 <= i < len → out' !! Z.to_nat (dest + i) = Some (vmo_read k (offset + i))) ∧
    (∀ j : nat, Z.of_nat j < dest ∨ dest + len <= Z.of_nat j → out' !! j = out !! j).
Proof.
  pose proof PAGE_SIZE_pos as Hp. pose proof max_size_range as Hmax.
  induction fuel as [|fuel IH];
    intros offset len dest bc out k Ho Hl Hin Hmx Hd Hdlen Hdfit Hf Hm Hown Hfree; [lia|].
  destruct (Z.lt_ge_cases 0 len) as [Hpos|Hz].
  2:{ rewrite rw_loop_done by lia. exists bc, out, k.
      split; [done|]. split; [done|]. split; [done|]. split; [done|].
      split; [intros; lia|]. split; [done|]. split; [done|]. split; [intros; lia|done]. }
  specialize (Hm Hpos). specialize (Hfree Hpos).
  rewrite rw_loop_step by done. cbn zeta.
  destruct (tocopy_range offset len Hpos) as [Ht1 Ht2].
  destruct (fault_in_step k offset len (pf_flags_of false))
    as (p & k1 & -> & Hown1 & Hsz1 & Hnew1 & Hkept1 & Hread1 & Hfree1); [done|done|lia|done|].
  set (t := MIN (PAGE_SIZE - offset mod PAGE_SIZE) len) in *.
  pose proof (mod_bounds _ Hp offset) as Hmo.
  assert (0 < len - t → t = PAGE_SIZE - offset mod PAGE_SIZE) as Htfull.
  { unfold t, MIN. destruct (Z.ltb_spec (PAGE_SIZE - offset mod PAGE_SIZE) len); lia. }
  cbn [read_routine status_lt0]. rewrite with_kmem_same.
  fold (byte_addr p offset).
  set (chunk := read_bytes (byte_addr p offset) (Z.to_nat t) (kmem k1)).
  set (out1 := list_inserts (Z.to_nat dest) chunk out).
  assert (length chunk = Z.to_nat t) as Hclen by apply length_read_bytes.
  assert (length out1 = length out) as Hlen1 by apply length_inserts.
  rewrite (u64_small (offset + t)), (u64_small (len - t)), (u64_small (dest + t))
    by (unfold u64_modulus in *; lia).
  destruct (IH (offset + t) (len - t) (dest + t) (counter_add t bc) out1 k1)
    as (bc' & out' & k' & Hrun & Hown' & Hsz' & Hkept' & Hpres' & Hread' & Hlen' & Hbytes'
        & Hframe'); try lia.
  { intros Hr. rewrite (Htfull Hr).
    replace (offset + (PAGE_SIZE - offset mod PAGE_SIZE))
      with ((offset - offset mod PAGE_SIZE) + PAGE_SIZE) by lia.
    rewrite mod_add_page, aligned_sub_mod by done. rewrite (Htfull Hr) in Hr. lia. }
  { done. }
  exists bc', out', k'. split; [done|]. split; [done|]. split; [congruence|].
  split; [intros x q Hx; by apply Hkept', Hkept1|].
  split.
  { intros i Hi. destruct (Z.lt_ge_cases i t) as [Hlt|Hge].
    - destruct (mod_in_page offset i) as [_ ->]; [lia..|].
      rewrite (Hkept' _ p); [by eexists|done].
    - replace (offset + i) with (offset + t + (i - t)) by lia. apply Hpres'. lia. }
  split; [intros x; by rewrite Hread'|].
  split; [lia|]. split.
  - intros i Hi. destruct (Z.lt_ge_cases i t) as [Hlt|Hge].
    + rewrite Hframe' by lia. unfold out1.
      rewrite list_lookup_inserts by lia. unfold chunk.
      rewrite lookup_read_bytes by lia.
      destruct (mod_in_page offset i) as [Hmi Hrd]; [lia..|].
      rewrite <- Hread1, (vmo_read_present k1 _ p) by (by rewrite Hrd).
      unfold byte_addr. rewrite Hmi. do 2 f_equal. lia.
    + replace (offset + i) with (offset + t + (i - t)) by lia.
      rewrite <- Hread1, <- Hbytes' by lia. f_equal. lia.
  - intros j Hj. rewrite Hframe' by lia. unfold out1.
    destruct Hj as [Hj|Hj].
    + apply list_lookup_inserts_lt. lia.
    + apply list_lookup_inserts_ge. lia.
Qed.

(** A commit that went through does not change what a reader finds: the
    pages it installs are zeroed, and zeroing them touches no page the
    object held. *)
Lemma install_content k k' miss x :
  pages_owned_once k →
  (∀ y, y ∈ miss → page_list_ (vmo k) !! y = None) →
  page_list_ (vmo k')
  = list_to_map (zip miss (take (length miss) (free_list (pmm k)))) ∪ page_list_ (vmo k) →
  kmem k' = zero_pages (take (length miss) (free_list (pmm k))) (kmem k) →
  vmo_read k' x = vmo_read k x.
Proof.
  intros (Hinj & Hnd & Hdisj) Hmiss Hpl Hmem.
  set (batch := take (length miss) (free_list (pmm k))) in *.
  assert (∀ y p, (list_to_map (zip miss batch) : gmap Z Z) !! y = Some p →
                 y ∈ miss ∧ p ∈ batch) as Hnew.
  { intros y p Hy%elem_of_list_to_map_2.
    split; [by eapply elem_of_zip_l|by eapply elem_of_zip_r]. }
  assert (∀ p, p ∈ batch → p ∈ free_list (pmm k)) as Hbatch.
  { intros p Hin. unfold batch in Hin. by apply (subseteq_take (length miss)). }
  destruct (page_list_ (vmo k) !! round_down_page x) as [q|] eqn:Hq.
  - assert (page_list_ (vmo k') !! round_down_page x = Some q) as Hq'.
    { rewrite Hpl. apply lookup_union_Some_raw. right. split; [|done].
      destruct (list_to_map (zip miss batch) !! round_down_page x) as [p|] eqn:Hp; [|done].
      destruct (Hnew _ _ Hp) as [Hin _]. rewrite (Hmiss _ Hin) in Hq. done. }
    rewrite (vmo_read_present k' _ q), (vmo_read_present k _ q) by done.
    unfold read_byte. rewrite Hmem, lookup_zero_pages.
    rewrite decide_False; [done|].
    intros (p & Hp & Hin)%Exists_exists. apply in_frame_byte_addr in Hin as ->.
    by apply (Hdisj _ _ Hq), Hbatch.
  - rewrite (vmo_read_absent k) by done.
    destruct (page_list_ (vmo k') !! round_down_page x) as [p|] eqn:Hp.
    2:{ by apply vmo_read_absent. }
    rewrite (vmo_read_present k' _ p) by done.
    rewrite Hpl in Hp. apply lookup_union_Some_raw in Hp as [Hp|[_ Hp]]; [|congruence].
    destruct (Hnew _ _ Hp) as [_ Hin].
    unfold read_byte. rewrite Hmem, lookup_zero_pages.
    rewrite decide_True; [done|].
    apply Exists_exists. exists p. split; [done|]. apply byte_addr_in_frame.
Qed.

(** Freeing pages leaves holes, which read zero; the other bytes stay. *)
Lemma freed_content l k k' x :
  freed l k k' →
  vmo_read k' x = if decide (round_down_page x ∈ l) then 0 else vmo_read k x.
Proof.
  intros (_ & _ & _ & Hmem & Hpl & _).
  unfold vmo_read. rewrite !vmo_byte_eq, Hpl, Hmem.
  by destruct (decide (round_down_page x ∈ l)).
Qed.

End Content.

(** ** A copy that runs out of pages *)

Section LoopPages.
Context `{HP : Platform} {HOk : PlatformOk}.
Context {B : Type} (copyfunc : copy_routine B) (write : bool).

(** The first chunk of a copy and the rest of it. *)
Lemma first_chunk offset c :
  0 < c →
  let t := MIN (PAGE_SIZE - offset mod PAGE_SIZE) c in
  (0 < c - t →
   t = PAGE_SIZE - offset mod PAGE_SIZE ∧
   round_down_page offset + PAGE_SIZE = offset + t ∧
   (offset + t) mod PAGE_SIZE = 0 ∧
   range_pages offset c = round_down_page offset :: range_pages (offset + t) (c - t)) ∧
  (c - t <= 0 → t = c ∧ range_pages offset c = [round_down_page offset]).
Proof.
  intros Hc t. pose proof PAGE_SIZE_pos as Hp. pose proof (mod_bounds _ Hp offset) as Hmo.
  pose proof (range_pages_first offset c Hc) as Hfirst. cbn zeta in Hfirst.
  destruct (tocopy_range offset c Hc) as [Ht1 Ht2]. fold t in Ht1, Ht2.
  assert (t = PAGE_SIZE - offset mod PAGE_SIZE ∧ PAGE_SIZE - offset mod PAGE_SIZE < c ∨
          t = c ∧ c <= PAGE_SIZE - offset mod PAGE_SIZE) as Ht.
  { unfold t, MIN. destruct (Z.ltb_spec (PAGE_SIZE - offset mod PAGE_SIZE) c); lia. }
  split.
  - intros Hrest.
    assert (t = PAGE_SIZE - offset mod PAGE_SIZE) as Htc by lia.
    assert (round_down_page offset + PAGE_SIZE = offset + t) as Hnext
      by (unfold round_down_page; lia).
    split; [done|]. split; [done|]. split.
    + rewrite <- Hnext. apply aligned_add_page, round_down_spec.
    + rewrite Hfirst, decide_True by lia. rewrite Hnext. do 2 f_equal. lia.
  - intros Hlast.
    assert (t = c) as Htc by lia.
    split; [done|]. rewrite Hfirst, decide_False by lia. done.
Qed.

(** Two page lists that agree on the offsets of a list miss the same of
    them. *)
Lemma filter_missing_agree (pl pl' : gmap Z Z) (l : list Z) :
  (∀ y, y ∈ l → pl' !! y = pl !! y) →
  filter (λ x, pl' !! x = None) l = filter (λ x, pl !! x = None) l.
Proof.
  induction l as [|x l IH]; intros Hagree; [done|].
  rewrite !filter_cons, (Hagree x) by (by left).
  rewrite IH; [done|]. intros y Hy. apply Hagree. by right.
Qed.

(** A copy that went through took a free page for each missing page of its
    range, in order, and touched the page list nowhere else. *)
Lemma rw_loop_pages fuel : ∀ offset c dest bc b k bc1 b1 k1,
  0 <= offset → 0 < c → offset + c < u64_modulus →
  rw_loop fuel offset c dest bc write copyfunc b k = Ret (NO_ERROR, bc1, b1, k1) →
  free_list (pmm k1)
  = drop (length (missing_pages (page_list_ (vmo k)) offset c)) (free_list (pmm k)) ∧
  (∀ y, y ∉ range_pages offset c → page_list_ (vmo k1) !! y = page_list_ (vmo k) !! y).
Proof.
  pose proof PAGE_SIZE_pos as Hp.
  induction fuel as [|fuel IH]; intros offset c dest bc b k bc1 b1 k1 Ho Hc Hfit Hrun; [done|].
  rewrite rw_loop_step in Hrun by done. cbn zeta in Hrun.
  destruct (tocopy_range offset c Hc) as [Ht1 Ht2].
  destruct (first_chunk offset c Hc) as [Hmore Hlast].
  set (t := MIN (PAGE_SIZE - offset mod PAGE_SIZE) c) in *.
  pose proof (mod_bounds _ Hp offset) as Hmo.
  pose proof (range_pages_NoDup offset c) as Hnd.
  assert (∀ k0 m b0,
    free_list (pmm k0)
    = drop (length (filter (λ x, page_list_ (vmo k) !! x = None) [round_down_page offset]))
           (free_list (pmm k)) →
    (∀ y, y ≠ round_down_page offset → page_list_ (vmo k0) !! y = page_list_ (vmo k) !! y) →
    rw_loop fuel (u64 (offset + t)) (u64 (c - t)) (u64 (dest + t)) (counter_add t bc)
            write copyfunc b0 (with_kmem m k0) = Ret (NO_ERROR, bc1, b1, k1) →
    free_list (pmm k1)
    = drop (length (missing_pages (page_list_ (vmo k)) offset c)) (free_list (pmm k)) ∧
    (∀ y, y ∉ range_pages offset c → page_list_ (vmo k1) !! y = page_list_ (vmo k) !! y))
    as Hstep.
  { intros k0 m b0 Hfree0 Hpl0 Hloop.
    rewrite (u64_small (offset + t)), (u64_small (c - t)) in Hloop
      by (unfold u64_modulus in *; lia).
    destruct (Z.lt_ge_cases 0 (c - t)) as [Hrest|Hdone].
    - destruct (Hmore Hrest) as (Htc & Hnext & Hal & Hpages).
      apply IH in Hloop as [Hfree Hpl]; [|lia..]. cbn in Hfree, Hpl.
      rewrite Hpages in Hnd. apply NoDup_cons in Hnd as [Hfresh _].
      assert (missing_pages (page_list_ (vmo k0)) (offset + t) (c - t)
              = missing_pages (page_list_ (vmo k)) (offset + t) (c - t)) as Hmiss.
      { unfold missing_pages. apply filter_missing_agree.
        intros y Hy. apply Hpl0. by intros ->. }
      rewrite Hmiss, Hfree0, drop_drop in Hfree.
      split.
      + rewrite Hfree. f_equal. unfold missing_pages. rewrite Hpages, !filter_cons, filter_nil.
        destruct (decide _); cbn; lia.
      + intros y Hy. rewrite Hpages in Hy. apply not_elem_of_cons in Hy as [Hne Hy].
        rewrite Hpl by done. by apply Hpl0.
    - destruct (Hlast ltac:(lia)) as [Htc Hpages].
      replace (c - t) with 0 in Hloop by lia.
      destruct fuel as [|fuel]; [done|]. rewrite rw_loop_done in Hloop by lia.
      injection Hloop as _ _ <-. cbn.
      split.
      + unfold missing_pages. by rewrite Hpages.
      + intros y Hy. rewrite Hpages in Hy. apply not_elem_of_cons in Hy as [Hne _].
        by apply Hpl0. }
  destruct (FaultPageLocked_cases offset (pf_flags_of write) k)
    as [[_ Heq]|[(_ & p & Hlk & Heq)|[(_ & _ & _ & Heq)|(_ & Hlk & p & rest & Hfl & Heq)]]];
    rewrite Heq in Hrun; try done.
  - destruct (copyfunc _ _ _ _) as [err [m b0]].
    destruct (status_lt0 err) eqn:Herr.
    { injection Hrun as -> _ _ _. done. }
    apply (Hstep k m b0); [|done|done].
    rewrite filter_cons, decide_False by (rewrite Hlk; done). done.
  - destruct (copyfunc _ _ _ _) as [err [m b0]].
    destruct (status_lt0 err) eqn:Herr.
    { injection Hrun as -> _ _ _. done. }
    apply (Hstep _ m b0) in Hrun; [done| |].
    + rewrite filter_cons, decide_True by done. cbn. by rewrite Hfl.
    + intros y Hy. cbn. by rewrite lookup_insert_ne.
Qed.

End LoopPages.

Section WriteData.
Context `{HP : Platform} {HOk : PlatformOk}.
Context {B : Type} (copyfunc : copy_routine B) (data : Z → Z) (b : B).

Lemma lookup_data_bytes off n i :
  (i < n)%nat → data_bytes data off n !! i = Some (data (off + Z.of_nat i)).
Proof.
  intros Hi. unfold data_bytes.
  change (map ?f ?l) with (f <$> l). rewrite list_lookup_fmap, lookup_seq_lt by done. done.
Qed.

Lemma length_data_bytes off n : length (data_bytes data off n) = n.
Proof. unfold data_bytes. by rewrite length_map, length_seq. Qed.

(** The loop of a write whose copy routine brings the bytes [data] of the
    caller's buffer: the bytes of the range are these bytes and every other
    byte reads as before, whether its page was committed or not. *)
Lemma write_loop_data fuel : ∀ offset len dest bc k,
  0 <= offset → 0 <= len → offset + len <= size_ (vmo k) → size_ (vmo k) <= MAX_SIZE →
  0 <= dest → dest + len < u64_modulus →
  (0 < fuel)%nat →
  (0 < len → offset mod PAGE_SIZE + len <= (Z.of_nat fuel - 1) * PAGE_SIZE) →
  pages_owned_once k →
  (0 < len →
   (length (missing_pages (page_list_ (vmo k)) offset len) <= length (free_list (pmm k)))%nat) →
  (∀ dst off n m, dest <= off → 0 < n → off + n <= dest + len →
     ∃ st, status_lt0 st = false ∧
           copyfunc dst off n (m, b)
           = (st, (write_bytes dst (data_bytes data off (Z.to_nat n)) m, b))) →
  ∃ bc' k',
    rw_loop fuel offset len dest bc true copyfunc b k = Ret (NO_ERROR, bc', b, k') ∧
    pages_owned_once k' ∧
    size_ (vmo k') = size_ (vmo k) ∧
    (∀ x, vmo_read k' x
          = if decide (offset <= x < offset + len)
            then data (dest + (x - offset))
            else vmo_read k x).
Proof.
  pose proof PAGE_SIZE_pos as Hp. pose proof max_size_range as Hmax.
  induction fuel as [|fuel IH];
    intros offset len dest bc k Ho Hl Hin Hmx Hd Hdfit Hf Hm Hown Hfree Hcopy; [lia|].
  destruct (Z.lt_ge_cases 0 len) as [Hpos|Hz].
  2:{ rewrite rw_loop_done by lia. exists bc, k.
      split; [done|]. split; [done|]. split; [done|].
      intros x. rewrite decide_False by lia. done. }
  specialize (Hm Hpos). specialize (Hfree Hpos).
  rewrite rw_loop_step by done. cbn zeta.
  destruct (tocopy_range offset len Hpos) as [Ht1 Ht2].
  destruct (fault_in_step k offset len (pf_flags_of true))
    as (p & k1 & -> & Hown1 & Hsz1 & Hnew1 & Hkept1 & Hread1 & Hfree1); [done|done|lia|done|].
  set (t := MIN (PAGE_SIZE - offset mod PAGE_SIZE) len) in *.
  pose proof (mod_bounds _ Hp offset) as Hmo.
  assert (0 < len - t → t = PAGE_SIZE - offset mod PAGE_SIZE) as Htfull.
  { unfold t, MIN. destruct (Z.ltb_spec (PAGE_SIZE - offset mod PAGE_SIZE) len); lia. }
  fold (byte_addr p offset).
  destruct (Hcopy (byte_addr p offset) dest t (kmem k1)) as (st & Hst & ->); [lia..|].
  rewrite Hst.
  set (bytes := data_bytes data dest (Z.to_nat t)).
  set (k2 := with_kmem (write_bytes (byte_addr p offset) bytes (kmem k1)) k1).
  destruct (write_chunk k1 p offset t bytes Hown1 Hnew1) as [Hbytes2 Hframe2];
    [lia|lia|apply length_data_bytes|]. fold k2 in Hbytes2, Hframe2.
  rewrite (u64_small (offset + t)), (u64_small (len - t)), (u64_small (dest + t))
    by (unfold u64_modulus in *; lia).
  destruct (IH (offset + t) (len - t) (dest + t) (counter_add t bc) k2)
    as (bc' & k' & Hrun & Hown' & Hsz' & Hread'); try (cbn; lia).
  { intros Hr. rewrite (Htfull Hr).
    replace (offset + (PAGE_SIZE - offset mod PAGE_SIZE))
      with ((offset - offset mod PAGE_SIZE) + PAGE_SIZE) by lia.
    rewrite mod_add_page, aligned_sub_mod by done. rewrite (Htfull Hr) in Hr. lia. }
  { done. }
  { intros dst off n m Hoff Hn Hend. apply Hcopy; lia. }
  exists bc', k'. split; [done|]. split; [done|].
  split; [cbn in Hsz'; congruence|].
  intros x. rewrite Hread'.
  destruct (decide (offset + t <= x < offset + t + (len - t))) as [Hrest|Hnrest].
  - rewrite decide_True by lia. f_equal. lia.
  - destruct (decide (offset <= x < offset + len)) as [Hhere|Hout].
    + unfold vmo_read. replace x with (offset + (x - offset)) at 1 by lia.
      rewrite Hbytes2 by lia. unfold bytes. rewrite lookup_data_bytes by lia.
      cbn. f_equal. lia.
    + unfold vmo_read at 1. rewrite Hframe2 by lia. apply Hread1.
Qed.

End WriteData.

Section ReadUserData.
Context `{HP : Platform} {HOk : PlatformOk}.

(** The chunks of a copy: its first chunk, then the chunks of the rest. *)
Lemma chunks_before_first offset len :
  0 < len →
  let t := MIN (PAGE_SIZE - offset mod PAGE_SIZE) len in
  chunks_before offset len = (offset, t) :: chunks_before (offset + t) (len - t).
Proof.
  intros Hl t. pose proof PAGE_SIZE_pos as Hp. pose proof (mod_bounds _ Hp offset) as Hmo.
  destruct (tocopy_range offset len Hl) as [Ht1 Ht2]. fold t in Ht1, Ht2.
  destruct (first_chunk offset len Hl) as [Hmore Hlast]. fold t in Hmore, Hlast.
  destruct (round_down_spec offset) as [Hd1 Hd2].
  unfold chunks_before, pages_before. rewrite decide_False by lia.
  destruct (Z.lt_ge_cases 0 (len - t)) as [Hrest|Hdone].
  - destruct (Hmore Hrest) as (Htc & Hnext & Hal & Hpages).
    rewrite decide_False by lia. rewrite Hpages. cbn [map]. f_equal.
    + unfold clip. f_equal; lia.
    + replace (offset + t + (len - t)) with (offset + len) by lia.
      unfold range_pages, pages_between.
      rewrite (round_down_aligned (offset + t)) by done.
      apply clip_later. lia.
  - destruct (Hlast Hdone) as [Htc Hpages].
    rewrite decide_True by lia. rewrite Hpages. cbn [map]. f_equal.
    unfold clip, round_down_page in *. f_equal; lia.
Qed.

Lemma vmo_content_ext k k' offset n :
  (∀ x, vmo_read k x = vmo_read k' x) → vmo_content k offset n = vmo_content k' offset n.
Proof. intros Hread. unfold vmo_content. apply map_ext. intros i. apply Hread. Qed.

Lemma copy_chunks_to_user_ext k k' delta chunks : ∀ u,
  (∀ x, vmo_read k x = vmo_read k' x) →
  copy_chunks_to_user k delta chunks u = copy_chunks_to_user k' delta chunks u.
Proof.
  induction chunks as [|[start n] chunks IH]; intros u Hread; [done|].
  cbn [copy_chunks_to_user]. rewrite (vmo_content_ext k k') by done.
  destruct (copy_array_to_user _ _ _) as [st u']. destruct (status_lt0 st); [done|].
  by apply IH.
Qed.

(** The bytes of a chunk, read from the frame of its page. *)
Lemma read_chunk_content k p offset t :
  page_list_ (vmo k) !! round_down_page offset = Some p →
  0 < t → offset mod PAGE_SIZE + t <= PAGE_SIZE →
  read_bytes (byte_addr p offset) (Z.to_nat t) (kmem k) = vmo_content k offset (Z.to_nat t).
Proof.
  intros Hlk Ht Hfit. unfold read_bytes, vmo_content.
  apply map_ext_in. intros i Hi%in_seq.
  destruct (mod_in_page offset (Z.of_nat i)) as [Hm Hrd]; [lia..|].
  rewrite (vmo_read_present k _ p) by (by rewrite Hrd).
  unfold byte_addr. rewrite Hm. f_equal. lia.
Qed.

(** The loop of ReadUser, when the user copies go through: it hands the
    bytes of the object to the user copy chunk by chunk, commits the pages
    of the range on the way and does not change what a reader finds. *)
Lemma read_user_loop ptr fuel : ∀ offset len dest bc u k st u1,
  0 <= offset → 0 <= len → offset + len <= size_ (vmo k) → size_ (vmo k) <= MAX_SIZE →
  0 <= dest → dest + len < u64_modulus →
  (0 < fuel)%nat →
  (0 < len → offset mod PAGE_SIZE + len <= (Z.of_nat fuel - 1) * PAGE_SIZE) →
  pages_owned_once k →
  (0 < len →
   (length (missing_pages (page_list_ (vmo k)) offset len) <= length (free_list (pmm k)))%nat) →
  copy_chunks_to_user k (ptr + dest - offset) (chunks_before offset len) u = (st, u1) →
  status_lt0 st = false →
  ∃ bc' k',
    rw_loop fuel offset len dest bc false (read_user_routine ptr) u k
    = Ret (NO_ERROR, bc', u1, k') ∧
    pages_owned_once k' ∧
    size_ (vmo k') = size_ (vmo k) ∧
    (∀ x, vmo_read k' x = vmo_read k x).
Proof.
  pose proof PAGE_SIZE_pos as Hp. pose proof max_size_range as Hmax.
  induction fuel as [|fuel IH];
    intros offset len dest bc u k st u1 Ho Hl Hin Hmx Hd Hdfit Hf Hm Hown Hfree Hcopy Hst;
    [lia|].
  destruct (Z.lt_ge_cases 0 len) as [Hpos|Hz].
  2:{ rewrite rw_loop_done by lia. assert (len = 0) as -> by lia.
      unfold chunks_before, pages_before in Hcopy. rewrite decide_True in Hcopy by done.
      injection Hcopy as _ <-. exists bc, k. done. }
  specialize (Hm Hpos). specialize (Hfree Hpos).
  rewrite rw_loop_step by done. cbn zeta.
  rewrite chunks_before_first in Hcopy by done. cbn zeta in Hcopy.
  destruct (tocopy_range offset len Hpos) as [Ht1 Ht2].
  destruct (fault_in_step k offset len (pf_flags_of false))
    as (p & k1 & -> & Hown1 & Hsz1 & Hnew1 & Hkept1 & Hread1 & Hfree1); [done|done|lia|done|].
  set (t := MIN (PAGE_SIZE - offset mod PAGE_SIZE) len) in *.
  pose proof (mod_bounds _ Hp offset) as Hmo.
  assert (0 < len - t → t = PAGE_SIZE - offset mod PAGE_SIZE) as Htfull.
  { unfold t, MIN. destruct (Z.ltb_spec (PAGE_SIZE - offset mod PAGE_SIZE) len); lia. }
  fold (byte_addr p offset). cbn [read_user_routine].
  rewrite (read_chunk_content k1 p offset t) by (done || lia).
  rewrite (vmo_content_ext k1 k) by done.
  cbn [copy_chunks_to_user] in Hcopy.
  replace (offset + (ptr + dest - offset)) with (ptr + dest) in Hcopy by lia.
  destruct (copy_array_to_user (ptr + dest) (vmo_content k offset (Z.to_nat t)) u)
    as [st0 u0].
  destruct (status_lt0 st0) eqn:Hst0.
  { injection Hcopy as <- _. congruence. }
  rewrite with_kmem_same.
  rewrite (u64_small (offset + t)), (u64_small (len - t)), (u64_small (dest + t))
    by (unfold u64_modulus in *; lia).
  destruct (IH (offset + t) (len - t) (dest + t) (counter_add t bc) u0 k1 st u1)
    as (bc' & k' & Hrun & Hown' & Hsz' & Hread'); try lia.
  { intros Hr. rewrite (Htfull Hr).
    replace (offset + (PAGE_SIZE - offset mod PAGE_SIZE))
      with ((offset - offset mod PAGE_SIZE) + PAGE_SIZE) by lia.
    rewrite mod_add_page, aligned_sub_mod by done. rewrite (Htfull Hr) in Hr. lia. }
  { done. }
  { replace (ptr + (dest + t) - (offset + t)) with (ptr + dest - offset) by lia.
    rewrite <- Hcopy. by apply copy_chunks_to_user_ext. }
  { done. }
  exists bc', k'. split; [done|]. split; [done|]. split; [congruence|].
  intros x. by rewrite Hread'.
Qed.

End ReadUserData.

Section PartialProgressClaim.
Context `{HP : Platform} {HOk : PlatformOk}.

(** The transfer of the chunks before the failing one, then the failing
    fault. *)
Lemma fault_fails_after {B} (copyfunc : copy_routine B) write k o l c bc b bc1 b1 k1 :
  size_ok k → 0 <= o → 0 <= c < l → o + l <= size_ (vmo k) →
  fault_fails_at k o c →
  rw_loop (rw_fuel c) o c 0 (counter_zero bc) write copyfunc b k
  = Ret (NO_ERROR, bc1, b1, k1) →
  ∃ k2,
    ReadWriteInternal o l bc write copyfunc b k
    = Ret (ERR_NO_MEMORY, (λ _, c) <$> bc, b1, k2) ∧
    vmo k2 = vmo k1 ∧ kmem k2 = kmem k1 ∧ pmm k2 = pmm k1 ∧
    page_list_ (vmo k2) !! round_down_page (o + c) = None ∧
    free_list (pmm k2) = [].
Proof.
  intros Hsize Ho Hc Hin (Hal & Habsent & Hfree) Hloop.
  pose proof max_size_range as Hmax. pose proof PAGE_SIZE_pos as Hp.
  pose proof Hsize as Hsize'. unfold size_ok in Hsize'.
  destruct (rw_fuel_enough o c) as [Hf1 Hf2]; [lia|].
  assert (ReadWriteInternal o c bc write copyfunc b k = Ret (NO_ERROR, bc1, b1, k1)) as Hpre.
  { unfold ReadWriteInternal. rewrite TrimRange_in_range by lia.
    destruct (Z.eqb_spec c 0) as [Hz|_]; [|done].
    rewrite Hz in Hloop. destruct (rw_fuel 0) as [|fuel]; [done|].
    by rewrite rw_loop_done in Hloop by lia. }
  assert (size_ (vmo k1) = size_ (vmo k) ∧
          page_list_ (vmo k1) !! round_down_page (o + c) = None ∧
          free_list (pmm k1) = []) as (Hsz1 & Habsent1 & Hfree1).
  { destruct (Z.eq_dec c 0) as [Hz|Hnz].
    - rewrite Hz in Hloop. destruct (rw_fuel 0) as [|fuel]; [done|].
      rewrite rw_loop_done in Hloop by lia. injection Hloop as _ _ <-.
      split; [done|]. split; [done|].
      unfold pages_before in Hfree. rewrite decide_True in Hfree by done.
      by apply nil_length_inv.
    - unfold pages_before in Hfree. rewrite decide_False in Hfree by done.
      destruct Hal as [|Hal]; [done|].
      pose proof Hloop as Hloop'.
      apply rw_loop_pages in Hloop as [Hfl Hpl]; [|unfold u64_modulus in *; lia..].
      apply rw_loop_ok in Hloop' as (Hsz & _ & _); [|unfold u64_modulus in *; lia..|].
      2:{ intros v Hv. destruct bc; [|done]. injection Hv as <-.
          unfold u64_modulus in *. lia. }
      split; [done|]. split.
      + rewrite Hpl; [done|]. rewrite round_down_aligned by done.
        intros (_ & Hlt & _)%range_pages_spec; lia.
      + rewrite Hfl. apply drop_ge. unfold missing_pages. lia. }
  assert (fst (FaultPageLocked (o + c) (pf_flags_of write) k1) = None) as Hfault.
  { destruct (FaultPageLocked_cases (o + c) (pf_flags_of write) k1)
      as [[_ Heq]|[(_ & p & Hlk & _)|[(_ & _ & _ & Heq)|(_ & _ & p & rest & Hfl & _)]]];
      [by rewrite Heq|congruence|by rewrite Heq|congruence]. }
  destruct (rw_partial_progress copyfunc write o l l c bc bc1 b b1 k k1)
    as (Hrun & Hbc & _ & Hv & Hm & Hpm); try done; try lia.
  { apply TrimRange_in_range; lia. }
  eexists. split; [by rewrite Hrun, Hbc|].
  split; [done|]. split; [done|]. split; [done|].
  split; [by rewrite Hv|by rewrite Hpm].
Qed.

(** C7. Partial progress of Read, Write, ReadUser and WriteUser.  Take a
    range [o, o+l) within the size of an object whose pages have one owner
    each, and let the chunk that starts [c] bytes into the range be the first
    whose page FaultPageLocked cannot provide ([fault_fails_at]: the page is
    missing and the allocator holds just the pages that the missing pages
    before it take).  Then each of the four operations returns ERR_NO_MEMORY
    with the counter at exactly [c], the bytes of the chunks before the
    failing page, and these bytes are transferred:
    - Read leaves the first [c] bytes of the object's range (zero where no
      page was committed) in the first [c] bytes of the buffer and the rest
      of the buffer as it was;
    - Write leaves the first [c] bytes of the buffer in the object, where a
      reader finds them afterwards, and does not change any other byte of
      the object;
    - ReadUser has handed the same [c] bytes to the user copy, chunk by
      chunk, provided these copies went through;
    - WriteUser leaves in the object the [c] bytes that the user copy
      brought, provided the first [c] bytes of the user buffer can be read.
    The page of the failing chunk is still missing afterwards and the
    allocator has no page left. *)
Theorem ReadWrite_partial_progress (k : kernel) (o l c : Z) (bc : option Z) :
  size_ok k → pages_owned_once k →
  0 <= o → 0 <= c < l → o + l <= size_ (vmo k) →
  fault_fails_at k o c →
  (∀ ptr out, is_kernel_address ptr = true → l <= Z.of_nat (length out) →
     ∃ k',
       Read ptr out o l bc k
       = Ret (ERR_NO_MEMORY, (λ _, c) <$> bc,
              vmo_content k o (Z.to_nat c) ++ drop (Z.to_nat c) out, k') ∧
       (∀ x, vmo_read k' x = vmo_read k x) ∧
       page_list_ (vmo k') !! round_down_page (o + c) = None ∧
       free_list (pmm k') = []) ∧
  (∀ ptr buf, is_kernel_address ptr = true →
     ∃ k',
       Write ptr buf o l bc k = Ret (ERR_NO_MEMORY, (λ _, c) <$> bc, buf, k') ∧
       (∀ x, vmo_read k' x
             = if decide (o <= x < o + c) then default 0 (buf !! Z.to_nat (x - o))
               else vmo_read k x) ∧
       page_list_ (vmo k') !! round_down_page (o + c) = None ∧
       free_list (pmm k') = []) ∧
  (∀ ptr u st u1, is_user_address ptr = true →
     copy_chunks_to_user k (ptr - o) (chunks_before o c) u = (st, u1) →
     status_lt0 st = false →
     ∃ k',
       ReadUser ptr u o l bc k = Ret (ERR_NO_MEMORY, (λ _, c) <$> bc, u1, k') ∧
       (∀ x, vmo_read k' x = vmo_read k x) ∧
       page_list_ (vmo k') !! round_down_page (o + c) = None ∧
       free_list (pmm k') = []) ∧
  (∀ ptr u data, is_user_address ptr = true →
     (∀ off n, 0 <= off → 0 < n → off + n <= c →
        ∃ st, status_lt0 st = false ∧
              copy_array_from_user (ptr + off) n u = (st, data_bytes data off (Z.to_nat n))) →
     ∃ k',
       WriteUser ptr u o l bc k = Ret (ERR_NO_MEMORY, (λ _, c) <$> bc, u, k') ∧
       (∀ x, vmo_read k' x
             = if decide (o <= x < o + c) then data (x - o) else vmo_read k x) ∧
       page_list_ (vmo k') !! round_down_page (o + c) = None ∧
       free_list (pmm k') = []).
Proof.
  intros Hsize Hown Ho Hc Hin Hfails.
  pose proof max_size_range as Hmax. pose proof PAGE_SIZE_pos as Hp.
  pose proof Hsize as Hsize'. unfold size_ok in Hsize'.
  destruct (rw_fuel_enough o c) as [Hf1 Hf2]; [lia|].
  assert (0 < c →
          (length (missing_pages (page_list_ (vmo k)) o c) <= length (free_list (pmm k)))%nat)
    as Henough.
  { intros Hpos. destruct Hfails as (_ & _ & Hfree).
    unfold pages_before in Hfree. rewrite decide_False in Hfree by lia.
    unfold missing_pages. lia. }
  assert (∀ k1 k2 : kernel, vmo k2 = vmo k1 → kmem k2 = kmem k1 →
                            ∀ x, vmo_read k2 x = vmo_read k1 x) as Hsame.
  { intros k1 k2 Hv Hm x. unfold vmo_read. by rewrite !vmo_byte_eq, Hv, Hm. }
  split; [|split; [|split]].
  - intros ptr out Hptr Hout.
    destruct (read_loop_content (rw_fuel c) o c 0 (counter_zero bc) out k)
      as (bc1 & out1 & k1 & Hloop & _ & _ & _ & _ & Hread & Hlen & Hbytes & Hrest);
      try done; try lia.
    destruct (fault_fails_after read_routine false k o l c bc out bc1 out1 k1)
      as (k2 & Hrun & Hv & Hm & _ & Habsent & Hfree); try done.
    assert (out1 = vmo_content k o (Z.to_nat c) ++ drop (Z.to_nat c) out) as Hout1.
    { apply list_eq. intros j. unfold vmo_content.
      destruct (decide (j < Z.to_nat c)%nat) as [Hj|Hj].
      - rewrite lookup_app_l by (rewrite length_map, length_seq; lia).
        specialize (Hbytes (Z.of_nat j)). rewrite Z.add_0_l, Nat2Z.id in Hbytes.
        rewrite Hbytes by lia.
        change (map ?f ?l) with (f <$> l). by rewrite list_lookup_fmap, lookup_seq_lt.
      - rewrite lookup_app_r by (rewrite length_map, length_seq; lia).
        rewrite length_map, length_seq, lookup_drop.
        rewrite Hrest by lia. f_equal. lia. }
    exists k2. unfold Read. rewrite Hptr. cbn [negb]. rewrite Hrun, Hout1.
    split; [done|]. split; [|done].
    intros x. rewrite (Hsame k1 k2) by done. apply Hread.
  - intros ptr buf Hptr.
    destruct (write_loop_data write_routine (λ i, default 0 (buf !! Z.to_nat i)) buf
                (rw_fuel c) o c 0 (counter_zero bc) k)
      as (bc1 & k1 & Hloop & _ & _ & Hread); try done; try lia.
    { intros dst off n m Hoff Hn _. exists NO_ERROR. split; [done|].
      cbn [write_routine]. do 3 f_equal. unfold buffer_bytes, data_bytes.
      apply map_ext. intros i. do 3 f_equal. lia. }
    destruct (fault_fails_after write_routine true k o l c bc buf bc1 buf k1)
      as (k2 & Hrun & Hv & Hm & _ & Habsent & Hfree); try done.
    exists k2. unfold Write. rewrite Hptr. cbn [negb]. rewrite Hrun.
    split; [done|]. split; [|done].
    intros x. rewrite (Hsame k1 k2), Hread by done. by rewrite Z.add_0_l.
  - intros ptr u st u1 Hptr Hcopy Hst.
    destruct (read_user_loop ptr (rw_fuel c) o c 0 (counter_zero bc) u k st u1)
      as (bc1 & k1 & Hloop & _ & _ & Hread); try done; try lia.
    { by replace (ptr + 0 - o) with (ptr - o) by lia. }
    destruct (fault_fails_after (read_user_routine ptr) false k o l c bc u bc1 u1 k1)
      as (k2 & Hrun & Hv & Hm & _ & Habsent & Hfree); try done.
    exists k2. unfold ReadUser. rewrite Hptr. cbn [negb]. rewrite Hrun.
    split; [done|]. split; [|done].
    intros x. rewrite (Hsame k1 k2) by done. apply Hread.
  - intros ptr u data Hptr Hdata.
    destruct (write_loop_data (write_user_routine ptr) data u
                (rw_fuel c) o c 0 (counter_zero bc) k)
      as (bc1 & k1 & Hloop & _ & _ & Hread); try done; try lia.
    { intros dst off n m Hoff Hn Hend.
      destruct (Hdata off n) as (st & Hst & Heq); [lia..|].
      exists st. split; [done|]. cbn [write_user_routine]. rewrite Heq.
      by rewrite firstn_all2 by (rewrite length_data_bytes; lia). }
    destruct (fault_fails_after (write_user_routine ptr) true k o l c bc u bc1 u k1)
      as (k2 & Hrun & Hv & Hm & _ & Habsent & Hfree); try done.
    exists k2. unfold WriteUser. rewrite Hptr. cbn [negb]. rewrite Hrun.
    split; [done|]. split; [|done].
    intros x. rewrite (Hsame k1 k2), Hread by done. by rewrite Z.add_0_l.
Qed.

End PartialProgressClaim.

(** * Further properties of the object *)

Section Creation.
Context `{HP : Platform} {HOk : PlatformOk}.

(** X1. Create.  A size above MAX_SIZE gives no object, and neither does a
    heap that has no memory for the object.  Otherwise Create gives an
    object of that size with the allocation flags asked for, no page and no
    mapping region; the allocator, the memory and the log of calls are as
    before.  The new object is within the invariants of the data model, it
    owns no page and every byte of it reads zero.  Create stops at no
    assertion, in no build. *)
Theorem Create_empty_object (pmm_alloc_flags size : Z) (ac_check : bool) (k : kernel) :
  0 <= size →
  (MAX_SIZE < size ∨ ac_check = false →
   Create pmm_alloc_flags size ac_check k = Ret None) ∧
  (size <= MAX_SIZE → ac_check = true →
   ∃ k', Create pmm_alloc_flags size ac_check k = Ret (Some k') ∧
         vmo k' = mk_vmo size pmm_alloc_flags ∅ [] ∧
         pmm k' = pmm k ∧ kmem k' = kmem k ∧ trace k' = trace k ∧
         AllocatedPages k' = 0 ∧
         size_ok k' ∧ page_list_inv k' ∧
         (NoDup (free_list (pmm k)) → pages_owned_once k') ∧
         (∀ x, vmo_read k' x = 0)).
Proof.
  intros Hsize. pose proof max_size_range as Hmax. unfold Create. split.
  - intros Hno. destruct (Z.ltb_spec MAX_SIZE size) as [|Hle]; [done|].
    destruct Hno as [Hbig| ->]; [lia|done].
  - intros Hok ->. destruct (Z.ltb_spec MAX_SIZE size) as [|_]; [lia|]. cbn [negb].
    unfold Resize. cbn [size_ vmo VmObjectPaged_new].
    destruct (Z.ltb_spec MAX_SIZE size) as [|_]; [lia|].
    destruct (Z.ltb_spec size 0) as [|_]; [lia|].
    rewrite !outcome_bind_Ret. eexists. split; [done|]. cbn.
    split; [done|]. split; [done|]. split; [done|]. split; [done|]. split; [done|].
    split; [done|]. split; [done|]. split; [|done].
    intros Hnd. split; [|split]; cbn; try done.
Qed.

(** X2. AddPage and GetPageLocked.  AddPage fails with ERR_OUT_OF_RANGE
    exactly when the offset is not below the size and with
    ERR_ALREADY_EXISTS exactly when the page of the offset is taken; a failed
    AddPage changes nothing.  After a successful AddPage, GetPageLocked
    returns the new page for every byte offset of its page that lies below
    the size, and what it returned before for every other offset.  AddPage
    touches neither the allocator nor the memory. *)
Theorem AddPage_then_GetPageLocked (p offset : Z) (k : kernel) :
  let st := fst (AddPage p offset k) in
  let k' := snd (AddPage p offset k) in
  (st = ERR_OUT_OF_RANGE ↔ size_ (vmo k) <= offset) ∧
  (st = ERR_ALREADY_EXISTS ↔ is_Some (GetPageLocked offset k)) ∧
  (st = NO_ERROR ∨ st = ERR_OUT_OF_RANGE ∨ st = ERR_ALREADY_EXISTS) ∧
  (st ≠ NO_ERROR → k' = k) ∧
  (st = NO_ERROR →
   ∀ x, GetPageLocked x k'
        = if decide (x < size_ (vmo k) ∧ round_down_page x = round_down_page offset)
          then Some p else GetPageLocked x k) ∧
  size_ (vmo k') = size_ (vmo k) ∧ pmm k' = pmm k ∧ kmem k' = kmem k ∧ trace k' = trace k.
Proof.
  intros st k'. unfold st, k', AddPage, GetPageLocked, VmPageList_AddPage.
  destruct (Z.leb_spec (size_ (vmo k)) offset) as [Hout|Hin]; cbn [fst snd].
  { split; [done|]. split; [split; [done|by intros [? ?]]|].
    split; [by eauto|]. done. }
  rewrite !GetPage_lookup, ROUNDDOWN_round_down.
  destruct (page_list_ (vmo k) !! round_down_page offset) as [q|] eqn:Hq; cbn [fst snd].
  { split; [split; [done|lia]|]. split; [split; [by eauto|done]|].
    split; [by eauto|]. split; [by destruct k as [[]]|]. done. }
  split; [split; [done|lia]|]. split; [split; [done|by intros [? ?]]|].
  split; [by eauto|]. split; [done|]. split; [|done].
  intros _ x. cbn. destruct (Z.leb_spec (size_ (vmo k)) x) as [Hx|Hx].
  - rewrite decide_False by lia. done.
  - rewrite !GetPage_lookup.
    destruct (decide (round_down_page x = round_down_page offset)) as [Heq|Hne].
    + rewrite decide_True by done. by rewrite Heq, lookup_insert_eq.
    + rewrite decide_False by (by intros [_ ?]). by rewrite lookup_insert_ne.
Qed.

(** X3. FaultPageLocked.  It returns no page only for an offset at or beyond
    the size or when the page is absent and the allocator has nothing left.
    A page it returns is the page at the offset from then on, and the fault
    that follows returns the same page and changes nothing.  When the page
    was absent before, the page returned is the first of the allocator's
    free list, it is in state OBJECT, every byte of it reads zero and the
    one call that left the object is the allocation.  With every page owned
    once, no byte of the object reads differently after the fault. *)
Theorem FaultPageLocked_zero_fill (offset pf_flags pf_flags' : Z) (k : kernel) :
  let r := fst (FaultPageLocked offset pf_flags k) in
  let k' := snd (FaultPageLocked offset pf_flags k) in
  (r = None ↔
   size_ (vmo k) <= offset ∨ (GetPageLocked offset k = None ∧ free_list (pmm k) = [])) ∧
  (∀ p, r = Some p →
     GetPageLocked offset k' = Some p ∧
     FaultPageLocked offset pf_flags' k' = (Some p, k') ∧
     (GetPageLocked offset k = None →
        free_list (pmm k) = p :: free_list (pmm k') ∧
        page_state (pmm k') !! p = Some VM_PAGE_STATE_OBJECT ∧
        trace k' = trace k ++ [EvPmmAllocPage (pmm_alloc_flags_ (vmo k)) (Some p)] ∧
        ∀ x, round_down_page x = round_down_page offset → vmo_byte k' x = Some 0)) ∧
  (pages_owned_once k → pages_owned_once k' ∧ ∀ x, vmo_read k' x = vmo_read k x).
Proof.
  intros r k'. unfold r, k'. clear r k'.
  split; [|split].
  - unfold GetPageLocked. rewrite GetPage_lookup.
    destruct (FaultPageLocked_cases offset pf_flags k)
      as [[Hge Heq]|[(Hlt & p & Hlk & Heq)|[(Hlt & Hlk & Hnil & Heq)|(Hlt & Hlk & p & rest & Hfl & Heq)]]];
      rewrite Heq; cbn [fst snd].
    + split; [by left|done].
    + destruct (Z.leb_spec (size_ (vmo k)) offset); [lia|].
      split; [done|]. intros [?|[? ?]]; [lia|congruence].
    + destruct (Z.leb_spec (size_ (vmo k)) offset); [lia|].
      split; [by right|done].
    + destruct (Z.leb_spec (size_ (vmo k)) offset); [lia|].
      split; [done|]. intros [?|[? ?]]; [lia|congruence].
  - intros p Hr.
    destruct (FaultPageLocked offset pf_flags k) as [r k'] eqn:Hfault. cbn [fst snd] in *.
    subst r.
    destruct (FaultPageLocked_keeps _ _ _ _ _ Hfault) as (Hsz & _ & _ & _ & Hnew & _).
    specialize (Hnew p eq_refl).
    assert (offset < size_ (vmo k)) as Hlt.
    { destruct (FaultPageLocked_cases offset pf_flags k)
        as [[Hge Heq]|[(Hlt & _)|[(Hlt & _)|(Hlt & _)]]]; [|done..].
      rewrite Heq in Hfault. done. }
    assert (GetPageLocked offset k' = Some p) as Hget.
    { unfold GetPageLocked. rewrite Hsz.
      destruct (Z.leb_spec (size_ (vmo k)) offset); [lia|]. by rewrite GetPage_lookup. }
    split; [done|]. split.
    { destruct (FaultPageLocked_cases offset pf_flags' k')
        as [[Hge _]|[(_ & q & Hq & Heq)|[(_ & Hq & _)|(_ & Hq & _)]]];
        [lia| |congruence..].
      rewrite Heq. congruence. }
    unfold GetPageLocked. destruct (Z.leb_spec (size_ (vmo k)) offset); [lia|].
    rewrite GetPage_lookup. intros Habs.
    destruct (FaultPageLocked_cases offset pf_flags k)
      as [[Hge Heq]|[(_ & q & Hlk & Heq)|[(_ & Hlk & Hnil & Heq)|(_ & Hlk & q & rest & Hfl & Heq)]]];
      rewrite Heq in Hfault; try congruence.
    injection Hfault as -> <-. cbn.
    split; [done|]. split; [by rewrite lookup_insert_eq|]. split; [done|].
    intros x Hx. rewrite vmo_byte_eq. cbn. rewrite Hx, lookup_insert_eq. cbn. f_equal.
    unfold read_byte. rewrite lookup_arch_zero_page.
    rewrite decide_True; [done|]. apply byte_addr_in_frame.
  - intros Hown.
    destruct (FaultPageLocked offset pf_flags k) as [r k'] eqn:Hfault. cbn [fst snd].
    split; [by eapply FaultPageLocked_owned|].
    intros x. by eapply FaultPageLocked_content.
Qed.

End Creation.

Section CommitSuccess.
Context `{HP : Platform} {HOk : PlatformOk}.

(** What a batch installed at the missing offsets looks like from outside. *)
Lemma installed_pages (pl pl' : gmap Z Z) (m m' : gmap Z Z) miss batch :
  NoDup miss → (∀ x, x ∈ miss → pl !! x = None) → length miss = length batch →
  pl' = list_to_map (zip miss batch) ∪ pl →
  m' = zero_pages batch m →
  (∀ i x, miss !! i = Some x → pl' !! x = batch !! i) ∧
  (∀ x, x ∉ miss → pl' !! x = pl !! x) ∧
  (∀ x p, pl' !! round_down_page x = Some p → round_down_page x ∈ miss →
          read_byte m' (byte_addr p x) = 0).
Proof.
  intros Hnd Hmiss Hlen -> ->.
  assert ((zip miss batch).*1 = miss) as Hkeys by (apply fst_zip; lia).
  split; [|split].
  - intros i x Hi.
    destruct (lookup_lt_is_Some_2 batch i) as [p Hp].
    { rewrite <- Hlen. by eapply lookup_lt_Some. }
    rewrite Hp. apply lookup_union_Some_raw. left.
    apply elem_of_list_to_map_1; [by rewrite Hkeys|].
    apply list_elem_of_lookup. exists i. apply lookup_zip_with_Some. by eauto.
  - intros x Hx. apply lookup_union_r, not_elem_of_list_to_map. by rewrite Hkeys.
  - intros x p Hlk Hin.
    apply lookup_union_Some_raw in Hlk as [Hlk|[_ Hlk]].
    2:{ rewrite (Hmiss _ Hin) in Hlk. done. }
    apply elem_of_list_to_map_2, elem_of_zip_r in Hlk.
    unfold read_byte. rewrite lookup_zero_pages.
    rewrite decide_True; [done|].
    apply Exists_exists. exists p. split; [done|]. apply byte_addr_in_frame.
Qed.

(** X4. CommitRange when the allocator can supply the missing pages.  Over a
    range that the trim accepts with a non-empty length, CommitRange returns
    NO_ERROR and reports PAGE_SIZE bytes for each missing page.  The i-th
    missing page of the range takes the i-th page of the allocator's free
    list, which leaves that list; the offsets that were not missing keep
    what they had, so that afterwards every page of the range is present and
    AllocatedPages has grown by the number of missing pages.  Every byte of
    a page that was missing reads zero.  With every page owned once, this
    still holds afterwards and no byte of the object reads differently. *)
Theorem CommitRange_installs_missing
    (k : kernel) (offset len len' : Z) (committed : option Z) :
  size_ok k → 0 <= offset → 0 <= len →
  TrimRange offset len (size_ (vmo k)) = Some len' → len' ≠ 0 →
  let miss := missing_pages (page_list_ (vmo k)) offset len' in
  (length miss <= length (free_list (pmm k)))%nat →
  ∃ k',
    CommitRange offset len committed k
    = Ret (NO_ERROR, (λ _, PAGE_SIZE * Z.of_nat (length miss)) <$> committed, k') ∧
    (∀ i x, miss !! i = Some x → page_list_ (vmo k') !! x = free_list (pmm k) !! i) ∧
    (∀ x, x ∉ miss → page_list_ (vmo k') !! x = page_list_ (vmo k) !! x) ∧
    (∀ x, x ∈ range_pages offset len' → is_Some (page_list_ (vmo k') !! x)) ∧
    free_list (pmm k') = drop (length miss) (free_list (pmm k)) ∧
    AllocatedPages k' = AllocatedPages k + Z.of_nat (length miss) ∧
    size_ (vmo k') = size_ (vmo k) ∧
    (∀ x, round_down_page x ∈ miss → vmo_byte k' x = Some 0) ∧
    (pages_owned_once k → pages_owned_once k' ∧ ∀ x, vmo_read k' x = vmo_read k x).
Proof.
  intros Hsize Ho Hl Htrim Hne miss Henough.
  destruct (CommitRange_run k offset len len' committed)
    as (k' & Hrun & Hpl & Hsz & _ & _ & Hfree & _ & Hmem); [done..|].
  fold miss in Hrun, Hpl, Hfree, Hmem.
  set (batch := take (length miss) (free_list (pmm k))) in *.
  pose proof (missing_pages_NoDup (page_list_ (vmo k)) offset len') as Hnd.
  pose proof (missing_pages_spec (page_list_ (vmo k)) offset len') as Hmiss.
  fold miss in Hnd, Hmiss.
  assert (length miss = length batch) as Hlen by (unfold batch; rewrite length_take; lia).
  destruct (installed_pages _ _ _ _ miss batch Hnd Hmiss Hlen Hpl Hmem)
    as (Hith & Hrest & Hzero).
  destruct (install_all_pages k k' miss) as [Hperm Hcount]; [done..|].
  exists k'. split; [done|].
  split.
  { intros i x Hi. rewrite (Hith i x Hi). unfold batch.
    apply lookup_take_lt. by eapply lookup_lt_Some. }
  split; [done|].
  split.
  { intros x Hx. destruct (decide (x ∈ miss)) as [Hin|Hnin].
    - apply list_elem_of_lookup in Hin as [i Hi]. rewrite (Hith i x Hi).
      apply lookup_lt_is_Some_2. rewrite <- Hlen. by eapply lookup_lt_Some.
    - rewrite (Hrest x Hnin).
      destruct (page_list_ (vmo k) !! x) eqn:Hlk; [by eexists|].
      exfalso. apply Hnin. by apply list_elem_of_filter. }
  split; [done|]. split; [done|]. split; [done|].
  split.
  { intros x Hx. rewrite vmo_byte_eq.
    destruct (page_list_ (vmo k') !! round_down_page x) as [p|] eqn:Hp.
    - cbn. f_equal. by eapply Hzero.
    - apply list_elem_of_lookup in Hx as [i Hi].
      rewrite (Hith _ _ Hi) in Hp. apply lookup_ge_None in Hp.
      apply lookup_lt_Some in Hi. lia. }
  intros Hown. split.
  - apply pages_owned_once_NoDup. rewrite Hperm. by apply pages_owned_once_NoDup.
  - intros x. by eapply install_content.
Qed.

(** The pages of a range are [len / PAGE_SIZE] exactly when the range is
    made of whole pages. *)
Lemma range_pages_whole offset len :
  0 <= offset → 0 < len →
  Z.of_nat (length (range_pages offset len)) = len / PAGE_SIZE ↔
  offset mod PAGE_SIZE = 0 ∧ len mod PAGE_SIZE = 0.
Proof.
  intros Ho Hl. pose proof PAGE_SIZE_pos as Hp.
  destruct (round_down_spec offset) as [Hd1 Hd2].
  destruct (round_up_spec (offset + len)) as [Hu1 Hu2].
  pose proof (pages_between_length _ _ Hd1 Hu1 ltac:(lia)) as Hlen.
  fold (range_pages offset len) in Hlen.
  assert (len = PAGE_SIZE * (len / PAGE_SIZE) + len mod PAGE_SIZE) as Hdm
    by (apply Z.div_mod; lia).
  pose proof (mod_bounds _ Hp len) as Hml.
  split.
  - intros Heq. rewrite Heq in Hlen.
    assert (len mod PAGE_SIZE = 0) as Hla by lia.
    split; [|done].
    assert (round_down_page offset = offset) as Hrd by lia.
    by rewrite <- Hrd.
  - intros [Hoa Hla]. rewrite round_down_aligned in Hlen by done.
    rewrite round_up_aligned in Hlen.
    2:{ rewrite Z.add_mod, Hoa, Hla by lia. done. }
    nia.
Qed.

(** X5. CommitRangeContiguous is for a range of whole pages that holds no
    page.  Over a range that the trim accepts with a non-empty length:
    - in a build that implements debug assertions the kernel stops whenever
      the number of missing pages of the range is not [len / PAGE_SIZE]
      (the assertion on the count, before the allocator is asked): so for
      every range of whole pages that holds a page, and for every range
      without a page whose offset or length is not a multiple of the page
      size;
    - in every build, if the range holds a page and the allocator can
      supply the missing ones, the kernel stops: the batch is shorter than
      the range, and the assertion on the page taken from it fails if no
      debug assertion did before;
    - if the range holds no page, the allocator can supply its pages, and
      the build has no debug assertions or offset and length are multiples
      of the page size, the call returns NO_ERROR, reports PAGE_SIZE bytes
      for each page of the range, installs the i-th page of the free list at
      the i-th page of the range, zeroed, with one call of the contiguous
      allocator, and touches no other offset. *)
Theorem CommitRangeContiguous_needs_empty_range
    (k : kernel) (offset len len' : Z) (committed : option Z) (alignment_log2 : Z) :
  size_ok k → 0 <= offset → 0 <= len →
  TrimRange offset len (size_ (vmo k)) = Some len' → len' ≠ 0 →
  let pages := range_pages offset len' in
  let miss := missing_pages (page_list_ (vmo k)) offset len' in
  let whole := offset mod PAGE_SIZE = 0 ∧ len' mod PAGE_SIZE = 0 in
  let holds_page := ∃ x, x ∈ pages ∧ is_Some (page_list_ (vmo k) !! x) in
  let holds_none := ∀ x, x ∈ pages → page_list_ (vmo k) !! x = None in
  (DEBUG_ASSERT_IMPLEMENTED = true →
   Z.of_nat (length miss) ≠ len' / PAGE_SIZE ∨ (whole ∧ holds_page) ∨ (holds_none ∧ ¬ whole) →
   CommitRangeContiguous offset len committed alignment_log2 k = Panic) ∧
  ((length miss <= length (free_list (pmm k)))%nat → holds_page →
   CommitRangeContiguous offset len committed alignment_log2 k = Panic) ∧
  ((length miss <= length (free_list (pmm k)))%nat → holds_none →
   DEBUG_ASSERT_IMPLEMENTED = false ∨ whole →
   ∃ k',
     CommitRangeContiguous offset len committed alignment_log2 k
     = Ret (NO_ERROR, (λ _, PAGE_SIZE * Z.of_nat (length pages)) <$> committed, k') ∧
     (∀ i x, pages !! i = Some x → page_list_ (vmo k') !! x = free_list (pmm k) !! i) ∧
     (∀ x, x ∉ pages → page_list_ (vmo k') !! x = page_list_ (vmo k) !! x) ∧
     free_list (pmm k') = drop (length pages) (free_list (pmm k)) ∧
     trace k'
     = trace k ++ [EvPmmAllocContiguous (Z.of_nat (length pages)) (pmm_alloc_flags_ (vmo k))
                     alignment_log2 (take (length pages) (free_list (pmm k)))] ∧
     (∀ x, round_down_page x ∈ pages → vmo_byte k' x = Some 0)).
Proof.
  intros Hsize Ho Hl Htrim Hne pages miss whole holds_page holds_none.
  destruct (TrimRange_Some _ _ _ _ Ho Hl Htrim) as [Hl' Hin].
  assert (holds_none → miss = pages) as Hnone.
  { intros Hall. unfold miss, missing_pages. fold pages. apply filter_length_eq.
    clear -Hall. induction pages as [|x l IH]; [done|].
    rewrite filter_cons, decide_True by (apply Hall; by left). cbn. f_equal.
    apply IH. intros y Hy. apply Hall. by right. }
  assert (holds_page → (length miss < length pages)%nat) as Hsome.
  { intros (x & Hx & Hsome).
    assert (length miss <= length pages)%nat as Hle by apply length_filter.
    destruct (decide (length miss = length pages)) as [Heq|]; [|lia].
    apply (filter_length_eq (λ x, page_list_ (vmo k) !! x = None) pages) in Heq.
    rewrite <- Heq in Hx.
    apply list_elem_of_filter in Hx as [Hnone' _]. rewrite Hnone' in Hsome. by destruct Hsome. }
  pose proof (range_pages_whole offset len' Ho ltac:(lia)) as Hwhole. fold pages in Hwhole.
  split; [|split].
  - intros Hdebug Hwhy.
    apply (CommitRangeContiguous_count_assert k offset len len'); try done.
    fold miss. destruct Hwhy as [Hcount|[[Hw Hp]|[Hn Hnw]]].
    + done.
    + apply Hwhole in Hw. apply Hsome in Hp. lia.
    + rewrite (Hnone Hn). intros Heq. by apply Hnw, Hwhole.
  - intros Henough Hp.
    destruct (CommitRangeContiguous_run k offset len len' committed alignment_log2)
      as (Hpanic & _); [done..|].
    apply Hpanic. fold miss pages. intros Heq. apply Hsome in Hp. rewrite Heq in Hp. lia.
  - intros Henough Hall Hpass.
    destruct (CommitRangeContiguous_run k offset len len' committed alignment_log2)
      as (_ & Hok); [done..|].
    fold miss pages in Hok.
    pose proof (Hnone Hall) as Heq.
    destruct (Hok Heq) as (k' & Hrun & Hpl & Hsz & _ & _ & Hfree & Htr & Hmem).
    { destruct Hpass as [|Hw]; [by left|right]. rewrite Heq. by apply Hwhole. }
    rewrite Heq in Hrun, Hpl, Hfree, Htr, Hmem, Henough.
    set (batch := take (length pages) (free_list (pmm k))) in *.
    assert (length pages = length batch) as Hlen by (unfold batch; rewrite length_take; lia).
    destruct (installed_pages _ _ _ _ pages batch (range_pages_NoDup _ _) Hall Hlen Hpl Hmem)
      as (Hith & Hrest & Hzero).
    exists k'. split; [done|].
    split.
    { intros i x Hi. rewrite (Hith i x Hi). unfold batch.
      apply lookup_take_lt. by eapply lookup_lt_Some. }
    split; [done|]. split; [done|]. split; [done|].
    intros x Hx. rewrite vmo_byte_eq.
    destruct (page_list_ (vmo k') !! round_down_page x) as [p|] eqn:Hp.
    + cbn. f_equal. by eapply Hzero.
    + apply list_elem_of_lookup in Hx as [i Hi].
      rewrite (Hith _ _ Hi) in Hp. apply lookup_ge_None in Hp.
      apply lookup_lt_Some in Hi. lia.
Qed.

End CommitSuccess.

Section Ownership.
Context `{HP : Platform} {HOk : PlatformOk}.

Lemma run_calls_all_pages cs : ∀ k k',
  Forall (λ c, call_args_u64 c ∧ is_AddPage c = false) cs →
  size_ok k → page_list_inv k → run_calls cs k = Ret k' →
  size_ok k' ∧ page_list_inv k' ∧ all_pages k' ≡ₚ all_pages k.
Proof.
  induction cs as [|c cs IH]; intros k k' Hcs Hsize Hinv Hrun.
  { injection Hrun as <-. done. }
  apply Forall_cons in Hcs as [[Hargs Hadd] Hcs]. cbn [run_calls] in Hrun.
  destruct (run_call c k) as [k1| |] eqn:Hc; [|done..]. rewrite outcome_bind_Ret in Hrun.
  destruct (run_call_keeps_inv c k k1) as [Hsize1 Hinv1]; [done..|].
  destruct (IH k1 k') as (Hsize' & Hinv' & Hperm); [done..|].
  split; [done|]. split; [done|].
  rewrite Hperm. by apply (run_call_all_pages c).
Qed.

(** X6. No page is lost.  Take an object within the invariants of the data
    model and any sequence of calls of the public operations other than
    AddPage, each with 64-bit offsets and lengths, that returns.  When the
    object is destroyed afterwards, its page list is empty and the
    allocator's free list holds exactly the pages that the object and the
    allocator held together at the start, each as often as then. *)
Theorem pages_conserved_until_destruction (cs : list vmo_call) (k k' : kernel) :
  Forall (λ c, call_args_u64 c ∧ is_AddPage c = false) cs →
  size_ok k → page_list_inv k →
  run_calls cs k = Ret k' →
  page_list_ (vmo (VmObjectPaged_destroy k')) = ∅ ∧
  AllocatedPages (VmObjectPaged_destroy k') = 0 ∧
  free_list (pmm (VmObjectPaged_destroy k')) ≡ₚ owned_pages k ++ free_list (pmm k) ∧
  trace (VmObjectPaged_destroy k') = trace k' ++ [EvPmmFree (owned_pages k')].
Proof.
  intros Hcs Hsize Hinv Hrun.
  destruct (run_calls_all_pages cs k k') as (_ & _ & Hperm); [done..|].
  split; [done|]. split; [done|]. split; [|done].
  cbn. exact Hperm.
Qed.

(** X7. Every page keeps one owner.  If no page sits at two offsets of the
    object, the allocator's free list names no page twice and no page of
    the object is in it, then the same holds after any call of a public
    operation with 64-bit offsets and lengths that returns; for AddPage,
    provided the page it brings is neither in the object nor in the free
    list. *)
Theorem calls_keep_pages_owned_once (c : vmo_call) (k k' : kernel) :
  call_args_u64 c → size_ok k → pages_owned_once k →
  (∀ p offset, c = CallAddPage p offset → p ∉ all_pages k) →
  run_call c k = Ret k' →
  pages_owned_once k'.
Proof.
  intros Hargs Hsize Hown Hfresh Hrun.
  destruct (is_AddPage c) eqn:Hadd.
  - destruct c; try done. specialize (Hfresh p offset eq_refl).
    cbn in Hrun. injection Hrun as <-.
    unfold AddPage. destruct (_ <=? _); [done|].
    unfold VmPageList_AddPage.
    destruct (page_list_ (vmo k) !! ROUNDDOWN offset PAGE_SIZE) eqn:Hlk; [by destruct k as [[]]|].
    cbn. apply pages_owned_once_NoDup. apply pages_owned_once_NoDup in Hown.
    unfold all_pages in *. rewrite owned_pages_perm in *. cbn.
    rewrite values_insert by done. cbn. by apply NoDup_cons.
  - apply pages_owned_once_NoDup.
    rewrite (run_call_all_pages c k k') by done.
    by apply pages_owned_once_NoDup.
Qed.

End Ownership.

Section ReadWrite.
Context `{HP : Platform} {HOk : PlatformOk}.

Lemma rw_counter {B} (copyfunc : copy_routine B) write fuel o l bc b k bc' b' k' :
  0 <= o → 0 < l → o + l < u64_modulus →
  rw_loop fuel o l 0 (counter_zero bc) write copyfunc b k = Ret (NO_ERROR, bc', b', k') →
  bc' = (λ _, l) <$> bc.
Proof.
  intros Ho Hl Hfit Hrun.
  apply rw_loop_ok in Hrun as (_ & _ & ->); try lia.
  - by destruct bc; cbn; f_equal.
  - intros v Hv. destruct bc; [|done]. injection Hv as <-. unfold u64_modulus in *. lia.
Qed.

(** Read over a range within the size, given a free page for every missing
    page of the range. *)
Lemma Read_content_loop (k : kernel) (ptr o l : Z) (out : list Z) (br : option Z) :
  size_ok k → pages_owned_once k → is_kernel_address ptr = true →
  0 <= o → 0 <= l → o + l <= size_ (vmo k) → length out = Z.to_nat l →
  (length (missing_pages (page_list_ (vmo k)) o l) <= length (free_list (pmm k)))%nat →
  ∃ k',
    Read ptr out o l br k
    = Ret (NO_ERROR, (λ _, l) <$> br, vmo_content k o (Z.to_nat l), k') ∧
    (∀ x, vmo_read k' x = vmo_read k x).
Proof.
  intros Hsize Hown Hptr Ho Hl Hin Hout Hfree.
  pose proof PAGE_SIZE_pos as Hp. pose proof max_size_range as Hmax.
  unfold size_ok in Hsize.
  unfold Read. rewrite Hptr. cbn [negb].
  unfold ReadWriteInternal. rewrite TrimRange_in_range by lia.
  destruct (Z.eqb_spec l 0) as [->|Hnz].
  { exists k. cbn. destruct out; [|done]. split; [by destruct br|done]. }
  destruct (rw_fuel_enough o l) as [Hf1 Hf2]; [lia|].
  destruct (read_loop_content (rw_fuel l) o l 0 (counter_zero br) out k)
    as (bc' & out' & k' & Hrun & Hown' & Hsz' & Hkept & Hpres & Hread & Hlen & Hbytes & _);
    try done; try lia.
  apply rw_counter in Hrun as Hbc; [|lia..]. subst bc'.
  exists k'. rewrite Hrun. split; [|done].
  do 3 f_equal. apply list_eq. intros j. unfold vmo_content.
  destruct (decide (j < Z.to_nat l)%nat) as [Hj|Hj].
  - specialize (Hbytes (Z.of_nat j)). rewrite Z.add_0_l, Nat2Z.id in Hbytes.
    rewrite Hbytes by lia.
    rewrite list_lookup_fmap, lookup_seq_lt by done. done.
  - rewrite !lookup_ge_None_2; [done| |lia].
    rewrite length_map, length_seq. lia.
Qed.

(** X8. Read returns what a reader finds.  For an object whose pages have
    one owner each, a kernel buffer of [l] bytes, a range [o, o+l) within
    the size and an allocator that has a free page for every missing page of
    the range, Read returns NO_ERROR with [l] bytes read and fills the
    buffer with the bytes of the committed pages and with zero for the bytes
    of the pages that were not committed.  Read commits the pages of the
    range that were missing, keeps the pages that were there, and no byte of
    the object reads differently afterwards. *)
Theorem Read_returns_content
    (k : kernel) (ptr o l : Z) (out : list Z) (br : option Z) :
  size_ok k → pages_owned_once k → is_kernel_address ptr = true →
  0 <= o → 0 <= l → o + l <= size_ (vmo k) → length out = Z.to_nat l →
  (length (missing_pages (page_list_ (vmo k)) o l) <= length (free_list (pmm k)))%nat →
  ∃ k',
    Read ptr out o l br k
    = Ret (NO_ERROR, (λ _, l) <$> br, vmo_content k o (Z.to_nat l), k') ∧
    (∀ x, vmo_read k' x = vmo_read k x) ∧
    (∀ x q, page_list_ (vmo k) !! x = Some q → page_list_ (vmo k') !! x = Some q) ∧
    (∀ i, 0 <= i < l → is_Some (page_list_ (vmo k') !! round_down_page (o + i))) ∧
    size_ (vmo k') = size_ (vmo k) ∧
    pages_owned_once k'.
Proof.
  intros Hsize Hown Hptr Ho Hl Hin Hout Hfree.
  pose proof PAGE_SIZE_pos as Hp. pose proof max_size_range as Hmax.
  unfold size_ok in Hsize.
  unfold Read. rewrite Hptr. cbn [negb].
  unfold ReadWriteInternal. rewrite TrimRange_in_range by lia.
  destruct (Z.eqb_spec l 0) as [->|Hnz].
  { exists k. cbn. destruct out; [|done].
    split; [by destruct br|]. split; [done|]. split; [done|]. split; [intros; lia|done]. }
  destruct (rw_fuel_enough o l) as [Hf1 Hf2]; [lia|].
  destruct (read_loop_content (rw_fuel l) o l 0 (counter_zero br) out k)
    as (bc' & out' & k' & Hrun & Hown' & Hsz' & Hkept & Hpres & Hread & Hlen & Hbytes & _);
    try done; try lia.
  apply rw_counter in Hrun as Hbc; [|lia..]. subst bc'.
  exists k'. rewrite Hrun. split; [|done].
  do 3 f_equal. apply list_eq. intros j. unfold vmo_content.
  destruct (decide (j < Z.to_nat l)%nat) as [Hj|Hj].
  - specialize (Hbytes (Z.of_nat j)). rewrite Z.add_0_l, Nat2Z.id in Hbytes.
    rewrite Hbytes by lia.
    rewrite list_lookup_fmap, lookup_seq_lt by done. done.
  - rewrite !lookup_ge_None_2; [done| |lia].
    rewrite length_map, length_seq. lia.
Qed.

(** X9. Write changes the bytes of its range and nothing else.  For an
    object whose pages have one owner each, a kernel buffer of [l] bytes, a
    range [o, o+l) within the size and an allocator that has a free page for
    every missing page of the range, Write returns NO_ERROR with [l] bytes
    written and leaves the buffer as it is.  Afterwards a reader finds the
    bytes of the buffer in the range and, at every other offset, what was
    there before: also in the pages that Write committed on the way, whose
    other bytes read zero as the hole did. *)
Theorem Write_changes_range_only
    (k : kernel) (ptr o l : Z) (buf : list Z) (bw : option Z) :
  size_ok k → pages_owned_once k → is_kernel_address ptr = true →
  0 <= o → 0 <= l → o + l <= size_ (vmo k) → length buf = Z.to_nat l →
  (length (missing_pages (page_list_ (vmo k)) o l) <= length (free_list (pmm k)))%nat →
  ∃ k',
    Write ptr buf o l bw k = Ret (NO_ERROR, (λ _, l) <$> bw, buf, k') ∧
    (∀ x, vmo_read k' x
          = if decide (o <= x < o + l) then default 0 (buf !! Z.to_nat (x - o))
            else vmo_read k x) ∧
    (∀ x q, page_list_ (vmo k) !! x = Some q → page_list_ (vmo k') !! x = Some q) ∧
    (∀ i, 0 <= i < l → is_Some (page_list_ (vmo k') !! round_down_page (o + i))) ∧
    size_ (vmo k') = size_ (vmo k) ∧
    pages_owned_once k'.
Proof.
  intros Hsize Hown Hptr Ho Hl Hin Hbuf Hfree.
  pose proof PAGE_SIZE_pos as Hp. pose proof max_size_range as Hmax.
  unfold size_ok in Hsize.
  unfold Write. rewrite Hptr. cbn [negb].
  unfold ReadWriteInternal. rewrite TrimRange_in_range by lia.
  destruct (Z.eqb_spec l 0) as [->|Hnz].
  { exists k. cbn.
    split; [by destruct bw|]. split; [|split; [done|split; [intros; lia|done]]].
    intros x. rewrite decide_False by lia. done. }
  destruct (rw_fuel_enough o l) as [Hf1 Hf2]; [lia|].
  destruct (write_loop_content buf (rw_fuel l) o l 0 (counter_zero bw) k)
    as (bc' & k' & Hrun & Hown' & Hsz' & Hkept & Hpres & Hread); try done; try lia.
  apply rw_counter in Hrun as Hbc; [|lia..]. subst bc'.
  exists k'. rewrite Hrun. split; [done|]. split; [|done].
  intros x. rewrite Hread. by rewrite Z.add_0_l.
Qed.

End ReadWrite.

Section Holes.
Context `{HP : Platform} {HOk : PlatformOk}.

Lemma present_all_missing (l : list Z) : ∀ (pl pl' : gmap Z Z),
  (∀ x, pl' !! x = if decide (x ∈ l) then None else pl !! x) →
  ∀ l' : list Z, l' ⊆ l → filter (λ x, pl' !! x = None) l' = l'.
Proof.
  intros pl pl' Hpl l' Hsub. induction l' as [|x l' IH]; [done|].
  rewrite filter_cons, decide_True.
  - f_equal. apply IH. intros y Hy. apply Hsub. by right.
  - rewrite Hpl, decide_True; [done|]. apply Hsub. by left.
Qed.

(** X10. DecommitRange, then Read.  For an object whose pages have one owner
    each and a non-empty range within the size, DecommitRange returns
    NO_ERROR and the Read of the same range that follows, given that the
    pages just freed and the pages the allocator had cover the pages of the
    range, returns NO_ERROR and fills the buffer with zeros.  Afterwards the
    whole pages that the range touches read zero, also the bytes of the
    first and last page that lie outside the range, and every other byte
    reads as before the two calls. *)
Theorem DecommitRange_then_Read_zero
    (k : kernel) (ptr offset len : Z) (out : list Z) (decommitted br : option Z) :
  size_ok k → pages_owned_once k → is_kernel_address ptr = true →
  0 <= offset → 0 < len → offset + len <= size_ (vmo k) → length out = Z.to_nat len →
  (length (range_pages offset len)
   <= length (present_pages (page_list_ (vmo k)) (range_pages offset len))
      + length (free_list (pmm k)))%nat →
  ∃ d k1 k2,
    DecommitRange offset len decommitted k = Ret (NO_ERROR, d, k1) ∧
    Read ptr out offset len br k1
    = Ret (NO_ERROR, (λ _, len) <$> br, replicate (Z.to_nat len) 0, k2) ∧
    (∀ x, vmo_read k2 x
          = if decide (round_down_page offset <= x < round_up_page (offset + len))
            then 0 else vmo_read k x).
Proof.
  intros Hsize Hown Hptr Ho Hl Hin Hout Hfree.
  pose proof PAGE_SIZE_pos as Hp. pose proof max_size_range as Hmax.
  pose proof Hsize as Hsize'. unfold size_ok in Hsize'.
  destruct (DecommitRange_run k offset len len decommitted)
    as (Hs & He & k1 & Hrun & Hfreed); [done|lia|lia|apply TrimRange_in_range; lia|lia|].
  fold (range_pages offset len) in Hrun, Hfreed.
  set (l := range_pages offset len) in *.
  set (k0 := unmap_all_regions _ _ k) in *.
  pose proof (freed_all_pages l k0 k1 (range_pages_NoDup _ _) Hfreed) as Hperm.
  pose proof (λ x, freed_content l k0 k1 x Hfreed) as Hcontent.
  destruct Hfreed as (Hsz1 & _ & _ & Hmem1 & Hpl1 & _ & Hfree1).
  assert (pages_owned_once k1) as Hown1.
  { apply pages_owned_once_NoDup. rewrite Hperm. by apply pages_owned_once_NoDup. }
  assert (missing_pages (page_list_ (vmo k1)) offset len = l) as Hmiss.
  { by apply (present_all_missing l (page_list_ (vmo k0)) _ Hpl1). }
  destruct (round_down_spec offset) as [Hd1 Hd2].
  destruct (round_up_spec (offset + len)) as [Hu1 Hu2].
  assert (∀ x, round_down_page x ∈ l ↔
               round_down_page offset <= x < round_up_page (offset + len)) as Hinl.
  { intros x. destruct (round_down_spec x) as [Hx1 Hx2]. unfold l, range_pages.
    rewrite pages_between_spec by done. split.
    - intros (_ & Hlo & Hhi). split; [lia|].
      destruct (Z.lt_ge_cases x (round_up_page (offset + len))) as [|Hge]; [done|].
      pose proof (aligned_gap _ Hp _ _ Hx1 Hu1). lia.
    - intros [Hlo Hhi]. split; [done|]. split; [|lia].
      destruct (Z.le_gt_cases (round_down_page offset) (round_down_page x)) as [|Hlt]; [done|].
      pose proof (aligned_gap _ Hp _ _ Hx1 Hd1). lia. }
  destruct (Read_content_loop k1 ptr offset len out br)
    as (k2 & Hread & Hsame); try done.
  { unfold size_ok. by rewrite Hsz1. }
  { lia. }
  { rewrite Hsz1. cbn. lia. }
  { rewrite Hmiss, Hfree1, length_app, length_reverse. cbn. lia. }
  eexists _, k1, k2. split; [exact Hrun|]. split.
  - rewrite Hread. do 3 f_equal. apply list_eq. intros j. unfold vmo_content.
    destruct (decide (j < Z.to_nat len)%nat) as [Hj|Hj].
    + rewrite list_lookup_fmap, lookup_seq_lt by done.
      rewrite lookup_replicate_2 by done. cbn. f_equal.
      rewrite Hcontent, decide_True; [done|]. apply Hinl. lia.
    + rewrite !lookup_ge_None_2; [done|rewrite length_replicate; lia|].
      rewrite length_map, length_seq. lia.
  - intros x. rewrite Hsame, Hcontent.
    destruct (decide (round_down_page x ∈ l)) as [Hx|Hx].
    + rewrite decide_True; [done|]. by apply Hinl.
    + rewrite decide_False; [done|]. by rewrite <- Hinl.
Qed.

End Holes.

Section Sizes.
Context `{HP : Platform} {HOk : PlatformOk}.

(** X11. Shrinking, then growing back.  For an object within the invariants
    of the data model and a new size [s] not above the old one, Resize to
    [s] and then back to the old size both return NO_ERROR.  Afterwards
    every byte below [round_up_page s] reads as it did before, also the
    bytes between [s] and the end of its page, which the shrink did not
    clear; every byte from [round_up_page s] on reads zero.  The memory
    itself is not written. *)
Theorem Resize_shrink_then_grow (k : kernel) (s : Z) :
  size_ok k → page_list_inv k → 0 <= s <= size_ (vmo k) →
  ∃ k1 k2,
    Resize s k = Ret (NO_ERROR, k1) ∧
    Resize (size_ (vmo k)) k1 = Ret (NO_ERROR, k2) ∧
    size_ (vmo k1) = s ∧ size_ (vmo k2) = size_ (vmo k) ∧
    kmem k2 = kmem k ∧
    (∀ x, 0 <= x →
          vmo_read k2 x = if decide (x < round_up_page s) then vmo_read k x else 0).
Proof.
  intros Hsize Hinv Hs. pose proof PAGE_SIZE_pos as Hp. pose proof max_size_range as Hmax.
  pose proof Hsize as Hsize'. unfold size_ok in Hsize'.
  destruct (Resize_run k s Hsize) as (k1 & Hrun1 & Hfreed1); [lia|].
  set (start := round_up_page s) in *.
  set (end_ := round_up_page (size_ (vmo k))) in *.
  set (k0 := if decide (start < end_) then _ else k) in *.
  assert (size_ (vmo k0) = size_ (vmo k) ∧ kmem k0 = kmem k ∧
          page_list_ (vmo k0) = page_list_ (vmo k)) as (Hsz0 & Hmem0 & Hpl0).
  { unfold k0. by destruct (decide _). }
  pose proof (λ x, freed_content _ k0 k1 x Hfreed1) as Hcontent1.
  destruct Hfreed1 as (Hsz1 & _ & _ & Hmem1 & _).
  assert (size_ok (with_size s k1)) as Hsize1 by (unfold size_ok; cbn; lia).
  destruct (Resize_run (with_size s k1) (size_ (vmo k)) Hsize1) as (k2 & Hrun2 & Hfreed2);
    [lia|].
  cbn [size_ vmo with_size] in Hrun2, Hfreed2. fold start end_ in Hfreed2.
  destruct (round_up_spec s) as [Hs1 Hs2]. fold start in Hs1, Hs2.
  destruct (round_up_spec (size_ (vmo k))) as [He1 He2]. fold end_ in He1, He2.
  assert (start <= end_) as Hle by (apply round_up_mono; lia).
  rewrite decide_False in Hfreed2 by lia.
  assert (pages_between end_ start = []) as Hnil.
  { unfold pages_between. rewrite Z2Nat.nonpos; [done|]. apply Z.div_le_upper_bound; lia. }
  rewrite Hnil in Hfreed2.
  pose proof (λ x, freed_content _ _ k2 x Hfreed2) as Hcontent2.
  destruct Hfreed2 as (Hsz2 & _ & _ & Hmem2 & _).
  exists (with_size s k1), (with_size (size_ (vmo k)) k2).
  split; [done|]. split; [done|]. split; [done|]. split; [done|].
  split. { cbn. rewrite Hmem2. cbn. by rewrite Hmem1. }
  intros x Hx.
  change (vmo_read (with_size (size_ (vmo k)) k2) x) with (vmo_read k2 x).
  rewrite Hcontent2, decide_False by (by intros ?%elem_of_nil).
  change (vmo_read (with_size s k1) x) with (vmo_read k1 x).
  rewrite Hcontent1.
  assert (vmo_read k0 x = vmo_read k x) as ->.
  { unfold vmo_read. by rewrite !vmo_byte_eq, Hpl0, Hmem0. }
  destruct (round_down_spec x) as [Hx1 Hx2].
  destruct (decide (x < start)) as [Hlt|Hge].
  - rewrite decide_False; [done|].
    intros Hin%pages_between_spec; [|done..]. lia.
  - destruct (decide (round_down_page x ∈ pages_between start end_)) as [|Hnin]; [done|].
    apply vmo_read_absent.
    destruct (page_list_ (vmo k) !! round_down_page x) as [p|] eqn:Hlk; [|done].
    exfalso. apply Hnin. destruct (Hinv _ _ Hlk) as [_ Hr]. fold end_ in Hr.
    apply pages_between_spec; [done..|]. split; [done|]. split; [|lia].
    destruct (Z.le_gt_cases start (round_down_page x)) as [|Hlt]; [done|].
    pose proof (aligned_gap _ Hp _ _ Hx1 Hs1). lia.
Qed.

(** X12. The counter of DecommitRange and AllocatedPages agree.  When
    DecommitRange over an object within MAX_SIZE returns NO_ERROR with a
    counter, the counter holds PAGE_SIZE times the number of pages by which
    AllocatedPages went down, and the free list of the allocator grew by as
    many pages. *)
Theorem DecommitRange_accounting
    (k k' : kernel) (offset len v d : Z) :
  size_ok k → 0 <= offset → 0 <= len →
  DecommitRange offset len (Some v) k = Ret (NO_ERROR, Some d, k') →
  d = PAGE_SIZE * (AllocatedPages k - AllocatedPages k') ∧
  Z.of_nat (length (free_list (pmm k')))
  = Z.of_nat (length (free_list (pmm k))) + (AllocatedPages k - AllocatedPages k').
Proof.
  intros Hsize Ho Hl Hrun.
  destruct (TrimRange offset len (size_ (vmo k))) as [len'|] eqn:Htrim.
  2:{ unfold DecommitRange in Hrun. rewrite Htrim in Hrun. done. }
  destruct (Z.eq_dec len' 0) as [->|Hne].
  { unfold DecommitRange in Hrun. rewrite Htrim in Hrun. cbn in Hrun.
    injection Hrun as <- <-. split; lia. }
  destruct (DecommitRange_run k offset len len' (Some v))
    as (_ & _ & k1 & Heq & Hfreed); [done..|].
  rewrite Heq in Hrun. cbn in Hrun. injection Hrun as <- <-.
  pose proof (freed_allocated _ _ _ (pages_between_NoDup _ _) Hfreed) as Hcount.
  destruct Hfreed as (_ & _ & _ & _ & _ & _ & Hfree).
  change (AllocatedPages (unmap_all_regions _ _ k)) with (AllocatedPages k) in Hcount.
  change (page_list_ (vmo (unmap_all_regions _ _ k))) with (page_list_ (vmo k))
    in Hcount, Hfree.
  change (pmm (unmap_all_regions _ _ k)) with (pmm k) in Hfree.
  set (n := length (present_pages _ _)) in *.
  split; [f_equal; lia|].
  rewrite Hfree, length_app, length_reverse. lia.
Qed.

End Sizes.

(** ** The static-data factory *)

Section StaticDataProofs.
Context `{HP : Platform} {HOk : PlatformOk} `{HI : KernelImage}.

Lemma IS_PAGE_ALIGNED_spec x : IS_PAGE_ALIGNED x = true ↔ x mod PAGE_SIZE = 0.
Proof.
  pose proof page_shift_range as Hs.
  unfold IS_PAGE_ALIGNED. rewrite Z.eqb_eq.
  replace (PAGE_SIZE - 1) with (Z.ones PAGE_SIZE_SHIFT)
    by (rewrite Z.ones_equiv, PAGE_SIZE_pow2; lia).
  rewrite Z.land_ones by lia. by rewrite PAGE_SIZE_pow2.
Qed.

Lemma fold_pages_app {St} (body : Z → St → outcome St) l1 l2 s :
  fold_pages body (l1 ++ l2) s = (s' ← fold_pages body l1 s; fold_pages body l2 s').
Proof.
  revert s. induction l1 as [|x l1 IH]; intros s; cbn; [done|].
  destruct (body x s); cbn; [apply IH|done..].
Qed.

(** The loop over the page counts is a fold over the counts. *)
Lemma for_count_fold {St} (body : Z → St → outcome St) n : ∀ fuel c s,
  0 <= c → c + Z.of_nat n < u64_modulus → (n < fuel)%nat →
  for_count fuel c (c + Z.of_nat n) body s = fold_pages body (seqZ c (Z.of_nat n)) s.
Proof.
  induction n as [|n IH]; intros fuel c s Hc Hfit Hfuel;
    (destruct fuel as [|fuel]; [lia|]); cbn [for_count].
  - destruct (Z.ltb_spec c (c + Z.of_nat 0)); [lia|done].
  - destruct (Z.ltb_spec c (c + Z.of_nat (S n))); [|lia].
    rewrite seqZ_cons by lia. cbn [fold_pages].
    destruct (body c s) as [s'| |]; cbn; [|done..].
    rewrite u64_small by (unfold u64_modulus in *; lia).
    replace (c + Z.of_nat (S n)) with (c + 1 + Z.of_nat n) by lia.
    replace (Z.pred (Z.of_nat (S n))) with (Z.of_nat n) by lia.
    rewrite IH by lia. done.
Qed.

Lemma for_count_seqZ {St} (body : Z → St → outcome St) n s :
  0 <= n → n < u64_modulus →
  for_count (Z.to_nat n + 1) 0 n body s = fold_pages body (seqZ 0 n) s.
Proof.
  intros Hn Hfit.
  pose proof (for_count_fold body (Z.to_nat n) (Z.to_nat n + 1) 0 s) as Hfold.
  rewrite Z.add_0_l, Z2Nat.id in Hfold by done. apply Hfold; lia.
Qed.

(** What the factory does to the allocator when it takes [page]. *)
Lemma rodata_page_step start_paddr count page k :
  0 <= count → count * PAGE_SIZE < size_ (vmo k) → size_ (vmo k) <= MAX_SIZE →
  rodata_page_at start_paddr (count * PAGE_SIZE) = Some page →
  rodata_usable (pmm k) page →
  ∃ a,
    rodata_page start_paddr count k
    = Ret (snd (AddPage page (count * PAGE_SIZE) (with_pmm a k))) ∧
    vm_page_state_of a page = VM_PAGE_STATE_WIRED ∧
    (∀ q, q ≠ page → vm_page_state_of a q = vm_page_state_of (pmm k) q) ∧
    (∀ q, q ≠ page → q ∈ free_list a ↔ q ∈ free_list (pmm k)) ∧
    (∀ q, q ∈ free_list a → q ∈ free_list (pmm k)) ∧
    (vm_page_state_of (pmm k) page = VM_PAGE_STATE_FREE → page ∉ free_list a).
Proof.
  intros Hc Hin Hmx Hpage Huse. pose proof max_size_range as Hmax.
  pose proof PAGE_SIZE_pos as Hp.
  unfold rodata_page. unfold rodata_page_at in Hpage. rewrite Hpage.
  rewrite (u64_small (count * PAGE_SIZE)) by (unfold u64_modulus in *; nia).
  destruct Huse as [Hw|[Hf Hfree]].
  - rewrite Hw, outcome_bind_Ret. exists (pmm k). rewrite with_pmm_same.
    split; [done|]. split; [done|]. split; [done|]. split; [done|]. split; [done|].
    intros Hf. congruence.
  - rewrite Hf. unfold pmm_alloc_range.
    change (Z.to_nat 1) with 1%nat. cbn [pmm_alloc_range_from].
    rewrite Hpage, decide_True by done. change (0 + 1 =? 1) with true. cbn iota.
    rewrite outcome_bind_Ret. eexists. split; [done|].
    unfold vm_page_state_of, set_page_state. cbn.
    split; [by rewrite lookup_insert_eq|].
    split; [intros q Hq; by rewrite lookup_insert_ne|].
    split.
    { intros q Hq. rewrite list_elem_of_filter. split; [by intros [_ ?]|done]. }
    split; [by intros q [_ ?]%list_elem_of_filter|].
    intros _ [Hne _]%list_elem_of_filter. done.
Qed.

(** The loop of the factory over the counts [j, j + m), from a state where
    the pages of the counts below [j] are installed. *)
Lemma rodata_fold start_paddr size m : ∀ j k,
  0 <= j → (j + Z.of_nat m) * PAGE_SIZE <= size → size <= MAX_SIZE →
  size_ (vmo k) = size →
  (∀ x, j * PAGE_SIZE <= x → page_list_ (vmo k) !! x = None) →
  (∀ i, j <= i < j + Z.of_nat m →
        ∃ page, rodata_page_at start_paddr (i * PAGE_SIZE) = Some page ∧
                rodata_usable (pmm k) page) →
  ∃ k',
    fold_pages (rodata_page start_paddr) (seqZ j (Z.of_nat m)) k = Ret k' ∧
    size_ (vmo k') = size ∧
    pmm_alloc_flags_ (vmo k') = pmm_alloc_flags_ (vmo k) ∧
    region_list_ (vmo k') = region_list_ (vmo k) ∧
    kmem k' = kmem k ∧ trace k' = trace k ∧
    (∀ x, page_list_ (vmo k') !! x
          = if decide (x mod PAGE_SIZE = 0 ∧
                       j * PAGE_SIZE <= x < (j + Z.of_nat m) * PAGE_SIZE)
            then rodata_page_at start_paddr x
            else page_list_ (vmo k) !! x) ∧
    (∀ i page, j <= i < j + Z.of_nat m →
               rodata_page_at start_paddr (i * PAGE_SIZE) = Some page →
               vm_page_state_of (pmm k') page = VM_PAGE_STATE_WIRED ∧
               (vm_page_state_of (pmm k) page = VM_PAGE_STATE_FREE →
                page ∉ free_list (pmm k'))) ∧
    (∀ q, vm_page_state_of (pmm k) q = VM_PAGE_STATE_WIRED →
          vm_page_state_of (pmm k') q = VM_PAGE_STATE_WIRED) ∧
    (∀ q, (∀ i, j <= i < j + Z.of_nat m →
                rodata_page_at start_paddr (i * PAGE_SIZE) ≠ Some q) →
          vm_page_state_of (pmm k') q = vm_page_state_of (pmm k) q ∧
          (q ∈ free_list (pmm k') ↔ q ∈ free_list (pmm k))) ∧
    (∀ q, q ∈ free_list (pmm k') → q ∈ free_list (pmm k)) ∧
    AllocatedPages k' = AllocatedPages k + Z.of_nat m.
Proof.
  pose proof PAGE_SIZE_pos as Hp. pose proof max_size_range as Hmax.
  induction m as [|m IH]; intros j k Hj Hfit Hmx Hsz Hfresh Hpages.
  { exists k. cbn. split; [done|]. split; [done|]. split; [done|]. split; [done|].
    split; [done|]. split; [done|].
    split. { intros x. rewrite decide_False; [done|]. lia. }
    split; [intros; lia|]. split; [done|]. split; [done|]. split; [done|]. lia. }
  rewrite seqZ_cons by lia. cbn [fold_pages].
  replace (Z.pred (Z.of_nat (S m))) with (Z.of_nat m) by lia.
  destruct (Hpages j) as (page & Hpage & Huse); [lia|].
  destruct (rodata_page_step start_paddr j page k)
    as (a & Hstep & Hst & Hother & Hmem & Hsub & Hgone); [lia|nia|lia|done..|].
  rewrite Hstep, outcome_bind_Ret.
  set (k1 := snd (AddPage page (j * PAGE_SIZE) (with_pmm a k))).
  assert (j * PAGE_SIZE mod PAGE_SIZE = 0) as Hja by (apply Z.mod_mul; lia).
  assert (k1 = with_page_list (<[j * PAGE_SIZE := page]> (page_list_ (vmo k))) (with_pmm a k))
    as Hk1.
  { unfold k1, AddPage. cbn [size_ vmo with_pmm].
    destruct (Z.leb_spec (size_ (vmo k)) (j * PAGE_SIZE)); [nia|].
    cbn [page_list_ vmo with_pmm]. rewrite AddPage_aligned by done.
    by rewrite Hfresh by lia. }
  clearbody k1. subst k1.
  destruct (IH (Z.succ j) (with_page_list (<[j * PAGE_SIZE := page]> (page_list_ (vmo k)))
                                          (with_pmm a k)))
    as (k' & Hrun & Hsz' & Hfl' & Hrg' & Hkm' & Htr' & Hpl' & Hwired' & Hkeep' & Hout' & Hsub'
        & Hcount');
    [lia|lia|done|done| | |].
  { intros x Hx. cbn. rewrite lookup_insert_ne by lia. apply Hfresh. lia. }
  { intros i Hi. destruct (Hpages i) as (q & Hq & Huq); [lia|].
    exists q. split; [done|]. cbn.
    destruct (decide (q = page)) as [->|Hne]; [by left|].
    destruct Huq as [Hw|[Hf Hfree]].
    - left. by rewrite Hother.
    - right. split; [by rewrite Hother|]. by apply Hmem. }
  cbn [pmm with_page_list with_pmm vmo page_list_ kmem trace pmm_alloc_flags_ region_list_]
    in Hpl', Hwired', Hkeep', Hout', Hsub', Hfl', Hrg', Hkm', Htr'.
  exists k'. split; [done|]. split; [done|]. split; [done|]. split; [done|].
  split; [done|]. split; [done|].
  split.
  { intros x. rewrite Hpl'.
    destruct (decide (x = j * PAGE_SIZE)) as [->|Hne].
    - rewrite decide_False by lia. rewrite decide_True by (split; [done|lia]).
      by rewrite lookup_insert_eq.
    - rewrite lookup_insert_ne by done.
      destruct (decide (x mod PAGE_SIZE = 0 ∧
                        Z.succ j * PAGE_SIZE <= x < (Z.succ j + Z.of_nat m) * PAGE_SIZE))
        as [[Hxa Hxr]|Hn].
      + rewrite decide_True; [done|]. split; [done|lia].
      + rewrite decide_False; [done|]. intros [Hxa Hxr]. apply Hn. split; [done|].
        split; [|lia].
        destruct (Z.le_gt_cases (Z.succ j * PAGE_SIZE) x) as [|Hlt]; [done|].
        pose proof (aligned_gap _ Hp _ _ Hja Hxa). lia. }
  split.
  { intros i q Hi Hq.
    destruct (decide (i = j)) as [->|Hne].
    - assert (q = page) as -> by congruence.
      split; [by apply Hkeep'|].
      intros Hf Hin. apply Hsub' in Hin. by apply Hgone.
    - destruct (Hwired' i q) as [Hw Hg]; [lia|done|]. split; [done|].
      intros Hf. destruct (decide (q = page)) as [->|Hqp].
      + intros Hin. apply Hsub' in Hin. by apply Hgone.
      + apply Hg. by rewrite Hother. }
  split.
  { intros q Hw. apply Hkeep'.
    destruct (decide (q = page)) as [->|Hne]; [done|]. by rewrite Hother. }
  split.
  { intros q Hq.
    assert (q ≠ page) as Hne.
    { intros ->. by apply (Hq j); [lia|]. }
    destruct (Hout' q) as [Hs Hm].
    { intros i Hi. apply Hq. lia. }
    rewrite Hs, Hm, Hother by done. split; [done|]. by apply Hmem. }
  split; [intros q Hin; by apply Hsub, Hsub'|].
  rewrite Hcount'. unfold AllocatedPages. cbn.
  rewrite map_size_insert_None by (apply Hfresh; lia). lia.
Qed.


(** The body of the loop stops the kernel at a page it cannot take. *)
Lemma rodata_page_unusable start_paddr count k :
  0 <= count → count * PAGE_SIZE < size_ (vmo k) → size_ (vmo k) <= MAX_SIZE →
  (∀ page, rodata_page_at start_paddr (count * PAGE_SIZE) = Some page →
           ¬ rodata_usable (pmm k) page) →
  rodata_page start_paddr count k = Panic.
Proof.
  intros Hc Hin Hmx Hbad. unfold rodata_page. unfold rodata_page_at in Hbad.
  destruct (paddr_to_vm_page _) as [page|] eqn:Hpage; [|done].
  specialize (Hbad page eq_refl). unfold rodata_usable in Hbad.
  destruct (vm_page_state_of (pmm k) page) eqn:Hst; [|by destruct Hbad; left|done].
  unfold pmm_alloc_range. change (Z.to_nat 1) with 1%nat. cbn [pmm_alloc_range_from].
  rewrite Hpage. rewrite decide_False; [done|].
  intros Hfree. apply Hbad. by right.
Qed.

(** X14. Where CreateFromROData gives up.  A size above MAX_SIZE gives no
    object, and neither does a heap without memory for the object: the
    factory then returns at once and asserts nothing about the data.  With
    memory for the object, a size of zero gives an empty object and checks
    nothing about the data; for any other size the kernel stops when the
    size or the data is not page aligned, when the data translate to
    physical address zero, and at the first page behind the data that no
    arena holds or that is neither wired nor free in the allocator's free
    list, as a page in state OBJECT is. *)
Theorem CreateFromROData_gives_up (data size : Z) (ac_check : bool) (k : kernel) :
  0 <= size →
  (MAX_SIZE < size ∨ ac_check = false →
   CreateFromROData data size ac_check k = Ret None) ∧
  (size = 0 →
   CreateFromROData data size true k
   = Ret (Some (mk_kernel (mk_vmo 0 PMM_ALLOC_FLAG_ANY ∅ []) (pmm k) (kmem k) (trace k)))) ∧
  (0 < size <= MAX_SIZE →
   size mod PAGE_SIZE ≠ 0 ∨ data mod PAGE_SIZE ≠ 0 ∨ vaddr_to_paddr data = 0 →
   CreateFromROData data size true k = Panic) ∧
  (0 < size <= MAX_SIZE → size mod PAGE_SIZE = 0 → data mod PAGE_SIZE = 0 →
   vaddr_to_paddr data ≠ 0 →
   ∀ j, 0 <= j → j * PAGE_SIZE < size →
     (∀ i, 0 <= i < j →
           ∃ page, rodata_page_at (vaddr_to_paddr data) (i * PAGE_SIZE) = Some page ∧
                   rodata_usable (pmm k) page) →
     (∀ page, rodata_page_at (vaddr_to_paddr data) (j * PAGE_SIZE) = Some page →
              ¬ rodata_usable (pmm k) page) →
     CreateFromROData data size true k = Panic).
Proof.
  intros Hsize0. pose proof PAGE_SIZE_pos as Hp. pose proof max_size_range as Hmax.
  split; [|split; [|split]].
  - intros Hno. unfold CreateFromROData, Create.
    destruct (Z.ltb_spec MAX_SIZE size) as [|Hle]; [done|].
    destruct Hno as [Hbig| ->]; [lia|done].
  - intros ->. unfold CreateFromROData, Create.
    destruct (Z.ltb_spec MAX_SIZE 0) as [|_]; [lia|]. cbn [negb].
    unfold Resize. cbn [size_ vmo VmObjectPaged_new].
    destruct (Z.ltb_spec MAX_SIZE 0) as [|_]; [lia|]. done.
  - intros Hsize Hbad. unfold CreateFromROData, Create.
    destruct (Z.ltb_spec MAX_SIZE size) as [|_]; [lia|]. cbn [negb].
    unfold Resize. cbn [size_ vmo VmObjectPaged_new].
    destruct (Z.ltb_spec MAX_SIZE size) as [|_]; [lia|].
    destruct (Z.ltb_spec size 0) as [|_]; [lia|].
    rewrite !outcome_bind_Ret.
    destruct (Z.ltb_spec 0 size) as [_|]; [|lia].
    destruct (IS_PAGE_ALIGNED size) eqn:Hsa; [|done].
    destruct (IS_PAGE_ALIGNED data) eqn:Hda; [|done].
    apply IS_PAGE_ALIGNED_spec in Hsa, Hda. cbn [negb].
    destruct (Z.eqb_spec (vaddr_to_paddr data) 0) as [|Hne]; [done|].
    by destruct Hbad as [?|[?|?]].
  - intros Hsize Hsa Hda Hstart j Hj Hjin Hgood Hbad.
    unfold CreateFromROData, Create.
    destruct (Z.ltb_spec MAX_SIZE size) as [|_]; [lia|]. cbn [negb].
    unfold Resize. cbn [size_ vmo VmObjectPaged_new].
    destruct (Z.ltb_spec MAX_SIZE size) as [|_]; [lia|].
    destruct (Z.ltb_spec size 0) as [|_]; [lia|].
    rewrite !outcome_bind_Ret.
    destruct (Z.ltb_spec 0 size) as [_|]; [|lia].
    rewrite (proj2 (IS_PAGE_ALIGNED_spec size) Hsa), (proj2 (IS_PAGE_ALIGNED_spec data) Hda).
    cbn [negb].
    destruct (Z.eqb_spec (vaddr_to_paddr data) 0) as [|_]; [done|].
    set (n := size / PAGE_SIZE).
    assert (size = n * PAGE_SIZE) as Hn.
    { unfold n. pose proof (Z.div_mod size PAGE_SIZE). lia. }
    assert (j < n) as Hjn by nia.
    rewrite for_count_seqZ by (unfold u64_modulus in *; nia).
    set (k1 := with_size size _).
    replace n with (j + (n - j)) by lia.
    rewrite seqZ_app, fold_pages_app by lia.
    destruct (rodata_fold (vaddr_to_paddr data) size (Z.to_nat j) 0 k1)
      as (k' & Hrun & Hsz' & _ & _ & _ & _ & _ & _ & _ & Hout' & _);
      [lia|nia|lia|done|done| |].
    { intros i Hi. apply Hgood. lia. }
    rewrite Z2Nat.id in Hrun, Hout' by done.
    rewrite Hrun, outcome_bind_Ret.
    rewrite seqZ_cons by lia. cbn [fold_pages]. rewrite Z.add_0_l.
    rewrite rodata_page_unusable; [done|lia|lia|lia|].
    intros page Hpage Huse. apply (Hbad page Hpage).
    destruct (Hout' page) as [Hst Hfree].
    { intros i Hi Hi'. destruct (Hgood i) as (q & Hq & Huq); [lia|].
      assert (q = page) as -> by congruence. by apply (Hbad page). }
    unfold rodata_usable in *. by rewrite Hst, Hfree in Huse.
Qed.

End StaticDataProofs.

(** ** Lookup and the copy routines *)

Section LookupMore.
Context `{HP : Platform} {HOk : PlatformOk}.

(** Lookup over a non-empty range within the size: the check of the buffer
    size, then the walk over the pages. *)
Lemma Lookup_run k offset len buffer buffer_size u :
  size_ok k → 0 <= offset → 0 < len → offset + len <= size_ (vmo k) →
  let pages := range_pages offset len in
  Lookup offset len buffer buffer_size u k
  = if buffer_size <? u64 (Z.of_nat (length pages) * sizeof_paddr)
    then Ret (ERR_BUFFER_TOO_SMALL, u, k)
    else Ret (lookup_copy_out buffer 0 (page_list_ (vmo k)) pages u, k).
Proof.
  intros Hsize Ho Hl Hin pages.
  pose proof PAGE_SIZE_pos as Hp. pose proof max_size_range as Hmax.
  unfold size_ok in Hsize.
  destruct (round_down_spec offset) as [Hd1 Hd2].
  destruct (round_up_spec (offset + len)) as [Hu1 Hu2].
  pose proof (aligned_diff_div _ _ Hd1 Hu1) as Hdiv.
  assert (0 <= round_down_page offset) as Hs0.
  { unfold round_down_page. pose proof (Z.mod_le offset PAGE_SIZE). lia. }
  assert (round_up_page (offset + len) + PAGE_SIZE <= u64_modulus) as Hfit
    by (apply round_up_fits; lia).
  unfold Lookup, InRange.
  destruct (Z.eqb_spec len 0) as [|_]; [lia|].
  destruct (Z.leb_spec (offset + len) (size_ (vmo k))) as [_|]; [|lia]. cbn [negb].
  rewrite ROUNDDOWN_round_down.
  rewrite (u64_small (offset + len)) by (unfold u64_modulus in *; lia).
  change (ROUNDUP (offset + len) PAGE_SIZE) with (ROUNDUP_PAGE_SIZE (offset + len)).
  rewrite ROUNDUP_round_up by lia.
  rewrite (u64_small (round_up_page (offset + len) - round_down_page offset))
    by (unfold u64_modulus in *; lia).
  set (entries := Z.of_nat (length pages)).
  assert (entries = (round_up_page (offset + len) - round_down_page offset) / PAGE_SIZE)
    as Hentries.
  { unfold entries, pages, range_pages, pages_between. rewrite pages_from_length.
    rewrite Z2Nat.id; [done|]. apply Z.div_pos; lia. }
  rewrite <- Hentries.
  destruct (Z.ltb_spec buffer_size (u64 (entries * sizeof_paddr))) as [Hsmall|Hbig]; [done|].
  set (n := Z.to_nat entries).
  assert (0 <= entries) as Hen by (unfold entries; lia).
  assert (round_up_page (offset + len) = round_down_page offset + Z.of_nat n * PAGE_SIZE)
    as Hend by (unfold n; rewrite Z2Nat.id by done; lia).
  assert (n < pages_fuel (round_down_page offset) (round_up_page (offset + len)))%nat
    as Hfuel by (unfold pages_fuel; rewrite <- Hentries; lia).
  assert (pages = pages_from (round_down_page offset) n) as Hpages.
  { unfold pages, range_pages, pages_between, n. by rewrite Hentries. }
  assert (lookup_loop
            (pages_fuel (round_down_page offset) (round_up_page (offset + len)))
            (round_down_page offset) (round_up_page (offset + len)) 0 buffer u k
          = Ret (lookup_copy_out buffer 0 (page_list_ (vmo k)) pages u)) as ->.
  { rewrite Hpages. revert Hfuel. rewrite Hend. intros Hfuel.
    apply lookup_loop_pages; try done; try lia.
    - rewrite <- Hend. apply round_up_mono. lia.
    - assert (entries * PAGE_SIZE < u64_modulus) by lia. nia. }
  rewrite outcome_bind_Ret. by destruct (lookup_copy_out _ _ _ _ _).
Qed.

(** With every page present and copies that go through, the walk ends with
    NO_ERROR. *)
Lemma lookup_copy_out_present buffer (pl : gmap Z Z) pages : ∀ index u,
  (∀ x, x ∈ pages → is_Some (pl !! x)) →
  (∀ i v u0, index <= i < index + Z.of_nat (length pages) →
     fst (copy_to_user (buffer + i * sizeof_paddr) v u0) = NO_ERROR) →
  fst (lookup_copy_out buffer index pl pages u) = NO_ERROR.
Proof.
  induction pages as [|x pages IH]; intros index u Hall Hcopy; [done|].
  cbn [lookup_copy_out length] in *.
  destruct (Hall x) as [p Hp]; [by left|]. rewrite Hp.
  pose proof (Hcopy index (vm_page_to_paddr p) u) as Hc.
  destruct (copy_to_user _ _ _) as [st u1]. cbn in Hc. rewrite Hc by lia. cbn.
  apply IH.
  - intros y Hy. apply Hall. by right.
  - intros i v u0 Hi. apply Hcopy. lia.
Qed.

(** X15. Lookup: the order of the checks, and success.  A zero length is
    rejected with ERR_INVALID_ARGS whatever the range; a non-empty range
    that does not lie within the size with ERR_OUT_OF_RANGE whatever the
    buffer; a buffer smaller than one entry per page of the range with
    ERR_BUFFER_TOO_SMALL whatever pages are present; none of them writes
    to the user buffer.  Otherwise, with copies to the user buffer that go
    through, Lookup returns NO_ERROR exactly when every page of the range
    is present, and the user buffer is then what the walk over the pages
    leaves.  Lookup never changes the kernel state. *)
Theorem Lookup_checks_then_walks
    (k : kernel) (offset len buffer buffer_size : Z) (u : user_mem) :
  size_ok k → 0 <= offset → 0 <= len →
  let pages := range_pages offset len in
  let table_size := u64 (Z.of_nat (length pages) * sizeof_paddr) in
  (len = 0 → Lookup offset len buffer buffer_size u k = Ret (ERR_INVALID_ARGS, u, k)) ∧
  (0 < len → size_ (vmo k) < offset + len →
   Lookup offset len buffer buffer_size u k = Ret (ERR_OUT_OF_RANGE, u, k)) ∧
  (0 < len → offset + len <= size_ (vmo k) → buffer_size < table_size →
   Lookup offset len buffer buffer_size u k = Ret (ERR_BUFFER_TOO_SMALL, u, k)) ∧
  (0 < len → offset + len <= size_ (vmo k) → table_size <= buffer_size →
   (∀ i v u0, 0 <= i < Z.of_nat (length pages) →
      fst (copy_to_user (buffer + i * sizeof_paddr) v u0) = NO_ERROR) →
   ∃ st u',
     Lookup offset len buffer buffer_size u k = Ret (st, u', k) ∧
     (st, u') = lookup_copy_out buffer 0 (page_list_ (vmo k)) pages u ∧
     (st = NO_ERROR ↔ ∀ x, x ∈ pages → is_Some (page_list_ (vmo k) !! x)) ∧
     (st = NO_ERROR ∨ st = ERR_NO_MEMORY)).
Proof.
  intros Hsize Ho Hl pages table_size.
  split; [|split; [|split]].
  - intros ->. done.
  - intros Hpos Hout. unfold Lookup, InRange.
    destruct (Z.eqb_spec len 0) as [|_]; [lia|].
    destruct (Z.leb_spec (offset + len) (size_ (vmo k))); [lia|done].
  - intros Hpos Hin Hsmall. rewrite Lookup_run by done. fold pages table_size.
    destruct (Z.ltb_spec buffer_size table_size); [done|lia].
  - intros Hpos Hin Hbig Hcopy. rewrite Lookup_run by done. fold pages table_size.
    destruct (Z.ltb_spec buffer_size table_size) as [|_]; [lia|].
    destruct (lookup_copy_out buffer 0 (page_list_ (vmo k)) pages u) as [st u'] eqn:Hwalk.
    exists st, u'. split; [done|]. split; [done|].
    destruct (decide (Forall (λ x, is_Some (page_list_ (vmo k) !! x)) pages)) as [Hall|Hsome].
    + rewrite Forall_forall in Hall.
      pose proof (lookup_copy_out_present buffer (page_list_ (vmo k)) pages 0 u Hall) as Hok.
      rewrite Hwalk in Hok. cbn in Hok. rewrite Hok by (intros; apply Hcopy; lia).
      split; [done|by left].
    + apply not_Forall_Exists in Hsome; [|apply _].
      apply Exists_exists in Hsome as (y & Hy & Hnone).
      destruct (lookup_copy_out_absent buffer (page_list_ (vmo k)) pages 0 u) as [Hne Hmem].
      { exists y. split; [done|]. by apply eq_None_not_Some. }
      rewrite Hwalk in Hne, Hmem. cbn in Hne, Hmem.
      rewrite Hmem by (intros; apply Hcopy; lia).
      split; [|by right]. split; [done|].
      intros Hall. destruct Hnone. by apply Hall.
Qed.

End LookupMore.

Section CopyFailure.
Context `{HP : Platform} {HOk : PlatformOk}.
Context {B : Type} (copyfunc : copy_routine B) (write : bool).

(** X16. A copy routine that fails.  In ReadWriteInternal, the body of Read,
    Write, ReadUser and WriteUser: if the first [c] bytes of the range
    transfer, up to the start of a page, and the copy routine then fails on
    the chunk at [offset + c] with status [err], the whole operation returns
    [err], the counter holds exactly [c], and the buffer and the memory are
    as the failed call of the routine left them.  The page that was faulted
    in for the failed chunk stays in the object. *)
Theorem ReadWriteInternal_copy_failure
    (offset len len' c p : Z) (bytes_copied bc1 : option Z) (b b1 b2 : B)
    (k k1 k2 : kernel) (err : status) (m : gmap Z Z) :
  size_ok k → 0 <= offset → 0 <= len →
  TrimRange offset len (size_ (vmo k)) = Some len' → 0 <= c < len' →
  (c = 0 ∨ (offset + c) mod PAGE_SIZE = 0) →
  ReadWriteInternal offset c bytes_copied write copyfunc b k = Ret (NO_ERROR, bc1, b1, k1) →
  FaultPageLocked (offset + c) (pf_flags_of write) k1 = (Some p, k2) →
  copyfunc (paddr_to_kvaddr (vm_page_to_paddr p) + (offset + c) mod PAGE_SIZE) c
           (MIN (PAGE_SIZE - (offset + c) mod PAGE_SIZE) (len' - c)) (kmem k2, b1)
  = (err, (m, b2)) →
  status_lt0 err = true →
  ReadWriteInternal offset len bytes_copied write copyfunc b k
  = Ret (err, bc1, b2, with_kmem m k2) ∧
  bc1 = (λ _, c) <$> bytes_copied ∧
  page_list_ (vmo (with_kmem m k2)) !! round_down_page (offset + c) = Some p.
Proof.
  intros Hsize Ho Hl Htrim Hc Hal Hpre Hfault Hcopy Herr.
  pose proof max_size_range as Hmax. pose proof PAGE_SIZE_pos as Hp.
  destruct (TrimRange_Some _ _ _ _ Ho Hl Htrim) as [Hl' Hin].
  unfold size_ok in Hsize.
  assert (offset + len' < u64_modulus) as Hfit by lia.
  unfold ReadWriteInternal in Hpre.
  rewrite TrimRange_in_range in Hpre by lia.
  unfold ReadWriteInternal. rewrite Htrim.
  destruct (Z.eqb_spec len' 0) as [|_]; [lia|].
  assert (∃ fuel,
    rw_loop fuel offset c 0 (counter_zero bytes_copied) write copyfunc b k
    = Ret (NO_ERROR, bc1, b1, k1)) as [fuel Hloop].
  { destruct (Z.eqb_spec c 0) as [->|_]; [|by eauto].
    exists 1%nat. rewrite rw_loop_done by lia. done. }
  assert (bc1 = (λ _, c) <$> bytes_copied) as Hbc.
  { destruct (Z.eq_dec c 0) as [->|Hnz].
    - destruct fuel as [|fuel]; [done|]. rewrite rw_loop_done in Hloop by lia.
      injection Hloop as <- <- <-. by destruct bytes_copied.
    - apply rw_loop_ok in Hloop as (_ & _ & ->); try lia.
      + by destruct bytes_copied; cbn; f_equal.
      + intros v Hv. destruct bytes_copied; [|done]. injection Hv as <-.
        unfold u64_modulus in *. lia. }
  destruct (FaultPageLocked_keeps _ _ _ _ _ Hfault) as (_ & _ & _ & _ & Hnew & _).
  split; [|split; [done|by apply Hnew]].
  assert (rw_loop (fuel + 1) offset (c + (len' - c)) 0 (counter_zero bytes_copied)
                  write copyfunc b k
          = Ret (err, bc1, b2, with_kmem m k2)) as Hfull.
  { eapply (rw_loop_prefix copyfunc write fuel offset c (len' - c) 0 _ b k bc1 b1 k1 1%nat);
      [lia..|exact Hal|exact Hloop| |done].
    rewrite rw_loop_step by lia. cbn zeta. rewrite Z.add_0_l, Hfault, Hcopy, Herr. done. }
  replace (c + (len' - c)) with len' in Hfull by lia.
  eapply rw_loop_fuel_agree; [exact Hfull|done|].
  destruct (rw_fuel_enough offset len') as [Hf1 Hf2]; [lia|].
  apply rw_loop_terminates; lia.
Qed.

End CopyFailure.

(** * Exception ports and resuming tasks *)

Section OptionBits.

Lemma testbit_pow2 i k : 0 <= i → Z.testbit (2 ^ i) k = (i =? k).
Proof. intros Hi. by apply Z.pow2_bits_eqb. Qed.

Lemma add_lor_pow2 i j : 0 <= i → 0 <= j → i ≠ j → 2 ^ i + 2 ^ j = Z.lor (2 ^ i) (2 ^ j).
Proof.
  intros Hi Hj Hne.
  assert (Z.land (2 ^ i) (2 ^ j) = 0) as Hdisj.
  { apply Z.bits_inj'. intros k Hk.
    rewrite Z.land_spec, !testbit_pow2, Z.bits_0 by done.
    destruct (Z.eqb_spec i k), (Z.eqb_spec j k); (done || lia). }
  rewrite Z.add_nocarry_lxor by done. by apply Z.lxor_lor.
Qed.

Lemma land_pow2 x i : 0 <= i → Z.land x (2 ^ i) = if Z.testbit x i then 2 ^ i else 0.
Proof.
  intros Hi. apply Z.bits_inj'. intros k Hk.
  rewrite Z.land_spec, testbit_pow2 by done.
  destruct (Z.eqb_spec i k) as [->|Hne].
  - destruct (Z.testbit x k); [by rewrite testbit_pow2, Z.eqb_refl|by rewrite Z.bits_0].
  - rewrite andb_false_r.
    destruct (Z.testbit x i); [|by rewrite Z.bits_0].
    rewrite testbit_pow2 by done. by destruct (Z.eqb_spec i k).
Qed.

Lemma has_bits_pow2 x i : 0 <= i → Exceptions.has_bits x (2 ^ i) = Z.testbit x i.
Proof.
  intros Hi. unfold Exceptions.has_bits. rewrite land_pow2 by done.
  destruct (Z.testbit x i); [|done].
  destruct (Z.eqb_spec (2 ^ i) 0) as [Hz|]; [|done].
  pose proof (Z.pow_pos_nonneg 2 i). lia.
Qed.

(** An option word passes the check against a mask exactly when it has no
    bit outside the mask. *)
Lemma has_bits_lnot x m : Exceptions.has_bits x (Z.lnot m) = false ↔ Z.land x m = x.
Proof.
  unfold Exceptions.has_bits. rewrite negb_false_iff, Z.eqb_eq. split; intros Hx.
  - apply Z.bits_inj'. intros k Hk.
    apply (f_equal (λ z, Z.testbit z k)) in Hx.
    rewrite Z.land_spec, Z.lnot_spec, Z.bits_0 in Hx by done.
    rewrite Z.land_spec. destruct (Z.testbit x k), (Z.testbit m k); done.
  - rewrite <- Hx, <- Z.land_assoc, Z.land_lnot_diag. apply Z.land_0_r.
Qed.

Lemma options_one_flag x i :
  0 <= i →
  Exceptions.has_bits x (Z.lnot (2 ^ i)) = false ↔ x = 0 ∨ x = 2 ^ i.
Proof.
  intros Hi. rewrite has_bits_lnot, land_pow2 by done.
  destruct (Z.testbit x i) eqn:Hb; split; intros Hx; try (by auto).
  - destruct Hx as [->|Hx]; [by rewrite Z.bits_0 in Hb|done].
  - destruct Hx as [Hx| ->]; [done|]. by rewrite testbit_pow2, Z.eqb_refl in Hb.
Qed.

Lemma options_two_flags x i j :
  0 <= i → 0 <= j → i ≠ j →
  Exceptions.has_bits x (Z.lnot (Z.lor (2 ^ i) (2 ^ j))) = false ↔
  (x = 0 ∧ Z.testbit x i = false ∧ Z.testbit x j = false) ∨
  (x = 2 ^ i ∧ Z.testbit x i = true ∧ Z.testbit x j = false) ∨
  (x = 2 ^ j ∧ Z.testbit x i = false ∧ Z.testbit x j = true) ∨
  (x = Z.lor (2 ^ i) (2 ^ j) ∧ Z.testbit x i = true ∧ Z.testbit x j = true).
Proof.
  intros Hi Hj Hne. rewrite has_bits_lnot, Z.land_lor_distr_r, !land_pow2 by done.
  split.
  - intros Hx. destruct (Z.testbit x i), (Z.testbit x j); cbn in Hx; auto 10.
    rewrite Z.lor_0_r in Hx. auto 10.
  - intros [(-> & _)|[(Hx & Hbi & Hbj)|[(Hx & Hbi & Hbj)|(Hx & Hbi & Hbj)]]].
    + by rewrite !Z.bits_0.
    + rewrite Hbi, Hbj, Z.lor_0_r. done.
    + rewrite Hbi, Hbj. done.
    + rewrite Hbi, Hbj. done.
Qed.

Lemma flag_words_bits x i j :
  0 <= i → 0 <= j → i ≠ j →
  x ∈ [0; 2 ^ i; 2 ^ j; Z.lor (2 ^ i) (2 ^ j)] →
  Z.testbit x i = bool_decide (x = 2 ^ i ∨ x = Z.lor (2 ^ i) (2 ^ j)) ∧
  Z.testbit x j = bool_decide (x = 2 ^ j ∨ x = Z.lor (2 ^ i) (2 ^ j)).
Proof.
  intros Hi Hj Hne Hin.
  assert (0 < 2 ^ i ∧ 0 < 2 ^ j) as [Hip Hjp].
  { pose proof (Z.pow_pos_nonneg 2 i). pose proof (Z.pow_pos_nonneg 2 j). lia. }
  assert (2 ^ i ≠ 2 ^ j) as Hpne.
  { intros Heq. apply Hne. by apply (Z.pow_inj_r 2); [lia..|]. }
  assert (Z.lor (2 ^ i) (2 ^ j) = 2 ^ i + 2 ^ j) as Hlor
    by (symmetry; by apply add_lor_pow2).
  assert ((i =? j) = false ∧ (j =? i) = false) as [Hij Hji] by (split; apply Z.eqb_neq; lia).
  rewrite !elem_of_cons in Hin.
  destruct Hin as [->|[->|[->|[->|Hin]]]]; [| | | |by apply elem_of_nil in Hin];
    rewrite ?Z.lor_spec, ?testbit_pow2, ?Z.bits_0, ?Z.eqb_refl, ?Hij, ?Hji by done;
    cbn [orb]; split; symmetry;
    (apply bool_decide_eq_true_2 || apply bool_decide_eq_false_2); try (by auto); lia.
Qed.

Lemma options_two_flag_words x i j :
  0 <= i → 0 <= j → i ≠ j →
  Exceptions.has_bits x (Z.lnot (Z.lor (2 ^ i) (2 ^ j))) = false ↔
  x ∈ [0; 2 ^ i; 2 ^ j; Z.lor (2 ^ i) (2 ^ j)].
Proof.
  intros Hi Hj Hne. rewrite options_two_flags by done. rewrite !elem_of_cons. split.
  - intros [(-> & _)|[(-> & _)|[(-> & _)|(-> & _)]]]; auto 10.
  - intros Hin.
    assert (x ∈ [0; 2 ^ i; 2 ^ j; Z.lor (2 ^ i) (2 ^ j)]) as Hel by (by rewrite !elem_of_cons).
    destruct (flag_words_bits x i j Hi Hj Hne Hel) as [-> ->].
    assert (0 < 2 ^ i ∧ 0 < 2 ^ j) as [Hip Hjp].
    { pose proof (Z.pow_pos_nonneg 2 i). pose proof (Z.pow_pos_nonneg 2 j). lia. }
    assert (2 ^ i ≠ 2 ^ j) as Hpne.
    { intros Heq. apply Hne. by apply (Z.pow_inj_r 2); [lia..|]. }
    assert (Z.lor (2 ^ i) (2 ^ j) = 2 ^ i + 2 ^ j) as Hlor
      by (symmetry; by apply add_lor_pow2).
    destruct Hin as [->|[->|[->|[->|Hin]]]]; [| | | |by apply elem_of_nil in Hin].
    + left. split; [done|]. split; apply bool_decide_eq_false_2; lia.
    + right; left. split; [done|].
      split; [apply bool_decide_eq_true_2; by left|apply bool_decide_eq_false_2; lia].
    + right; right; left. split; [done|].
      split; [apply bool_decide_eq_false_2; lia|apply bool_decide_eq_true_2; by left].
    + right; right; right. split; [done|]. split; apply bool_decide_eq_true_2; by right.
Qed.

Lemma options_one_flag_words x i :
  0 <= i → Exceptions.has_bits x (Z.lnot (2 ^ i)) = false ↔ x ∈ [0; 2 ^ i].
Proof.
  intros Hi. rewrite options_one_flag by done. rewrite !elem_of_cons. split.
  - intros [->| ->]; auto.
  - intros [->|[->|Hin]]; [by left|by right|by apply elem_of_nil in Hin].
Qed.

End OptionBits.

Section SyscallProofs.
Import Exceptions.
Context `{HD : Dispatchers}.

(** X17. sys_task_resume.  With MX_RESUME_EXCEPTION and
    MX_RESUME_NOT_HANDLED two distinct bits, the call accepts exactly the
    four option words made of these two bits and rejects every other one
    with ERR_INVALID_ARGS before it looks at the handle.  For an accepted
    option word, a handle that the handle table does not resolve gives the
    status of the lookup and a handle to anything but a thread gives
    ERR_WRONG_TYPE.  For a thread, the option words without
    MX_RESUME_EXCEPTION give ERR_NOT_SUPPORTED, also MX_RESUME_NOT_HANDLED
    on its own; MX_RESUME_EXCEPTION marks the exception of the thread as
    handled, to resume, or as not handled when MX_RESUME_NOT_HANDLED is set
    as well, and returns the status of that.  Unless the exception is
    marked, the kernel state is not changed. *)
Theorem sys_task_resume_outcomes (handle options : Z) (w : kstate) :
  two_flags MX_RESUME_EXCEPTION MX_RESUME_NOT_HANDLED → 0 <= options →
  let E := MX_RESUME_EXCEPTION in
  let N := MX_RESUME_NOT_HANDLED in
  let r := sys_task_resume handle options w in
  (options ∉ [0; E; N; Z.lor E N] → r = (ERR_INVALID_ARGS, w)) ∧
  (options ∈ [0; E; N; Z.lor E N] →
   ∀ status dispatcher, GetDispatcher handle w = (status, dispatcher) →
     (status ≠ NO_ERROR → r = (status, w)) ∧
     (status = NO_ERROR →
      match dispatcher with
      | Some (ThreadDispatcher thread) =>
          (options = 0 ∨ options = N → r = (ERR_NOT_SUPPORTED, w)) ∧
          (options = E → r = MarkExceptionHandled thread MX_EXCEPTION_STATUS_RESUME w) ∧
          (options = Z.lor E N →
           r = MarkExceptionHandled thread MX_EXCEPTION_STATUS_NOT_HANDLED w)
      | _ => r = (ERR_WRONG_TYPE, w)
      end)).
Proof.
  intros (i & j & Hi & Hj & Hne & HE & HN) Ho E N r.
  unfold r, sys_task_resume. fold E N. clear r.
  assert (E = 2 ^ i) as -> by done. assert (N = 2 ^ j) as -> by done.
  pose proof (options_two_flag_words options i j) as Hvalid.
  destruct (has_bits options (Z.lnot (Z.lor (2 ^ i) (2 ^ j)))) eqn:Hbits.
  { split; [done|]. intros Hin. apply Hvalid in Hin; [done|lia..]. }
  destruct Hvalid as [Hin _]; [lia..|]. specialize (Hin eq_refl).
  split; [done|].
  intros _ status dispatcher Hget. rewrite Hget.
  split.
  { intros Hst. by rewrite bool_decide_eq_false_2. }
  intros ->. rewrite bool_decide_eq_true_2 by done. cbn [negb].
  destruct dispatcher as [[process|thread|object]|]; try done.
  rewrite !has_bits_pow2 by lia.
  destruct (flag_words_bits options i j) as [-> ->]; [lia..|done|].
  assert (0 < 2 ^ i ∧ 0 < 2 ^ j) as [Hip Hjp].
  { pose proof (Z.pow_pos_nonneg 2 i). pose proof (Z.pow_pos_nonneg 2 j). lia. }
  assert (2 ^ i ≠ 2 ^ j) as Hpne.
  { intros Heq. apply Hne. by apply (Z.pow_inj_r 2); [lia..|]. }
  assert (Z.lor (2 ^ i) (2 ^ j) = 2 ^ i + 2 ^ j) as Hlor
    by (symmetry; apply add_lor_pow2; lia).
  split; [|split].
  - intros Hopt. rewrite bool_decide_eq_false_2; [done|]. lia.
  - intros ->. rewrite bool_decide_eq_true_2 by (by left).
    rewrite bool_decide_eq_false_2; [done|]. lia.
  - intros ->. by rewrite !bool_decide_eq_true_2 by (by right).
Qed.

(** X18. sys_object_bind_exception_port.  With MX_EXCEPTION_PORT_DEBUGGER
    and MX_EXCEPTION_PORT_UNBIND_QUIETLY two distinct bits: without an
    exception port handle the call unbinds, accepts exactly the four option
    words made of the two bits and passes them on as the flags [debugger]
    and [quietly]; with an exception port handle it binds and accepts only
    the option words 0 and MX_EXCEPTION_PORT_DEBUGGER, so that
    MX_EXCEPTION_PORT_UNBIND_QUIETLY is rejected when binding.  A rejected
    option word gives ERR_INVALID_ARGS and leaves the kernel state alone.
    Unbinding the system exception port, named by the invalid object
    handle, goes through with the option word 0 only. *)
Theorem sys_object_bind_exception_port_options
    (obj_handle eport_handle key options : Z) (w : kstate) :
  two_flags MX_EXCEPTION_PORT_DEBUGGER MX_EXCEPTION_PORT_UNBIND_QUIETLY → 0 <= options →
  let D := MX_EXCEPTION_PORT_DEBUGGER in
  let Q := MX_EXCEPTION_PORT_UNBIND_QUIETLY in
  let r := sys_object_bind_exception_port obj_handle eport_handle key options w in
  (eport_handle = MX_HANDLE_INVALID →
   (options ∉ [0; D; Q; D + Q] → r = (ERR_INVALID_ARGS, w)) ∧
   (options ∈ [0; D; Q; D + Q] →
    r = object_unbind_exception_port obj_handle
          (bool_decide (options = D ∨ options = D + Q))
          (bool_decide (options = Q ∨ options = D + Q)) w) ∧
   (obj_handle = MX_HANDLE_INVALID →
    (options ≠ 0 → r = (ERR_INVALID_ARGS, w)) ∧
    (options = 0 → r = reset_status (ResetSystemExceptionPort w)))) ∧
  (eport_handle ≠ MX_HANDLE_INVALID →
   (options ∉ [0; D] → r = (ERR_INVALID_ARGS, w)) ∧
   (options ∈ [0; D] →
    r = object_bind_exception_port obj_handle eport_handle key
          (bool_decide (options = D)) w)).
Proof.
  intros (i & j & Hi & Hj & Hne & HD' & HQ) Ho D Q r.
  unfold r, sys_object_bind_exception_port. fold D Q. clear r.
  assert (D = 2 ^ i) as -> by done. assert (Q = 2 ^ j) as -> by done.
  assert (0 < 2 ^ i ∧ 0 < 2 ^ j) as [Hip Hjp].
  { pose proof (Z.pow_pos_nonneg 2 i). pose proof (Z.pow_pos_nonneg 2 j). lia. }
  split.
  - intros ->. rewrite Z.eqb_refl.
    rewrite add_lor_pow2 by lia.
    pose proof (options_two_flag_words options i j) as Hvalid.
    destruct (has_bits options (Z.lnot (Z.lor (2 ^ i) (2 ^ j)))) eqn:Hbits.
    { assert (options ∉ [0; 2 ^ i; 2 ^ j; Z.lor (2 ^ i) (2 ^ j)]) as Hnot.
      { intros Hin. apply Hvalid in Hin; [done|lia..]. }
      split; [done|]. split; [done|].
      intros _. split; [done|]. intros ->. destruct Hnot. by left. }
    destruct Hvalid as [Hin _]; [lia..|]. specialize (Hin eq_refl).
    rewrite !has_bits_pow2 by lia.
    destruct (flag_words_bits options i j) as [Hbi Hbj]; [lia..|done|].
    split; [done|].
    split; [intros _; by rewrite Hbi, Hbj|].
    intros ->. unfold object_unbind_exception_port. rewrite Z.eqb_refl.
    rewrite Hbi, Hbj.
    assert (Z.lor (2 ^ i) (2 ^ j) = 2 ^ i + 2 ^ j) as Hlor
      by (symmetry; apply add_lor_pow2; lia).
    split.
    + intros Hnz. rewrite !elem_of_cons in Hin.
      destruct Hin as [->|[->|[->|[->|Hin]]]]; [done| | | |by apply elem_of_nil in Hin].
      * by rewrite bool_decide_eq_true_2 by (by left).
      * rewrite (bool_decide_eq_true_2 (2 ^ j = 2 ^ j ∨ _)) by (by left).
        by rewrite orb_true_r.
      * by rewrite bool_decide_eq_true_2 by (by right).
    + intros ->. rewrite !bool_decide_eq_false_2; [done|lia..].
  - intros Hbind. destruct (Z.eqb_spec eport_handle MX_HANDLE_INVALID) as [|_]; [done|].
    pose proof (options_one_flag_words options i) as Hvalid.
    destruct (has_bits options (Z.lnot (2 ^ i))) eqn:Hbits.
    { split; [done|]. intros Hin. apply Hvalid in Hin; [done|lia]. }
    destruct Hvalid as [Hin _]; [lia|]. specialize (Hin eq_refl).
    split; [done|].
    intros _. rewrite has_bits_pow2 by lia.
    rewrite !elem_of_cons in Hin.
    destruct Hin as [->|[->|Hin]]; [| |by apply elem_of_nil in Hin].
    + rewrite Z.bits_0, bool_decide_eq_false_2 by lia. done.
    + rewrite testbit_pow2, Z.eqb_refl, bool_decide_eq_true_2 by (done || lia). done.
Qed.

End SyscallProofs.

(** ** The concrete platform, and the theorems at concrete inputs *)

Lemma pc_platform_ok : @PlatformOk pc_platform.
Proof.
  split.
  - vm_compute. by split.
  - vm_compute. by split.
  - change (@PAGE_SIZE pc_platform) with 4096.
    cbn [vm_page_to_paddr paddr_to_kvaddr pc_platform].
    intros p q i j Hi Hj Heq. lia.
Qed.

Lemma pc_platform_debug_ok : @PlatformOk pc_platform_debug.
Proof.
  split.
  - vm_compute. by split.
  - vm_compute. by split.
  - change (@PAGE_SIZE pc_platform_debug) with 4096.
    cbn [vm_page_to_paddr paddr_to_kvaddr pc_platform_debug pc_platform].
    intros p q i j Hi Hj Heq. lia.
Qed.

Lemma CommitRange_atomic_on_allocation_failure_witness :
  ∃ k', @CommitRange pc_platform 0 12288 (Some 5) (kernel_example 12288 [7] [100; 101])
        = Ret (ERR_NO_MEMORY, Some 0, k') ∧
        vmo k' = vmo (kernel_example 12288 [7] [100; 101]) ∧
        kmem k' = ∅ ∧
        trace k' = [EvPmmAllocPages 3 0 [100; 101]; EvPmmFree [100; 101]] ∧
        free_list (pmm k') = [100; 101].
Proof.
  destruct (@CommitRange_atomic_on_allocation_failure pc_platform pc_platform_ok
              (kernel_example 12288 [7] [100; 101]) 0 12288 12288 (Some 5))
    as (k' & Hrun & Hvmo & Hmem & Htrace & _ & Hfree).
  - unfold size_ok. simpl. lia.
  - lia.
  - lia.
  - reflexivity.
  - lia.
  - vm_compute. reflexivity.
  - exists k'. repeat split; assumption.
Defined.

Lemma CommitRange_twice_witness :
  ∃ k1, @CommitRange pc_platform 100 5000 (Some 5) (kernel_example 12288 [7] [100; 101; 102])
        = Ret (NO_ERROR, Some 8192, k1) ∧
        @CommitRange pc_platform 100 5000 (Some 9) k1 = Ret (NO_ERROR, Some 0, k1).
Proof.
  eexists. split.
  - vm_compute. reflexivity.
  - eapply (@CommitRange_twice pc_platform pc_platform_ok
              (kernel_example 12288 [7] [100; 101; 102]) _ 100 5000 (Some 5) (Some 8192) (Some 9)).
    + unfold size_ok. simpl. lia.
    + lia.
    + lia.
    + vm_compute. reflexivity.
Defined.

(** C6 as stated fails when the first call fails: with an allocator that has
    no page to give, both calls ask the allocator for the missing page and
    both return ERR_NO_MEMORY. *)
Lemma CommitRange_twice_counterexample :
  ∃ k1 k2,
    @CommitRange pc_platform 0 4096 (Some 0) (kernel_example 4096 [] [])
    = Ret (ERR_NO_MEMORY, Some 0, k1) ∧
    @CommitRange pc_platform 0 4096 (Some 0) k1 = Ret (ERR_NO_MEMORY, Some 0, k2) ∧
    trace k2 = trace k1 ++ [EvPmmAllocPages 1 0 []; EvPmmFree []].
Proof.
  eexists _, _. split; [vm_compute; reflexivity|].
  split; vm_compute; reflexivity.
Qed.

Lemma page_list_inv_decide `{HP : Platform} (k : kernel) :
  bool_decide
    (map_Forall (λ offset _, offset mod PAGE_SIZE = 0 ∧
                             0 <= offset < round_up_page (size_ (vmo k)))
                (page_list_ (vmo k))) = true →
  page_list_inv k.
Proof. intros Hd. apply bool_decide_eq_true_1 in Hd. exact Hd. Qed.

Lemma size_ok_three_pages : @size_ok pc_platform kernel_three_pages.
Proof. unfold size_ok. simpl. lia. Qed.

Lemma page_list_inv_three_pages : @page_list_inv pc_platform kernel_three_pages.
Proof. apply page_list_inv_decide. vm_compute. reflexivity. Qed.

Lemma pages_owned_once_first_page free :
  NoDup free → 100 ∉ free → pages_owned_once (kernel_first_page free).
Proof.
  intros Hnd Hfresh. split; [|split]; cbn.
  - intros o1 o2 p [-> _]%lookup_singleton_Some [-> _]%lookup_singleton_Some. done.
  - done.
  - intros o p [_ <-]%lookup_singleton_Some. done.
Qed.

Lemma Resize_spec_witness :
  ∃ k',
    @Resize pc_platform 5000 kernel_three_pages = Ret (NO_ERROR, k') ∧
    size_ (vmo k') = 5000 ∧
    trace k' = [EvUnmapVmoRange 7 8192 4096; EvUnmapVmoRange 8 8192 4096; EvPmmFree [102]] ∧
    (∀ x p, page_list_ (vmo k') !! x = Some p → x < 8192).
Proof.
  destruct (@Resize_spec pc_platform pc_platform_ok kernel_three_pages 5000)
    as (st & k' & Hrun & _ & _ & Hok & _ & Hshrink).
  - exact size_ok_three_pages.
  - exact page_list_inv_three_pages.
  - lia.
  - destruct Hok as [-> Hsz]; [simpl; lia|].
    destruct Hshrink as (Htrace & Hno & _); [simpl; lia|].
    exists k'. split; [exact Hrun|]. split; [exact Hsz|].
    split; [apply Htrace; vm_compute; reflexivity|].
    intros x p Hx. apply (Hno x p Hx).
Defined.

Lemma DecommitRange_frees_range_witness :
  ∃ k',
    @DecommitRange pc_platform 4000 200 (Some 9) kernel_three_pages
    = Ret (NO_ERROR, Some 8192, k') ∧
    trace k' = [EvUnmapVmoRange 7 0 8192; EvUnmapVmoRange 8 0 8192;
                EvPmmFree [100]; EvPmmFree [101]] ∧
    page_list_ (vmo k') !! 0 = None ∧
    free_list (pmm k') = [101; 100; 103].
Proof.
  destruct (@DecommitRange_frees_range pc_platform pc_platform_ok
              kernel_three_pages 4000 200 200 (Some 9))
    as (k' & Hrun & Htrace & _ & Hfirst & _ & _ & _ & Hfree).
  - exact size_ok_three_pages.
  - lia.
  - lia.
  - reflexivity.
  - lia.
  - exists k'. split; [exact Hrun|]. split; [exact Htrace|].
    split; [exact Hfirst|exact Hfree].
Defined.

Lemma Write_then_Read_round_trip_witness :
  ∃ k1,
    @Write pc_platform KERNEL_ASPACE_BASE [1; 2; 3; 4; 5; 6; 7; 8; 9; 10] 4090 10 (Some 77)
           (kernel_first_page [101; 103])
    = Ret (NO_ERROR, Some 10, [1; 2; 3; 4; 5; 6; 7; 8; 9; 10], k1) ∧
    @Read pc_platform KERNEL_ASPACE_BASE (replicate 10 0) 4090 10 (Some 88) k1
    = Ret (NO_ERROR, Some 10, [1; 2; 3; 4; 5; 6; 7; 8; 9; 10], k1).
Proof.
  apply (@Write_then_Read_round_trip pc_platform pc_platform_ok
           (kernel_first_page [101; 103]) KERNEL_ASPACE_BASE KERNEL_ASPACE_BASE 4090 10
           [1; 2; 3; 4; 5; 6; 7; 8; 9; 10] (replicate 10 0) (Some 77) (Some 88)).
  - unfold size_ok. simpl. lia.
  - apply pages_owned_once_first_page.
    + apply (bool_decide_unpack _). vm_compute. exact I.
    + apply (bool_decide_unpack _). vm_compute. exact I.
  - reflexivity.
  - reflexivity.
  - lia.
  - lia.
  - simpl. lia.
  - reflexivity.
  - reflexivity.
  - vm_compute. lia.
Defined.

Lemma public_operations_keep_page_list_inv_witness :
  match @run_call pc_platform
          (CallWrite KERNEL_ASPACE_BASE [1; 2; 3] 4095 3 None) (kernel_first_page [101])
  with
  | Ret k' => @size_ok pc_platform k' ∧ @page_list_inv pc_platform k'
  | Panic => (∃ offset len committed alignment_log2,
                @CallWrite pc_platform KERNEL_ASPACE_BASE [1; 2; 3] 4095 3 None
                = CallCommitRangeContiguous offset len committed alignment_log2) ∨
             (@DEBUG_ASSERT_IMPLEMENTED pc_platform = true ∧
              ∃ ptr b offset len bytes_copied,
                @is_kernel_address pc_platform ptr = false ∧
                (@CallWrite pc_platform KERNEL_ASPACE_BASE [1; 2; 3] 4095 3 None
                 = CallRead ptr b offset len bytes_copied ∨
                 @CallWrite pc_platform KERNEL_ASPACE_BASE [1; 2; 3] 4095 3 None
                 = CallWrite ptr b offset len bytes_copied))
  | Diverge => False
  end.
Proof.
  apply (@public_operations_keep_page_list_inv pc_platform pc_platform_ok).
  - simpl. unfold is_u64, u64_modulus. lia.
  - unfold size_ok. simpl. lia.
  - apply page_list_inv_decide. vm_compute. reflexivity.
Defined.

Lemma ReadWrite_partial_progress_witness :
  ∃ k',
    @Write pc_platform KERNEL_ASPACE_BASE [1; 2; 3; 4; 5; 6; 7; 8; 9; 10] 4090 10 (Some 77)
      (kernel_first_page [])
    = Ret (ERR_NO_MEMORY, Some 6, [1; 2; 3; 4; 5; 6; 7; 8; 9; 10], k') ∧
    @vmo_read pc_platform k' 4090 = 1 ∧
    @vmo_read pc_platform k' 4095 = 6 ∧
    @vmo_read pc_platform k' 4096 = 0 ∧
    page_list_ (vmo k') !! 4096 = None.
Proof.
  destruct (@ReadWrite_partial_progress pc_platform pc_platform_ok
              (kernel_first_page []) 4090 10 6 (Some 77)) as (_ & Hwrite & _).
  - unfold size_ok. simpl. lia.
  - apply pages_owned_once_first_page; [constructor|apply not_elem_of_nil].
  - lia.
  - lia.
  - simpl. lia.
  - apply (bool_decide_unpack _). vm_compute. exact I.
  - destruct (Hwrite KERNEL_ASPACE_BASE [1; 2; 3; 4; 5; 6; 7; 8; 9; 10])
      as (k' & Hrun & Hread & Habsent & _); [reflexivity|].
    exists k'. split; [exact Hrun|].
    split; [rewrite Hread; reflexivity|].
    split; [rewrite Hread; reflexivity|].
    split; [rewrite Hread; reflexivity|exact Habsent].
Defined.

Lemma Lookup_non_faulting_witness :
  ∃ u',
    @Lookup pc_platform 0 8192 4096 16 ∅ (kernel_first_page [101])
    = Ret (ERR_NO_MEMORY, u', kernel_first_page [101]) ∧
    @GetPageLocked pc_platform 4096 (kernel_first_page [101]) = None.
Proof.
  destruct (@Lookup_non_faulting pc_platform pc_platform_ok
              (kernel_first_page [101]) 0 8192 4096 16 4096 ∅)
    as (st & u' & Hrun & _ & Hst & Hget).
  - unfold size_ok. simpl. lia.
  - lia.
  - lia.
  - simpl. lia.
  - apply (bool_decide_unpack _). vm_compute. exact I.
  - reflexivity.
  - destruct Hst as [_ Hst]; [vm_compute; discriminate|].
    exists u'. split; [|exact Hget]. rewrite Hrun, Hst; [reflexivity|].
    + change (Z.of_nat (length (@range_pages pc_platform 0 8192))) with 2.
      intros i v u0 Hi. cbn [copy_to_user pc_platform sizeof_paddr].
      unfold user_range_ok.
      destruct (Z.leb_spec 0 (4096 + i * 8)); [|lia].
      destruct (Z.leb_spec (4096 + i * 8 + 8) 140737488355328); [reflexivity|lia].
Defined.

(** C8 as stated fails when the user buffer cannot hold the table: Lookup
    then returns ERR_BUFFER_TOO_SMALL, not ERR_NO_MEMORY, although the one
    page of the range is absent. *)
Lemma Lookup_non_faulting_counterexample :
  @GetPageLocked pc_platform 0 (kernel_example 4096 [] []) = None ∧
  @Lookup pc_platform 0 4096 4096 0 ∅ (kernel_example 4096 [] [])
  = Ret (ERR_BUFFER_TOO_SMALL, ∅, kernel_example 4096 [] []).
Proof. split; vm_compute; reflexivity. Qed.

Lemma CacheOp_skips_holes_witness :
  @CacheOp pc_platform 4000 5000 Clean
    (mk_kernel (mk_vmo 12288 0 {[4096 := 101]} []) (mk_pmm [] ∅) ∅ [])
  = Ret (NO_ERROR,
         mk_kernel (mk_vmo 12288 0 {[4096 := 101]} []) (mk_pmm [] ∅) ∅
                   [EvArchCache Clean (KERNEL_ASPACE_BASE + 101 * 4096) 4096]).
Proof.
  destruct (@CacheOp_skips_holes pc_platform pc_platform_ok
              (mk_kernel (mk_vmo 12288 0 {[4096 := 101]} []) (mk_pmm [] ∅) ∅ [])
              4000 5000 Clean) as (_ & _ & Hin).
  - unfold size_ok. simpl. lia.
  - lia.
  - lia.
  - rewrite Hin; [|lia|simpl; lia]. vm_compute. reflexivity.
Defined.

Lemma wrong_pointer_rejected_witness :
  @Read pc_platform 5 [0; 0] 0 2 (Some 77) (kernel_first_page [])
  = Ret (ERR_INVALID_ARGS, Some 77, [0; 0], kernel_first_page []) ∧
  @WriteUser pc_platform KERNEL_ASPACE_BASE ∅ 0 2 (Some 77) (kernel_first_page [])
  = Ret (ERR_INVALID_ARGS, Some 77, ∅, kernel_first_page []) ∧
  @counts_chunks pc_platform 9000 2 (Some 77) (Some 0).
Proof.
  destruct (@wrong_pointer_rejected pc_platform pc_platform_ok 5 KERNEL_ASPACE_BASE 9000 2
              (Some 77) [0; 0] [0; 0] ∅ (kernel_first_page []))
    as (_ & _ & _ & _ & _ & _ & Hzero).
  - reflexivity.
  - reflexivity.
  - destruct (@wrong_pointer_rejected pc_platform pc_platform_ok 5 KERNEL_ASPACE_BASE 0 2
                (Some 77) [0; 0] [0; 0] ∅ (kernel_first_page []))
      as (_ & Hwrite & Hread & _).
    + reflexivity.
    + reflexivity.
    + split; [exact Hread|]. split; [exact Hwrite|].
      destruct (Hzero ltac:(unfold size_ok; simpl; lia) ltac:(lia) ltac:(lia)
                  KERNEL_ASPACE_BASE ERR_OUT_OF_RANGE (Some 0) ltac:(discriminate))
        as [Hkernel _].
      destruct (Hkernel eq_refl) as [Hr _].
      apply (Hr [0; 0] (kernel_first_page [])). vm_compute. reflexivity.
Defined.

(** C10 as stated fails in a build that implements debug assertions: Read and
    Write with a pointer that is not a kernel address do not return
    ERR_INVALID_ARGS there, the kernel stops at the DEBUG_ASSERT_MSG that
    precedes the return. *)
Lemma wrong_pointer_rejected_counterexample :
  @is_kernel_address pc_platform_debug 5 = false ∧
  @Read pc_platform_debug 5 [0; 0] 0 2 (Some 77) (kernel_first_page []) = Panic ∧
  @Write pc_platform_debug 5 [0; 0] 0 2 (Some 77) (kernel_first_page []) = Panic ∧
  @Read pc_platform_debug 5 [0; 0] 0 2 (Some 77) (kernel_first_page [])
  ≠ Ret (ERR_INVALID_ARGS, Some 77, [0; 0], kernel_first_page []).
Proof.
  split; [reflexivity|]. split; [reflexivity|]. split; [reflexivity|].
  intros Hret. vm_compute in Hret. discriminate Hret.
Qed.

(** ** The scenarios of the specification, with 4 KiB pages *)

(** a. An empty object: no page, and an empty Write goes through. *)
Example scenario_empty_object :
  (k ← @Create pc_platform 0 0 true (kernel_example 0 [] [100]);
   match k with
   | Some k => Ret (observe (@Write pc_platform KERNEL_ASPACE_BASE [] 0 0 (Some 5) k))
   | None => Panic
   end)
  = Ret (Some (NO_ERROR, Some 0, 0, [])).
Proof. vm_compute. reflexivity. Qed.

(** b. Hundred bytes written across a page boundary come back, on two
    pages. *)
Example scenario_write_read :
  (r ← @Write pc_platform KERNEL_ASPACE_BASE (replicate 100 65) 4090 100 (Some 0)
         (kernel_example 8192 [] [100; 101]);
   r' ← @Read pc_platform KERNEL_ASPACE_BASE (replicate 100 0) 4090 100 (Some 0) r.2;
   Ret (r'.1.2, @AllocatedPages r'.2))
  = Ret (replicate 100 65, 2).
Proof. vm_compute. reflexivity. Qed.

(** c. Three pages committed, the middle one decommitted. *)
Example scenario_commit_decommit :
  (r ← @CommitRange pc_platform 0 12288 (Some 0) (kernel_example 12288 [7] [100; 101; 102]);
   Ret (r.1.2, observe3 (@DecommitRange pc_platform 4096 4096 (Some 0) r.2)))
  = Ret (Some 12288,
         Some (NO_ERROR, Some 4096, 2,
               [EvPmmAllocPages 3 0 [100; 101; 102];
                EvUnmapVmoRange 7 4096 4096;
                EvPmmFree [101]])).
Proof. vm_compute. reflexivity. Qed.

(** d. An allocator with nothing to give. *)
Example scenario_commit_no_memory :
  observe3 (@CommitRange pc_platform 0 4096 (Some 7) (kernel_example 4096 [] []))
  = Some (ERR_NO_MEMORY, Some 0, 0, [EvPmmAllocPages 1 0 []; EvPmmFree []]).
Proof. vm_compute. reflexivity. Qed.

(** e. Shrinking an object written on both pages by a page leaves one
    page. *)
Example scenario_resize :
  (r ← @Write pc_platform KERNEL_ASPACE_BASE [1; 2] 4095 2 None
         (kernel_example 8192 [] [100; 101]);
   r' ← @Resize pc_platform 4096 r.2;
   Ret (r'.1, @AllocatedPages r'.2))
  = Ret (NO_ERROR, 1).
Proof. vm_compute. reflexivity. Qed.

(** f. Lookup before and after the page is committed. *)
Example scenario_lookup :
  (r ← @Lookup pc_platform 0 4096 4096 8 ∅ (kernel_example 4096 [] [100]);
   c ← @CommitRange pc_platform 0 4096 None (kernel_example 4096 [] [100]);
   r' ← @Lookup pc_platform 0 4096 4096 8 ∅ c.2;
   Ret (r.1.1, r'.1.1, r'.1.2 !! 4096))
  = Ret (ERR_NO_MEMORY, NO_ERROR, Some (100 * 4096)).
Proof. vm_compute. reflexivity. Qed.

(** ** The further properties at concrete inputs *)

Lemma pages_owned_once_decide (k : kernel) :
  bool_decide (NoDup (all_pages k)) = true → pages_owned_once k.
Proof. intros Hd. apply pages_owned_once_NoDup. by apply bool_decide_eq_true_1 in Hd. Qed.

Lemma pages_owned_once_three_pages : pages_owned_once kernel_three_pages.
Proof. apply pages_owned_once_decide. vm_compute. reflexivity. Qed.

Lemma Create_empty_object_witness :
  (∃ k', @Create pc_platform 0 8192 true (kernel_example 0 [] [100]) = Ret (Some k') ∧
         @AllocatedPages k' = 0 ∧ @vmo_read pc_platform k' 5000 = 0) ∧
  @Create pc_platform 0 8192 false (kernel_example 0 [] [100]) = Ret None.
Proof.
  split.
  - destruct (@Create_empty_object pc_platform pc_platform_ok 0 8192 true
                (kernel_example 0 [] [100])) as [_ Hok].
    + lia.
    + destruct Hok as (k' & Hrun & _ & _ & _ & _ & Hcount & _ & _ & _ & Hread).
      * simpl. lia.
      * reflexivity.
      * exists k'. split; [exact Hrun|]. split; [exact Hcount|apply Hread].
  - destruct (@Create_empty_object pc_platform pc_platform_ok 0 8192 false
                (kernel_example 0 [] [100])) as [Hnone _].
    + lia.
    + apply Hnone. right. reflexivity.
Defined.

Lemma CommitRange_installs_missing_witness :
  ∃ k',
    @CommitRange pc_platform 100 8000 (Some 5) (kernel_first_page [101; 103])
    = Ret (NO_ERROR, Some 4096, k') ∧
    page_list_ (vmo k') !! 4096 = Some 101 ∧
    free_list (pmm k') = [103] ∧
    @AllocatedPages k' = 2 ∧
    @vmo_byte pc_platform k' 5000 = Some 0.
Proof.
  destruct (@CommitRange_installs_missing pc_platform pc_platform_ok
              (kernel_first_page [101; 103]) 100 8000 8000 (Some 5))
    as (k' & Hrun & Hith & _ & _ & Hfree & Hcount & _ & Hzero & _).
  - unfold size_ok. simpl. lia.
  - lia.
  - lia.
  - reflexivity.
  - lia.
  - vm_compute. lia.
  - exists k'. split; [exact Hrun|].
    split; [apply (Hith 0%nat 4096); vm_compute; reflexivity|].
    split; [exact Hfree|]. split; [exact Hcount|].
    apply Hzero. apply (bool_decide_unpack _). vm_compute. exact I.
Defined.

Lemma CommitRangeContiguous_needs_empty_range_witness :
  @CommitRangeContiguous pc_platform 0 8192 (Some 5) 0 (kernel_first_page [101; 103]) = Panic ∧
  @CommitRangeContiguous pc_platform_debug 4196 5000 (Some 5) 0 (kernel_first_page [101; 103])
  = Panic ∧
  ∃ k',
    @CommitRangeContiguous pc_platform_debug 4096 4096 (Some 5) 0 (kernel_first_page [101; 103])
    = Ret (NO_ERROR, Some 4096, k') ∧
    page_list_ (vmo k') !! 4096 = Some 101.
Proof.
  split; [|split].
  - destruct (@CommitRangeContiguous_needs_empty_range pc_platform pc_platform_ok
                (kernel_first_page [101; 103]) 0 8192 8192 (Some 5) 0)
      as (_ & Hpanic & _).
    + unfold size_ok. simpl. lia.
    + lia.
    + lia.
    + reflexivity.
    + lia.
    + apply Hpanic; [vm_compute; lia|]. exists 0. split.
      * apply (bool_decide_unpack _). vm_compute. exact I.
      * exists 100. reflexivity.
  - destruct (@CommitRangeContiguous_needs_empty_range pc_platform_debug pc_platform_debug_ok
                (kernel_first_page [101; 103]) 4196 5000 3996 (Some 5) 0)
      as (Hdebug & _).
    + unfold size_ok. simpl. lia.
    + lia.
    + lia.
    + reflexivity.
    + lia.
    + apply Hdebug; [reflexivity|]. left. vm_compute. discriminate.
  - destruct (@CommitRangeContiguous_needs_empty_range pc_platform_debug pc_platform_debug_ok
                (kernel_first_page [101; 103]) 4096 4096 4096 (Some 5) 0)
      as (_ & _ & Hok).
    + unfold size_ok. simpl. lia.
    + lia.
    + lia.
    + reflexivity.
    + lia.
    + destruct Hok as (k' & Hrun & Hith & _).
      * vm_compute. lia.
      * apply Forall_forall. apply (bool_decide_unpack _). vm_compute. exact I.
      * right. split; reflexivity.
      * exists k'. split; [exact Hrun|]. apply (Hith 0%nat 4096). reflexivity.
Defined.

Lemma pages_conserved_until_destruction_witness :
  ∃ k',
    @run_calls pc_platform
      [CallCommitRange 0 12288 None;
       CallWrite KERNEL_ASPACE_BASE [1; 2; 3] 4095 3 None;
       CallDecommitRange 4096 4096 None;
       CallResize 100]
      (kernel_example 12288 [7] [100; 101; 102]) = Ret k' ∧
    @AllocatedPages k' = 1 ∧
    free_list (pmm (VmObjectPaged_destroy k')) ≡ₚ [100; 101; 102].
Proof.
  eexists. split; [vm_compute; reflexivity|]. split; [vm_compute; reflexivity|].
  refine (proj1 (proj2 (proj2
    (@pages_conserved_until_destruction pc_platform pc_platform_ok
       [CallCommitRange 0 12288 None;
        CallWrite KERNEL_ASPACE_BASE [1; 2; 3] 4095 3 None;
        CallDecommitRange 4096 4096 None;
        CallResize 100]
       (kernel_example 12288 [7] [100; 101; 102]) _ _ _ _ _)))).
  - repeat (apply Forall_cons; split;
            [split; [simpl; unfold is_u64, u64_modulus; lia|reflexivity]|]).
    apply Forall_nil. exact I.
  - unfold size_ok. simpl. lia.
  - apply page_list_inv_decide. vm_compute. reflexivity.
  - vm_compute. reflexivity.
Defined.

Lemma calls_keep_pages_owned_once_witness :
  ∃ k',
    @run_call pc_platform (CallWrite KERNEL_ASPACE_BASE [1; 2; 3] 4095 3 None)
      (kernel_first_page [101; 103]) = Ret k' ∧
    pages_owned_once k'.
Proof.
  eexists. split; [vm_compute; reflexivity|].
  apply (@calls_keep_pages_owned_once pc_platform pc_platform_ok
           (CallWrite KERNEL_ASPACE_BASE [1; 2; 3] 4095 3 None) (kernel_first_page [101; 103])).
  - simpl. unfold is_u64, u64_modulus. lia.
  - unfold size_ok. simpl. lia.
  - apply pages_owned_once_decide. vm_compute. reflexivity.
  - intros p offset Heq. discriminate Heq.
  - vm_compute. reflexivity.
Defined.

Lemma Read_returns_content_witness :
  ∃ k',
    @Read pc_platform KERNEL_ASPACE_BASE (replicate 10 7) 4090 10 (Some 88)
      (kernel_first_page [101; 103])
    = Ret (NO_ERROR, Some 10, replicate 10 0, k') ∧
    page_list_ (vmo k') !! 4096 = Some 101.
Proof.
  destruct (@Read_returns_content pc_platform pc_platform_ok
              (kernel_first_page [101; 103]) KERNEL_ASPACE_BASE 4090 10 (replicate 10 7)
              (Some 88))
    as (k' & Hrun & _ & _ & Hpres & _).
  - unfold size_ok. simpl. lia.
  - apply pages_owned_once_decide. vm_compute. reflexivity.
  - reflexivity.
  - lia.
  - lia.
  - simpl. lia.
  - reflexivity.
  - vm_compute. lia.
  - exists k'. split; [exact Hrun|].
    vm_compute in Hrun. injection Hrun as <-. reflexivity.
Defined.

Lemma Write_changes_range_only_witness :
  ∃ k',
    @Write pc_platform KERNEL_ASPACE_BASE [1; 2; 3; 4; 5; 6; 7; 8; 9; 10] 4090 10 (Some 77)
      (kernel_first_page [101; 103])
    = Ret (NO_ERROR, Some 10, [1; 2; 3; 4; 5; 6; 7; 8; 9; 10], k') ∧
    @vmo_read pc_platform k' 4096 = 7 ∧
    @vmo_read pc_platform k' 4100 = 0.
Proof.
  destruct (@Write_changes_range_only pc_platform pc_platform_ok
              (kernel_first_page [101; 103]) KERNEL_ASPACE_BASE 4090 10
              [1; 2; 3; 4; 5; 6; 7; 8; 9; 10] (Some 77))
    as (k' & Hrun & Hread & _).
  - unfold size_ok. simpl. lia.
  - apply pages_owned_once_decide. vm_compute. reflexivity.
  - reflexivity.
  - lia.
  - lia.
  - simpl. lia.
  - reflexivity.
  - vm_compute. lia.
  - exists k'. split; [exact Hrun|]. rewrite !Hread. split; reflexivity.
Defined.

Lemma DecommitRange_then_Read_zero_witness :
  ∃ d k1 k2,
    @DecommitRange pc_platform 4000 200 (Some 9) kernel_three_pages = Ret (NO_ERROR, d, k1) ∧
    @Read pc_platform KERNEL_ASPACE_BASE (replicate 200 7) 4000 200 None k1
    = Ret (NO_ERROR, None, replicate 200 0, k2) ∧
    @vmo_read pc_platform k2 0 = 0.
Proof.
  destruct (@DecommitRange_then_Read_zero pc_platform pc_platform_ok
              kernel_three_pages KERNEL_ASPACE_BASE 4000 200 (replicate 200 7) (Some 9) None)
    as (d & k1 & k2 & Hdec & Hread & Hzero).
  - exact size_ok_three_pages.
  - exact pages_owned_once_three_pages.
  - reflexivity.
  - lia.
  - lia.
  - simpl. lia.
  - reflexivity.
  - vm_compute. lia.
  - exists d, k1, k2. split; [exact Hdec|]. split; [exact Hread|].
    rewrite Hzero. reflexivity.
Defined.

Lemma Resize_shrink_then_grow_witness :
  ∃ k1 k2,
    @Resize pc_platform 5000 kernel_three_pages = Ret (NO_ERROR, k1) ∧
    @Resize pc_platform 12288 k1 = Ret (NO_ERROR, k2) ∧
    @vmo_read pc_platform k2 6000 = @vmo_read pc_platform kernel_three_pages 6000 ∧
    @vmo_read pc_platform k2 9000 = 0.
Proof.
  destruct (@Resize_shrink_then_grow pc_platform pc_platform_ok kernel_three_pages 5000)
    as (k1 & k2 & Hrun1 & Hrun2 & _ & _ & _ & Hread).
  - exact size_ok_three_pages.
  - exact page_list_inv_three_pages.
  - simpl. lia.
  - exists k1, k2. split; [exact Hrun1|]. split; [exact Hrun2|].
    rewrite !Hread by lia. split; reflexivity.
Defined.

Lemma DecommitRange_accounting_witness :
  ∃ d k',
    @DecommitRange pc_platform 4000 200 (Some 9) kernel_three_pages = Ret (NO_ERROR, Some d, k') ∧
    d = @PAGE_SIZE pc_platform * (@AllocatedPages kernel_three_pages - @AllocatedPages k').
Proof.
  eexists _, _. split; [vm_compute; reflexivity|].
  refine (proj1 (@DecommitRange_accounting pc_platform pc_platform_ok
                   kernel_three_pages _ 4000 200 9 _ _ _ _ _)).
  - exact size_ok_three_pages.
  - lia.
  - lia.
  - vm_compute. reflexivity.
Defined.


Lemma CreateFromROData_gives_up_witness :
  @CreateFromROData pc_platform pc_kernel_image (KERNEL_ASPACE_BASE + 16 * 4096) 100
    true kernel_image_example = Panic ∧
  @CreateFromROData pc_platform pc_kernel_image (KERNEL_ASPACE_BASE + 16 * 4096) 100
    false kernel_image_example = Ret None.
Proof.
  split.
  - destruct (@CreateFromROData_gives_up pc_platform pc_platform_ok pc_kernel_image
                (KERNEL_ASPACE_BASE + 16 * 4096) 100 true kernel_image_example)
      as (_ & _ & Hpanic & _).
    + lia.
    + apply Hpanic.
      * simpl. lia.
      * left. vm_compute. discriminate.
  - destruct (@CreateFromROData_gives_up pc_platform pc_platform_ok pc_kernel_image
                (KERNEL_ASPACE_BASE + 16 * 4096) 100 false kernel_image_example)
      as (Hnone & _).
    + lia.
    + apply Hnone. right. reflexivity.
Defined.

Lemma Lookup_checks_then_walks_witness :
  ∃ u',
    @Lookup pc_platform 0 12288 4096 24 ∅ kernel_three_pages
    = Ret (NO_ERROR, u', kernel_three_pages).
Proof.
  destruct (@Lookup_checks_then_walks pc_platform pc_platform_ok
              kernel_three_pages 0 12288 4096 24 ∅)
    as (_ & _ & _ & Hwalk).
  - exact size_ok_three_pages.
  - lia.
  - lia.
  - destruct Hwalk as (st & u' & Hrun & _ & Hst & _).
    + lia.
    + simpl. lia.
    + vm_compute. discriminate.
    + change (Z.of_nat (length (@range_pages pc_platform 0 12288))) with 3.
      intros i v u0 Hi. cbn [copy_to_user pc_platform sizeof_paddr].
      unfold user_range_ok.
      destruct (Z.leb_spec 0 (4096 + i * 8)); [|lia].
      destruct (Z.leb_spec (4096 + i * 8 + 8) 140737488355328); [reflexivity|lia].
    + exists u'. rewrite Hrun. destruct Hst as [_ Hst]. rewrite Hst; [reflexivity|].
      apply Forall_forall. apply (bool_decide_unpack _). vm_compute. exact I.
Defined.

Lemma ReadWriteInternal_copy_failure_witness :
  ∃ k2,
    @ReadUser pc_platform (0x800000000000 - 6) ∅ 4090 10 (Some 77) (kernel_first_page [101])
    = Ret (ERR_INVALID_ARGS, Some 6, @write_bytes (0x800000000000 - 6) (replicate 6 0) ∅, k2) ∧
    page_list_ (vmo k2) !! 4096 = Some 101.
Proof.
  eexists. split.
  - refine (proj1 (@ReadWriteInternal_copy_failure pc_platform pc_platform_ok (gmap Z Z)
                     (@read_user_routine pc_platform (0x800000000000 - 6)) false
                     4090 10 10 6 101 (Some 77) (Some 6) ∅ _ _
                     (kernel_first_page [101]) _ _ ERR_INVALID_ARGS _ _ _ _ _ _ _ _ _ _ _)).
    + unfold size_ok. simpl. lia.
    + lia.
    + lia.
    + reflexivity.
    + lia.
    + right. reflexivity.
    + vm_compute. reflexivity.
    + vm_compute. reflexivity.
    + vm_compute. reflexivity.
    + reflexivity.
  - vm_compute. reflexivity.
Defined.

Lemma sys_task_resume_outcomes_witness :
  @Exceptions.sys_task_resume Exceptions.example_dispatchers 2 3 []
  = (Exceptions.NO_ERROR,
     [Exceptions.CallMarkExceptionHandled 20 Exceptions.MX_EXCEPTION_STATUS_NOT_HANDLED]).
Proof.
  destruct (@sys_task_resume_outcomes Exceptions.example_dispatchers 2 3 []) as [_ Hok].
  - exists 0, 1. repeat split; lia.
  - lia.
  - destruct (Hok ltac:(vm_compute; repeat constructor) Exceptions.NO_ERROR
                (Some (Exceptions.ThreadDispatcher 20)) eq_refl) as [_ Hthread].
    destruct (Hthread eq_refl) as (_ & _ & Hboth). apply Hboth. reflexivity.
Defined.

Lemma sys_object_bind_exception_port_options_witness :
  @Exceptions.sys_object_bind_exception_port Exceptions.example_dispatchers 0 0 7 2 []
  = (Exceptions.ERR_INVALID_ARGS, []).
Proof.
  destruct (@sys_object_bind_exception_port_options Exceptions.example_dispatchers 0 0 7 2 [])
    as [Hunbind _].
  - exists 0, 1. repeat split; lia.
  - lia.
  - destruct (Hunbind eq_refl) as (_ & _ & Hsystem).
    destruct (Hsystem eq_refl) as [Hflag _]. apply Hflag. lia.
Defined.

Lemma AddPage_then_GetPageLocked_witness :
  fst (@AddPage pc_platform 105 5000 (kernel_first_page [101])) = NO_ERROR ∧
  @GetPageLocked pc_platform 4096
    (snd (@AddPage pc_platform 105 5000 (kernel_first_page [101]))) = Some 105 ∧
  @GetPageLocked pc_platform 100
    (snd (@AddPage pc_platform 105 5000 (kernel_first_page [101]))) = Some 100.
Proof.
  destruct (@AddPage_then_GetPageLocked pc_platform pc_platform_ok 105 5000
              (kernel_first_page [101]))
    as (_ & _ & _ & _ & Hget & _).
  split; [reflexivity|].
  split; rewrite Hget; reflexivity.
Defined.

Lemma FaultPageLocked_zero_fill_witness :
  fst (@FaultPageLocked pc_platform 5000 0 (kernel_first_page [101; 103])) = Some 101 ∧
  @vmo_byte pc_platform (snd (@FaultPageLocked pc_platform 5000 0 (kernel_first_page [101; 103])))
    4100 = Some 0 ∧
  @FaultPageLocked pc_platform 5000 1
    (snd (@FaultPageLocked pc_platform 5000 0 (kernel_first_page [101; 103])))
  = (Some 101, snd (@FaultPageLocked pc_platform 5000 0 (kernel_first_page [101; 103]))).
Proof.
  destruct (@FaultPageLocked_zero_fill pc_platform pc_platform_ok 5000 0 1
              (kernel_first_page [101; 103]))
    as (_ & Hpage & _).
  destruct (Hpage 101) as (_ & Hagain & Hnew); [reflexivity|].
  destruct Hnew as (_ & _ & _ & Hzero); [reflexivity|].
  split; [reflexivity|]. split; [apply Hzero; reflexivity|exact Hagain].
Defined.
